(* ===== verification/_CoqProject ===== *)
-Q . S2P
Prelude.v
CString.v
Jansson.v
Env.v
Id.v
Proto.v
Sink.v
Request.v
Peer.v
Record.v
Receipt.v
Rate.v
OpenSet.v
Broker.v
Reconstruct.v
Spec.v
Recovery.v
Live.v
Windows.v
Rotation.v
Ticks.v
Serve.v
Calm.v
Session.v
Demo.v
Retention.v
Refusal.v
Limits.v
Loops.v
Tables.v
Release.v
Guarantees.v
Findings.v
Reactor.v
Limiter.v
Receiver.v
Daemon.v
Exercise.v
Probe.v
Lifecycle.v
