(* ===== verification/Prelude.v ===== *)
(** * Verification of runix-audit-broker

    runix-audit-broker is a daemon that keeps an append-only audit log.  A client
    connects over a local socket, sends one framed JSON request and gets one
    answer: [open_intent] records that an operation is about to happen and hands
    out a correlation id, a secret binding and, for a privileged effect, a
    single-use receipt; the root helper redeems the receipt before it acts;
    [write_outcome] closes the intent; [emit] stores a record with no intent.
    The daemon identifies its peers by socket credentials, boot id and process
    start time, limits them, rotates its log without losing open intents and
    rebuilds its state from the log when it starts.

    ** The program's parts and the files that model them

    Shared ground:
    - Prelude.v: machine integers, byte strings, the state monad [M] with its
      weakest-precondition rules, tactics.
    - CString.v: decimal and hexadecimal text, [strtoull], [gmtime]/[strftime].
    - Jansson.v: the JSON library as a class of operations ([Jansson]) and of laws
      ([JanssonLaws]), with an instance of both ([BitJansson]).
    - Env.v: the environment as oracles ([env]): clocks, random bytes, boot id,
      free space, write results, allocations and system calls.  The [n]-th question
      is answered by the [n]-th entry; every theorem holds for all oracles unless
      it names a restriction ([steady], [calm], ...).

    One file per component of src/src/:
    - Id.v (id.c), Proto.v (proto.c), Peer.v (peer.c), Receipt.v (receipt.c, with
      SHA-256 as the class [Sha256]), Sink.v (sink.c over a file system [fsys] that
      distinguishes current from durable contents and directory entries),
      Request.v (json.c), Record.v (record.c).
    - broker.c and broker.h: Rate.v (configuration, per-uid rings, byte windows),
      OpenSet.v (three hash tables over shared nodes, as a heap and chains of
      pointers), Broker.v ([struct rab_broker], append, rotation, retention,
      receipts, the five handlers, the dispatcher), Reconstruct.v
      ([rab_broker_open], reading, replaying and repairing the segment), Release.v
      ([rab_broker_close] and the other functions that give memory back, over a set
      of live blocks in which freeing or reading a dead block is an error).
    - Reactor.v (main.c): configuration from arguments and environment variables,
      the listening socket, connection slots, the non-blocking receiver and sender,
      the attempt limiter, reaping, [poll] and dispatch, the main loop.

    And of src/tools/:
    - Exercise.v (rab-exercise.c): the client that opens a receipted operation, runs
      the privileged helper and writes the outcome.  Its socket and the helper
      process are the operations of the class [surroundings].
    - Probe.v (rab-probe.c): the activation probe, over the same class.

    Operations keep the names of the C functions.  A C function that returns
    through an out-parameter and a status returns an [option], a sum or a result
    type; a function that mutates the broker or the file system is a computation in
    [M sys] or [M world]; a long C function is split where it has a natural stage
    ([open_commit] is the part of [handle_open] after the ids are minted).

    ** The theorems

    - Specification and refinement.  Spec.v gives the meaning of a log as a finite
      map of open intents, and the charges it puts on each uid ([log_charges]).
      Recovery.v: reconstruction computes both.  Live.v: a running broker's memory is
      what its log replays to ([live]); each uid's window in its rate table is the
      recent end of the charges of the log, and its open count is exact ([books]).  Windows.v and Rotation.v: rotation keeps
      that, whichever step fails; of the rate windows it takes only the oldest
      entries.  Serve.v: [evolves] is the contract of one request, and every handler
      follows it.  Session.v lifts this to sequences of requests, restarts and power
      failures; Ticks.v: ticks only advance.  Guarantees.v states the results:
      sessions refine the contract, restarts and power failures lose nothing
      acknowledged, outcomes and redemptions are authorised and single-use, the
      poison flag holds.
    - Limits.  Limits.v: the open caps hold over whole sessions, and a restart leaves
      every uid at least as limited as it was before.  Retention.v: pruning removes
      the oldest archives and only as many as the bounds require.
    - Types and termination.  Tables.v: the indexes and the rate table stay well
      formed and in range in every reachable state, with no assumption on the
      environment.  Loops.v: the loops of the source as relations without a bound
      have exactly one run, which the fuelled definitions compute.  Release.v:
      closing a broker frees exactly what it allocated, once.
    - Progress.  Calm.v and Refusal.v: when the environment does not fail, every
      refusal has a cause in the request or the state it found.
    - The daemon.  Receiver.v: the non-blocking receiver and sender are the framing
      decoder and encoder.  Limiter.v: the attempt limiter.  Daemon.v: whatever the
      sockets and [poll] do, the loop only serves complete, parsed requests of
      identified peers in sequence, within its connection caps, and closes
      connections that stall.
    - The driver.  Lifecycle.v composes the client with the daemon ([daemon_side] is
      the instance of [surroundings] in which the broker answers, among requests of
      other peers and of the helper, and any exchange may be cut short): the reply
      schema the client insists on is the one the broker prints, and exit status 0
      means that the reported operation was opened, redeemed if its effect was
      issued, and closed.
    - Components.  Rate.v: window bounds over whole histories.  Record.v: what is
      written is read back.  Request.v: what the parser accepts and each error it
      gives.  Proto.v: framing round trips, short reads and absolute deadlines.
      Sink.v: appends are atomic on success and refused sinks stay untouched.
      Id.v, Peer.v: identifiers and identities.
    - Findings.v: concrete runs that end where the comments of the source do not
      expect them.
    - Demo.v holds the concrete environment, peers and requests the witnesses run.

    ** Bounds and fuel

    - Replay recurses on the rest of the buffer with the buffer's length as fuel:
      every round consumes at least one byte.  Ring eviction takes the entry count:
      every round drops an entry.  The sizing of hash tables doubles, at most as
      often as its cap has bits.  Loops.v proves each of these bounds enough.
    - Read and write loops recurse on the script of kernel answers; an exhausted
      script means end of file (reads) or that the kernel takes the rest (writes).
    - Token minting tries [RAB_RECEIPT_MINT_TRIES] times, as the source does.
    - The event loop runs for as many turns as the caller asks for, since the
      daemon itself does not terminate; the theorems hold for every number.
      A receiver or sender is driven for a number of polls greater than the number
      of EAGAIN answers of its socket.
    - Machine integers wrap at their C width wherever the source computes with them;
      [cfg_ok] asks that configuration values fit their C types.

    ** Assumptions that appear in theorems

    [steady]: removing a file and allocating an intent node do not fail (Findings.v
    shows what happens otherwise).  [distinct_mints] and [fresh_mints]: minted ids do
    not repeat.  [roomy]: there is memory for a new uid's entry (a replay that has none
    goes on without charging that uid).  [request_fits]: the request is as the parser and peer.c produce it
    and its record fits the recovery buffers (Findings.v shows what a longer one
    does).  [calm]: the environment does not fail.  [honest_sockets]: a client reads
    a prefix of what the daemon sent.  [JanssonLaws]: what the library documents of
    printing and parsing, among it that a text printed with sorted keys parses to
    an object with the same members.

    ** Not modelled

    - Clearing secrets with [explicit_bzero]: no buffer of the model is read before
      it is written.  Constant-time comparison: only its result is modelled.
    - Signal delivery other than its effect on the loop condition and interrupted
      calls; log messages on standard error.
    - The fuzz driver, which feeds bytes to the modelled frame reader and parser, the
      tests, the hooks only they call, and the packaging.
    - Jansson, OpenSSL, [SO_PEERCRED] and the kernel are parameters. *)

From stdpp Require Import base gmap strings list fin_maps sorting.
From Stdlib Require Import ZArith Lia.

Declare Scope rab_scope.
Delimit Scope rab_scope with rab.

(** ** Machine integers

    C's fixed-width integers are [Z] with the wrap-around written out. *)

Definition u8 (z : Z) : Z := z mod 2 ^ 8.
Definition u32 (z : Z) : Z := z mod 2 ^ 32.
Definition u64 (z : Z) : Z := z mod 2 ^ 64.
Definition i32 (z : Z) : Z := (z + 2 ^ 31) mod 2 ^ 32 - 2 ^ 31.

Definition ULLONG_MAX : Z := 18446744073709551615.
Definition INT_MAX : Z := 2147483647.

(** ** Bytes and C strings

    A NUL-terminated C string is a [string]; a raw buffer (a frame, a file's
    contents) is a list of bytes. *)

Abbreviation bytes := (list Ascii.ascii).

Definition bs (s : string) : bytes := String.list_ascii_of_string s.
Definition byte_val (c : Ascii.ascii) : Z := Z.of_N (Ascii.N_of_ascii c).
Definition byte_of (z : Z) : Ascii.ascii := Ascii.ascii_of_N (Z.to_N (u8 z)).
Definition strlen (s : string) : Z := Z.of_nat (String.length s).
Definition blen (b : bytes) : Z := Z.of_nat (length b).
Definition nl : Ascii.ascii := Ascii.ascii_of_nat 10.
Definition strcmp_eq (a b : string) : bool := String.eqb a b.
Definition is_empty (s : string) : bool := String.eqb s EmptyString.

(** [snprintf(dst, cap, "%s", s)]: the copy is cut to [cap - 1] characters. *)
Definition snprintf_s (cap : Z) (s : string) : string :=
  String.substring 0 (Z.to_nat (cap - 1)) s.

(** ** A state monad with its weakest precondition *)

Definition M (S A : Type) : Type := S → A * S.

Section Monad.
Context {S : Type}.
Definition mreturn {A} (a : A) : M S A := λ s, (a, s).
Definition mbnd {A B} (m : M S A) (k : A → M S B) : M S B :=
  λ s, let '(a, s') := m s in k a s'.
Definition mget : M S S := λ s, (s, s).
Definition mput (s : S) : M S unit := λ _, (tt, s).
Definition mmodify (f : S → S) : M S unit := λ s, (tt, f s).
Definition mgets {A} (f : S → A) : M S A := λ s, (f s, s).

(** [wp m Q s]: running [m] from [s] ends with a value and state in [Q]. *)
Definition wp {A} (m : M S A) (Q : A → S → Prop) (s : S) : Prop :=
  Q (m s).1 (m s).2.
End Monad.

Notation "'let!' x ':=' m 'in' k" := (mbnd m (fun x => k))
  (at level 10, x pattern, m at level 100, k at level 200,
   format "'let!'  x  ':='  m  'in' '//' k") : rab_scope.
Notation "m ';;;' k" := (mbnd m (fun _ => k))
  (at level 199, right associativity, format "m ';;;' '//' k") : rab_scope.

(** Failure propagation in a C function that returns early: an optional value,
    and a condition that must hold. *)
Notation "'let?' x ':=' m 'in' k" :=
  (match m with Some x => k | None => None end)
  (at level 10, x pattern, m at level 100, k at level 200,
   format "'let?'  x  ':='  m  'in' '//' k") : rab_scope.
Notation "'check!' b 'in' k" := (if b then k else None)
  (at level 10, b at level 100, k at level 200,
   format "'check!'  b  'in' '//' k") : rab_scope.

(** Run a computation on a part of a larger state. *)
Definition zoom {S T A} (view : T → S) (upd : T → S → T) (m : M S A) : M T A :=
  λ t, let '(a, s') := m (view t) in (a, upd t s').

Open Scope Z_scope.
Open Scope rab_scope.

Create HintDb rab.
Create Rewrite HintDb rab.

(** ** Tactics of the development *)

(** Split boolean conjunctions, turn boolean tests into propositions. *)
Ltac bool_hyps :=
  repeat match goal with
  | H : _ && _ = true |- _ => apply andb_true_iff in H; destruct H
  | H : _ || _ = false |- _ => apply orb_false_iff in H; destruct H
  | H : negb _ = true |- _ => apply negb_true_iff in H
  | H : negb _ = false |- _ => apply negb_false_iff in H
  | H : String.eqb _ _ = true |- _ => apply String.eqb_eq in H
  | H : String.eqb _ _ = false |- _ => apply String.eqb_neq in H
  | H : strcmp_eq _ _ = true |- _ => apply String.eqb_eq in H
  | H : strcmp_eq _ _ = false |- _ => apply String.eqb_neq in H
  | H : is_empty _ = true |- _ => apply String.eqb_eq in H
  | H : is_empty _ = false |- _ => apply String.eqb_neq in H
  | H : Z.eqb _ _ = true |- _ => apply Z.eqb_eq in H
  | H : Z.eqb _ _ = false |- _ => apply Z.eqb_neq in H
  | H : Z.ltb _ _ = true |- _ => apply Z.ltb_lt in H
  | H : Z.ltb _ _ = false |- _ => apply Z.ltb_ge in H
  | H : Z.leb _ _ = true |- _ => apply Z.leb_le in H
  | H : Z.leb _ _ = false |- _ => apply Z.leb_gt in H
  end.

(** Refute a false run result. *)
Ltac nope := let H := fresh in intros H; discriminate H.

(** Case on the scrutinee of the innermost [match]/[if] of the goal. *)
Ltac case_goal :=
  match goal with
  | |- context [match ?x with _ => _ end] =>
      lazymatch x with
      | context [match _ with _ => _ end] => fail
      | _ => destruct x eqn:?
      end
  end.

(** The same in a hypothesis. *)
Ltac case_hyp H :=
  match type of H with
  | context [match ?x with _ => _ end] =>
      lazymatch x with
      | context [match _ with _ => _ end] => fail
      | _ => destruct x eqn:?
      end
  end.

(** Break a successful nested-guard computation into its guards. *)
Ltac inv_guards H := repeat (case_hyp H; try discriminate H).

(** ** Weakest-precondition rules *)

Section MonadFacts.
Context {S : Type}.

Lemma wp_ret {A} (a : A) (Q : A → S → Prop) s : Q a s → wp (mreturn a) Q s.
Proof. done. Qed.

Lemma wp_bind {A B} (m : M S A) (k : A → M S B) Q s :
  wp m (λ a, wp (k a) Q) s → wp (mbnd m k) Q s.
Proof. unfold wp, mbnd. by destruct (m s). Qed.

Lemma wp_bind_inv {A B} (m : M S A) (k : A → M S B) Q s :
  wp (mbnd m k) Q s → wp m (λ a, wp (k a) Q) s.
Proof. unfold wp, mbnd. by destruct (m s). Qed.

Lemma wp_mono {A} (m : M S A) (P Q : A → S → Prop) s :
  wp m P s → (∀ a s', P a s' → Q a s') → wp m Q s.
Proof. unfold wp. eauto. Qed.

Lemma wp_get (Q : S → S → Prop) s : Q s s → wp mget Q s.
Proof. done. Qed.

Lemma wp_gets {A} (f : S → A) (Q : A → S → Prop) s : Q (f s) s → wp (mgets f) Q s.
Proof. done. Qed.

Lemma wp_modify (f : S → S) (Q : unit → S → Prop) s :
  Q tt (f s) → wp (mmodify f) Q s.
Proof. done. Qed.

Lemma mbnd_run {A B} (m : M S A) (k : A → M S B) s a s' :
  m s = (a, s') → mbnd m k s = k a s'.
Proof. unfold mbnd. by intros ->. Qed.
End MonadFacts.

(** ** Integer lemmas *)

Lemma u8_range z : 0 ≤ u8 z < 256.
Proof. unfold u8. change (2 ^ 8) with 256. apply Z.mod_pos_bound. lia. Qed.

Lemma u64_range z : 0 ≤ u64 z < 2 ^ 64.
Proof. unfold u64. apply Z.mod_pos_bound. lia. Qed.

Lemma u32_range z : 0 ≤ u32 z < 2 ^ 32.
Proof. unfold u32. apply Z.mod_pos_bound. lia. Qed.

Lemma u8_small z : 0 ≤ z < 256 → u8 z = z.
Proof. intros. unfold u8. change (2 ^ 8) with 256. by apply Z.mod_small. Qed.

Lemma u32_small z : 0 ≤ z < 2 ^ 32 → u32 z = z.
Proof. intros. unfold u32. by apply Z.mod_small. Qed.

Lemma u64_small z : 0 ≤ z < 2 ^ 64 → u64 z = z.
Proof. intros. unfold u64. by apply Z.mod_small. Qed.

Lemma i32_small z : - 2 ^ 31 ≤ z < 2 ^ 31 → i32 z = z.
Proof. intros. unfold i32. rewrite Z.mod_small; lia. Qed.

(** A bit-or of disjoint fields is their sum. *)
Lemma lor_disjoint_add a b k :
  0 ≤ k → 0 ≤ b < 2 ^ k → Z.lor (a * 2 ^ k) b = a * 2 ^ k + b.
Proof.
  intros Hk Hb. rewrite <- Z.shiftl_mul_pow2 by lia.
  assert (Hz : Z.land (Z.shiftl a k) b = 0).
  { apply Z.bits_inj'. intros n Hn. rewrite Z.land_spec, Z.bits_0.
    destruct (Z.lt_ge_cases n k).
    - by rewrite Z.shiftl_spec_low.
    - replace b with (b mod 2 ^ k) by (by apply Z.mod_small).
      by rewrite Z.mod_pow2_bits_high, andb_false_r by lia. }
  pose proof (Z.add_lor_land (Z.shiftl a k) b). lia.
Qed.

Lemma land_mask_mod a k : 0 ≤ k → Z.land a (2 ^ k - 1) = a mod 2 ^ k.
Proof. intros. rewrite <- Z.land_ones by lia. f_equal. rewrite Z.ones_equiv. lia. Qed.

(** ** Byte lemmas *)

Lemma byte_val_range c : 0 ≤ byte_val c < 256.
Proof. unfold byte_val. pose proof (Ascii.N_ascii_bounded c). lia. Qed.

Lemma byte_val_of z : byte_val (byte_of z) = u8 z.
Proof.
  unfold byte_val, byte_of. pose proof (u8_range z).
  rewrite Ascii.N_ascii_embedding by lia. by rewrite Z2N.id by lia.
Qed.

Lemma byte_of_val c : byte_of (byte_val c) = c.
Proof.
  unfold byte_of. rewrite u8_small by apply byte_val_range.
  unfold byte_val. rewrite N2Z.id. apply Ascii.ascii_N_embedding.
Qed.

Lemma bs_app s t : bs (s +:+ t) = bs s ++ bs t.
Proof. induction s as [|c s IH]; simpl; [done|]. by rewrite IH. Qed.

Lemma bs_length s : length (bs s) = String.length s.
Proof. induction s as [|c s IH]; simpl; [done|]. by rewrite IH. Qed.

Lemma bs_inj s t : bs s = bs t → s = t.
Proof.
  intros H. rewrite <- (String.string_of_list_ascii_of_string s).
  rewrite <- (String.string_of_list_ascii_of_string t).
  unfold bs in H. by rewrite H.
Qed.

Lemma string_length_app s t :
  String.length (s +:+ t) = (String.length s + String.length t)%nat.
Proof. by rewrite <- !bs_length, bs_app, length_app. Qed.

Lemma string_app_nil_r (s : string) : s +:+ EmptyString = s.
Proof. apply bs_inj. by rewrite bs_app, app_nil_r. Qed.

Lemma string_app_assoc (s t u : string) : s +:+ t +:+ u = (s +:+ t) +:+ u.
Proof. apply bs_inj. by rewrite !bs_app, app_assoc. Qed.

Lemma strlen_app s t : strlen (s +:+ t) = strlen s + strlen t.
Proof. unfold strlen. rewrite string_length_app. lia. Qed.

Lemma strlen_nonneg s : 0 ≤ strlen s.
Proof. unfold strlen. lia. Qed.

Lemma substring_full n s : (String.length s ≤ n)%nat → String.substring 0 n s = s.
Proof.
  revert n. induction s as [|c s IH]; intros [|n] H; simpl in *; try done; try lia.
  f_equal. apply IH. lia.
Qed.

Lemma substring_length_le n s : (String.length (String.substring 0 n s) ≤ n)%nat.
Proof.
  revert n. induction s as [|c s IH]; intros [|n]; simpl; try lia.
  specialize (IH n). lia.
Qed.

Lemma snprintf_s_fits cap s : strlen s < cap → snprintf_s cap s = s.
Proof. unfold snprintf_s, strlen. intros. apply substring_full. lia. Qed.

Lemma snprintf_s_bound cap s : 0 < cap → strlen (snprintf_s cap s) < cap.
Proof.
  unfold snprintf_s, strlen. intros.
  pose proof (substring_length_le (Z.to_nat (cap - 1)) s). lia.
Qed.

#[export] Hint Resolve strlen_nonneg byte_val_range : rab.
#[export] Hint Rewrite byte_val_of byte_of_val bs_app bs_length : rab.
