(* ===== verification/CString.v ===== *)
(** * C text routines

    Decimal and hexadecimal text as the C code writes and reads it: the
    [%llu]/[%020llu] conversions, [strtoull], the digit and lowercase-hex
    grammar checks of json.c, record.c and broker.c, the hex coders of id.c and
    broker.c, and [gmtime_r]/[strftime] for the one format used. *)

From stdpp Require Import base gmap strings list.
From Stdlib Require Import ZArith Lia Ascii.
From S2P Require Import Prelude.

(** ** Characters *)

Definition is_digit (c : ascii) : bool :=
  (48 <=? byte_val c) && (byte_val c <=? 57).

Definition is_hex_lc (c : ascii) : bool :=
  is_digit c || ((97 <=? byte_val c) && (byte_val c <=? 102)).

(** C's [isspace] in the "C" locale. *)
Definition is_space (c : ascii) : bool :=
  (byte_val c =? 32) || ((9 <=? byte_val c) && (byte_val c <=? 13)).

Fixpoint string_forallb (p : ascii → bool) (s : string) : bool :=
  match s with
  | EmptyString => true
  | String c s' => p c && string_forallb p s'
  end.

(** ** Decimal printing *)

Definition digit_char (d : Z) : ascii := byte_of (48 + d).

(** The digits of [n], most significant first, onto [acc]; [fuel] bounds the
    number of digits. *)
Fixpoint dec_digits (fuel : nat) (n : Z) (acc : string) : string :=
  match fuel with
  | O => acc
  | S fuel' =>
      let acc' := String (digit_char (n mod 10)) acc in
      if n / 10 =? 0 then acc' else dec_digits fuel' (n / 10) acc'
  end.

(** [snprintf("%llu", n)]: a number below [2^(k+1)] has at most [k+1] digits. *)
Definition print_u (n : Z) : string :=
  dec_digits (S (Z.to_nat (Z.log2 n))) n EmptyString.

(** [snprintf("%ld", n)] *)
Definition print_d (n : Z) : string :=
  if n <? 0 then String "-" (print_u (- n)) else print_u n.

Fixpoint zeros (n : nat) : string :=
  match n with O => EmptyString | S n' => String "0" (zeros n') end.

(** [snprintf("%0<w>llu", n)] *)
Definition print_u_pad (w : nat) (n : Z) : string :=
  zeros (w - String.length (print_u n)) +:+ print_u n.

(** ** Decimal parsing *)

(** The maximal digit prefix: its value (unbounded), whether there was a
    digit, and the rest. *)
Fixpoint scan_digits (s : string) (acc : Z) (any : bool) : Z * bool * string :=
  match s with
  | String c s' =>
      if is_digit c then scan_digits s' (acc * 10 + (byte_val c - 48)) true
      else (acc, any, s)
  | EmptyString => (acc, any, s)
  end.

Fixpoint skip_spaces (s : string) : string :=
  match s with
  | String c s' => if is_space c then skip_spaces s' else s
  | EmptyString => s
  end.

Record strto_result := StrTo {
  st_value : Z;      (* the converted value *)
  st_erange : bool;  (* errno = ERANGE *)
  st_nodigits : bool; (* end = s: nothing was converted *)
  st_end : string    (* *end *)
}.

Definition scan_sign (s : string) : bool * string :=
  match s with
  | String "-" s' => (true, s')
  | String "+" s' => (false, s')
  | _ => (false, s)
  end.

(** [strtoull(s, &end, 10)] *)
Definition strtoull (s : string) : strto_result :=
  let '(neg, s1) := scan_sign (skip_spaces s) in
  let '(v, any, rest) := scan_digits s1 0 false in
  if negb any then StrTo 0 false true s
  else if ULLONG_MAX <? v then StrTo ULLONG_MAX true false rest
  else StrTo (if neg then u64 (- v) else v) false false rest.

(** [strtol(s, &end, 10)] on a 64-bit [long] *)
Definition strtol (s : string) : strto_result :=
  let '(neg, s1) := scan_sign (skip_spaces s) in
  let '(v, any, rest) := scan_digits s1 0 false in
  if negb any then StrTo 0 false true s
  else if neg then
    if 2 ^ 63 <? v then StrTo (- 2 ^ 63) true false rest else StrTo (- v) false false rest
  else if 2 ^ 63 - 1 <? v then StrTo (2 ^ 63 - 1) true false rest
  else StrTo v false false rest.

(** ** Hexadecimal *)

Definition hex_char (d : Z) : ascii :=
  if d <? 10 then byte_of (48 + d) else byte_of (87 + d).

(** id.c [to_hex]: two lowercase digits per byte. *)
Fixpoint to_hex (b : bytes) : string :=
  match b with
  | [] => EmptyString
  | c :: b' =>
      String (hex_char (Z.shiftr (byte_val c) 4))
        (String (hex_char (Z.land (byte_val c) 15)) (to_hex b'))
  end.

(** broker.c [hexval] *)
Definition hexval (c : ascii) : Z :=
  if is_digit c then byte_val c - 48
  else if (97 <=? byte_val c) && (byte_val c <=? 102) then byte_val c - 97 + 10
  else -1.

(** broker.c [hex_decode]: exactly [2 * n] characters; a string that ends
    early has its NUL read as a non-digit. *)
Fixpoint hex_decode (s : string) (n : nat) : option bytes :=
  match n with
  | O => Some []
  | S n' =>
      match s with
      | String h (String l s') =>
          if (hexval h <? 0) || (hexval l <? 0) then None
          else match hex_decode s' n' with
               | Some b => Some (byte_of (Z.lor (Z.shiftl (hexval h) 4) (hexval l)) :: b)
               | None => None
               end
      | _ => None
      end
  end.

(** json.c [is_hex_lc_n]: exactly [n] lowercase-hex characters, then NUL. *)
Fixpoint is_hex_lc_n (s : string) (n : nat) : bool :=
  match n, s with
  | O, EmptyString => true
  | O, String _ _ => false
  | S _, EmptyString => false
  | S n', String c s' => is_hex_lc c && is_hex_lc_n s' n'
  end.

(** ** Calendar time *)

Record tm := Tm {
  tm_year : Z; tm_mon : Z; tm_mday : Z; tm_hour : Z; tm_min : Z; tm_sec : Z
}.

(** The proleptic Gregorian date of a day number (days since 1970-01-01). *)
Definition civil_from_days (days : Z) : Z * Z * Z :=
  let z := days + 719468 in
  let era := z / 146097 in
  let doe := z - era * 146097 in
  let yoe := (doe - doe / 1460 + doe / 36524 - doe / 146096) / 365 in
  let doy := doe - (365 * yoe + yoe / 4 - yoe / 100) in
  let mp := (5 * doy + 2) / 153 in
  let d := doy - (153 * mp + 2) / 5 + 1 in
  let m := if mp <? 10 then mp + 3 else mp - 9 in
  (yoe + era * 400 + (if m <=? 2 then 1 else 0), m, d).

Definition gmtime (secs : Z) : tm :=
  let days := secs / 86400 in
  let rem := secs mod 86400 in
  let '(y, m, d) := civil_from_days days in
  Tm y m d (rem / 3600) (rem / 60 mod 60) (rem mod 60).

Definition print2 (n : Z) : string := print_u_pad 2 n.

(** [strftime("%Y-%m-%dT%H:%M:%SZ")] *)
Definition strftime_rfc3339 (t : tm) : string :=
  print_u (tm_year t) +:+ "-" +:+ print2 (tm_mon t) +:+ "-" +:+ print2 (tm_mday t)
  +:+ "T" +:+ print2 (tm_hour t) +:+ ":" +:+ print2 (tm_min t) +:+ ":"
  +:+ print2 (tm_sec t) +:+ "Z".

(** ** Facts: characters and [forallb] *)

Lemma string_forallb_app p s t :
  string_forallb p (s +:+ t) = string_forallb p s && string_forallb p t.
Proof. induction s as [|c s IH]; simpl; [done|]. by rewrite IH, andb_assoc. Qed.

Lemma string_forallb_bs p s : string_forallb p s = forallb p (bs s).
Proof. induction s as [|c s IH]; simpl; [done|]. by rewrite IH. Qed.

Lemma string_forallb_impl (p q : ascii → bool) s :
  (∀ c, p c = true → q c = true) →
  string_forallb p s = true → string_forallb q s = true.
Proof.
  intros Hpq. induction s as [|c s IH]; simpl; [done|].
  intros H. bool_hyps. apply andb_true_iff. split; auto.
Qed.

Lemma digit_char_val d : 0 ≤ d < 10 → byte_val (digit_char d) = 48 + d.
Proof. intros. unfold digit_char. rewrite byte_val_of, u8_small; lia. Qed.

Lemma digit_char_is_digit d : 0 ≤ d < 10 → is_digit (digit_char d) = true.
Proof. intros. unfold is_digit. rewrite digit_char_val by done. lia. Qed.

Lemma hex_char_val d :
  0 ≤ d < 16 → byte_val (hex_char d) = if d <? 10 then 48 + d else 87 + d.
Proof. intros. unfold hex_char. case_goal; rewrite byte_val_of, u8_small; lia. Qed.

Lemma hex_char_is_hex d : 0 ≤ d < 16 → is_hex_lc (hex_char d) = true.
Proof.
  intros. unfold is_hex_lc, is_digit. rewrite hex_char_val by done.
  destruct (d <? 10) eqn:E; bool_hyps; lia.
Qed.

Lemma hexval_hex_char d : 0 ≤ d < 16 → hexval (hex_char d) = d.
Proof.
  intros. unfold hexval, is_digit. rewrite hex_char_val by done.
  destruct (d <? 10) eqn:E; bool_hyps.
  - rewrite (proj2 (Z.leb_le _ _)), (proj2 (Z.leb_le _ _)) by lia. simpl. lia.
  - rewrite (proj2 (Z.leb_gt (87 + d) 57)) by lia. rewrite andb_false_r.
    rewrite (proj2 (Z.leb_le _ _)), (proj2 (Z.leb_le _ _)) by lia. simpl. lia.
Qed.

(** ** Facts: decimal round trip *)

Lemma scan_digits_stop s acc any c rest :
  is_digit c = false → s = String c rest →
  scan_digits s acc any = (acc, any, s).
Proof. intros Hc ->. simpl. by rewrite Hc. Qed.

Lemma scan_digits_nonneg s acc any : 0 ≤ acc → 0 ≤ fst (fst (scan_digits s acc any)).
Proof.
  revert acc any. induction s as [|c s IH]; intros acc any Ha; simpl; [done|].
  destruct (is_digit c) eqn:Hd; [|done]. apply IH. unfold is_digit in Hd. bool_hyps. lia.
Qed.

Lemma scan_dec_digits fuel n acc a any :
  0 ≤ n → n < 10 ^ Z.of_nat fuel → (0 < fuel)%nat →
  ∃ w, 0 ≤ w ∧ n < 10 ^ w ∧
    scan_digits (dec_digits fuel n acc) a any =
    scan_digits acc (a * 10 ^ w + n) true.
Proof.
  revert n acc a any. induction fuel as [|fuel IH]; intros n acc a any Hn Hlt Hf; [lia|].
  cbn [dec_digits].
  assert (Hd : 0 ≤ n mod 10 < 10) by (apply Z.mod_pos_bound; lia).
  pose proof (Z.div_mod n 10 ltac:(lia)) as Hdm.
  assert (Hstep : ∀ x y, scan_digits (String (digit_char (n mod 10)) acc) x y
                    = scan_digits acc (x * 10 + n mod 10) true).
  { intros. simpl. rewrite digit_char_is_digit, digit_char_val by done.
    do 2 f_equal. lia. }
  destruct (n / 10 =? 0) eqn:E; bool_hyps.
  - exists 1. split; [lia|]. split; [change (10 ^ 1) with 10; lia|].
    rewrite Hstep. change (10 ^ 1) with 10.
    do 2 f_equal. lia.
  - destruct fuel as [|fuel]; [exfalso; change (10 ^ Z.of_nat 1) with 10 in Hlt; lia|].
    destruct (IH (n / 10) (String (digit_char (n mod 10)) acc) a any)
      as (w & Hw & Hwn & Heq).
    + apply Z.div_pos; lia.
    + rewrite Nat2Z.inj_succ, Z.pow_succ_r in Hlt by lia.
      apply Z.div_lt_upper_bound; lia.
    + lia.
    + exists (w + 1). split; [lia|].
      rewrite Z.pow_add_r, Z.pow_1_r by lia. split; [lia|].
      rewrite Heq, Hstep. f_equal. lia.
Qed.

Lemma log2_dec_fuel n : 0 ≤ n → n < 10 ^ Z.of_nat (S (Z.to_nat (Z.log2 n))).
Proof.
  intros. rewrite Nat2Z.inj_succ, Z2Nat.id by apply Z.log2_nonneg.
  destruct (Z.eq_dec n 0) as [->|]; [done|].
  pose proof (Z.log2_spec n ltac:(lia)) as [_ Hlt].
  eapply Z.lt_le_trans; [exact Hlt|].
  apply Z.pow_le_mono_l. pose proof (Z.log2_nonneg n). lia.
Qed.

Lemma scan_print_u n s any a :
  0 ≤ n → ∃ w, 0 ≤ w ∧ scan_digits (print_u n +:+ s) a any = scan_digits s (a * 10 ^ w + n) true.
Proof.
  intros Hn. unfold print_u.
  assert (Happ : ∀ fuel m acc t, dec_digits fuel m acc +:+ t = dec_digits fuel m (acc +:+ t)).
  { induction fuel as [|fuel IH]; intros; cbn [dec_digits]; [done|].
    case_goal; [done|]. by rewrite IH. }
  rewrite Happ. change (EmptyString +:+ s) with s.
  destruct (scan_dec_digits (S (Z.to_nat (Z.log2 n))) n s a any)
    as (w & Hw & _ & Heq); [done|by apply log2_dec_fuel|lia|].
  exists w. by rewrite Heq.
Qed.

Lemma scan_print_u_end n : 0 ≤ n → scan_digits (print_u n) 0 false = (n, true, EmptyString).
Proof.
  intros. destruct (scan_print_u n EmptyString false 0) as (w & Hw & Heq); [done|].
  rewrite string_app_nil_r in Heq. rewrite Heq. simpl. done.
Qed.

Lemma dec_digits_digits fuel n acc :
  0 ≤ n → string_forallb is_digit acc = true →
  string_forallb is_digit (dec_digits fuel n acc) = true.
Proof.
  revert n acc. induction fuel as [|fuel IH]; intros n acc Hn Hacc; cbn [dec_digits]; [done|].
  assert (0 ≤ n mod 10 < 10) by (apply Z.mod_pos_bound; lia).
  assert (string_forallb is_digit (String (digit_char (n mod 10)) acc) = true).
  { simpl. by rewrite digit_char_is_digit, Hacc. }
  case_goal; [done|]. apply IH; [|done]. apply Z.div_pos; lia.
Qed.

Lemma print_u_digits n : 0 ≤ n → string_forallb is_digit (print_u n) = true.
Proof. intros. by apply dec_digits_digits. Qed.

Lemma dec_digits_head fuel n acc :
  0 ≤ n → ∃ d r, dec_digits (S fuel) n acc = String (digit_char d) r ∧ 0 ≤ d < 10.
Proof.
  revert n acc. induction fuel as [|fuel IH]; intros n acc Hn.
  - cbn [dec_digits]. assert (0 ≤ n mod 10 < 10) by (apply Z.mod_pos_bound; lia).
    case_goal; eauto.
  - remember (S fuel) as f eqn:Ef. cbn [dec_digits].
    assert (0 ≤ n mod 10 < 10) by (apply Z.mod_pos_bound; lia).
    case_goal; [eauto|]. subst f. apply IH. apply Z.div_pos; lia.
Qed.

Lemma print_u_head n : 0 ≤ n → ∃ d r, print_u n = String (digit_char d) r ∧ 0 ≤ d < 10.
Proof. intros. by apply dec_digits_head. Qed.

(** [strtoull] of a printed in-range number is that number, fully consumed. *)
Lemma strtoull_print_u n :
  0 ≤ n ≤ ULLONG_MAX → strtoull (print_u n) = StrTo n false false EmptyString.
Proof.
  intros Hn. pose proof (scan_print_u_end n ltac:(lia)) as Hs.
  destruct (print_u_head n ltac:(lia)) as (d & r & Hp & Hd).
  unfold strtoull.
  assert (Hskip : skip_spaces (print_u n) = print_u n).
  { rewrite Hp. simpl. unfold is_space. rewrite digit_char_val by done.
    destruct (48 + d =? 32) eqn:E1, (9 <=? 48 + d) eqn:E2, (48 + d <=? 13) eqn:E3;
      bool_hyps; simpl; done || lia. }
  assert (Hsign : scan_sign (print_u n) = (false, print_u n)).
  { rewrite Hp.
    assert (d = 0 ∨ d = 1 ∨ d = 2 ∨ d = 3 ∨ d = 4 ∨ d = 5 ∨ d = 6 ∨ d = 7 ∨ d = 8 ∨ d = 9)
      as Hcases by lia.
    by destruct_or! Hcases; subst d. }
  rewrite Hskip, Hsign, Hs. simpl.
  rewrite (proj2 (Z.ltb_ge _ _)) by lia. done.
Qed.

(** ** Facts: hexadecimal *)

Lemma nibbles c :
  0 ≤ Z.shiftr (byte_val c) 4 < 16 ∧ 0 ≤ Z.land (byte_val c) 15 < 16 ∧
  Z.lor (Z.shiftl (Z.shiftr (byte_val c) 4) 4) (Z.land (byte_val c) 15) = byte_val c.
Proof.
  pose proof (byte_val_range c) as Hr.
  assert (Hland : Z.land (byte_val c) 15 = byte_val c mod 16)
    by (change 15 with (Z.ones 4); by rewrite Z.land_ones).
  pose proof (Z.mod_pos_bound (byte_val c) 16 ltac:(lia)).
  split_and!; try lia.
  - rewrite Z.shiftr_div_pow2 by lia. apply Z.div_pos; lia.
  - rewrite Z.shiftr_div_pow2 by lia. apply Z.div_lt_upper_bound; lia.
  - rewrite Z.shiftl_mul_pow2, Z.shiftr_div_pow2 by lia. rewrite Hland.
    change 16 with (2 ^ 4). rewrite lor_disjoint_add by (try apply Z.mod_pos_bound; lia).
    pose proof (Z.div_mod (byte_val c) (2 ^ 4) ltac:(lia)). lia.
Qed.

Lemma to_hex_grammar b : is_hex_lc_n (to_hex b) (2 * length b) = true.
Proof.
  induction b as [|c b IH]; [done|].
  replace (2 * length (c :: b))%nat with (S (S (2 * length b))) by (simpl; lia).
  cbn [to_hex is_hex_lc_n]. destruct (nibbles c) as (? & ? & _).
  by rewrite !hex_char_is_hex, IH.
Qed.

Lemma is_hex_lc_n_length s n : is_hex_lc_n s n = true → String.length s = n.
Proof.
  revert n. induction s as [|c s IH]; intros [|n]; simpl; try done.
  intros H. bool_hyps. f_equal. auto.
Qed.

Lemma is_hex_lc_n_chars s n : is_hex_lc_n s n = true → string_forallb is_hex_lc s = true.
Proof.
  revert n. induction s as [|c s IH]; intros [|n]; simpl; try done.
  intros H. bool_hyps. apply andb_true_iff. eauto.
Qed.

Lemma hex_decode_to_hex b : hex_decode (to_hex b) (length b) = Some b.
Proof.
  induction b as [|c b IH]; [done|]. cbn [to_hex hex_decode length].
  destruct (nibbles c) as (H1 & H2 & H3).
  rewrite !hexval_hex_char by done.
  rewrite (proj2 (Z.ltb_ge _ 0)), (proj2 (Z.ltb_ge _ 0)) by lia. simpl.
  by rewrite IH, H3, byte_of_val.
Qed.

Lemma to_hex_inj a b : length a = length b → to_hex a = to_hex b → a = b.
Proof.
  intros Hl Heq. pose proof (hex_decode_to_hex a) as Ha.
  rewrite Heq, Hl, hex_decode_to_hex in Ha. congruence.
Qed.

Lemma to_hex_length b : String.length (to_hex b) = (2 * length b)%nat.
Proof. apply is_hex_lc_n_length, to_hex_grammar. Qed.

(** ** Facts: fixed-width decimals sort as numbers *)

Fixpoint dec_value (acc : Z) (s : string) : Z :=
  match s with
  | EmptyString => acc
  | String c s' => dec_value (acc * 10 + (byte_val c - 48)) s'
  end.

Lemma dec_value_scan s acc any :
  string_forallb is_digit s = true → s ≠ EmptyString →
  scan_digits s acc any = (dec_value acc s, true, EmptyString).
Proof.
  revert acc any. induction s as [|c s IH]; intros acc any Hd Hne; [done|].
  simpl in *. bool_hyps. rewrite H.
  destruct s as [|c' s']; [done|]. by apply IH.
Qed.

Lemma dec_value_bounds s acc :
  string_forallb is_digit s = true →
  acc * 10 ^ strlen s ≤ dec_value acc s < (acc + 1) * 10 ^ strlen s.
Proof.
  revert acc. induction s as [|c s IH]; intros acc Hd.
  - simpl. change (strlen "") with 0. lia.
  - simpl in Hd. bool_hyps. unfold is_digit in H. bool_hyps.
    change (strlen (String c s)) with (Z.of_nat (S (String.length s))).
    rewrite Nat2Z.inj_succ. fold (strlen s). rewrite Z.pow_succ_r by apply strlen_nonneg.
    simpl. specialize (IH (acc * 10 + (byte_val c - 48)) H0).
    assert (0 < 10 ^ strlen s) by (apply Z.pow_pos_nonneg; [lia|apply strlen_nonneg]).
    nia.
Qed.

Lemma dec_value_compare s t a :
  String.length s = String.length t →
  string_forallb is_digit s = true → string_forallb is_digit t = true →
  String.compare s t = Z.compare (dec_value a s) (dec_value a t).
Proof.
  revert t a. induction s as [|c s IH]; intros [|d t] a Hl Hs Ht; try discriminate Hl.
  - simpl. by rewrite Z.compare_refl.
  - injection Hl as Hl. simpl in Hs, Ht. bool_hyps.
    pose proof (dec_value_bounds s (a * 10 + (byte_val c - 48)) H2) as Bs.
    pose proof (dec_value_bounds t (a * 10 + (byte_val d - 48)) H0) as Bt.
    unfold strlen in Bs, Bt. rewrite Hl in Bs.
    assert (0 < 10 ^ Z.of_nat (String.length t)) by (apply Z.pow_pos_nonneg; lia).
    simpl. unfold Ascii.compare.
    destruct (N.compare_spec (N_of_ascii c) (N_of_ascii d)) as [E|E|E].
    + replace (byte_val d) with (byte_val c) by (unfold byte_val; lia). by apply IH.
    + symmetry. apply Z.compare_lt_iff. unfold byte_val in *. nia.
    + symmetry. apply Z.compare_gt_iff. unfold byte_val in *. nia.
Qed.

Lemma dec_value_zeros n s : dec_value 0 (zeros n +:+ s) = dec_value 0 s.
Proof. induction n as [|n IH]; [done|]. simpl. exact IH. Qed.

Lemma zeros_digits n : string_forallb is_digit (zeros n) = true.
Proof. by induction n. Qed.

Lemma zeros_length n : String.length (zeros n) = n.
Proof. induction n; simpl; congruence. Qed.

Lemma dec_digits_length fuel n acc w :
  0 ≤ n → n < 10 ^ Z.of_nat (S w) →
  (String.length (dec_digits fuel n acc) ≤ S w + String.length acc)%nat.
Proof.
  revert n acc w. induction fuel as [|fuel IH]; intros n acc w Hn Hlt; cbn [dec_digits]; [lia|].
  destruct (n / 10 =? 0) eqn:E; [simpl; lia|]. bool_hyps.
  pose proof (Z.div_mod n 10 ltac:(lia)).
  pose proof (Z.mod_pos_bound n 10 ltac:(lia)).
  destruct w as [|w]; [change (10 ^ Z.of_nat 1) with 10 in Hlt; lia|].
  rewrite Nat2Z.inj_succ, Z.pow_succ_r in Hlt by lia.
  specialize (IH (n / 10) (String (digit_char (n mod 10)) acc) w).
  simpl String.length in IH. lia.
Qed.

Lemma print_u_length n w :
  0 ≤ n → n < 10 ^ Z.of_nat w → (0 < w)%nat → (String.length (print_u n) ≤ w)%nat.
Proof.
  intros Hn Hlt Hw. destruct w as [|w]; [lia|].
  pose proof (dec_digits_length (S (Z.to_nat (Z.log2 n))) n EmptyString w Hn Hlt) as H.
  change (String.length EmptyString) with 0%nat in H. unfold print_u. lia.
Qed.

Lemma print_u_pad_length n w :
  0 ≤ n → n < 10 ^ Z.of_nat w → (0 < w)%nat → String.length (print_u_pad w n) = w.
Proof.
  intros. unfold print_u_pad. rewrite string_length_app, zeros_length.
  pose proof (print_u_length n w ltac:(done) ltac:(done) ltac:(done)). lia.
Qed.

Lemma print_u_pad_digits n w :
  0 ≤ n → string_forallb is_digit (print_u_pad w n) = true.
Proof.
  intros. unfold print_u_pad. rewrite string_forallb_app, zeros_digits.
  by apply print_u_digits.
Qed.

Lemma print_u_value n : 0 ≤ n → dec_value 0 (print_u n) = n.
Proof.
  intros. pose proof (scan_print_u_end n ltac:(lia)) as Hs.
  rewrite dec_value_scan in Hs; [congruence|by apply print_u_digits|].
  destruct (print_u_head n) as (? & ? & -> & _); done.
Qed.

Lemma print_u_inj n m : 0 ≤ n → 0 ≤ m → print_u n = print_u m → n = m.
Proof. intros Hn Hm H. rewrite <- (print_u_value n), <- (print_u_value m); congruence. Qed.

(** Zero-padded numbers of one width compare as strings the way they compare
    as numbers. *)
Lemma print_u_pad_compare n m w :
  0 ≤ n < 10 ^ Z.of_nat w → 0 ≤ m < 10 ^ Z.of_nat w → (0 < w)%nat →
  String.compare (print_u_pad w n) (print_u_pad w m) = Z.compare n m.
Proof.
  intros. rewrite (dec_value_compare _ _ 0).
  - unfold print_u_pad. by rewrite !dec_value_zeros, !print_u_value by lia.
  - rewrite !print_u_pad_length; lia.
  - apply print_u_pad_digits; lia.
  - apply print_u_pad_digits; lia.
Qed.

Lemma string_compare_app_neq s t u v :
  String.length s = String.length t → String.compare s t ≠ Eq →
  String.compare (s +:+ u) (t +:+ v) = String.compare s t.
Proof.
  revert t. induction s as [|c s IH]; intros [|d t] Hl Hne; try discriminate Hl; [done|].
  simpl in *. destruct (Ascii.compare c d); try done. apply IH; [congruence|done].
Qed.

(** ** Facts: the calendar *)

Lemma civil_bounds days :
  0 ≤ days < 2 ^ 44 →
  let '(y, m, d) := civil_from_days days in 0 ≤ y < 10 ^ 12 ∧ 0 ≤ m < 100 ∧ 0 ≤ d < 100.
Proof.
  intros Hd. unfold civil_from_days.
  set (z := days + 719468). set (era := z / 146097). set (doe := z - era * 146097).
  assert (0 ≤ doe < 146097) by (subst doe era; Z.to_euclidean_division_equations; lia).
  assert (0 ≤ era < 2 ^ 30)
    by (subst era z; split; [apply Z.div_pos; lia|apply Z.div_lt_upper_bound; lia]).
  clearbody doe era. clear z.
  set (yoe := (doe - doe / 1460 + doe / 36524 - doe / 146096) / 365).
  set (doy := doe - (365 * yoe + yoe / 4 - yoe / 100)).
  assert (0 ≤ yoe < 400 ∧ 0 ≤ doy ≤ 366) as [Hy Hdoy]
    by (subst doy yoe; Z.to_euclidean_division_equations; lia).
  clearbody yoe doy.
  destruct (_ <? 10) eqn:E1; destruct (_ <=? 2) eqn:E2; Z.to_euclidean_division_equations; lia.
Qed.

(** A time stamp of 64 bits is a text of digits and separators. *)
Lemma strftime_bounds (p : ascii → bool) us :
  0 ≤ us < 2 ^ 64 → (∀ c, is_digit c = true → p c = true) →
  p "-"%char = true → p "T"%char = true → p ":"%char = true → p "Z"%char = true →
  let s := strftime_rfc3339 (gmtime (us / 1000000)) in
  strlen s < 32 ∧ string_forallb p s = true.
Proof.
  intros Hus Hdig H1 H2 H3 H4. unfold gmtime.
  assert (Hsec : 0 ≤ us / 1000000 < 2 ^ 45)
    by (split; [apply Z.div_pos; lia|apply Z.div_lt_upper_bound; lia]).
  set (secs := us / 1000000) in *. clearbody secs.
  assert (Hdays : 0 ≤ secs / 86400 < 2 ^ 44)
    by (split; [apply Z.div_pos; lia|apply Z.div_lt_upper_bound; lia]).
  pose proof (civil_bounds _ Hdays) as Hc. destruct (civil_from_days _) as [[y m] d].
  destruct Hc as (Hy & Hm & Hd).
  assert (0 ≤ secs mod 86400 / 3600 < 100 ∧ 0 ≤ secs mod 86400 / 60 mod 60 < 100 ∧
          0 ≤ secs mod 86400 mod 60 < 100) as (Hh & Hmi & Hs)
    by (Z.to_euclidean_division_equations; lia).
  set (h := secs mod 86400 / 3600) in *. set (mi := secs mod 86400 / 60 mod 60) in *.
  set (sc := secs mod 86400 mod 60) in *. clearbody h mi sc.
  assert (Hall : ∀ n, 0 ≤ n → string_forallb p (print_u n) = true ∧ string_forallb p (print2 n) = true).
  { intros n Hn. split; eapply string_forallb_impl; try exact Hdig;
      [by apply print_u_digits|by apply print_u_pad_digits]. }
  assert (Hlen : ∀ n, 0 ≤ n < 100 → String.length (print2 n) = 2%nat)
    by (intros; apply print_u_pad_length; lia).
  unfold strftime_rfc3339. cbn [tm_year tm_mon tm_mday tm_hour tm_min tm_sec]. split.
  - pose proof (print_u_length y 12 ltac:(lia) ltac:(lia) ltac:(lia)).
    unfold strlen. rewrite !string_length_app, !Hlen by lia. cbn [String.length]. lia.
  - rewrite !string_forallb_app. cbn [string_forallb]. rewrite H1, H2, H3, H4.
    repeat match goal with |- context [string_forallb p (?g ?n)] =>
      rewrite (proj1 (Hall n ltac:(lia))) || rewrite (proj2 (Hall n ltac:(lia))) end. done.
Qed.
