(* ===== verification/Jansson.v ===== *)
(** * The Jansson interface

    Jansson is a system library: its parser ([json_loadb] with
    [JSON_REJECT_DUPLICATES]), its printer ([json_dumps] with [JSON_COMPACT],
    with or without [JSON_SORT_KEYS]) and its UTF-8 check are parameters of the
    development, the operations of the class [Jansson]; the documented
    behaviour the broker relies on is the class [JanssonLaws].  A JSON value is
    Jansson's own value tree: an object is the sequence of its members in
    insertion order.  [BitJansson] is one concrete implementation of both
    classes, so that every theorem stated over them can be applied. *)

From stdpp Require Import base gmap strings list countable.
From Stdlib Require Import ZArith Lia SpecFloat Ascii.
From S2P Require Import Prelude CString.

(** ** Values *)

Unset Elimination Schemes.
Inductive json : Type :=
| JNull
| JBool (b : bool)
| JInteger (z : Z)
| JReal (r : spec_float)
| JString (s : string)
| JArray (l : list json)
| JObject (kvs : list (string * json)).
Set Elimination Schemes.

(** A [json_t *] that may be NULL. *)
Abbreviation jptr := (option json).

Definition json_is_null (v : jptr) : bool :=
  match v with Some JNull => true | _ => false end.
Definition json_is_true (v : jptr) : bool :=
  match v with Some (JBool true) => true | _ => false end.
Definition json_is_boolean (v : jptr) : bool :=
  match v with Some (JBool _) => true | _ => false end.
Definition json_is_string (v : jptr) : bool :=
  match v with Some (JString _) => true | _ => false end.
Definition json_is_integer (v : jptr) : bool :=
  match v with Some (JInteger _) => true | _ => false end.
Definition json_is_number (v : jptr) : bool :=
  match v with Some (JInteger _) | Some (JReal _) => true | _ => false end.
Definition json_is_object (v : jptr) : bool :=
  match v with Some (JObject _) => true | _ => false end.
Definition json_is_array (v : jptr) : bool :=
  match v with Some (JArray _) => true | _ => false end.

Definition json_integer_value (v : jptr) : Z :=
  match v with Some (JInteger z) => z | _ => 0 end.
Definition json_string_value (v : jptr) : string :=
  match v with Some (JString s) => s | _ => EmptyString end.

(** [json_number_value]: an integer is converted to the nearest double. *)
Definition json_number_value (v : jptr) : spec_float :=
  match v with
  | Some (JInteger z) => binary_normalize 53 1024 z 0 false
  | Some (JReal r) => r
  | _ => S754_zero false
  end.

Fixpoint assoc_get (k : string) (kvs : list (string * json)) : jptr :=
  match kvs with
  | [] => None
  | (k', v) :: rest => if String.eqb k' k then Some v else assoc_get k rest
  end.

Fixpoint assoc_set (k : string) (v : json) (kvs : list (string * json))
  : list (string * json) :=
  match kvs with
  | [] => [(k, v)]
  | (k', v') :: rest =>
      if String.eqb k' k then (k', v) :: rest else (k', v') :: assoc_set k v rest
  end.

Definition json_members (v : jptr) : list (string * json) :=
  match v with Some (JObject kvs) => kvs | _ => [] end.
Definition json_elements (v : jptr) : list json :=
  match v with Some (JArray l) => l | _ => [] end.
Definition json_object_get (v : jptr) (k : string) : jptr := assoc_get k (json_members v).
Definition json_object_size (v : jptr) : Z := Z.of_nat (length (json_members v)).

(** [json_object_set_new] on an object under construction: [None] is the error
    result (a NULL value, for one). *)
Definition set_new (o : option (list (string * json))) (k : string) (v : jptr)
  : option (list (string * json)) :=
  match o, v with
  | Some kvs, Some j => Some (assoc_set k j kvs)
  | _, _ => None
  end.

(** ** The library as a parameter *)

Class Jansson := {
  json_loadb : bytes → jptr;
  json_dumps : bool → json → option string;
  utf8_valid : string → bool
}.

Section Construction.
Context `{Jansson}.

(** [json_string]: NULL unless the argument is valid UTF-8. *)
Definition json_string (s : string) : jptr :=
  if utf8_valid s then Some (JString s) else None.
End Construction.

Definition json_integer (z : Z) : jptr := Some (JInteger z).
Definition json_bool (b : bool) : jptr := Some (JBool b).

Definition finite_real (r : spec_float) : bool :=
  match r with S754_zero _ | S754_finite _ _ _ => true | _ => false end.

Fixpoint keys_distinct (ks : list string) : bool :=
  match ks with
  | [] => true
  | k :: rest => negb (existsb (String.eqb k) rest) && keys_distinct rest
  end.

(** A value Jansson can hold: 64-bit integers, finite reals, valid strings,
    distinct keys. *)
Fixpoint json_wf_with (utf8 : string → bool) (v : json) : bool :=
  match v with
  | JNull | JBool _ => true
  | JInteger z => (- 2 ^ 63 <=? z) && (z <? 2 ^ 63)
  | JReal r => finite_real r
  | JString s => utf8 s
  | JArray l => forallb (json_wf_with utf8) l
  | JObject kvs =>
      keys_distinct (map fst kvs) &&
      forallb (λ kv, utf8 (fst kv) && json_wf_with utf8 (snd kv)) kvs
  end.

Definition json_wf `{Jansson} (v : json) : bool := json_wf_with utf8_valid v.

(** Nesting depth (json.c [rab_json_depth]): scalars are 0. *)
Fixpoint rab_json_depth (v : json) : Z :=
  match v with
  | JObject kvs => fold_right (λ kv m, Z.max (rab_json_depth (snd kv)) m) 0 kvs + 1
  | JArray l => fold_right (λ c m, Z.max (rab_json_depth c) m) 0 l + 1
  | _ => 0
  end.

Definition JSON_PARSER_MAX_DEPTH : Z := 2048.

(** Printable ASCII, which is valid UTF-8. *)
Definition is_print (c : Ascii.ascii) : bool := (32 <=? byte_val c) && (byte_val c <=? 126).

(** A member as a sorted print gives it back: scalars are the same, containers
    are still there (their own members may be reordered). *)
Definition same_member (o o' : jptr) : Prop :=
  match o with
  | Some (JArray _) => ∃ l, o' = Some (JArray l)
  | Some (JObject _) => ∃ kvs, o' = Some (JObject kvs)
  | _ => o' = o
  end.

(** What the broker relies on: printing and re-reading an admissible value
    gives it back ([JSON_SORT_KEYS] only reorders members), a parsed value is
    admissible, printed text is one non-empty line, and ASCII text is valid
    UTF-8. *)
Class JanssonLaws `{Jansson} := {
  loadb_dumps : ∀ v s, json_wf v = true → rab_json_depth v ≤ JSON_PARSER_MAX_DEPTH →
    json_dumps false v = Some s → json_loadb (bs s) = Some v;
  loadb_dumps_sorted : ∀ kvs s, json_wf (JObject kvs) = true →
    rab_json_depth (JObject kvs) ≤ JSON_PARSER_MAX_DEPTH → json_dumps true (JObject kvs) = Some s →
    ∃ kvs', json_loadb (bs s) = Some (JObject kvs') ∧ length kvs' = length kvs ∧
            ∀ k, same_member (assoc_get k kvs) (assoc_get k kvs');
  loadb_wf : ∀ b v, json_loadb b = Some v → json_wf v = true;
  dumps_line : ∀ k v s, json_dumps k v = Some s → s ≠ EmptyString ∧ nl ∉ bs s;
  utf8_ascii : ∀ s, string_forallb is_print s = true → utf8_valid s = true
}.

(** ** A concrete implementation

    Values are written as the bits of stdpp's encoding of a tree. *)

Abbreviation jleaf := (string + (Z + bool))%type.

Definition leaf_s (s : string) : gen_tree jleaf := GenLeaf (inl s).
Definition leaf_z (z : Z) : gen_tree jleaf := GenLeaf (inr (inl z)).
Definition leaf_b (b : bool) : gen_tree jleaf := GenLeaf (inr (inr b)).

Fixpoint json_to_tree (v : json) : gen_tree jleaf :=
  match v with
  | JNull => GenNode 0 []
  | JBool b => GenNode 1 [leaf_b b]
  | JInteger z => GenNode 2 [leaf_z z]
  | JReal (S754_zero s) => GenNode 3 [leaf_b s]
  | JReal (S754_infinity s) => GenNode 4 [leaf_b s]
  | JReal S754_nan => GenNode 5 []
  | JReal (S754_finite s m e) => GenNode 6 [leaf_b s; leaf_z (Z.pos m); leaf_z e]
  | JString s => GenNode 7 [leaf_s s]
  | JArray l => GenNode 8 (map json_to_tree l)
  | JObject kvs =>
      GenNode 9 (map (λ kv, GenNode 10 [leaf_s (fst kv); json_to_tree (snd kv)]) kvs)
  end.

Fixpoint json_of_tree (t : gen_tree jleaf) : json :=
  match t with
  | GenNode 1 [GenLeaf (inr (inr b))] => JBool b
  | GenNode 2 [GenLeaf (inr (inl z))] => JInteger z
  | GenNode 3 [GenLeaf (inr (inr s))] => JReal (S754_zero s)
  | GenNode 4 [GenLeaf (inr (inr s))] => JReal (S754_infinity s)
  | GenNode 5 [] => JReal S754_nan
  | GenNode 6 [GenLeaf (inr (inr s)); GenLeaf (inr (inl (Z.pos m))); GenLeaf (inr (inl e))] =>
      JReal (S754_finite s m e)
  | GenNode 7 [GenLeaf (inl s)] => JString s
  | GenNode 8 ts => JArray (map json_of_tree ts)
  | GenNode 9 ts =>
      JObject (map (λ t, match t with
                         | GenNode 10 [GenLeaf (inl k); t'] => (k, json_of_tree t')
                         | _ => (EmptyString, JNull)
                         end) ts)
  | _ => JNull
  end.

Fixpoint bits_of_pos (p : positive) : string :=
  match p with
  | xH => String "1"%char EmptyString
  | xO p' => String "0"%char (bits_of_pos p')
  | xI p' => String "1"%char (bits_of_pos p')
  end.

Fixpoint pos_of_bits (b : bytes) : option positive :=
  match b with
  | [] => None
  | c :: b' =>
      match pos_of_bits b' with
      | None => Some xH
      | Some p => Some (if byte_val c =? 49 then xI p else xO p)
      end
  end.

Definition bit_load (b : bytes) : jptr :=
  match pos_of_bits b with
  | None => None
  | Some p =>
      match decode (A := gen_tree jleaf) p with
      | None => None
      | Some t => let v := json_of_tree t in if json_wf_with (λ _, true) v then Some v else None
      end
  end.

Definition bit_dump (v : json) : string := bits_of_pos (encode (json_to_tree v)).

Definition BitJansson : Jansson :=
  {| json_loadb := bit_load; json_dumps := λ _ v, Some (bit_dump v);
     utf8_valid := λ _, true |}.

(** ** Induction on values *)

Definition json_ind (P : json → Prop)
  (Hnull : P JNull) (Hbool : ∀ b, P (JBool b)) (Hint : ∀ z, P (JInteger z))
  (Hreal : ∀ r, P (JReal r)) (Hstr : ∀ s, P (JString s))
  (Harr : ∀ l, Forall P l → P (JArray l))
  (Hobj : ∀ kvs, Forall (λ kv, P (snd kv)) kvs → P (JObject kvs)) : ∀ v, P v :=
  fix go v :=
    match v with
    | JNull => Hnull
    | JBool b => Hbool b
    | JInteger z => Hint z
    | JReal r => Hreal r
    | JString s => Hstr s
    | JArray l =>
        Harr l ((fix goes l : Forall P l := match l with
                 | [] => Forall_nil_2 P
                 | x :: l' => Forall_cons_2 P x l' (go x) (goes l')
                 end) l)
    | JObject kvs =>
        Hobj kvs ((fix goes l : Forall (λ kv, P (snd kv)) l := match l with
                   | [] => Forall_nil_2 _
                   | x :: l' => Forall_cons_2 _ x l' (go (snd x)) (goes l')
                   end) kvs)
    end.

(** ** Facts: members *)

Lemma assoc_get_set k v k' kvs :
  assoc_get k' (assoc_set k v kvs) = if String.eqb k k' then Some v else assoc_get k' kvs.
Proof.
  induction kvs as [|[k0 v0] kvs IH]; simpl; [done|].
  destruct (String.eqb k0 k) eqn:E; simpl.
  - apply String.eqb_eq in E. subst k0. by destruct (String.eqb k k').
  - rewrite IH. destruct (String.eqb k0 k') eqn:E'; [|done].
    apply String.eqb_eq in E'. subst k0. by rewrite String.eqb_sym, E.
Qed.

Lemma assoc_set_fresh k v kvs : k ∉ map fst kvs → assoc_set k v kvs = kvs ++ [(k, v)].
Proof.
  induction kvs as [|[k0 v0] kvs IH]; simpl; [done|]. intros Hk.
  destruct (String.eqb_spec k0 k) as [->|Hne]; [set_solver|].
  rewrite IH by set_solver. done.
Qed.

Lemma assoc_get_None k kvs : assoc_get k kvs = None ↔ k ∉ map fst kvs.
Proof.
  induction kvs as [|[k0 v0] kvs IH]; simpl; [set_solver|].
  destruct (String.eqb_spec k0 k) as [->|Hne]; set_solver.
Qed.

Lemma assoc_get_In k v kvs : assoc_get k kvs = Some v → (k, v) ∈ kvs.
Proof.
  induction kvs as [|[k0 v0] kvs IH]; simpl; [done|].
  destruct (String.eqb_spec k0 k) as [->|Hne]; intros H; [|set_solver].
  injection H as ->. set_solver.
Qed.

Lemma assoc_get_app k l1 l2 :
  assoc_get k (l1 ++ l2) = match assoc_get k l1 with Some v => Some v | None => assoc_get k l2 end.
Proof.
  induction l1 as [|[k0 v0] l1 IH]; simpl; [done|]. by destruct (String.eqb k0 k).
Qed.

Lemma keys_distinct_NoDup ks : keys_distinct ks = true ↔ NoDup ks.
Proof.
  induction ks as [|k ks IH]; simpl.
  - split; [constructor|done].
  - assert (Hex : existsb (String.eqb k) ks = true ↔ k ∈ ks).
    { rewrite existsb_exists. setoid_rewrite String.eqb_eq. split.
      - intros (? & Hin & ->). by apply list_elem_of_In.
      - intros Hin. exists k. by rewrite <- list_elem_of_In. }
    destruct (existsb (String.eqb k) ks); simpl; split.
    + done.
    + intros Hnd. inversion Hnd. set_solver.
    + intros. constructor; [intros Hin; by apply Hex in Hin|by apply IH].
    + intros Hnd. inversion Hnd. by apply IH.
Qed.

Lemma forallb_elem {A} (p : A → bool) l x : forallb p l = true → x ∈ l → p x = true.
Proof. rewrite forallb_forall. intros H Hin. apply H. by apply list_elem_of_In. Qed.

Section WfFacts.
Context `{Jansson}.

Lemma json_wf_get kvs k v :
  json_wf (JObject kvs) = true → assoc_get k kvs = Some v → json_wf v = true.
Proof.
  unfold json_wf. simpl. intros Hwf Hg. bool_hyps.
  apply assoc_get_In in Hg. pose proof (forallb_elem _ _ _ H1 Hg) as Hx.
  simpl in Hx. by bool_hyps.
Qed.

Lemma json_wf_string s : json_wf (JString s) = utf8_valid s.
Proof. done. Qed.

Lemma json_depth_nonneg v : 0 ≤ rab_json_depth v.
Proof.
  induction v as [| | | | |l IH|kvs IH] using json_ind; simpl; try lia.
  - induction IH; simpl; lia.
  - induction IH; simpl; lia.
Qed.

Lemma json_depth_get kvs k v :
  assoc_get k kvs = Some v → rab_json_depth v < rab_json_depth (JObject kvs).
Proof.
  intros Hg. simpl. induction kvs as [|[k' v'] kvs IH]; simpl in *; [done|].
  pose proof (json_depth_nonneg (JObject kvs)) as Hn. simpl in Hn.
  destruct (String.eqb k' k); [injection Hg as ->|specialize (IH Hg)]; lia.
Qed.
End WfFacts.

(** ** Facts: the concrete implementation obeys the laws *)

Lemma json_of_to_tree v : json_of_tree (json_to_tree v) = v.
Proof.
  induction v as [|b|z|r|s|l IH|kvs IH] using json_ind; try done.
  - by destruct r.
  - simpl. f_equal. induction IH as [|x l Hx _ IHl]; simpl; [done|]. by rewrite Hx, IHl.
  - simpl. f_equal. induction IH as [|[k v] l Hx _ IHl]; simpl; [done|].
    simpl in Hx. by rewrite Hx, IHl.
Qed.

Lemma pos_of_bits_of_pos p : pos_of_bits (bs (bits_of_pos p)) = Some p.
Proof. induction p as [p IH|p IH|]; simpl; rewrite ?IH; done. Qed.

Lemma bits_of_pos_line p : bits_of_pos p ≠ EmptyString ∧ nl ∉ bs (bits_of_pos p).
Proof.
  split; [by destruct p|].
  induction p as [p IH|p IH|]; simpl; rewrite ?not_elem_of_cons; split_and?; try done;
    apply not_elem_of_nil.
Qed.

Lemma bit_load_dump v :
  json_wf_with (λ _, true) v = true → bit_load (bs (bit_dump v)) = Some v.
Proof.
  intros Hwf. unfold bit_load, bit_dump.
  rewrite pos_of_bits_of_pos, decode_encode, json_of_to_tree. by rewrite Hwf.
Qed.

#[export] Instance BitJansson_laws : @JanssonLaws BitJansson.
Proof.
  split.
  - intros v s Hwf _ [= <-]. by apply bit_load_dump.
  - intros kvs s Hwf _ [= <-]. exists kvs. split_and!; [by apply bit_load_dump|done|].
    intros k. unfold same_member. destruct (assoc_get k kvs) as [[]|]; eauto.
  - intros b v. simpl. unfold bit_load. intros. repeat case_match; simplify_eq; done.
  - intros k v s [= <-]. apply bits_of_pos_line.
  - done.
Qed.
