(* ===== verification/Env.v ===== *)
(** * The environment

    Everything the broker asks of the kernel and of its injectable clocks is an
    oracle: the [n]-th question is answered by the [n]-th entry of the matching
    function.  Theorems quantify over all oracles.  Loops over short reads and
    writes are driven by a finite script of kernel answers, so they are total. *)

From stdpp Require Import base gmap strings list.
From Stdlib Require Import ZArith Lia.
From S2P Require Import Prelude.

(** One answer of [write(2)] (or a send): a count, or an error. *)
Inductive wr_event := WrBytes (n : nat) | WrEintr | WrErr.

(** One answer of [getrandom(2)]. *)
Inductive rnd_event := RndBytes (b : bytes) | RndEintr | RndErr.

Record timespec := Timespec { tv_sec : Z; tv_nsec : Z }.

Class env := Env {
  e_clock : nat → Z;                  (* the broker's injectable clock, us *)
  e_realtime : nat → option timespec; (* clock_gettime(CLOCK_REALTIME) *)
  e_random : nat → list rnd_event;    (* getrandom answers for one fill *)
  e_boottime : nat → option Z;        (* rab_boottime_fn *)
  e_bootid : nat → option string;     (* rab_bootid_fn *)
  e_statvfs : nat → option (Z * Z);   (* f_bavail, f_frsize *)
  e_write : nat → list wr_event;      (* write answers for one complete write *)
  e_ok : nat → bool;                  (* does the allocation / syscall succeed *)
  e_node : nat → bool;                (* does calloc of an intent node succeed *)
  e_uid : nat → bool;                 (* do the callocs of a per-uid entry succeed *)
  e_unlink : nat → bool;              (* does unlink of an existing file succeed *)
  e_euid : Z                          (* the broker's effective uid *)
}.

(** An environment in which no allocation and no plain system call fails. *)
Definition healthy {E : env} : Prop := ∀ n, e_ok n = true ∧ e_node n = true.

(** An environment in which there is memory for every per-uid entry. *)
Definition roomy {E : env} : Prop := ∀ n, e_uid n = true.

(** The complete-write loop of proto.c [rab_write_full]: what reached the file
    and whether everything did.  When the script ends the kernel takes the
    rest. *)
Fixpoint rab_write_full (script : list wr_event) (data : bytes) : bytes * bool :=
  match data with
  | [] => ([], true)
  | _ =>
      match script with
      | [] => (data, true)
      | WrEintr :: s => rab_write_full s data
      | WrErr :: _ => ([], false)
      | WrBytes n :: s =>
          let '(out, ok) := rab_write_full s (drop n data) in (take n data ++ out, ok)
      end
  end.

(** id.c [fill_random]: [n] bytes, retrying partial reads and EINTR. *)
Fixpoint fill_random (script : list rnd_event) (n : nat) : option bytes :=
  match n with
  | O => Some []
  | _ =>
      match script with
      | [] | RndErr :: _ => None
      | RndEintr :: s => fill_random s n
      | RndBytes b :: s =>
          match fill_random s (n - length (take n b)) with
          | Some r => Some (take n b ++ r)
          | None => None
          end
      end
  end.

(** broker.c [real_clock]: microseconds, 0 when the clock cannot be read. *)
Definition real_clock (ts : option timespec) : Z :=
  match ts with
  | None => 0
  | Some t => u64 (u64 (u64 (tv_sec t) * 1000000) + u64 (Z.quot (tv_nsec t) 1000))
  end.

(** broker.c [real_boottime]: the same conversion, but a failure is reported. *)
Definition real_boottime (ts : option timespec) : option Z :=
  match ts with
  | None => None
  | Some t => Some (u64 (u64 (u64 (tv_sec t) * 1000000) + u64 (Z.quot (tv_nsec t) 1000)))
  end.

(** ** Facts *)

(** Whatever the kernel does, the bytes written are a prefix of the data, and
    success means all of it. *)
Lemma write_full_prefix script data :
  ∃ rest, data = (rab_write_full script data).1 ++ rest.
Proof.
  revert data. induction script as [|ev s IH]; intros data; destruct data as [|c data].
  - by exists [].
  - exists []. simpl. by rewrite app_nil_r.
  - by exists [].
  - destruct ev as [n| |]; cbn [rab_write_full].
    + destruct (IH (drop n (c :: data))) as [rest Hrest].
      destruct (rab_write_full s (drop n (c :: data))) as [out ok]. simpl in *.
      exists rest. rewrite <- app_assoc, <- Hrest. by rewrite take_drop.
    + apply IH.
    + by exists (c :: data).
Qed.

Lemma write_full_ok script data :
  (rab_write_full script data).2 = true → (rab_write_full script data).1 = data.
Proof.
  revert data. induction script as [|ev s IH]; intros data; destruct data as [|c data]; try done.
  destruct ev as [n| |]; cbn [rab_write_full]; [|apply IH|done].
  specialize (IH (drop n (c :: data))).
  destruct (rab_write_full s (drop n (c :: data))) as [out ok]. simpl in *.
  intros Hok. rewrite (IH Hok). by rewrite take_drop.
Qed.

Lemma fill_random_length script n b : fill_random script n = Some b → length b = n.
Proof.
  revert n b. induction script as [|ev s IH]; intros [|n] b; simpl.
  - intros [= <-]. done.
  - done.
  - intros [= <-]. done.
  - destruct ev as [r| |]; [|apply IH|done].
    destruct (fill_random s _) eqn:E; [|done]. intros [= <-].
    apply IH in E. rewrite length_app, E, length_take. lia.
Qed.

Lemma real_clock_range ts : 0 ≤ real_clock ts < 2 ^ 64.
Proof. destruct ts; simpl; [apply u64_range|lia]. Qed.
