(* ===== verification/Id.v ===== *)
(** * Broker-minted identifiers (id.c)

    Correlation ids ["<20-digit microseconds>-<16 hex>"], binding and receipt
    tokens of 32 hex characters. *)

From stdpp Require Import base gmap strings list.
From Stdlib Require Import ZArith Lia Ascii.
From S2P Require Import Prelude CString Env.

Definition RAB_CID_MAX : Z := 64.
Definition RAB_BINDING_MAX : Z := 33.
Definition RAB_RECEIPT_MAX : Z := 33.

Definition micros_of (ts : timespec) : Z :=
  u64 (u64 (u64 (tv_sec ts) * 1000000) + u64 (Z.quot (tv_nsec ts) 1000)).

Definition cid_text (micros : Z) (rnd : bytes) : string :=
  print_u_pad 20 micros +:+ "-" +:+ to_hex rnd.

Definition rab_make_correlation_id (now : option timespec) (rnd : list rnd_event)
    (buflen : Z) : option string :=
  match now with
  | None => None
  | Some ts =>
      match fill_random rnd 8 with
      | None => None
      | Some r =>
          let s := cid_text (micros_of ts) r in
          if buflen <=? strlen s then None else Some s
      end
  end.

Definition rab_make_binding (rnd : list rnd_event) (buflen : Z) : option string :=
  if buflen <? RAB_BINDING_MAX then None
  else match fill_random rnd 16 with
       | None => None
       | Some r => Some (to_hex r)
       end.

Definition rab_make_receipt (rnd : list rnd_event) (buflen : Z) : option string :=
  if buflen <? RAB_RECEIPT_MAX then None
  else match fill_random rnd 16 with
       | None => None
       | Some r => Some (to_hex r)
       end.

(** ** Facts *)

Lemma micros_range ts : 0 ≤ micros_of ts < 10 ^ Z.of_nat 20.
Proof.
  unfold micros_of. pose proof (u64_range (u64 (u64 (tv_sec ts) * 1000000) +
    u64 (Z.quot (tv_nsec ts) 1000))).
  assert (2 ^ 64 < 10 ^ Z.of_nat 20) by (by vm_compute). lia.
Qed.

Lemma cid_text_length micros rnd :
  0 ≤ micros < 10 ^ Z.of_nat 20 → length rnd = 8%nat → strlen (cid_text micros rnd) = 37.
Proof.
  intros Hm Hr. unfold cid_text, strlen.
  rewrite string_length_app, print_u_pad_length by lia.
  change ("-" +:+ to_hex rnd) with (String "-"%char (to_hex rnd)).
  simpl String.length. rewrite to_hex_length, Hr. lia.
Qed.

Lemma make_cid_Some now rnd buflen s :
  rab_make_correlation_id now rnd buflen = Some s →
  ∃ ts r, now = Some ts ∧ length r = 8%nat ∧ s = cid_text (micros_of ts) r ∧ strlen s < buflen.
Proof.
  unfold rab_make_correlation_id. intros H. inv_guards H. simplify_eq.
  bool_hyps.
  eexists _, _. split_and!; eauto using fill_random_length.
Qed.

Lemma make_binding_Some rnd buflen s :
  rab_make_binding rnd buflen = Some s → is_hex_lc_n s 32 = true.
Proof.
  unfold rab_make_binding. intros H. inv_guards H. simplify_eq.
  apply fill_random_length in Heqo. change 32%nat with (2 * 16)%nat. rewrite <- Heqo.
  apply to_hex_grammar.
Qed.

Lemma make_receipt_Some rnd buflen s :
  rab_make_receipt rnd buflen = Some s → is_hex_lc_n s 32 = true.
Proof.
  unfold rab_make_receipt. intros H. inv_guards H. simplify_eq.
  apply fill_random_length in Heqo. change 32%nat with (2 * 16)%nat. rewrite <- Heqo.
  apply to_hex_grammar.
Qed.

Lemma make_cid_order t1 t2 r1 r2 c1 c2 len :
  rab_make_correlation_id (Some t1) r1 len = Some c1 →
  rab_make_correlation_id (Some t2) r2 len = Some c2 →
  micros_of t1 < micros_of t2 → String.compare c1 c2 = Lt.
Proof.
  intros H1 H2 Hlt.
  apply make_cid_Some in H1 as (? & b1 & [= <-] & ? & -> & _).
  apply make_cid_Some in H2 as (? & b2 & [= <-] & ? & -> & _).
  unfold cid_text.
  pose proof (micros_range t1). pose proof (micros_range t2).
  assert (Hc : String.compare (print_u_pad 20 (micros_of t1)) (print_u_pad 20 (micros_of t2)) = Lt).
  { rewrite print_u_pad_compare by lia. by apply Z.compare_lt_iff. }
  rewrite string_compare_app_neq; [done| |by rewrite Hc].
  rewrite !print_u_pad_length; lia.
Qed.

(** ** Properties *)

(** C39. Correlation ids are time-orderable: as long as the clock reads later for
    the second id, the first id sorts strictly before it as a string, whatever
    the random suffixes are. *)
Theorem correlation_id_order t1 t2 r1 r2 c1 c2 len :
  rab_make_correlation_id (Some t1) r1 len = Some c1 →
  rab_make_correlation_id (Some t2) r2 len = Some c2 →
  micros_of t1 < micros_of t2 →
  String.compare c1 c2 = Lt.
Proof. apply make_cid_order. Qed.

Lemma correlation_id_order_witness :
  let r := [RndBytes (replicate 8 (byte_of 7))] in
  String.compare (cid_text 1000001 (replicate 8 (byte_of 7)))
                 (cid_text 2000000 (replicate 8 (byte_of 7))) = Lt.
Proof.
  intros r. apply (correlation_id_order (Timespec 1 1500) (Timespec 2 0) r r _ _ RAB_CID_MAX);
    by vm_compute.
Defined.
