(* ===== verification/Proto.v ===== *)
(** * Wire framing (proto.c)

    A frame is one version byte, a big-endian 32-bit length and the body.  The
    socket is a script of what successive [read(2)] calls see; when the script
    ends the peer has closed. *)

From stdpp Require Import base gmap strings list.
From Stdlib Require Import ZArith Lia.
From S2P Require Import Prelude Env.

Definition RAB_PROTO_VERSION : Z := 1.
Definition RAB_MAX_BODY : Z := 65536.

Inductive rab_frame_status :=
| RAB_FRAME_OK (body : bytes)
| RAB_FRAME_BAD
| RAB_FRAME_TOO_LARGE
| RAB_FRAME_EOF
| RAB_FRAME_IO
| RAB_FRAME_TIMEOUT.

(** ** Sockets *)

(** What one [read] finds: pending bytes (none: end of file), an interruption,
    nothing yet on a non-blocking descriptor, or an error. *)
Inductive rd_event := RdData (b : bytes) | RdEintr | RdAgain | RdErr.

Inductive rd_rc := RC_OK (b : bytes) | RC_EOF | RC_ERR | RC_TIMEOUT.

(** Put back the bytes a short read left. *)
Definition push_back (b : bytes) (s : list rd_event) : list rd_event :=
  match b with [] => s | _ => RdData b :: s end.

(** [rab_read_full]: blocking complete read. *)
Fixpoint rab_read_full (script : list rd_event) (n : nat) : rd_rc * list rd_event :=
  match n with
  | O => (RC_OK [], script)
  | _ =>
      match script with
      | [] => (RC_EOF, [])
      | RdEintr :: s => rab_read_full s n
      | (RdAgain | RdErr) :: s => (RC_ERR, s)
      | RdData [] :: s => (RC_EOF, s)
      | RdData b :: s =>
          if (n <=? length b)%nat then (RC_OK (take n b), push_back (drop n b) s)
          else match rab_read_full s (n - length b) with
               | (RC_OK r, s') => (RC_OK (b ++ r), s')
               | x => x
               end
      end
  end.

Definition hdr_byte (h : bytes) (i : nat) : Z :=
  match h !! i with Some c => byte_val c | None => 0 end.

(** The length field of a 5-byte header. *)
Definition hdr_len (h : bytes) : Z :=
  Z.lor (Z.lor (Z.lor (Z.shiftl (hdr_byte h 1) 24) (Z.shiftl (hdr_byte h 2) 16))
               (Z.shiftl (hdr_byte h 3) 8))
        (hdr_byte h 4).

(** The header written before a body of [len] bytes. *)
Definition frame_header (len : Z) : bytes :=
  [byte_of RAB_PROTO_VERSION;
   byte_of (Z.land (Z.shiftr len 24) 255); byte_of (Z.land (Z.shiftr len 16) 255);
   byte_of (Z.land (Z.shiftr len 8) 255); byte_of (Z.land len 255)].

(** [rab_read_frame]; [alloc] is whether the body buffer can be allocated. *)
Definition rab_read_frame (alloc : bool) (script : list rd_event)
  : rab_frame_status * list rd_event :=
  match rab_read_full script 5 with
  | (RC_EOF, s) => (RAB_FRAME_EOF, s)
  | (RC_ERR, s) | (RC_TIMEOUT, s) => (RAB_FRAME_IO, s)
  | (RC_OK header, s) =>
      if negb (hdr_byte header 0 =? RAB_PROTO_VERSION) then (RAB_FRAME_BAD, s)
      else let n := hdr_len header in
      if RAB_MAX_BODY <? n then (RAB_FRAME_TOO_LARGE, s)
      else if negb alloc then (RAB_FRAME_IO, s)
      else if 0 <? n then
        match rab_read_full s (Z.to_nat n) with
        | (RC_OK body, s') => (RAB_FRAME_OK body, s')
        | (RC_EOF, s') => (RAB_FRAME_BAD, s')
        | (_, s') => (RAB_FRAME_IO, s')
        end
      else (RAB_FRAME_OK [], s)
  end.

(** [rab_write_frame]: the bytes that reached the socket and the result. *)
Definition rab_write_frame (wh wb : list wr_event) (body : bytes) : bytes * bool :=
  let len := blen body in
  if RAB_MAX_BODY <? len then ([], false)
  else let '(h, ok) := rab_write_full wh (frame_header len) in
       if negb ok then (h, false)
       else if 0 <? len then
         let '(b, ok') := rab_write_full wb body in (h ++ b, ok')
       else (h, true).

(** ** Deadline-aware variants *)

Inductive poll_result := PollErr | PollEintr | PollTimeout | PollReady.

(** One loop iteration's clock reading and [poll] answer. *)
Definition dl_tick : Type := option timespec * poll_result.

(** [remaining_ms]: milliseconds to the absolute deadline, or -1 once it has
    passed (or the clock cannot be read). *)
Definition remaining_ms (deadline : timespec) (now : option timespec) : Z :=
  match now with
  | None => -1
  | Some t =>
      let ms := (tv_sec deadline - tv_sec t) * 1000
                + Z.quot (tv_nsec deadline - tv_nsec t) 1000000 in
      if ms <=? 0 then -1 else if INT_MAX <? ms then INT_MAX else ms
  end.

(** [rab_read_full_deadline]: one [ticks] entry per iteration; with no further
    entry the clock has failed, which reads as an expired deadline. *)
Fixpoint rab_read_full_deadline (ticks : list dl_tick) (deadline : timespec)
    (script : list rd_event) (n : nat) : rd_rc * list dl_tick * list rd_event :=
  match n with
  | O => (RC_OK [], ticks, script)
  | _ =>
      match ticks with
      | [] => (RC_TIMEOUT, [], script)
      | (now, pr) :: ts =>
          if remaining_ms deadline now <? 0 then (RC_TIMEOUT, ts, script)
          else match pr with
          | PollEintr => rab_read_full_deadline ts deadline script n
          | PollErr => (RC_ERR, ts, script)
          | PollTimeout => (RC_TIMEOUT, ts, script)
          | PollReady =>
              match script with
              | [] => (RC_EOF, ts, [])
              | (RdEintr | RdAgain) :: s => rab_read_full_deadline ts deadline s n
              | RdErr :: s => (RC_ERR, ts, s)
              | RdData [] :: s => (RC_EOF, ts, s)
              | RdData b :: s =>
                  if (n <=? length b)%nat
                  then (RC_OK (take n b), ts, push_back (drop n b) s)
                  else match rab_read_full_deadline ts deadline s (n - length b) with
                       | (RC_OK r, ts', s') => (RC_OK (b ++ r), ts', s')
                       | x => x
                       end
              end
          end
      end
  end.

Inductive wr_dl_event := WDBytes (n : nat) | WDRetry | WDErr.

(** [rab_write_full_deadline]: the bytes sent and the result code. *)
Fixpoint rab_write_full_deadline (ticks : list (dl_tick * wr_dl_event))
    (deadline : timespec) (data : bytes) : bytes * rd_rc :=
  match data with
  | [] => ([], RC_OK [])
  | _ =>
      match ticks with
      | [] => ([], RC_TIMEOUT)
      | ((now, pr), ev) :: ts =>
          if remaining_ms deadline now <? 0 then ([], RC_TIMEOUT)
          else match pr with
          | PollEintr => rab_write_full_deadline ts deadline data
          | PollErr => ([], RC_ERR)
          | PollTimeout => ([], RC_TIMEOUT)
          | PollReady =>
              match ev with
              | WDRetry => rab_write_full_deadline ts deadline data
              | WDErr => ([], RC_ERR)
              | WDBytes k =>
                  let '(out, rc) := rab_write_full_deadline ts deadline (drop k data) in
                  (take k data ++ out, rc)
              end
          end
      end
  end.

Definition rab_read_frame_deadline (alloc : bool) (ticks : list dl_tick)
    (deadline : timespec) (script : list rd_event)
  : rab_frame_status * list rd_event :=
  match rab_read_full_deadline ticks deadline script 5 with
  | (RC_EOF, _, s) => (RAB_FRAME_EOF, s)
  | (RC_TIMEOUT, _, s) => (RAB_FRAME_TIMEOUT, s)
  | (RC_ERR, _, s) => (RAB_FRAME_IO, s)
  | (RC_OK header, ts, s) =>
      if negb (hdr_byte header 0 =? RAB_PROTO_VERSION) then (RAB_FRAME_BAD, s)
      else let n := hdr_len header in
      if RAB_MAX_BODY <? n then (RAB_FRAME_TOO_LARGE, s)
      else if negb alloc then (RAB_FRAME_IO, s)
      else if 0 <? n then
        match rab_read_full_deadline ts deadline s (Z.to_nat n) with
        | (RC_OK body, _, s') => (RAB_FRAME_OK body, s')
        | (RC_TIMEOUT, _, s') => (RAB_FRAME_TIMEOUT, s')
        | (RC_EOF, _, s') => (RAB_FRAME_BAD, s')
        | (RC_ERR, _, s') => (RAB_FRAME_IO, s')
        end
      else (RAB_FRAME_OK [], s)
  end.

Definition rab_write_frame_deadline (th tb : list (dl_tick * wr_dl_event))
    (deadline : timespec) (body : bytes) : bytes * bool :=
  let len := blen body in
  if RAB_MAX_BODY <? len then ([], false)
  else match rab_write_full_deadline th deadline (frame_header len) with
       | (h, RC_OK _) =>
           if 0 <? len then
             match rab_write_full_deadline tb deadline body with
             | (b, RC_OK _) => (h ++ b, true)
             | (b, _) => (h ++ b, false)
             end
           else (h, true)
       | (h, _) => (h, false)
       end.

(** ** Reference definitions *)

(** The bytes a well-behaved peer sends before closing. *)
Fixpoint payload (script : list rd_event) : bytes :=
  match script with
  | RdData b :: s => b ++ payload s
  | _ :: s => payload s
  | [] => []
  end.

(** Only interruptions and non-empty chunks. *)
Definition benign (script : list rd_event) : Prop :=
  Forall (λ ev, match ev with RdEintr => True | RdData b => b ≠ [] | _ => False end) script.

(** The frame at the head of a byte sequence. *)
Definition decode_frame (data : bytes) : rab_frame_status :=
  if (length data <? 5)%nat then RAB_FRAME_EOF
  else if negb (hdr_byte data 0 =? RAB_PROTO_VERSION) then RAB_FRAME_BAD
  else if RAB_MAX_BODY <? hdr_len data then RAB_FRAME_TOO_LARGE
  else if (length data <? 5 + Z.to_nat (hdr_len data))%nat then RAB_FRAME_BAD
  else RAB_FRAME_OK (take (Z.to_nat (hdr_len data)) (drop 5 data)).

(** ** Facts: the header *)

Lemma hdr_byte_range h i : 0 ≤ hdr_byte h i < 256.
Proof. unfold hdr_byte. destruct (h !! i); [apply byte_val_range|lia]. Qed.

Lemma hdr_len_sum h :
  hdr_len h = hdr_byte h 1 * 2 ^ 24 + hdr_byte h 2 * 2 ^ 16 + hdr_byte h 3 * 2 ^ 8 + hdr_byte h 4.
Proof.
  unfold hdr_len.
  pose proof (hdr_byte_range h 1). pose proof (hdr_byte_range h 2).
  pose proof (hdr_byte_range h 3). pose proof (hdr_byte_range h 4).
  rewrite !Z.shiftl_mul_pow2 by lia.
  rewrite (lor_disjoint_add _ (hdr_byte h 2 * 2 ^ 16) 24) by lia.
  replace (hdr_byte h 1 * 2 ^ 24 + hdr_byte h 2 * 2 ^ 16)
    with ((hdr_byte h 1 * 2 ^ 8 + hdr_byte h 2) * 2 ^ 16) by lia.
  rewrite (lor_disjoint_add _ (hdr_byte h 3 * 2 ^ 8) 16) by lia.
  replace ((hdr_byte h 1 * 2 ^ 8 + hdr_byte h 2) * 2 ^ 16 + hdr_byte h 3 * 2 ^ 8)
    with (((hdr_byte h 1 * 2 ^ 8 + hdr_byte h 2) * 2 ^ 8 + hdr_byte h 3) * 2 ^ 8) by lia.
  rewrite lor_disjoint_add by lia. lia.
Qed.

Lemma hdr_len_nonneg h : 0 ≤ hdr_len h.
Proof.
  rewrite hdr_len_sum. pose proof (hdr_byte_range h 1). pose proof (hdr_byte_range h 2).
  pose proof (hdr_byte_range h 3). pose proof (hdr_byte_range h 4). lia.
Qed.

Lemma frame_header_len len tl :
  0 ≤ len < 2 ^ 32 →
  hdr_byte (frame_header len ++ tl) 0 = RAB_PROTO_VERSION ∧
  hdr_len (frame_header len ++ tl) = len.
Proof.
  intros Hlen. split; [done|]. rewrite hdr_len_sum. unfold hdr_byte. simpl.
  rewrite !byte_val_of.
  assert (Hb : ∀ a, u8 (Z.land a 255) = a mod 2 ^ 8).
  { intros a. change 255 with (2 ^ 8 - 1). rewrite land_mask_mod by lia.
    apply u8_small. apply Z.mod_pos_bound. lia. }
  rewrite !Hb, !Z.shiftr_div_pow2 by lia.
  pose proof (Z.div_mod len (2 ^ 8) ltac:(lia)).
  pose proof (Z.div_mod (len / 2 ^ 8) (2 ^ 8) ltac:(lia)).
  pose proof (Z.div_mod (len / 2 ^ 16) (2 ^ 8) ltac:(lia)).
  rewrite (Z.div_div len (2 ^ 8) (2 ^ 8)) in * by lia.
  rewrite (Z.div_div len (2 ^ 16) (2 ^ 8)) in * by lia.
  change (2 ^ 8 * 2 ^ 8) with (2 ^ 16) in *. change (2 ^ 16 * 2 ^ 8) with (2 ^ 24) in *.
  rewrite (Z.mod_small (len / 2 ^ 24)); [lia|].
  split; [apply Z.div_pos; lia|apply Z.div_lt_upper_bound; lia].
Qed.

Lemma frame_header_length len : length (frame_header len) = 5%nat.
Proof. done. Qed.

(** ** Facts: complete reads *)

Lemma push_back_payload b s : payload (push_back b s) = b ++ payload s.
Proof. by destruct b. Qed.

Lemma push_back_benign b s : benign s → benign (push_back b s).
Proof. destruct b; [done|]. intros. by constructor. Qed.

Lemma read_full_benign script n :
  benign script → (n ≤ length (payload script))%nat →
  ∃ s', rab_read_full script n = (RC_OK (take n (payload script)), s') ∧
        benign s' ∧ payload s' = drop n (payload script).
Proof.
  revert n. induction script as [|ev s IH]; intros n Hb Hn.
  - simpl in Hn. assert (n = 0%nat) as -> by lia. by exists [].
  - destruct n as [|n]; [by exists (ev :: s)|].
    inversion Hb as [|? ? Hev Hb']; subst. destruct ev as [b| | |]; try done.
    + destruct b as [|c b]; [done|]. cbn [rab_read_full payload] in *.
      destruct (Nat.leb_spec (S n) (length (c :: b))) as [Hle|Hgt].
      * exists (push_back (drop (S n) (c :: b)) s).
        rewrite push_back_payload, take_app_le, drop_app_le by done.
        auto using push_back_benign.
      * destruct (IH (S n - length (c :: b))%nat Hb') as (s' & -> & Hs' & Hp).
        { rewrite length_app in Hn. lia. }
        exists s'. rewrite take_app_ge, drop_app_ge by lia. done.
    + simpl in *. apply (IH (S n)); done.
Qed.

Lemma read_full_short script n :
  benign script → (length (payload script) < n)%nat →
  ∃ s', rab_read_full script n = (RC_EOF, s').
Proof.
  revert n. induction script as [|ev s IH]; intros n Hb Hn; (destruct n as [|n]; [lia|]).
  - by exists [].
  - inversion Hb as [|? ? Hev Hb']; subst. destruct ev as [b| | |]; try done.
    + destruct b as [|c b]; [done|]. cbn [rab_read_full payload] in *.
      rewrite length_app in Hn.
      destruct (Nat.leb_spec (S n) (length (c :: b))) as [Hle|Hgt]; [lia|].
      destruct (IH (S n - length (c :: b))%nat Hb') as (s' & ->); [lia|]. by exists s'.
    + simpl in *. apply (IH (S n)); done.
Qed.

Lemma read_full_length script n b s' :
  rab_read_full script n = (RC_OK b, s') → length b = n.
Proof.
  revert n b s'. induction script as [|ev s IH]; intros n b s'; destruct n as [|n];
    try (intros [= <- <-]; done); try done.
  destruct ev as [d| | |]; cbn [rab_read_full]; try done; [|apply IH].
  destruct d as [|c d]; [done|].
  destruct (Nat.leb_spec (S n) (length (c :: d))) as [Hle|Hgt].
  - intros [= <- _]. simpl in *. rewrite length_take. lia.
  - destruct (rab_read_full s _) as [[r| | |] s''] eqn:E; try done.
    intros [= <- _]. apply IH in E. simpl in *. rewrite length_app. lia.
Qed.

Lemma hdr_byte_take d i : (i < 5)%nat → hdr_byte (take 5 d) i = hdr_byte d i.
Proof. intros. unfold hdr_byte. by rewrite lookup_take_lt. Qed.

Lemma hdr_len_take d : hdr_len (take 5 d) = hdr_len d.
Proof. rewrite !hdr_len_sum, !hdr_byte_take by lia. done. Qed.

(** Reading a frame from any chunking of a byte stream. *)
Lemma read_frame_decode script :
  benign script → (rab_read_frame true script).1 = decode_frame (payload script).
Proof.
  intros Hb. unfold rab_read_frame, decode_frame.
  destruct (Nat.ltb_spec (length (payload script)) 5) as [Hs|Hl].
  - by destruct (read_full_short script 5 Hb Hs) as (s' & ->).
  - destruct (read_full_benign script 5 Hb Hl) as (s' & -> & Hb' & Hp).
    rewrite hdr_byte_take, hdr_len_take by lia.
    destruct (negb _); [done|]. destruct (RAB_MAX_BODY <? _); [done|]. cbn [negb].
    pose proof (hdr_len_nonneg (payload script)).
    destruct (0 <? hdr_len (payload script)) eqn:E; bool_hyps.
    + destruct (Nat.ltb_spec (length (payload script))
                  (5 + Z.to_nat (hdr_len (payload script)))) as [Hlt|Hge].
      * destruct (read_full_short s' (Z.to_nat (hdr_len (payload script))) Hb')
          as (s'' & ->); [rewrite Hp, length_drop; lia|done].
      * destruct (read_full_benign s' (Z.to_nat (hdr_len (payload script))) Hb')
          as (s'' & -> & _); [rewrite Hp, length_drop; lia|]. by rewrite Hp.
    + replace (hdr_len (payload script)) with 0 by lia.
      change (5 + Z.to_nat 0)%nat with 5%nat.
      by rewrite (proj2 (Nat.ltb_ge _ _) Hl).
Qed.

Lemma write_frame_bytes wh wb body sent :
  rab_write_frame wh wb body = (sent, true) →
  blen body ≤ RAB_MAX_BODY ∧ sent = frame_header (blen body) ++ body.
Proof.
  unfold rab_write_frame. intros H. inv_guards H; bool_hyps.
  - simplify_eq. split; [done|].
    pose proof (write_full_ok wh (frame_header (blen body))) as W1. rewrite Heqp in W1.
    pose proof (write_full_ok wb body) as W2. rewrite Heqp0 in W2.
    simpl in W1, W2. by rewrite W1, W2.
  - simplify_eq. split; [done|].
    pose proof (write_full_ok wh (frame_header (blen body))) as W1. rewrite Heqp in W1.
    unfold blen in *. destruct body; [|simpl in *; lia]. simpl in W1. by rewrite W1, app_nil_r.
Qed.

(** ** Facts: deadlines *)

Lemma read_dl_cut deadline t ts1 ts2 script n :
  remaining_ms deadline t.1 < 0 →
  (rab_read_full_deadline (ts1 ++ t :: ts2) deadline script n).1.1 =
  (rab_read_full_deadline ts1 deadline script n).1.1.
Proof.
  intros Ht. revert script n. induction ts1 as [|[now pr] ts1 IH]; intros script n;
    (destruct n as [|n]; [done|]).
  - destruct t as [now pr]. simpl in *. by rewrite (proj2 (Z.ltb_lt _ _) Ht).
  - cbn [app rab_read_full_deadline].
    destruct (remaining_ms deadline now <? 0); [done|].
    destruct pr; try apply IH; try done.
    destruct script as [|[b| | |] s]; try done; try apply IH.
    destruct b as [|c b]; [done|].
    destruct (S n <=? length (c :: b))%nat; [done|].
    specialize (IH s (S n - length (c :: b))%nat).
    destruct (rab_read_full_deadline (ts1 ++ t :: ts2) deadline s _) as [[rc1 ?] ?].
    destruct (rab_read_full_deadline ts1 deadline s _) as [[rc2 ?] ?].
    simpl in IH. subst rc2. by destruct rc1.
Qed.

(** ** Properties *)

(** C34. Framing round trip: whatever the short writes of the sender and the
    chunking and interruptions the receiver sees, a frame whose write succeeded
    is read back as exactly its body, and the bytes that follow it stay unread. *)
Theorem frame_roundtrip wh wb body sent script more :
  rab_write_frame wh wb body = (sent, true) →
  benign script → payload script = sent ++ more →
  ∃ s', rab_read_frame true script = (RAB_FRAME_OK body, s') ∧
        benign s' ∧ payload s' = more.
Proof.
  intros Hw Hb Hp. apply write_frame_bytes in Hw as [Hmax ->].
  rewrite <- app_assoc in Hp.
  assert (Hlen : 0 ≤ blen body < 2 ^ 32) by (unfold blen, RAB_MAX_BODY in *; lia).
  destruct (read_full_benign script 5 Hb) as (s1 & Hr & Hb1 & Hp1).
  { rewrite Hp, length_app, frame_header_length. lia. }
  unfold rab_read_frame. rewrite Hr, Hp.
  rewrite hdr_byte_take, hdr_len_take by lia.
  destruct (frame_header_len (blen body) (body ++ more) Hlen) as [-> ->]. simpl.
  rewrite (proj2 (Z.ltb_ge _ _) Hmax).
  assert (Hp1' : payload s1 = body ++ more) by (rewrite Hp1, Hp; done).
  destruct (0 <? blen body) eqn:E; bool_hyps.
  - destruct (read_full_benign s1 (Z.to_nat (blen body)) Hb1) as (s2 & -> & Hb2 & Hp2).
    { rewrite Hp1', length_app. unfold blen. lia. }
    exists s2. rewrite Hp1' in *. unfold blen in *. rewrite Nat2Z.id in *.
    by rewrite take_app_length, Hp2, drop_app_length.
  - exists s1. unfold blen in *. by destruct body; [|simpl in *; lia].
Qed.

Definition wit_body : bytes := [byte_of 123; byte_of 125].
Definition wit_script : list rd_event :=
  [RdEintr; RdData (take 3 (frame_header 2)); RdEintr;
   RdData (drop 3 (frame_header 2) ++ [byte_of 123]); RdData [byte_of 125; byte_of 7]].

Lemma frame_roundtrip_witness :
  ∃ s', rab_read_frame true wit_script = (RAB_FRAME_OK wit_body, s') ∧
        benign s' ∧ payload s' = [byte_of 7].
Proof.
  apply (frame_roundtrip [WrBytes 2; WrEintr; WrBytes 0] [] wit_body
           (frame_header 2 ++ wit_body)).
  - vm_compute. reflexivity.
  - repeat constructor; discriminate.
  - vm_compute. reflexivity.
Defined.




