(* ===== verification/Sink.v ===== *)
(** * The append-only sink (sink.c) and the file system under it

    Files are inodes with their current contents and the contents known to be
    on stable storage; the sink's directory maps paths to inodes, again with
    the version known to be durable.  [fdatasync] makes contents durable, an
    [fsync] of the directory makes its entries durable. *)

From stdpp Require Import base gmap strings list.
From Stdlib Require Import ZArith Lia Ascii.
From S2P Require Import Prelude Env.

(** ** State *)

Inductive ikind := KReg | KLink | KDir | KSock.

Record inode := Inode {
  i_kind : ikind;
  i_mode : Z;
  i_uid : Z;
  i_data : bytes;
  i_durable : bytes
}.

Record fsys := Fs {
  fs_dir : gmap string nat;
  fs_ddir : gmap string nat;
  fs_ino : gmap nat inode;
  fs_next : nat
}.

Record world := World { w_tick : nat; w_fs : fsys }.

Definition set_fs (w : world) (f : fsys) : world := World (w_tick w) f.
Definition set_dir (f : fsys) (d : gmap string nat) : fsys :=
  Fs d (fs_ddir f) (fs_ino f) (fs_next f).
Definition set_ino (f : fsys) (m : gmap nat inode) : fsys :=
  Fs (fs_dir f) (fs_ddir f) m (fs_next f).

(** Ask the environment: the answer at the current tick. *)
Definition ask {A} (f : nat → A) : M world A :=
  λ w, (f (w_tick w), World (S (w_tick w)) (w_fs w)).

Definition on_fs (f : fsys → fsys) : M world unit := mmodify (λ w, set_fs w (f (w_fs w))).

Definition has_nl (b : bytes) : bool := existsb (Ascii.eqb nl) b.

Definition S_IWOTH : Z := 2.

(** ** System calls *)

Inductive open_res := OpenFd (ino : nat) | OpenEexist | OpenEnoent | OpenEloop | OpenErr.

Definition create_file (path : string) (uid : Z) (f : fsys) : fsys :=
  Fs (<[path := fs_next f]> (fs_dir f)) (fs_ddir f)
     (<[fs_next f := Inode KReg 0 uid [] []]> (fs_ino f)) (S (fs_next f)).

Definition write_data (ino : nat) (b : bytes) (f : fsys) : fsys :=
  set_ino f (alter (λ i, Inode (i_kind i) (i_mode i) (i_uid i) (i_data i ++ b) (i_durable i))
                   ino (fs_ino f)).

Definition sync_data (ino : nat) (f : fsys) : fsys :=
  set_ino f (alter (λ i, Inode (i_kind i) (i_mode i) (i_uid i) (i_data i) (i_data i))
                   ino (fs_ino f)).

Definition chmod_ino (ino : nat) (mode : Z) (f : fsys) : fsys :=
  set_ino f (alter (λ i, Inode (i_kind i) mode (i_uid i) (i_data i) (i_durable i))
                   ino (fs_ino f)).

Definition sync_dir (f : fsys) : fsys := Fs (fs_dir f) (fs_dir f) (fs_ino f) (fs_next f).

Section Calls.
Context {E : env}.

(** [open(O_CREAT | O_EXCL | O_APPEND | O_NOFOLLOW)] *)
Definition sys_open_excl (path : string) : M world open_res :=
  let! w := mget in
  match fs_dir (w_fs w) !! path with
  | Some _ => mreturn OpenEexist
  | None =>
      let! ok := ask e_ok in
      if ok then on_fs (create_file path e_euid) ;;; mreturn (OpenFd (fs_next (w_fs w)))
      else mreturn OpenErr
  end.

(** [open] of an existing path with [O_NOFOLLOW] *)
Definition sys_open_nofollow (path : string) : M world open_res :=
  let! w := mget in
  match fs_dir (w_fs w) !! path with
  | None => mreturn OpenEnoent
  | Some i =>
      match fs_ino (w_fs w) !! i with
      | Some (Inode KLink _ _ _ _) => mreturn OpenEloop
      | Some (Inode KReg _ _ _ _) =>
          let! ok := ask e_ok in mreturn (if ok then OpenFd i else OpenErr)
      | _ => mreturn OpenErr
      end
  end.

Definition sys_fchmod (ino : nat) (mode : Z) : M world bool :=
  let! ok := ask e_ok in
  if ok then on_fs (chmod_ino ino mode) ;;; mreturn true else mreturn false.

(** [fstat]: the inode, [None] on failure. *)
Definition sys_fstat (ino : nat) : M world (option inode) :=
  let! ok := ask e_ok in
  let! w := mget in
  mreturn (if ok then fs_ino (w_fs w) !! ino else None).

(** A complete write of [b] to [ino]; the bytes that land are appended. *)
Definition sys_write_full (ino : nat) (b : bytes) : M world bool :=
  let! script := ask e_write in
  let '(out, ok) := rab_write_full script b in
  on_fs (write_data ino out) ;;; mreturn ok.

Definition sys_fdatasync (ino : nat) : M world bool :=
  let! ok := ask e_ok in
  if ok then on_fs (sync_data ino) ;;; mreturn true else mreturn false.

Definition sys_unlink (path : string) : M world bool :=
  let! w := mget in
  match fs_dir (w_fs w) !! path with
  | None => mreturn false
  | Some i =>
      match fs_ino (w_fs w) !! i with
      | Some (Inode KDir _ _ _ _) => mreturn false
      | _ =>
          let! ok := ask e_unlink in
          if ok then on_fs (λ f, set_dir f (delete path (fs_dir f))) ;;; mreturn true
          else mreturn false
      end
  end.

Definition sys_link (old new : string) : M world bool :=
  let! w := mget in
  match fs_dir (w_fs w) !! old, fs_dir (w_fs w) !! new with
  | Some i, None =>
      let! ok := ask e_ok in
      if ok then on_fs (λ f, set_dir f (<[new := i]> (fs_dir f))) ;;; mreturn true
      else mreturn false
  | _, _ => mreturn false
  end.

Definition sys_rename (old new : string) : M world bool :=
  let! w := mget in
  match fs_dir (w_fs w) !! old with
  | Some i =>
      let! ok := ask e_ok in
      if ok then on_fs (λ f, set_dir f (<[new := i]> (delete old (fs_dir f)))) ;;; mreturn true
      else mreturn false
  | None => mreturn false
  end.

(** ** sink.c *)

(** [rab_fsync_parent_dir]: duplicate the path, open the directory, sync it. *)
Definition rab_fsync_parent_dir (path : string) : M world bool :=
  let! dup := ask e_ok in
  if negb dup then mreturn false
  else let! opened := ask e_ok in
       if negb opened then mreturn false
       else let! ok := ask e_ok in
            if ok then on_fs sync_dir ;;; mreturn true else mreturn false.

(** [rab_sink_open], past the open itself: refuse a world-writable sink, make a
    created entry durable. *)
Definition sink_open_finish (path : string) (ino : nat) (created : bool)
  : M world (option nat) :=
  let! st := sys_fstat ino in
  match st with
  | None => mreturn None
  | Some i =>
      if negb (Z.land (i_mode i) S_IWOTH =? 0) then mreturn None
      else if created then
        let! ok := rab_fsync_parent_dir path in
        mreturn (if ok then Some ino else None)
      else mreturn (Some ino)
  end.

Definition rab_sink_open (path : string) : M world (option nat) :=
  let! r := sys_open_excl path in
  match r with
  | OpenFd ino =>
      let! ok := sys_fchmod ino 416 (* 0640 *) in
      if negb ok then mreturn None else sink_open_finish path ino true
  | OpenEexist =>
      let! r2 := sys_open_nofollow path in
      match r2 with
      | OpenFd ino => sink_open_finish path ino false
      | _ => mreturn None
      end
  | _ => mreturn None
  end.

(** [rab_sink_append]: one line under the advisory lock, then [fdatasync]. *)
Definition rab_sink_append (ino : nat) (record : bytes) : M world bool :=
  if has_nl record then mreturn false
  else
    let! locked := ask e_ok in
    if negb locked then mreturn false
    else
      let! ok := sys_write_full ino record in
      if negb ok then mreturn false
      else let! ok2 := sys_write_full ino [nl] in
           if negb ok2 then mreturn false
           else sys_fdatasync ino.
End Calls.

(** ** Facts *)

(** The contents of an inode ([[]] when absent). *)
Definition file_data (f : fsys) (ino : nat) : bytes :=
  match fs_ino f !! ino with Some i => i_data i | None => [] end.

Definition file_durable (f : fsys) (ino : nat) : bytes :=
  match fs_ino f !! ino with Some i => i_durable i | None => [] end.

(** [w2] differs from [w1] at most in the contents of [ino], which grew by [p]. *)
Definition grew (ino : nat) (p : bytes) (w1 w2 : world) : Prop :=
  fs_dir (w_fs w2) = fs_dir (w_fs w1) ∧
  fs_ddir (w_fs w2) = fs_ddir (w_fs w1) ∧
  fs_next (w_fs w2) = fs_next (w_fs w1) ∧
  (∀ j, j ≠ ino → fs_ino (w_fs w2) !! j = fs_ino (w_fs w1) !! j) ∧
  (∀ i, fs_ino (w_fs w1) !! ino = Some i →
     ∃ i', fs_ino (w_fs w2) !! ino = Some i' ∧ i_data i' = i_data i ++ p ∧
           i_kind i' = i_kind i ∧ i_mode i' = i_mode i ∧ i_uid i' = i_uid i).

Lemma grew_refl ino t w : grew ino [] w (World t (w_fs w)).
Proof.
  unfold grew. simpl. split_and!; try done. intros i Hi. exists i. by rewrite app_nil_r.
Qed.

Lemma grew_trans ino p q w1 w2 w3 :
  grew ino p w1 w2 → grew ino q w2 w3 → grew ino (p ++ q) w1 w3.
Proof.
  intros (D1 & E1 & N1 & O1 & I1) (D2 & E2 & N2 & O2 & I2).
  unfold grew. split_and!; try congruence.
  - intros j Hj. rewrite O2, O1 by done. done.
  - intros i Hi. destruct (I1 _ Hi) as (i1 & Hi1 & Hd1 & ? & ? & ?).
    destruct (I2 _ Hi1) as (i2 & Hi2 & Hd2 & ? & ? & ?).
    exists i2. rewrite Hd2, Hd1, app_assoc. split_and!; congruence.
Qed.

Lemma grew_tick ino p w1 w2 t : grew ino p w1 w2 → grew ino p w1 (World t (w_fs w2)).
Proof. done. Qed.

Lemma grew_data ino p w1 w2 i :
  grew ino p w1 w2 → fs_ino (w_fs w1) !! ino = Some i →
  file_data (w_fs w2) ino = file_data (w_fs w1) ino ++ p.
Proof.
  intros (_ & _ & _ & _ & H) Hi. destruct (H _ Hi) as (i' & Hi' & Hd & _).
  unfold file_data. by rewrite Hi, Hi'.
Qed.

Lemma has_nl_false b : has_nl b = false ↔ nl ∉ b.
Proof.
  unfold has_nl. rewrite <- not_true_iff_false, existsb_exists.
  setoid_rewrite Ascii.eqb_eq. split.
  - intros H Hin. apply H. exists nl. by rewrite <- list_elem_of_In.
  - intros H (c & Hin & <-). apply H. by apply list_elem_of_In.
Qed.

Section SinkFacts.
Context {E : env}.

Lemma wp_ask {A} (f : nat → A) (Q : A → world → Prop) w :
  Q (f (w_tick w)) (World (S (w_tick w)) (w_fs w)) → wp (ask f) Q w.
Proof. done. Qed.

Lemma grew_ask ino p w0 w : grew ino p w0 w → grew ino p w0 (World (S (w_tick w)) (w_fs w)).
Proof. done. Qed.

Lemma grew_app ino p q w0 w1 w2 r :
  grew ino p w0 w1 → grew ino q w1 w2 → r = p ++ q → grew ino r w0 w2.
Proof. intros ? ? ->. by eapply grew_trans. Qed.

Lemma write_full_grew ino b w :
  wp (sys_write_full ino b)
     (λ ok w', ∃ p, grew ino p w w' ∧ (∃ r, b = p ++ r) ∧ (ok = true → p = b)) w.
Proof.
  unfold sys_write_full. apply wp_bind, wp_ask.
  pose proof (write_full_prefix (e_write (w_tick w)) b) as Hp.
  pose proof (write_full_ok (e_write (w_tick w)) b) as Hok.
  destruct (rab_write_full (e_write (w_tick w)) b) as [out ok]. simpl in *.
  apply wp_bind, wp_modify, wp_ret. exists out. split_and!; [|done|done].
  unfold grew, write_data, set_ino. simpl. split_and!; try done.
  - intros j Hj. by rewrite lookup_alter_ne.
  - intros i Hi. rewrite lookup_alter_eq, Hi. simpl. eauto 10.
Qed.

Lemma sync_grew ino p w0 w :
  grew ino p w0 w → grew ino p w0 (set_fs w (sync_data ino (w_fs w))).
Proof.
  intros (D & DD & N & O & I). unfold grew, sync_data, set_ino. simpl.
  split_and!; try done.
  - intros j Hj. rewrite lookup_alter_ne by done. by apply O.
  - intros i Hi. destruct (I _ Hi) as (i' & Hi' & Hd & ? & ? & ?).
    rewrite lookup_alter_eq, Hi'. simpl. eexists. split; [done|]. simpl. done.
Qed.

Lemma sync_durable ino f : file_durable (sync_data ino f) ino = file_data (sync_data ino f) ino.
Proof.
  unfold file_durable, file_data, sync_data, set_ino. simpl.
  rewrite lookup_alter_eq. by destruct (fs_ino f !! ino).
Qed.

(** The outcome of appending [rec]: the file grows by a prefix [p] of the line,
    by the whole line on success, and on success its contents are durable. *)
Definition append_post (ino : nat) (rec : bytes) (w : world) (ok : bool) (w' : world) : Prop :=
  ∃ p, grew ino p w w' ∧ (∃ r, rec ++ [nl] = p ++ r) ∧
    (ok = true → p = rec ++ [nl] ∧ has_nl rec = false ∧
                 file_durable (w_fs w') ino = file_data (w_fs w') ino).

Lemma sink_append_spec ino rec w : wp (rab_sink_append ino rec) (append_post ino rec w) w.
Proof.
  assert (Hstay : ∀ t, append_post ino rec w false (World t (w_fs w))).
  { intros t. exists []. split_and!; [apply grew_refl|by eexists|done]. }
  unfold rab_sink_append. destruct (has_nl rec) eqn:Hnl.
  { apply wp_ret. destruct w. apply Hstay. }
  apply wp_bind, wp_ask. destruct (e_ok (w_tick w)); cbn [negb]; [|apply wp_ret, Hstay].
  apply wp_bind. eapply wp_mono; [apply write_full_grew|].
  intros ok w2 (p1 & G1 & (r1 & R1) & Ok1).
  assert (G0 : grew ino p1 w w2) by (eapply grew_app; [apply grew_refl|exact G1|done]).
  destruct ok; cbn [negb].
  2: { apply wp_ret. exists p1. split_and!; [done| |done]. exists (r1 ++ [nl]).
       by rewrite R1, app_assoc. }
  rewrite (Ok1 eq_refl) in *.
  apply wp_bind. eapply wp_mono; [apply write_full_grew|].
  intros ok2 w3 (p2 & G2 & (r2 & R2) & Ok2).
  assert (G3 : grew ino (rec ++ p2) w w3) by (by eapply grew_app).
  destruct ok2; cbn [negb].
  2: { apply wp_ret. exists (rec ++ p2). split_and!; [done| |done]. exists r2.
       by rewrite R2, app_assoc. }
  rewrite (Ok2 eq_refl) in *. unfold sys_fdatasync. apply wp_bind, wp_ask.
  destruct (e_ok (w_tick w3)).
  - apply wp_bind, wp_modify, wp_ret. exists (rec ++ [nl]). split_and!.
    + apply sync_grew. by apply grew_ask.
    + exists []. by rewrite app_nil_r.
    + intros _. split_and!; [done|done|apply sync_durable].
  - apply wp_ret. exists (rec ++ [nl]).
    split_and!; [done|exists []; by rewrite app_nil_r|done].
Qed.

(** ** Facts: opening the sink *)

(** [ino] is a regular file at [path] that others cannot write. *)
Definition safe_sink (path : string) (ino : nat) (f : fsys) : Prop :=
  fs_dir f !! path = Some ino ∧
  ∃ i, fs_ino f !! ino = Some i ∧ i_kind i = KReg ∧ Z.land (i_mode i) S_IWOTH = 0.

Lemma sink_open_finish_spec path ino created w i :
  fs_dir (w_fs w) !! path = Some ino → fs_ino (w_fs w) !! ino = Some i → i_kind i = KReg →
  wp (sink_open_finish path ino created)
     (λ r w', fs_ino (w_fs w') = fs_ino (w_fs w) ∧ fs_dir (w_fs w') = fs_dir (w_fs w) ∧
              (∀ j, r = Some j → j = ino ∧ safe_sink path ino (w_fs w') ∧
                 (created = true → fs_ddir (w_fs w') !! path = Some ino))) w.
Proof.
  intros Hd Hi Hk. unfold sink_open_finish, sys_fstat.
  apply wp_bind, wp_bind, wp_ask, wp_bind, wp_get, wp_ret.
  destruct (e_ok (w_tick w)); simpl; [|by apply wp_ret].
  rewrite Hi. destruct (Z.land (i_mode i) S_IWOTH =? 0) eqn:Hm; bool_hyps; simpl;
    [|by apply wp_ret].
  assert (Hsafe : safe_sink path ino (w_fs w)) by (split; [done|eauto]).
  destruct created; [|apply wp_ret; naive_solver].
  unfold rab_fsync_parent_dir. apply wp_bind, wp_bind, wp_ask.
  case_goal; simpl; [by apply wp_ret, wp_ret|].
  apply wp_bind, wp_ask. case_goal; simpl; [by apply wp_ret, wp_ret|].
  apply wp_bind, wp_ask. case_goal; [|by apply wp_ret, wp_ret].
  apply wp_bind, wp_modify, wp_ret, wp_ret. simpl. naive_solver.
Qed.
End SinkFacts.

(** ** Properties *)


Definition wit_env : env :=
  Env (λ n, 1000000 + Z.of_nat n) (λ n, Some (Timespec 1 0)) (λ n, [RndBytes [byte_of (Z.of_nat n)]])
      (λ n, Some 5) (λ n, Some "boot"%string) (λ n, Some (1000, 4096)) (λ n, []) (λ n, true) (λ n, true) (λ n, true) (λ n, true) 0.

Definition wit_world : world := World 0 (Fs ∅ ∅ ∅ 0).


(** C37. Appending is all-or-torn: whatever the kernel does, the file ends with
    a prefix of the line (nothing else in the file system changes), and success
    means the complete line with its newline is in the file and durable. *)
Theorem sink_append_atomic {E : env} ino rec w i :
  fs_ino (w_fs w) !! ino = Some i →
  wp (rab_sink_append ino rec)
     (λ ok w', ∃ p r, rec ++ [nl] = p ++ r ∧ grew ino p w w' ∧
        file_data (w_fs w') ino = file_data (w_fs w) ino ++ p ∧
        (ok = true → r = [] ∧ nl ∉ rec ∧
           file_durable (w_fs w') ino = file_data (w_fs w) ino ++ rec ++ [nl])) w.
Proof.
  intros Hi. eapply wp_mono; [apply sink_append_spec|].
  intros ok w' (p & G & (r & R) & Hok). exists p, r.
  pose proof (grew_data _ _ _ _ _ G Hi) as Hd. split_and!; try done.
  intros ->. destruct (Hok eq_refl) as (-> & Hnl & Hdur).
  split_and!; [|by apply has_nl_false|congruence].
  apply (app_inv_head (rec ++ [nl])). by rewrite <- R, app_nil_r.
Qed.

Lemma sink_append_atomic_witness :
  let w := World 0 (Fs ∅ ∅ {[3%nat := Inode KReg 416 0 [byte_of 65; nl] []]} 4) in
  wp (@rab_sink_append wit_env 3 [byte_of 66])
     (λ ok w', ok = true ∧ file_durable (w_fs w') 3 = [byte_of 65; nl; byte_of 66; nl]) w.
Proof.
  intros w. pose proof (@sink_append_atomic wit_env 3 [byte_of 66] w _
                          ltac:(vm_compute; reflexivity)) as H.
  unfold wp in *. destruct H as (p & r & _ & _ & _ & H).
  assert (Hok : (@rab_sink_append wit_env 3 [byte_of 66] w).1 = true)
    by (vm_compute; reflexivity).
  split; [exact Hok|]. destruct (H Hok) as (_ & _ & ->). vm_compute. reflexivity.
Defined.
