(* ===== verification/Request.v ===== *)
(** * Requests and responses (json.c)

    [rab_parse_request]: the strict grammar of the five request types over a
    Jansson value, and the canonical response objects. *)

From stdpp Require Import base gmap strings list.
From Stdlib Require Import ZArith Lia SpecFloat.
From S2P Require Import Prelude CString Jansson Proto.

Local Open Scope string_scope.
Local Open Scope Z_scope.

Definition RAB_MAX_DEPTH : Z := 8.
Definition RAB_BINDING_STR_MAX : Z := 128.
Definition RAB_REDEEM_STR_MAX : Z := 128.
Definition RAB_EFFECT_RECEIPT_VERSION : Z := 1.
Definition RAB_PLAN_SCHEMA_V1 : Z := 1.
Definition RAB_RECORD_SCHEMA_VERSION : Z := 1.

(** ** The record schema *)

Inductive field_type := T_STRING | T_BOOL | T_NUMBER | T_OBJECT.

Record field_spec := FieldSpec { f_key : string; f_type : field_type; f_required : bool }.

Definition RECORD_SCHEMA : list field_spec :=
  [FieldSpec "operation" T_STRING true;
   FieldSpec "outcome" T_STRING true;
   FieldSpec "resource" T_STRING false;
   FieldSpec "scope" T_STRING false;
   FieldSpec "audit_scope" T_STRING false;
   FieldSpec "authorized_via" T_STRING false;
   FieldSpec "completion_method" T_STRING false;
   FieldSpec "job_result" T_STRING false;
   FieldSpec "observed_reason" T_STRING false;
   FieldSpec "preview" T_BOOL false;
   FieldSpec "effect_issued" T_BOOL false;
   FieldSpec "changed" T_BOOL false;
   FieldSpec "state_changed" T_BOOL false;
   FieldSpec "observed_failed" T_BOOL false;
   FieldSpec "elapsed" T_NUMBER false;
   FieldSpec "observed" T_OBJECT false].

Fixpoint find_field_in (l : list field_spec) (key : string) : option field_spec :=
  match l with
  | [] => None
  | f :: l' => if strcmp_eq (f_key f) key then Some f else find_field_in l' key
  end.

Definition find_field (key : string) : option field_spec := find_field_in RECORD_SCHEMA key.

Definition type_ok (t : field_type) (v : jptr) : bool :=
  if json_is_null v then true
  else match t with
       | T_STRING => json_is_string v
       | T_BOOL => json_is_boolean v
       | T_NUMBER => json_is_number v && SFleb (S754_zero false) (json_number_value v)
       | T_OBJECT => json_is_object v
       end.

Definition record_valid (record : jptr) : bool :=
  if negb (json_is_object record) then false
  else if negb (forallb (λ kv, match find_field (fst kv) with
                               | None => false
                               | Some f => type_ok (f_type f) (Some (snd kv))
                               end) (json_members record)) then false
  else forallb (λ f, if f_required f then
                       match json_object_get record (f_key f) with
                       | None => false
                       | Some v => negb (json_is_null (Some v))
                       end
                     else true) RECORD_SCHEMA.

(** [only_keys]: no member outside the allowed set. *)
Definition only_keys (obj : jptr) (allowed : list string) : bool :=
  forallb (λ kv, existsb (λ a, strcmp_eq (fst kv) a) allowed) (json_members obj).

Definition is_hex64 (s : string) : bool := is_hex_lc_n s 64.

(** ** Effect objects *)

Definition effect_valid (e : jptr) : bool :=
  if negb (json_is_object e) then false
  else if negb (only_keys e ["required"; "plan_schema"; "plan_hash"]) then false
  else
    let req := json_object_get e "required" in
    let ps := json_object_get e "plan_schema" in
    let ph := json_object_get e "plan_hash" in
    if negb (json_is_true req) || negb (json_is_integer ps)
       || negb (json_integer_value ps =? RAB_PLAN_SCHEMA_V1) || negb (json_is_string ph)
    then false
    else is_hex64 (json_string_value ph).

Definition redeem_effect_valid (e : jptr) : bool :=
  if negb (json_is_object e) then false
  else if negb (only_keys e ["operation"; "resource"; "plan_schema"; "plan_hash"]) then false
  else
    let op := json_object_get e "operation" in
    let rs := json_object_get e "resource" in
    let ps := json_object_get e "plan_schema" in
    let ph := json_object_get e "plan_hash" in
    if negb (json_is_string op) || negb (json_is_string rs) || negb (json_is_integer ps)
       || negb (json_integer_value ps =? RAB_PLAN_SCHEMA_V1) || negb (json_is_string ph)
    then false
    else if (RAB_REDEEM_STR_MAX <=? strlen (json_string_value op))
            || (RAB_REDEEM_STR_MAX <=? strlen (json_string_value rs))
    then false
    else is_hex64 (json_string_value ph).

(** ** Parsed requests *)

Inductive rab_req_type :=
| RAB_REQ_OPEN_INTENT | RAB_REQ_WRITE_OUTCOME | RAB_REQ_EMIT | RAB_REQ_CAPABILITIES
| RAB_REQ_REDEEM.

Record rab_request := Request {
  rq_type : rab_req_type;
  rq_binding : string;
  rq_phase : string;
  rq_effect_present : bool;
  rq_effect_plan_schema : Z;
  rq_effect_plan_hash : string;
  rq_effect_receipt : string;
  rq_redeem_principal_uid : Z;
  rq_redeem_verb : string;
  rq_redeem_resource : string;
  rq_redeem_plan_schema : Z;
  rq_redeem_plan_hash : string;
  rq_record : jptr
}.

(** The fields every branch leaves at their initial value. *)
Definition plain_request (t : rab_req_type) (binding phase : string) (record : jptr)
  : rab_request :=
  Request t binding phase false 0 "" "" 0 "" "" 0 "" record.

Abbreviation parsed := (rab_request + string)%type.

Definition schema_invalid : parsed := inr "schema_invalid".

Definition parse_open (root : jptr) : parsed :=
  let record := json_object_get root "record" in
  let effect := json_object_get root "effect" in
  if negb (only_keys root ["type"; "record"; "effect"]) || negb (json_is_object record)
     || negb (record_valid record)
  then schema_invalid
  else match effect with
       | None => inl (plain_request RAB_REQ_OPEN_INTENT "" "" record)
       | Some _ =>
           if negb (effect_valid effect) then schema_invalid
           else inl (Request RAB_REQ_OPEN_INTENT "" "" true
                       (json_integer_value (json_object_get effect "plan_schema"))
                       (snprintf_s 65 (json_string_value (json_object_get effect "plan_hash")))
                       "" 0 "" "" 0 "" record)
       end.

Definition parse_outcome (root : jptr) : parsed :=
  let record := json_object_get root "record" in
  let jbind := json_object_get root "binding" in
  if negb (only_keys root ["type"; "binding"; "record"]) || negb (json_is_string jbind)
     || negb (json_is_object record) || negb (record_valid record)
  then schema_invalid
  else let b := json_string_value jbind in
       if RAB_BINDING_STR_MAX <=? strlen b then schema_invalid
       else inl (plain_request RAB_REQ_WRITE_OUTCOME b "" record).

Definition parse_emit (root : jptr) : parsed :=
  let record := json_object_get root "record" in
  let jphase := json_object_get root "phase" in
  if negb (only_keys root ["type"; "phase"; "record"]) || negb (json_is_string jphase)
     || negb (json_is_object record) || negb (record_valid record)
  then schema_invalid
  else let ph := json_string_value jphase in
       if (negb (strcmp_eq ph "preview") && negb (strcmp_eq ph "noop"))
          || (16 <=? strlen ph)
       then schema_invalid
       else if json_is_true (json_object_get record "effect_issued") then schema_invalid
       else inl (plain_request RAB_REQ_EMIT "" ph record).

Definition parse_capabilities (root : jptr) : parsed :=
  if negb (only_keys root ["type"]) then schema_invalid
  else inl (plain_request RAB_REQ_CAPABILITIES "" "" (json_object_get root "record")).

Definition parse_redeem (root : jptr) : parsed :=
  let jtok := json_object_get root "effect_receipt" in
  let jprin := json_object_get root "principal_uid" in
  let jeff := json_object_get root "effect" in
  if negb (only_keys root ["type"; "effect_receipt"; "principal_uid"; "effect"])
     || negb (json_is_string jtok) || negb (json_is_integer jprin)
     || negb (redeem_effect_valid jeff)
  then schema_invalid
  else let tok := json_string_value jtok in
       if negb (is_hex_lc_n tok 32) then schema_invalid
       else let prin := json_integer_value jprin in
            if (prin <? 0) || negb (u32 prin =? prin) then schema_invalid
            else inl (Request RAB_REQ_REDEEM "" "" false 0 "" tok (u32 prin)
                        (snprintf_s RAB_REDEEM_STR_MAX
                           (json_string_value (json_object_get jeff "operation")))
                        (snprintf_s RAB_REDEEM_STR_MAX
                           (json_string_value (json_object_get jeff "resource")))
                        (json_integer_value (json_object_get jeff "plan_schema"))
                        (snprintf_s 65 (json_string_value (json_object_get jeff "plan_hash")))
                        (json_object_get root "record")).

(** Dispatch on the request type. *)
Definition parse_typed (type : string) (root : jptr) : parsed :=
  if strcmp_eq type "open_intent" then parse_open root
  else if strcmp_eq type "write_outcome" then parse_outcome root
  else if strcmp_eq type "emit" then parse_emit root
  else if strcmp_eq type "capabilities" then parse_capabilities root
  else if strcmp_eq type "redeem_receipt" then parse_redeem root
  else inr "unknown_request".

(** ** Responses *)

(** The response a handler chooses; [render] builds and prints it. *)
Inductive response :=
| RespOpenOk (cid binding scope : string) (receipt : option string)
| RespOutcomeOk
| RespRedeemOk (cid : string)
| RespEmitOk (cid scope : string)
| RespCapabilities
| RespError (code message : string).

(** A member set with its result ignored. *)
Definition put (k : string) (v : jptr) (kvs : list (string * json)) : list (string * json) :=
  match v with Some j => assoc_set k j kvs | None => kvs end.

Section Requests.
Context `{Jansson}.

Definition rab_parse_request (body : bytes) : parsed :=
  match json_loadb body with
  | None => inr "bad_json"
  | Some v =>
      let root := Some v in
      if negb (json_is_object root) || (RAB_MAX_DEPTH <? rab_json_depth v) then schema_invalid
      else let jtype := json_object_get root "type" in
           if negb (json_is_string jtype) then schema_invalid
           else parse_typed (json_string_value jtype) root
  end.

Definition open_ok_object (cid binding audit_scope : string) (receipt : option string) : json :=
  let o := put "ok" (json_bool true) [] in
  let o := put "correlation_id" (json_string cid) o in
  let o := put "binding" (json_string binding) o in
  let o := match receipt with Some t => put "effect_receipt" (json_string t) o | None => o end in
  let o := put "persisted" (json_bool true) o in
  JObject (put "audit_scope" (json_string audit_scope) o).

Definition redeem_ok_object (cid : string) : json :=
  JObject (put "persisted" (json_bool true)
             (put "correlation_id" (json_string cid) (put "ok" (json_bool true) []))).

Definition outcome_ok_object : json :=
  JObject (put "persisted" (json_bool true) (put "ok" (json_bool true) [])).

Definition emit_ok_object (cid audit_scope : string) : json :=
  let o := put "ok" (json_bool true) [] in
  let o := put "correlation_id" (json_string cid) o in
  let o := put "persisted" (json_bool true) o in
  JObject (put "audit_scope" (json_string audit_scope) o).

Definition capabilities_object : json :=
  let o := put "ok" (json_bool true) [] in
  let o := put "frame_version" (json_integer RAB_PROTO_VERSION) o in
  let o := put "record_schema_version" (json_integer RAB_RECORD_SCHEMA_VERSION) o in
  let ext := put "effect_receipt" (json_integer RAB_EFFECT_RECEIPT_VERSION) [] in
  let o := put "extensions" (Some (JObject ext)) o in
  JObject (put "plan_schemas" (Some (JArray [JInteger RAB_PLAN_SCHEMA_V1])) o).

Definition error_object (code message : string) : json :=
  let o := put "ok" (json_bool false) [] in
  let o := put "error" (json_string code) o in
  JObject (put "message" (json_string message) o).

(** [dump_compact]: compact, sorted keys. *)
Definition dump_compact (o : json) : option string := json_dumps true o.

Definition response_object (r : response) : json :=
  match r with
  | RespOpenOk cid binding scope receipt => open_ok_object cid binding scope receipt
  | RespOutcomeOk => outcome_ok_object
  | RespRedeemOk cid => redeem_ok_object cid
  | RespEmitOk cid scope => emit_ok_object cid scope
  | RespCapabilities => capabilities_object
  | RespError code message => error_object code message
  end.

Definition render (r : response) : option string := dump_compact (response_object r).
End Requests.

(** ** What an accepted request satisfies *)

(** The keys the broker stamps itself. *)
Definition broker_owned : list string :=
  ["schema_version"; "record_type"; "correlation_id"; "phase"; "host"; "pid"; "actor";
   "time"; "broker"].

Definition domain_keys : list string := map f_key RECORD_SCHEMA.

(** A record the schema admits: an object with allowlisted keys only, both
    required members present as strings. *)
Definition admissible_record (r : jptr) : Prop :=
  ∃ kvs op out, r = Some (JObject kvs) ∧
    (∀ k, k ∈ map fst kvs → k ∈ domain_keys) ∧
    assoc_get "operation" kvs = Some (JString op) ∧
    assoc_get "outcome" kvs = Some (JString out).

Definition request_ok (q : rab_request) : Prop :=
  match rq_type q with
  | RAB_REQ_OPEN_INTENT =>
      admissible_record (rq_record q) ∧
      (rq_effect_present q = true →
         rq_effect_plan_schema q = RAB_PLAN_SCHEMA_V1 ∧
         is_hex64 (rq_effect_plan_hash q) = true)
  | RAB_REQ_WRITE_OUTCOME =>
      admissible_record (rq_record q) ∧ strlen (rq_binding q) < RAB_BINDING_STR_MAX
  | RAB_REQ_EMIT =>
      admissible_record (rq_record q) ∧
      (rq_phase q = "preview" ∨ rq_phase q = "noop") ∧
      json_is_true (json_object_get (rq_record q) "effect_issued") = false
  | RAB_REQ_CAPABILITIES => rq_record q = None
  | RAB_REQ_REDEEM =>
      rq_record q = None ∧ is_hex_lc_n (rq_effect_receipt q) 32 = true ∧
      0 ≤ rq_redeem_principal_uid q < 2 ^ 32 ∧
      strlen (rq_redeem_verb q) < RAB_REDEEM_STR_MAX ∧
      strlen (rq_redeem_resource q) < RAB_REDEEM_STR_MAX ∧
      rq_redeem_plan_schema q = RAB_PLAN_SCHEMA_V1 ∧
      is_hex64 (rq_redeem_plan_hash q) = true
  end.

(** ** Facts *)

Lemma find_field_key k f : find_field k = Some f → f_key f = k ∧ k ∈ domain_keys.
Proof.
  unfold find_field, domain_keys. induction RECORD_SCHEMA as [|g l IH]; simpl; [done|].
  destruct (strcmp_eq (f_key g) k) eqn:Hk.
  - intros [= <-]. apply String.eqb_eq in Hk. subst k. set_solver.
  - intros Hf. apply IH in Hf. set_solver.
Qed.

Lemma domain_keys_not_owned k : k ∈ domain_keys → k ∉ broker_owned.
Proof. intros Hk. cbv in Hk. set_solver. Qed.

Lemma snprintf_hex64 s : is_hex64 s = true → snprintf_s 65 s = s.
Proof.
  intros Hs. apply snprintf_s_fits. apply is_hex_lc_n_length in Hs.
  unfold strlen. rewrite Hs. done.
Qed.

Lemma record_valid_admissible r : record_valid r = true → admissible_record r.
Proof.
  unfold record_valid. destruct r as [[]|]; try done.
  cbn [json_is_object negb json_members].
  destruct (forallb _ kvs) eqn:Hall; [|done]. cbn [negb]. intros Hreq.
  assert (Hkeys : ∀ k v, (k, v) ∈ kvs → ∃ f, find_field k = Some f ∧ type_ok (f_type f) (Some v) = true).
  { intros k v Hin. pose proof (forallb_elem _ _ _ Hall Hin) as Hx. simpl in Hx.
    destruct (find_field k) as [f|]; [eauto|done]. }
  assert (Hstr : ∀ k, find_field k = Some (FieldSpec k T_STRING true) →
            match assoc_get k kvs with None => false | Some v => negb (json_is_null (Some v)) end = true →
            ∃ s, assoc_get k kvs = Some (JString s)).
  { intros k Hf Hg. destruct (assoc_get k kvs) as [v|] eqn:Ha; [|done].
    apply assoc_get_In in Ha. destruct (Hkeys _ _ Ha) as (f & Hf' & Ht).
    rewrite Hf in Hf'. injection Hf' as <-. unfold type_ok in Ht. simpl in Ht.
    destruct v; simpl in *; try done. eauto. }
  assert (Hin : ∀ f, f ∈ RECORD_SCHEMA → f_required f = true →
            match assoc_get (f_key f) kvs with None => false | Some v => negb (json_is_null (Some v)) end
            = true).
  { intros f Hf Hr. pose proof (forallb_elem _ _ _ Hreq Hf) as Hx. simpl in Hx.
    by rewrite Hr in Hx. }
  destruct (Hstr "operation") as [op Hop];
    [done|apply (Hin (FieldSpec "operation" T_STRING true)); [left|done]|].
  destruct (Hstr "outcome") as [out Hout];
    [done|apply (Hin (FieldSpec "outcome" T_STRING true)); [right; left|done]|].
  exists kvs, op, out. split_and!; try done.
  intros k Hk. apply list_elem_of_In, in_map_iff in Hk as ((k' & v) & <- & Hkv).
  apply list_elem_of_In in Hkv. destruct (Hkeys _ _ Hkv) as (f & Hf & _).
  apply find_field_key in Hf as [_ Hdom]. exact Hdom.
Qed.

Lemma only_keys_spec kvs allowed k v :
  only_keys (Some (JObject kvs)) allowed = true → assoc_get k kvs = Some v → k ∈ allowed.
Proof.
  unfold only_keys. simpl. intros Ha Hg. apply assoc_get_In in Hg.
  pose proof (forallb_elem _ _ _ Ha Hg) as Hx. simpl in Hx.
  apply existsb_exists in Hx as (a & Hin & Heq). apply String.eqb_eq in Heq. subst a.
  by apply list_elem_of_In.
Qed.

Lemma effect_valid_fields e :
  effect_valid e = true →
  json_integer_value (json_object_get e "plan_schema") = RAB_PLAN_SCHEMA_V1 ∧
  is_hex64 (json_string_value (json_object_get e "plan_hash")) = true.
Proof. unfold effect_valid. intros Hv. inv_guards Hv. by bool_hyps. Qed.

Lemma redeem_effect_valid_fields e :
  redeem_effect_valid e = true →
  strlen (json_string_value (json_object_get e "operation")) < RAB_REDEEM_STR_MAX ∧
  strlen (json_string_value (json_object_get e "resource")) < RAB_REDEEM_STR_MAX ∧
  json_integer_value (json_object_get e "plan_schema") = RAB_PLAN_SCHEMA_V1 ∧
  is_hex64 (json_string_value (json_object_get e "plan_hash")) = true.
Proof. unfold redeem_effect_valid. intros Hv. inv_guards Hv. by bool_hyps. Qed.

Lemma parse_open_ok root q : parse_open root = inl q → request_ok q.
Proof.
  unfold parse_open, schema_invalid. intros Hp. inv_guards Hp; simplify_eq; bool_hyps.
  - apply effect_valid_fields in Heqb0 as [? ?]. unfold request_ok. simpl.
    split; [by apply record_valid_admissible|]. intros _. by rewrite snprintf_hex64.
  - split; [by apply record_valid_admissible|done].
Qed.

Lemma parse_outcome_ok root q : parse_outcome root = inl q → request_ok q.
Proof.
  unfold parse_outcome, schema_invalid. intros Hp. inv_guards Hp; simplify_eq; bool_hyps.
  split; [by apply record_valid_admissible|done].
Qed.

Lemma parse_emit_ok root q : parse_emit root = inl q → request_ok q.
Proof.
  unfold parse_emit, schema_invalid. intros Hp. inv_guards Hp; simplify_eq; bool_hyps.
  unfold request_ok. simpl. split_and!; [by apply record_valid_admissible| |done].
  destruct (strcmp_eq _ "preview") eqn:E1; bool_hyps; [by left|].
  destruct (strcmp_eq _ "noop") eqn:E2; bool_hyps; [by right|done].
Qed.

Lemma parse_capabilities_ok root q :
  json_is_object root = true → parse_capabilities root = inl q → request_ok q.
Proof.
  unfold parse_capabilities, schema_invalid. intros Ho Hp. inv_guards Hp; simplify_eq; bool_hyps.
  unfold request_ok. simpl. destruct root as [[]|]; try done. unfold json_object_get. simpl.
  destruct (assoc_get "record" kvs) eqn:Hg; [|done].
  pose proof (only_keys_spec _ _ _ _ Heqb Hg). set_solver.
Qed.

Lemma parse_redeem_record root q :
  json_is_object root = true → parse_redeem root = inl q → rq_record q = None.
Proof.
  unfold parse_redeem, schema_invalid. intros Ho Hp. inv_guards Hp; simplify_eq; bool_hyps. simpl.
  destruct root as [[]|]; try done. unfold json_object_get. simpl.
  destruct (assoc_get "record" kvs) eqn:Hg; [|done].
  match goal with Hk : only_keys _ _ = true |- _ => pose proof (only_keys_spec _ _ _ _ Hk Hg) end.
  set_solver.
Qed.

Lemma parse_redeem_ok root q :
  json_is_object root = true → parse_redeem root = inl q → request_ok q.
Proof.
  intros Ho Hp. pose proof (parse_redeem_record _ _ Ho Hp) as Hrec.
  revert Hp Hrec. unfold parse_redeem, schema_invalid. intros Hp Hrec.
  inv_guards Hp; simplify_eq; bool_hyps.
  match goal with Hv : redeem_effect_valid _ = true |- _ =>
    apply redeem_effect_valid_fields in Hv as (? & ? & ? & ?) end.
  unfold request_ok. simpl in *.
  rewrite !snprintf_s_fits, snprintf_hex64 by done. split_and!; try done; apply u32_range.
Qed.

Lemma parse_typed_err type root code :
  parse_typed type root = inr code → code = "schema_invalid" ∨ code = "unknown_request".
Proof.
  unfold parse_typed, parse_open, parse_outcome, parse_emit, parse_capabilities, parse_redeem,
    schema_invalid.
  intros Hp. repeat (case_hyp Hp; try discriminate Hp); simplify_eq; auto.
Qed.

(** The types [parse_typed] knows. *)
Definition request_types : list string :=
  ["open_intent"; "write_outcome"; "emit"; "capabilities"; "redeem_receipt"].

Lemma parse_typed_unknown type root :
  parse_typed type root = inr "unknown_request" ↔ type ∉ request_types.
Proof.
  split.
  - intros Hp Hin. unfold request_types in Hin. revert Hp.
    unfold parse_typed, parse_open, parse_outcome, parse_emit, parse_capabilities, parse_redeem,
      schema_invalid.
    repeat (apply elem_of_cons in Hin as [->|Hin]); [..|set_solver];
      cbn [strcmp_eq String.eqb Ascii.eqb Bool.eqb]; repeat case_goal; congruence.
  - intros Hn. unfold parse_typed, strcmp_eq.
    repeat match goal with
    | |- context [String.eqb type ?s] =>
        destruct (String.eqb_spec type s) as [->|_]; [exfalso; apply Hn; set_solver|]
    end. done.
Qed.

(** What every branch of the parser hands out. *)
Lemma parse_typed_ok type root q :
  json_is_object root = true → parse_typed type root = inl q →
  request_ok q ∧ rq_record q = json_object_get root "record".
Proof.
  intros Ho Hp. split.
  - unfold parse_typed in Hp.
    repeat (case_hyp Hp; [by eauto using parse_open_ok, parse_outcome_ok, parse_emit_ok,
      parse_capabilities_ok, parse_redeem_ok|]). done.
  - revert Hp. unfold parse_typed, parse_open, parse_outcome, parse_emit, parse_capabilities,
      parse_redeem, schema_invalid. intros Hp.
    repeat (case_hyp Hp; try discriminate Hp); by simplify_eq.
Qed.

Lemma parse_request_ok `{Jansson} body q :
  rab_parse_request body = inl q →
  request_ok q ∧
  ∃ root, json_loadb body = Some (JObject root) ∧ rab_json_depth (JObject root) ≤ RAB_MAX_DEPTH ∧
          rq_record q = assoc_get "record" root.
Proof.
  unfold rab_parse_request, schema_invalid. intros Hp.
  destruct (json_loadb body) as [v|]; [|done].
  case_hyp Hp; [done|]. bool_hyps. case_hyp Hp; [done|].
  apply parse_typed_ok in Hp as [Hok Hrec]; [|done]. split; [done|].
  destruct v; try done. by eexists.
Qed.

(** The members of an accepted record. *)
Lemma admitted_record q kvs k :
  request_ok q → rq_record q = Some (JObject kvs) → k ∈ map fst kvs → k ∈ domain_keys.
Proof.
  intros Hok Hr Hk.
  assert (Hadm : admissible_record (rq_record q)).
  { unfold request_ok in Hok. rewrite Hr in *. destruct (rq_type q); done || by destruct Hok. }
  destruct Hadm as (kvs' & op & out & Hr' & Hdom & _). rewrite Hr in Hr'. injection Hr' as <-.
  by apply Hdom.
Qed.

(** ** Properties *)

Section RequestProperties.
Context `{Jansson}.


(** C25. A client cannot supply identity or any other broker-owned field: no
    accepted record has a member the broker stamps. *)
Theorem identity_not_accepted body q kvs k :
  rab_parse_request body = inl q → rq_record q = Some (JObject kvs) →
  k ∈ map fst kvs → k ∉ broker_owned.
Proof.
  intros [Hok _]%parse_request_ok Hr Hk. by eapply domain_keys_not_owned, admitted_record.
Qed.

End RequestProperties.

(** ** Bodies that satisfy the hypotheses *)

#[local] Existing Instance BitJansson.

Definition ex_members : list (string * json) :=
  [("operation", JString "restart"); ("outcome", JString "ok")].
Definition ex_body (type : string) : bytes :=
  bs (bit_dump (JObject [("type", JString type); ("record", JObject ex_members)])).
Definition ex_request : rab_request :=
  plain_request RAB_REQ_OPEN_INTENT "" "" (Some (JObject ex_members)).


Lemma identity_not_accepted_witness : "outcome" ∉ broker_owned.
Proof.
  apply (identity_not_accepted (ex_body "open_intent") ex_request ex_members "outcome").
  - by vm_compute.
  - reflexivity.
  - cbn. set_solver.
Defined.

