(* ===== verification/Peer.v ===== *)
(** * Peer identity (peer.c)

    The actor is the socket's credentials plus the boot id and the peer's start
    time, read from /proc.  A /proc file is the script of its reads. *)

From stdpp Require Import base gmap strings list.
From Stdlib Require Import ZArith Lia Ascii.
From S2P Require Import Prelude CString Proto.

Definition RAB_BOOT_ID_MAX : Z := 40.
Definition RAB_STARTTIME_MAX : Z := 24.

Record rab_actor := Actor {
  a_uid : Z;
  a_gid : Z;
  a_pid : Z;
  a_boot_id : string;
  a_starttime : string
}.

#[export] Instance rab_actor_eq_dec : EqDecision rab_actor.
Proof. solve_decision. Defined.

(** [rab_actor_eq]: every field equal. *)
Definition rab_actor_eq (a b : rab_actor) : bool :=
  (a_uid a =? a_uid b) && (a_gid a =? a_gid b) && (a_pid a =? a_pid b) &&
  strcmp_eq (a_boot_id a) (a_boot_id b) && strcmp_eq (a_starttime a) (a_starttime b).

(** [read_small]: the whole file, refused when it fills the buffer; [room] is
    [buflen - 1 - got]. *)
Fixpoint read_small_loop (script : list rd_event) (room : nat) : option bytes :=
  match room with
  | O => None
  | _ =>
      match script with
      | [] | RdData [] :: _ => Some []
      | RdEintr :: s => read_small_loop s room
      | (RdAgain | RdErr) :: _ => None
      | RdData b :: s =>
          if (room <? length b)%nat then None
          else match read_small_loop s (room - length b) with
               | Some r => Some (b ++ r)
               | None => None
               end
      end
  end.

Definition read_small (file : option (list rd_event)) (buflen : nat) : option bytes :=
  match file with None => None | Some script => read_small_loop script (buflen - 1) end.

Definition ch_cr : ascii := byte_of 13.
Definition ch_space : ascii := byte_of 32.
Definition ch_rparen : ascii := byte_of 41.

(** Drop trailing newlines and carriage returns. *)
Definition strip_eol (b : bytes) : bytes :=
  reverse ((fix go l := match l with
            | c :: l' => if Ascii.eqb c nl || Ascii.eqb c ch_cr then go l' else l
            | [] => [] end) (reverse b)).

Definition text (b : bytes) : string := String.string_of_list_ascii b.

Definition rab_boot_id (file : option (list rd_event)) (buflen : Z) : option string :=
  if buflen <? RAB_BOOT_ID_MAX then None
  else match read_small file 64 with
       | None | Some [] => None
       | Some raw =>
           let s := strip_eol raw in
           if (blen s =? 0) || (buflen <=? blen s) then None else Some (text s)
       end.

(** The bytes after the last [c]. *)
Fixpoint after_last (c : ascii) (l : bytes) : option bytes :=
  match l with
  | [] => None
  | x :: l' =>
      match after_last c l' with
      | Some r => Some r
      | None => if Ascii.eqb x c then Some l' else None
      end
  end.

Fixpoint skip_sp (l : bytes) : bytes :=
  match l with
  | c :: l' => if Ascii.eqb c ch_space then skip_sp l' else l
  | [] => []
  end.

(** A token and what follows it: it ends at a space or a newline. *)
Fixpoint take_tok (l : bytes) : bytes * bytes :=
  match l with
  | [] => ([], [])
  | c :: l' =>
      if Ascii.eqb c ch_space || Ascii.eqb c nl then ([], l)
      else let '(t, r) := take_tok l' in (c :: t, r)
  end.

(** The field loop: [k] fields are still to be passed; each iteration counts
    one, so there are at most 20. *)
Fixpoint field_loop (k : nat) (p : bytes) : option bytes :=
  match k with
  | O => None
  | S k' =>
      match skip_sp p with
      | [] => None
      | p' => let '(tok, rest) := take_tok p' in
              match k' with O => Some tok | _ => field_loop k' rest end
      end
  end.

Definition rab_proc_starttime (pid : Z) (file : option (list rd_event)) (buflen : Z)
  : option string :=
  if (buflen <? RAB_STARTTIME_MAX) || (pid <=? 0) then None
  else match read_small file 512 with
       | None | Some [] => None
       | Some raw =>
           match after_last ch_rparen raw with
           | None | Some [] => None
           | Some p =>
               match field_loop 20 p with
               | None => None
               | Some tok =>
                   if (blen tok =? 0) || (buflen <=? blen tok) then None
                   else if forallb is_digit tok then Some (text tok) else None
               end
           end
       end.

(** [rab_peer_identity]: credentials, boot id, start time; any failure fails. *)
Definition rab_peer_identity (cred : option (Z * Z * Z)) (boot stat : option (list rd_event))
  : option rab_actor :=
  match cred with
  | None => None
  | Some (uid, gid, pid) =>
      match rab_boot_id boot RAB_BOOT_ID_MAX with
      | None => None
      | Some bid =>
          match rab_proc_starttime pid stat RAB_STARTTIME_MAX with
          | None => None
          | Some st => Some (Actor uid gid pid bid st)
          end
      end
  end.

(** ** Facts *)

Lemma rab_actor_eq_spec a b : rab_actor_eq a b = true ↔ a = b.
Proof.
  destruct a, b. unfold rab_actor_eq. simpl. split.
  - intros H. bool_hyps. congruence.
  - intros [= -> -> -> -> ->]. unfold strcmp_eq. by rewrite !Z.eqb_refl, !String.eqb_refl.
Qed.

Lemma after_last_app c l r : c ∉ r → after_last c (l ++ c :: r) = Some r.
Proof.
  intros Hr. induction l as [|x l IH]; simpl.
  - assert (Hn : after_last c r = None).
    { induction r as [|y r IHr]; simpl; [done|]. rewrite IHr by set_solver.
      destruct (Ascii.eqb_spec y c); [set_solver|done]. }
    by rewrite Hn, Ascii.eqb_refl.
  - by rewrite IH.
Qed.

(** A field of /proc/<pid>/stat: non-empty, without separators. *)
Definition stat_field (f : bytes) : Prop :=
  f ≠ [] ∧ ch_space ∉ f ∧ nl ∉ f ∧ ch_rparen ∉ f.

(** The text after the command name: each field preceded by a space, then the
    newline. *)
Definition stat_tail (fields : list bytes) : bytes :=
  concat (map (cons ch_space) fields) ++ [nl].

Lemma take_tok_field f rest :
  ch_space ∉ f → nl ∉ f → (∃ c r, rest = c :: r ∧ (c = ch_space ∨ c = nl)) →
  take_tok (f ++ rest) = (f, rest).
Proof.
  intros Hs Hn (c & r & -> & Hc). induction f as [|x f IH]; simpl.
  - destruct Hc as [-> | ->]; done.
  - destruct (Ascii.eqb_spec x ch_space); [set_solver|].
    destruct (Ascii.eqb_spec x nl); [set_solver|]. simpl.
    by rewrite IH by set_solver.
Qed.

Lemma stat_tail_head fields : ∃ c r, stat_tail fields = c :: r ∧ (c = ch_space ∨ c = nl).
Proof. destruct fields as [|f fs]; unfold stat_tail; simpl; eauto. Qed.

Lemma field_loop_nth k fields f :
  Forall stat_field fields → fields !! k = Some f →
  field_loop (S k) (stat_tail fields) = Some f.
Proof.
  revert fields. induction k as [|k IH]; intros fields Hf Hk;
    (destruct fields as [|g fields]; [done|]); inversion Hf as [|? ? Hg Hf']; subst;
    destruct Hg as (Hne & Hsp & Hnl & _).
  all: destruct g as [|x g]; [done|].
  all: assert (Htail : stat_tail ((x :: g) :: fields) = ch_space :: ((x :: g) ++ stat_tail fields))
         by (unfold stat_tail; simpl; by rewrite <- app_assoc).
  all: rewrite Htail.
  all: assert (Hskip : skip_sp (ch_space :: ((x :: g) ++ stat_tail fields)) = (x :: g) ++ stat_tail fields)
         by (simpl; destruct (Ascii.eqb_spec x ch_space); [set_solver|done]).
  all: remember ((x :: g) ++ stat_tail fields) as t eqn:Et;
       assert (Htok : take_tok t = (x :: g, stat_tail fields))
         by (subst t; apply take_tok_field; [done|done|apply stat_tail_head]).
  - injection Hk as <-. cbn [field_loop]. rewrite Hskip.
    destruct t as [|y t]; [done|]. by rewrite Htok.
  - assert (Hstep : field_loop (S (S k)) (ch_space :: t) = field_loop (S k) (stat_tail fields)).
    { remember (S k) as k1. cbn [field_loop]. rewrite Hskip.
      destruct t as [|y t]; [done|]. rewrite Htok. by subst k1. }
    rewrite Hstep. by apply IH.
Qed.

Lemma read_small_benign script room :
  benign script → (length (payload script) < room)%nat →
  read_small_loop script room = Some (payload script).
Proof.
  revert room. induction script as [|ev s IH]; intros room Hb Hr; (destruct room as [|room]; [lia|]).
  - done.
  - inversion Hb as [|? ? Hev Hb']; subst. destruct ev as [b| | |]; try done.
    + destruct b as [|c b]; [done|]. cbn [read_small_loop payload] in *.
      rewrite length_app in Hr.
      rewrite (proj2 (Nat.ltb_ge _ _)) by lia. rewrite IH by (done || lia). done.
    + simpl in *. by apply (IH (S room)).
Qed.

(** ** Properties *)

(** Identity comparison is exact: two actors match iff uid, gid, pid, boot
    id and start time all agree, so a reused pid is a different actor. *)
Theorem actor_eq_exact a b :
  rab_actor_eq a b = true ↔
  a_uid a = a_uid b ∧ a_gid a = a_gid b ∧ a_pid a = a_pid b ∧
  a_boot_id a = a_boot_id b ∧ a_starttime a = a_starttime b.
Proof.
  rewrite rab_actor_eq_spec. split; [intros ->; done|].
  destruct a, b. simpl. intros (-> & -> & -> & -> & ->). done.
Qed.

(** C40. The start time is field 22 of /proc/<pid>/stat whatever the command
    name contains: spaces, digits and unbalanced parentheses in it do not shift
    the field, and neither does the chunking of the reads. *)
Theorem starttime_is_field_22 pid script pre fields f :
  0 < pid → benign script →
  payload script = pre ++ ch_rparen :: stat_tail fields →
  (length (payload script) < 511)%nat →
  Forall stat_field fields → fields !! 19%nat = Some f →
  forallb is_digit f = true → blen f < RAB_STARTTIME_MAX →
  rab_proc_starttime pid (Some script) RAB_STARTTIME_MAX = Some (text f).
Proof.
  intros Hpid Hb Hp Hlen Hf H19 Hdig Hfl. unfold rab_proc_starttime, read_small.
  rewrite (proj2 (Z.leb_gt pid 0)) by lia. change (RAB_STARTTIME_MAX <? RAB_STARTTIME_MAX) with false.
  cbn [orb Nat.sub]. rewrite read_small_benign by done. rewrite Hp.
  assert (Hnr : ch_rparen ∉ stat_tail fields).
  { unfold stat_tail. rewrite elem_of_app. intros [Hin|Hin]; [|set_solver].
    apply list_elem_of_In, in_concat in Hin as (l & Hl & Hin).
    apply in_map_iff in Hl as (g & <- & Hg). apply list_elem_of_In in Hin, Hg.
    rewrite Forall_forall in Hf. destruct (Hf g Hg) as (_ & _ & _ & Hg'). set_solver. }
  pose proof (after_last_app ch_rparen pre _ Hnr) as Hal.
  destruct (stat_tail_head fields) as (c & r & Htail & _).
  destruct (pre ++ ch_rparen :: stat_tail fields) as [|x l] eqn:El; [by destruct pre|].
  rewrite Hal, Htail, <- Htail, (field_loop_nth 19 fields f Hf H19), Hdig.
  assert (stat_field f) as (Hne & _) by (rewrite Forall_forall in Hf; apply Hf;
    apply list_elem_of_lookup; eauto).
  assert (0 < blen f) by (destruct f; [done|unfold blen; simpl; lia]).
  rewrite (proj2 (Z.eqb_neq _ _)), (proj2 (Z.leb_gt _ _)) by lia. done.
Qed.

Definition wit_stat_fields : list bytes :=
  replicate 19 (bs "7") ++ [bs "12345"; bs "9"].

Lemma starttime_is_field_22_witness :
  rab_proc_starttime 42
    (Some [RdData (bs "42 (a) b) (x"); RdEintr; RdData (ch_rparen :: stat_tail wit_stat_fields)])
    RAB_STARTTIME_MAX = Some "12345"%string.
Proof.
  apply (starttime_is_field_22 42 _ (bs "42 (a) b) (x") wit_stat_fields (bs "12345")).
  - lia.
  - repeat constructor; discriminate.
  - vm_compute. reflexivity.
  - vm_compute. repeat constructor.
  - repeat (constructor; [split_and!; [discriminate|..]; vm_compute; intros Hin;
      repeat (apply elem_of_cons in Hin as [Hin|Hin]; [discriminate Hin|]);
      by apply elem_of_nil in Hin|]). constructor.
  - vm_compute. reflexivity.
  - vm_compute. reflexivity.
  - vm_compute. reflexivity.
Defined.
