(* ===== verification/Record.v ===== *)
(** * Stored records (record.c)

    The four kinds of line the broker writes to its sink and the strict
    parse-back used at startup: [rab_build_audit], [rab_build_checkpoint],
    [rab_build_rate], [rab_build_receipt] and [rab_parse_stored].  The C parser
    is one function with a branch per record type; here each branch is a
    definition.  The round-trip lemmas at the end are what recovery rests on. *)

From stdpp Require Import base gmap strings list.
From Stdlib Require Import ZArith Lia Ascii.
From S2P Require Import Prelude CString Jansson Id Request Peer.

Local Open Scope string_scope.
Local Open Scope Z_scope.

Definition RAB_PHASE_INTENT : string := "intent".
Definition RAB_PHASE_OUTCOME : string := "outcome".
Definition RAB_META_MAX : Z := 128.
Definition RAB_SCOPE_MAX : Z := 32.
Definition RAB_HEX64_MAX : Z := 65.
Definition RAB_BROKER_STATE_SCHEMA_VERSION : Z := 1.
Definition RAB_PHASE_MAX : Z := 16.

Inductive rab_rcpt_state := RAB_RCPT_ISSUED | RAB_RCPT_REDEEMED.
Inductive rab_rec_type := RAB_REC_AUDIT | RAB_REC_CHECKPOINT | RAB_REC_RATE | RAB_REC_RECEIPT.

#[export] Instance rab_rcpt_state_eq_dec : EqDecision rab_rcpt_state.
Proof. solve_decision. Defined.

Definition rcpt_state_eqb (a b : rab_rcpt_state) : bool :=
  match a, b with
  | RAB_RCPT_ISSUED, RAB_RCPT_ISSUED | RAB_RCPT_REDEEMED, RAB_RCPT_REDEEMED => true
  | _, _ => false
  end.

(** The receipt fields, which an open intent and a stored line both carry. *)
Record receipt := Receipt {
  rc_state : rab_rcpt_state;
  rc_verifier : string;
  rc_actor_uid : Z;
  rc_verb : string;
  rc_resource : string;
  rc_plan_schema : Z;
  rc_plan_hash : string;
  rc_issue_boottime_us : Z;
  rc_ttl_us : Z;
  rc_boot_id : string;
  rc_accepted_time_us : Z
}.

Record rab_stored := Stored {
  sr_type : rab_rec_type;
  sr_phase : string;
  sr_cid : string;
  sr_binding : string;
  sr_actor : rab_actor;
  sr_time_us : Z;
  sr_operation : string;
  sr_resource : string;
  sr_scope : string;
  sr_rate_uid : Z;
  sr_rate : list (Z * Z);          (* rate_times and rate_bytes, one to one *)
  sr_rcpt : receipt;
  sr_rcpt_is_checkpoint : bool
}.

(** What [memset(out, 0, sizeof *out)] leaves in the fields a branch does not set. *)
Definition zero_actor : rab_actor := Actor 0 0 0 "" "".
Definition zero_receipt : receipt :=
  Receipt RAB_RCPT_ISSUED "" 0 "" "" 0 "" 0 0 "" 0.

(** [copy_bounded]: refused when it would not fit with its NUL. *)
Definition copy_bounded (cap : Z) (src : string) : option string :=
  if cap <=? strlen src then None else Some src.

Definition is_hex64_lc (s : string) : bool := is_hex_lc_n s 64.

(** [format_rfc3339] *)
Definition format_rfc3339 (time_us cap : Z) : option string :=
  let s := strftime_rfc3339 (gmtime (time_us / 1000000)) in
  if strlen s <? cap then Some s else None.

(** ** Builders *)

Section Builders.
Context `{Jansson}.

(** A string member that is included only when its argument is not NULL. *)
Definition set_opt (o : option (list (string * json))) (k : string) (v : option string) :=
  match v with Some s => set_new o k (json_string s) | None => o end.

Definition peer_object (a : rab_actor) : option (list (string * json)) :=
  let peer := set_new (Some []) "uid" (json_integer (a_uid a)) in
  let peer := set_new peer "gid" (json_integer (a_gid a)) in
  let peer := set_new peer "pid" (json_integer (a_pid a)) in
  let peer := set_new peer "boot_id" (json_string (a_boot_id a)) in
  set_new peer "starttime" (json_string (a_starttime a)).

Definition broker_object (a : rab_actor) (binding : option string) (time_us : Z)
    (operation resource scope : option string) : option (list (string * json)) :=
  let b := set_new (Some []) "schema_version" (json_integer 1) in
  let b := set_new b "peer" (JObject <$> peer_object a) in
  let b := set_opt b "binding" binding in
  let b := set_new b "accepted_time_us" (json_string (print_u time_us)) in
  let b := set_opt b "operation" operation in
  let b := set_opt b "resource" resource in
  set_opt b "scope" scope.

Definition actor_text (uid : Z) : string := "uid:" +:+ print_d uid.

(** The domain members are set one by one, in the record's own order. *)
Definition merge_members (root : option (list (string * json)))
    (record : list (string * json)) : option (list (string * json)) :=
  fold_left (λ o kv, set_new o (fst kv) (Some (snd kv))) record root.

(** The members of an audit line stamped [ts]. *)
Definition audit_object (phase correlation_id : string) (binding : option string)
    (actor : rab_actor) (host : string) (time_us : Z) (client_record : jptr) (ts : string)
  : option (list (string * json)) :=
  let root := set_new (Some []) "schema_version" (json_integer RAB_RECORD_SCHEMA_VERSION) in
  let root := set_new root "record_type" (json_string "audit") in
  let root := set_new root "correlation_id" (json_string correlation_id) in
  let root := set_new root "phase" (json_string phase) in
  let root := set_new root "host" (json_string host) in
  let root := set_new root "pid" (json_integer (a_pid actor)) in
  let root := set_new root "actor" (json_string (actor_text (a_uid actor))) in
  let root := merge_members root (json_members client_record) in
  let brk := broker_object actor binding time_us None None None in
  let root := set_new root "time" (json_string ts) in
  set_new root "broker" (JObject <$> brk).

Definition rab_build_audit (phase correlation_id : string) (binding : option string)
    (actor : rab_actor) (host : string) (time_us : Z) (client_record : jptr)
  : option string :=
  let? ts := format_rfc3339 time_us 32 in
  let? root := audit_object phase correlation_id binding actor host time_us client_record ts in
  json_dumps false (JObject root).

Definition rab_build_checkpoint (correlation_id binding : string) (actor : rab_actor)
    (time_us : Z) (operation resource scope : string) : option string :=
  let brk := broker_object actor (Some binding) time_us (Some operation) (Some resource)
               (Some scope) in
  let root := set_new (Some []) "schema_version" (json_integer RAB_RECORD_SCHEMA_VERSION) in
  let root := set_new root "record_type" (json_string "broker_checkpoint") in
  let root := set_new root "correlation_id" (json_string correlation_id) in
  let? root := set_new root "broker" (JObject <$> brk) in
  json_dumps false (JObject root).

(** An array of decimal strings. *)
Definition u64_array (l : list Z) : jptr := JArray <$> mapM (λ z, json_string (print_u z)) l.

Definition rab_build_rate (uid : Z) (ops : list (Z * Z)) : option string :=
  let root := set_new (Some []) "schema_version" (json_integer RAB_RECORD_SCHEMA_VERSION) in
  let root := set_new root "record_type" (json_string "broker_rate") in
  let root := set_new root "uid" (json_integer uid) in
  let root := set_new root "times_us" (u64_array (map fst ops)) in
  let? root := set_new root "bytes" (u64_array (map snd ops)) in
  json_dumps false (JObject root).

Definition rab_build_receipt (correlation_id : string) (checkpoint : bool) (r : receipt)
  : option string :=
  if is_empty correlation_id || (RAB_CID_MAX <=? strlen correlation_id)
     || negb (is_hex64_lc (rc_verifier r)) || negb (is_hex64_lc (rc_plan_hash r))
     || is_empty (rc_verb r) || (RAB_META_MAX <=? strlen (rc_verb r))
     || (RAB_META_MAX <=? strlen (rc_resource r))
     || (rc_plan_schema r <? 1) || is_empty (rc_boot_id r)
     || (RAB_BOOT_ID_MAX <=? strlen (rc_boot_id r))
  then None
  else
    let root := set_new (Some []) "schema_version" (json_integer RAB_RECORD_SCHEMA_VERSION) in
    let root := set_new root "record_type" (json_string "broker_receipt") in
    let root := set_new root "state_schema_version"
                  (json_integer RAB_BROKER_STATE_SCHEMA_VERSION) in
    let root := set_new root "correlation_id" (json_string correlation_id) in
    let root := set_new root "checkpoint" (json_bool checkpoint) in
    let root := set_new root "state"
                  (json_string (match rc_state r with
                                | RAB_RCPT_REDEEMED => "redeemed"
                                | RAB_RCPT_ISSUED => "issued"
                                end)) in
    let root := set_new root "verifier" (json_string (rc_verifier r)) in
    let root := set_new root "actor_uid" (json_integer (rc_actor_uid r)) in
    let root := set_new root "verb" (json_string (rc_verb r)) in
    let root := set_new root "resource" (json_string (rc_resource r)) in
    let root := set_new root "plan_schema" (json_integer (rc_plan_schema r)) in
    let root := set_new root "plan_hash" (json_string (rc_plan_hash r)) in
    let root := set_new root "issue_boottime_us"
                  (json_string (print_u (rc_issue_boottime_us r))) in
    let root := set_new root "ttl_us" (json_string (print_u (rc_ttl_us r))) in
    let root := set_new root "boot_id" (json_string (rc_boot_id r)) in
    let? root := set_new root "accepted_time_us"
                   (json_string (print_u (rc_accepted_time_us r))) in
    json_dumps false (JObject root).
End Builders.

(** ** Parse-back *)

Definition obj_only_keys (obj : jptr) (allowed : list string) : bool :=
  forallb (λ kv, existsb (λ a, strcmp_eq (fst kv) a) allowed) (json_members obj).

Definition parse_u64_strict (s : string) : option Z :=
  match s with
  | EmptyString => None
  | String c _ =>
      if negb (is_digit c) then None
      else let r := strtoull s in
           if st_erange r || st_nodigits r || negb (is_empty (st_end r)) then None
           else Some (st_value r)
  end.

(** A string member of [obj], NULL for any other shape. *)
Definition get_string (obj : jptr) (key : string) : option string :=
  match json_object_get obj key with Some (JString s) => Some s | _ => None end.

(** A string member that is not empty and fits a buffer of [cap] bytes. *)
Definition get_text (obj : jptr) (key : string) (cap : Z) : option string :=
  let? s := get_string obj key in
  check! negb (is_empty s) in
  copy_bounded cap s.

Definition get_u64 (obj : jptr) (key : string) : option Z :=
  let? s := get_string obj key in parse_u64_strict s.

Definition get_integer (obj : jptr) (key : string) : option Z :=
  match json_object_get obj key with Some (JInteger z) => Some z | _ => None end.

Definition load_peer_strict (broker : jptr) : option rab_actor :=
  let peer := json_object_get broker "peer" in
  check! json_is_object peer in
  check! obj_only_keys peer ["uid"; "gid"; "pid"; "boot_id"; "starttime"] in
  let? u := get_integer peer "uid" in
  let? g := get_integer peer "gid" in
  let? p := get_integer peer "pid" in
  let? boot := get_string peer "boot_id" in
  let? start := get_string peer "starttime" in
  check! negb ((u <? 0) || (g <? 0) || (p <=? 0)) in
  check! negb (is_empty boot) && negb (is_empty start) in
  let? boot := copy_bounded RAB_BOOT_ID_MAX boot in
  let? start := copy_bounded RAB_STARTTIME_MAX start in
  check! string_forallb is_digit start in
  Some (Actor (u32 u) (u32 g) (i32 p) boot start).

Definition load_opt_str (obj : jptr) (key : string) (cap : Z) : option string :=
  match json_object_get obj key with
  | None | Some JNull => Some ""
  | Some (JString s) => copy_bounded cap s
  | Some _ => None
  end.

(** Both arrays element by element: every entry a strict decimal string. *)
Fixpoint parse_rate_ops (ts bs : list json) : option (list (Z * Z)) :=
  match ts, bs with
  | [], [] => Some []
  | JString t :: ts', JString b :: bs' =>
      let? tv := parse_u64_strict t in
      let? bv := parse_u64_strict b in
      let? rest := parse_rate_ops ts' bs' in
      Some ((tv, bv) :: rest)
  | _, _ => None
  end.

Definition parse_stored_rate (root : jptr) : option rab_stored :=
  check! obj_only_keys root ["schema_version"; "record_type"; "uid"; "times_us"; "bytes"] in
  let? uid := get_integer root "uid" in
  check! negb (uid <? 0) in
  let tarr := json_object_get root "times_us" in
  let barr := json_object_get root "bytes" in
  check! json_is_array tarr && json_is_array barr in
  check! (length (json_elements barr) =? length (json_elements tarr))%nat in
  let? ops := parse_rate_ops (json_elements tarr) (json_elements barr) in
  Some (Stored RAB_REC_RATE "" "" "" zero_actor 0 "" "" "" (u32 uid) ops zero_receipt false).

Definition parse_rcpt_state (s : string) : option rab_rcpt_state :=
  if strcmp_eq s "issued" then Some RAB_RCPT_ISSUED
  else if strcmp_eq s "redeemed" then Some RAB_RCPT_REDEEMED
  else None.

Definition receipt_keys : list string :=
  ["schema_version"; "record_type"; "state_schema_version"; "correlation_id"; "checkpoint";
   "state"; "verifier"; "actor_uid"; "verb"; "resource"; "plan_schema"; "plan_hash";
   "issue_boottime_us"; "ttl_us"; "boot_id"; "accepted_time_us"].

Definition parse_stored_receipt (root : jptr) : option rab_stored :=
  check! obj_only_keys root receipt_keys in
  let? ssv := get_integer root "state_schema_version" in
  check! ssv =? RAB_BROKER_STATE_SCHEMA_VERSION in
  let? cid := get_text root "correlation_id" RAB_CID_MAX in
  let jckpt := json_object_get root "checkpoint" in
  check! json_is_boolean jckpt in
  let? st := get_string root "state" in
  let? state := parse_rcpt_state st in
  let? ver := get_string root "verifier" in
  check! is_hex64_lc ver in
  let? ver := copy_bounded RAB_HEX64_MAX ver in
  let? auid := get_integer root "actor_uid" in
  check! negb ((auid <? 0) || negb (u32 auid =? auid)) in
  let? verb := get_text root "verb" RAB_META_MAX in
  let? res := get_string root "resource" in
  let? res := copy_bounded RAB_META_MAX res in
  let? ps := get_integer root "plan_schema" in
  check! negb (ps <? 1) in
  let? ph := get_string root "plan_hash" in
  check! is_hex64_lc ph in
  let? ph := copy_bounded RAB_HEX64_MAX ph in
  let? ibt := get_u64 root "issue_boottime_us" in
  let? ttl := get_u64 root "ttl_us" in
  let? boot := get_text root "boot_id" RAB_BOOT_ID_MAX in
  let? ats := get_u64 root "accepted_time_us" in
  Some (Stored RAB_REC_RECEIPT "" cid "" zero_actor 0 "" "" "" 0 []
          (Receipt state ver (u32 auid) verb res ps ph ibt ttl boot ats)
          (json_is_true jckpt)).

(** The fields audit lines and checkpoints share: the correlation id and the
    versioned [broker] extension with peer, accept time and binding. *)
Record stored_common := Common {
  sc_cid : string; sc_broker : jptr; sc_actor : rab_actor; sc_time : Z;
  sc_binding : option string
}.

Definition parse_stored_common (root : jptr) : option stored_common :=
  let? cid := get_text root "correlation_id" RAB_CID_MAX in
  let broker := json_object_get root "broker" in
  check! json_is_object broker in
  let? bsv := get_integer broker "schema_version" in
  check! bsv =? 1 in
  let? actor := load_peer_strict broker in
  let? ats := get_u64 broker "accepted_time_us" in
  match json_object_get broker "binding" with
  | None => Some (Common cid broker actor ats None)
  | Some _ =>
      let? bind := get_text broker "binding" RAB_BINDING_MAX in
      Some (Common cid broker actor ats (Some bind))
  end.

Definition binding_text (o : option string) : string :=
  match o with Some s => s | None => "" end.

Definition parse_stored_audit (root : jptr) : option rab_stored :=
  let? c := parse_stored_common root in
  check! obj_only_keys (sc_broker c) ["schema_version"; "peer"; "accepted_time_us"; "binding"] in
  let? phase := get_text root "phase" RAB_PHASE_MAX in
  check! Bool.eqb (strcmp_eq phase RAB_PHASE_INTENT)
           (match sc_binding c with Some _ => true | None => false end) in
  let? pid := get_integer root "pid" in
  check! i32 pid =? a_pid (sc_actor c) in
  let? actor := get_string root "actor" in
  check! strcmp_eq actor (actor_text (a_uid (sc_actor c))) in
  let? op := load_opt_str root "operation" RAB_META_MAX in
  let? res := load_opt_str root "resource" RAB_META_MAX in
  let? scope := load_opt_str root "scope" RAB_SCOPE_MAX in
  Some (Stored RAB_REC_AUDIT phase (sc_cid c) (binding_text (sc_binding c)) (sc_actor c)
          (sc_time c) op res scope 0 [] zero_receipt false).

Definition parse_stored_checkpoint (root : jptr) : option rab_stored :=
  let? c := parse_stored_common root in
  check! obj_only_keys root ["schema_version"; "record_type"; "correlation_id"; "broker"] in
  check! obj_only_keys (sc_broker c) ["schema_version"; "peer"; "accepted_time_us"; "binding";
                                      "operation"; "resource"; "scope"] in
  let? bind := sc_binding c in
  let? op := load_opt_str (sc_broker c) "operation" RAB_META_MAX in
  let? res := load_opt_str (sc_broker c) "resource" RAB_META_MAX in
  let? scope := load_opt_str (sc_broker c) "scope" RAB_SCOPE_MAX in
  Some (Stored RAB_REC_CHECKPOINT "" (sc_cid c) bind (sc_actor c) (sc_time c) op res scope
          0 [] zero_receipt false).

Definition rab_parse_stored `{Jansson} (line : bytes) : option rab_stored :=
  let? v := json_loadb line in
  let root := Some v in
  check! json_is_object root in
  let? sv := get_integer root "schema_version" in
  check! sv =? RAB_RECORD_SCHEMA_VERSION in
  let? rts := get_string root "record_type" in
  if strcmp_eq rts "audit" then parse_stored_audit root
  else if strcmp_eq rts "broker_checkpoint" then parse_stored_checkpoint root
  else if strcmp_eq rts "broker_rate" then parse_stored_rate root
  else if strcmp_eq rts "broker_receipt" then parse_stored_receipt root
  else None.

(** ** What a builder's arguments must satisfy to be read back *)

Definition actor_ok (a : rab_actor) : Prop :=
  0 ≤ a_uid a < 2 ^ 32 ∧ 0 ≤ a_gid a < 2 ^ 32 ∧ 0 < a_pid a < 2 ^ 31 ∧
  a_boot_id a ≠ "" ∧ strlen (a_boot_id a) < RAB_BOOT_ID_MAX ∧
  a_starttime a ≠ "" ∧ strlen (a_starttime a) < RAB_STARTTIME_MAX ∧
  string_forallb is_digit (a_starttime a) = true.

(** A domain field that recovery can hold: absent, null, or a string that fits. *)
Definition field_fits (record : list (string * json)) (key : string) (cap : Z) : Prop :=
  match assoc_get key record with
  | None | Some JNull => True
  | Some (JString s) => strlen s < cap
  | Some _ => False
  end.

Definition record_field (record : list (string * json)) (key : string) : string :=
  match assoc_get key record with Some (JString s) => s | _ => "" end.

Definition record_fits (record : list (string * json)) : Prop :=
  field_fits record "operation" RAB_META_MAX ∧ field_fits record "resource" RAB_META_MAX ∧
  field_fits record "scope" RAB_SCOPE_MAX.

Definition receipt_ok (r : receipt) : Prop :=
  is_hex64_lc (rc_verifier r) = true ∧ 0 ≤ rc_actor_uid r < 2 ^ 32 ∧
  rc_verb r ≠ "" ∧ strlen (rc_verb r) < RAB_META_MAX ∧
  strlen (rc_resource r) < RAB_META_MAX ∧ 1 ≤ rc_plan_schema r < 2 ^ 63 ∧
  is_hex64_lc (rc_plan_hash r) = true ∧
  0 ≤ rc_issue_boottime_us r < 2 ^ 64 ∧ 0 ≤ rc_ttl_us r < 2 ^ 64 ∧
  rc_boot_id r ≠ "" ∧ strlen (rc_boot_id r) < RAB_BOOT_ID_MAX ∧
  0 ≤ rc_accepted_time_us r < 2 ^ 64.

(** ** Facts: building objects *)

Lemma copy_bounded_fits cap s : strlen s < cap → copy_bounded cap s = Some s.
Proof. unfold copy_bounded. intros. by rewrite (proj2 (Z.leb_gt _ _)). Qed.

Lemma copy_bounded_Some cap s t : copy_bounded cap s = Some t → t = s ∧ strlen s < cap.
Proof. unfold copy_bounded. intros Hc. inv_guards Hc. bool_hyps. by simplify_eq. Qed.

Lemma is_empty_false s : s ≠ "" → is_empty s = false.
Proof. intros. by apply String.eqb_neq. Qed.

Lemma parse_u64_print_u n : 0 ≤ n < 2 ^ 64 → parse_u64_strict (print_u n) = Some n.
Proof.
  intros Hn. unfold parse_u64_strict.
  destruct (print_u_head n ltac:(lia)) as (d & r & Hp & Hd).
  pose proof (strtoull_print_u n ltac:(unfold ULLONG_MAX; lia)) as Hs.
  rewrite Hp in *. rewrite digit_char_is_digit by done. simpl negb. cbv iota.
  by rewrite Hs.
Qed.

Lemma set_new_Some o k v kvs :
  set_new o k v = Some kvs ↔ ∃ o' j, o = Some o' ∧ v = Some j ∧ kvs = assoc_set k j o'.
Proof.
  split.
  - destruct o, v; simpl; try done. intros [= <-]. eauto.
  - by intros (? & ? & -> & -> & ->).
Qed.

Lemma json_string_Some `{Jansson} s j :
  json_string s = Some j → utf8_valid s = true ∧ j = JString s.
Proof. unfold json_string. destruct (utf8_valid s); [|done]. by intros [= <-]. Qed.

(** Invert a chain of member insertions. *)
Ltac inv_build :=
  repeat match goal with
  | H : set_new _ _ _ = Some _ |- _ => apply set_new_Some in H as (? & ? & ? & ? & ->)
  | H : json_string _ = Some _ |- _ => apply json_string_Some in H as [? ->]
  | H : json_integer _ = Some _ |- _ => injection H as <-
  | H : json_bool _ = Some _ |- _ => injection H as <-
  | H : Some _ = Some _ |- _ => injection H as <-
  | H : _ <$> _ = Some _ |- _ => apply fmap_Some in H as (? & ? & ->)
  end.

(** Evaluate insertions and lookups with literal keys. *)
Ltac eval_members :=
  cbn [assoc_set assoc_get String.eqb Ascii.eqb Bool.eqb json_members json_object_get
       set_opt fmap option_fmap option_map get_string get_integer json_is_object
       json_is_array json_elements json_is_boolean json_is_true] in *.

Definition opt_member (k : string) (v : option string) : list (string * json) :=
  match v with Some s => [(k, JString s)] | None => [] end.

Definition peer_members (a : rab_actor) : list (string * json) :=
  [("uid", JInteger (a_uid a)); ("gid", JInteger (a_gid a)); ("pid", JInteger (a_pid a));
   ("boot_id", JString (a_boot_id a)); ("starttime", JString (a_starttime a))].

Definition broker_members (a : rab_actor) (binding : option string) (time_us : Z)
    (op res scope : option string) : list (string * json) :=
  [("schema_version", JInteger 1); ("peer", JObject (peer_members a))] ++
  opt_member "binding" binding ++ [("accepted_time_us", JString (print_u time_us))] ++
  opt_member "operation" op ++ opt_member "resource" res ++ opt_member "scope" scope.

Lemma broker_object_members `{Jansson} a binding t op res sc kvs :
  broker_object a binding t op res sc = Some kvs →
  kvs = broker_members a binding t op res sc.
Proof.
  unfold broker_object, peer_object, set_opt. intros Hb.
  destruct binding, op, res, sc; inv_build; done.
Qed.

(** ** Facts: built objects are admissible *)

Section Admissible.
Context `{JanssonLaws}.

Definition obj_wf (d : Z) (o : option (list (string * json))) : Prop :=
  ∀ kvs, o = Some kvs → json_wf (JObject kvs) = true ∧ rab_json_depth (JObject kvs) ≤ d.
Definition val_wf (d : Z) (v : jptr) : Prop :=
  ∀ j, v = Some j → json_wf j = true ∧ rab_json_depth j < d.

Lemma assoc_set_keys k v kvs k' : k' ∈ map fst (assoc_set k v kvs) → k' = k ∨ k' ∈ map fst kvs.
Proof.
  induction kvs as [|[k0 v0] kvs IH]; simpl; [set_solver|].
  destruct (String.eqb_spec k0 k); set_solver.
Qed.

Lemma assoc_set_NoDup k v kvs : NoDup (map fst kvs) → NoDup (map fst (assoc_set k v kvs)).
Proof.
  induction kvs as [|[k0 v0] kvs IH]; simpl.
  - intros _. repeat constructor. set_solver.
  - intros Hn. inversion Hn; subst.
    destruct (String.eqb_spec k0 k) as [->|Hne]; simpl; [done|].
    constructor; [|by apply IH]. intros Hin. apply assoc_set_keys in Hin as [->|Hin]; done.
Qed.

Lemma assoc_set_Forall (P : string * json → Prop) k v kvs :
  P (k, v) → Forall P kvs → Forall P (assoc_set k v kvs).
Proof.
  intros Hp. induction 1 as [|[k0 v0] kvs Hx Hall IH]; simpl; [by repeat constructor|].
  destruct (String.eqb_spec k0 k) as [->|]; constructor; done.
Qed.

Lemma obj_wf_spec d kvs :
  json_wf (JObject kvs) = true ∧ rab_json_depth (JObject kvs) ≤ d ↔
  NoDup (map fst kvs) ∧ (0 < d) ∧
  Forall (λ kv, utf8_valid (fst kv) = true ∧ json_wf (snd kv) = true ∧
                rab_json_depth (snd kv) < d) kvs.
Proof.
  unfold json_wf. cbn [json_wf_with rab_json_depth].
  rewrite andb_true_iff, keys_distinct_NoDup.
  assert (Hd : fold_right (λ kv m, Z.max (rab_json_depth (snd kv)) m) 0 kvs + 1 ≤ d ↔
               0 < d ∧ Forall (λ kv : string * json, rab_json_depth (snd kv) < d) kvs).
  { induction kvs as [|[k v] kvs IH]; simpl.
    - split; [|lia]. split; [lia|constructor].
    - rewrite Forall_cons. simpl. destruct IH as [IH1 IH2]. split.
      + intros. destruct IH1 as [? ?]; [lia|]. split_and!; [lia..|done].
      + intros (? & ? & ?). specialize (IH2 (conj H1 H3)). lia. }
  rewrite Hd.
  assert (Hf : forallb (λ kv, utf8_valid kv.1 && json_wf_with utf8_valid kv.2) kvs = true ↔
               Forall (λ kv, utf8_valid (fst kv) = true ∧ json_wf_with utf8_valid (snd kv) = true) kvs).
  { rewrite forallb_forall, Forall_forall. setoid_rewrite andb_true_iff.
    setoid_rewrite <- list_elem_of_In. done. }
  rewrite Hf, !Forall_forall. naive_solver.
Qed.

Lemma obj_wf_nil d : 0 < d → obj_wf d (Some []).
Proof. intros Hd kvs [= <-]. apply obj_wf_spec. split_and!; [constructor|done|constructor]. Qed.

Lemma obj_wf_set d o k v :
  obj_wf d o → val_wf d v → string_forallb is_print k = true → obj_wf d (set_new o k v).
Proof.
  intros Ho Hv Hk kvs Hs. apply set_new_Some in Hs as (o' & j & Ho' & Hj & ->).
  specialize (Ho _ Ho'). specialize (Hv _ Hj) as [? ?].
  apply obj_wf_spec in Ho as (? & ? & ?). apply obj_wf_spec. split_and!; [|done|].
  - by apply assoc_set_NoDup.
  - apply assoc_set_Forall; [|done]. split_and!; [by apply utf8_ascii|done..].
Qed.

Lemma obj_wf_merge d o kvs :
  obj_wf d o → obj_wf d (Some kvs) →
  (∀ k, k ∈ map fst kvs → string_forallb is_print k = true) → obj_wf d (merge_members o kvs).
Proof.
  intros Ho Hk. specialize (Hk _ eq_refl). apply obj_wf_spec in Hk as (_ & _ & Hall).
  intros Hpr. unfold merge_members. revert o Ho.
  induction Hall as [|[k v] kvs (_ & Hv & Hd) Hall IH]; intros o Ho; [done|].
  simpl. apply IH; [set_solver|]. apply obj_wf_set; [done| |set_solver].
  intros j [= <-]. done.
Qed.

Lemma val_wf_string d s : 0 < d → val_wf d (json_string s).
Proof. intros Hd j Hj. apply json_string_Some in Hj as [? ->]. simpl. by split. Qed.

Lemma val_wf_integer d z : 0 < d → - 2 ^ 63 ≤ z < 2 ^ 63 → val_wf d (json_integer z).
Proof.
  intros Hd Hz j [= <-]. unfold json_wf. simpl. rewrite andb_true_iff, Z.leb_le, Z.ltb_lt.
  split; [lia|done].
Qed.

Lemma val_wf_bool d b : 0 < d → val_wf d (json_bool b).
Proof. intros Hd j [= <-]. done. Qed.

Lemma val_wf_object d o : obj_wf (d - 1) o → val_wf d (JObject <$> o).
Proof.
  intros Ho j Hj. apply fmap_Some in Hj as (kvs & Hk & ->). destruct (Ho _ Hk). split; [done|lia].
Qed.

Lemma obj_wf_opt d o k v :
  obj_wf d o → 0 < d → string_forallb is_print k = true → obj_wf d (set_opt o k v).
Proof. intros. destruct v; [|done]. apply obj_wf_set; [done|by apply val_wf_string|done]. Qed.

Lemma val_wf_u64_array d l : 1 < d → val_wf d (u64_array l).
Proof.
  intros Hd j Hj. unfold u64_array in Hj. apply fmap_Some in Hj as (js & Hm & ->).
  unfold json_wf. simpl.
  assert (Hall : Forall (λ j, json_wf j = true ∧ rab_json_depth j = 0) js).
  { apply mapM_Some in Hm. clear -Hm. induction Hm as [|z j l js Hz _ IH]; constructor; [|done].
    apply json_string_Some in Hz as [? ->]. done. }
  split.
  - apply forallb_forall. intros x Hx. rewrite Forall_forall in Hall.
    by apply Hall, list_elem_of_In.
  - clear -Hall Hd. assert (fold_right (λ c m, Z.max (rab_json_depth c) m) 0 js = 0); [|lia].
    induction Hall as [|x js [_ Hx] _ IH]; simpl; [done|]. lia.
Qed.
End Admissible.

Create HintDb jwf.
#[export] Hint Resolve obj_wf_nil obj_wf_set obj_wf_opt val_wf_string val_wf_integer val_wf_bool
  val_wf_object val_wf_u64_array : jwf.
#[export] Hint Extern 3 (string_forallb _ _ = true) => reflexivity : jwf.
#[export] Hint Extern 4 (_ < _) => lia : jwf.
#[export] Hint Extern 4 (_ ∧ _) => unfold RAB_RECORD_SCHEMA_VERSION, RAB_BROKER_STATE_SCHEMA_VERSION; lia : jwf.

(** ** Round trips *)

Section RoundTrip.
Context `{JanssonLaws}.

(** A printed admissible object is read back as itself. *)
Lemma read_back d o line :
  d ≤ JSON_PARSER_MAX_DEPTH → obj_wf d o →
  (let? kvs := o in json_dumps false (JObject kvs)) = Some line →
  ∃ kvs, o = Some kvs ∧ json_loadb (bs line) = Some (JObject kvs).
Proof.
  intros Hd Ho Hb. destruct o as [kvs|]; [|done]. destruct (Ho _ eq_refl).
  exists kvs. split; [done|]. apply loadb_dumps; [done|lia|done].
Qed.

Lemma broker_object_wf a binding t op res sc :
  actor_ok a → obj_wf 2 (broker_object a binding t op res sc).
Proof.
  intros (? & ? & ? & _). unfold broker_object, peer_object.
  repeat first [apply obj_wf_opt | apply obj_wf_set]; auto with jwf.
  apply val_wf_object. repeat apply obj_wf_set; auto with jwf.
Qed.

Lemma load_peer_members a rest b :
  actor_ok a → assoc_get "peer" rest = Some (JObject (peer_members a)) →
  b = Some (JObject rest) → load_peer_strict b = Some a.
Proof.
  intros (Hu & Hg & Hp & Hb & Hbl & Hs & Hsl & Hd) Hget ->.
  unfold load_peer_strict, json_object_get. simpl json_members. rewrite Hget.
  unfold peer_members. eval_members. simpl obj_only_keys.
  unfold get_integer, get_string, json_object_get. eval_members.
  rewrite !(proj2 (Z.ltb_ge _ _)), (proj2 (Z.leb_gt _ _)) by lia. simpl orb. cbv iota.
  rewrite !is_empty_false, !copy_bounded_fits, Hd by done. simpl. cbv iota.
  rewrite !u32_small, i32_small by lia. by destruct a.
Qed.

Lemma get_text_Some o k cap s :
  json_object_get o k = Some (JString s) → s ≠ "" → strlen s < cap → get_text o k cap = Some s.
Proof.
  intros Hg Hne Hl. unfold get_text, get_string. rewrite Hg, is_empty_false by done. simpl.
  by rewrite copy_bounded_fits.
Qed.

Lemma get_u64_Some o k n :
  json_object_get o k = Some (JString (print_u n)) → 0 ≤ n < 2 ^ 64 → get_u64 o k = Some n.
Proof. intros Hg Hn. unfold get_u64, get_string. rewrite Hg. by apply parse_u64_print_u. Qed.

(** The shared part, for any root that carries a broker extension. *)
Lemma parse_common_ok root cid a binding t op res sc :
  json_object_get root "correlation_id" = Some (JString cid) →
  json_object_get root "broker" = Some (JObject (broker_members a binding t op res sc)) →
  cid ≠ "" → strlen cid < RAB_CID_MAX → actor_ok a → 0 ≤ t < 2 ^ 64 →
  (∀ b, binding = Some b → b ≠ "" ∧ strlen b < RAB_BINDING_MAX) →
  parse_stored_common root =
    Some (Common cid (Some (JObject (broker_members a binding t op res sc))) a t binding).
Proof.
  intros Hc Hb Hne Hl Ha Ht Hbind. unfold parse_stored_common.
  rewrite (get_text_Some _ _ _ cid) by done. rewrite Hb.
  set (brk := broker_members a binding t op res sc).
  assert (Hats : json_object_get (Some (JObject brk)) "accepted_time_us"
                 = Some (JString (print_u t))) by (by destruct binding).
  change (get_integer (Some (JObject brk)) "schema_version") with (Some 1).
  simpl json_is_object. cbv iota. simpl Z.eqb. cbv iota.
  rewrite (load_peer_members a brk _ Ha eq_refl eq_refl), (get_u64_Some _ _ t Hats Ht).
  destruct binding as [b|].
  - destruct (Hbind b eq_refl).
    change (json_object_get (Some (JObject brk)) "binding") with (Some (JString b)). cbv iota.
    by rewrite (get_text_Some _ _ _ b).
  - assert (Hnone : json_object_get (Some (JObject brk)) "binding" = None)
      by (by destruct op, res, sc).
    by rewrite Hnone.
Qed.

Lemma broker_members_only a binding t :
  obj_only_keys (Some (JObject (broker_members a binding t None None None)))
    ["schema_version"; "peer"; "accepted_time_us"; "binding"] = true.
Proof. by destruct binding. Qed.

(** A checkpoint line is read back as the intent it carries. *)
Lemma checkpoint_roundtrip cid binding a t op res sc line :
  cid ≠ "" → strlen cid < RAB_CID_MAX → binding ≠ "" → strlen binding < RAB_BINDING_MAX →
  actor_ok a → 0 ≤ t < 2 ^ 64 →
  strlen op < RAB_META_MAX → strlen res < RAB_META_MAX → strlen sc < RAB_SCOPE_MAX →
  rab_build_checkpoint cid binding a t op res sc = Some line →
  rab_parse_stored (bs line) =
    Some (Stored RAB_REC_CHECKPOINT "" cid binding a t op res sc 0 [] zero_receipt false).
Proof.
  intros ? ? ? ? Ha ? ? ? ? Hb. unfold rab_build_checkpoint in Hb.
  apply (read_back 3) in Hb as (kvs & Hk & Hload); [|done|].
  2: { pose proof (broker_object_wf a (Some binding) t (Some op) (Some res) (Some sc) Ha).
       auto 10 with jwf. }
  inv_build. eval_members.
  match goal with Hbo : broker_object _ _ _ _ _ _ = Some _ |- _ =>
    apply broker_object_members in Hbo as -> end.
  unfold rab_parse_stored. rewrite Hload. simpl json_is_object. cbv iota.
  unfold get_integer, get_string, json_object_get. eval_members. simpl.
  unfold parse_stored_checkpoint.
  rewrite (parse_common_ok _ cid a (Some binding) t (Some op) (Some res) (Some sc));
    [|done..|intros b [= <-]; done].
  simpl. unfold load_opt_str, json_object_get. simpl. by rewrite !copy_bounded_fits.
Qed.

(** A receipt line is read back as the receipt it carries. *)
Lemma receipt_roundtrip cid ckpt r line :
  receipt_ok r → rab_build_receipt cid ckpt r = Some line →
  rab_parse_stored (bs line) =
    Some (Stored RAB_REC_RECEIPT "" cid "" zero_actor 0 "" "" "" 0 [] r ckpt).
Proof.
  intros (Hv & ? & ? & ? & ? & ? & Hph & ? & ? & ? & ? & ?) Hb. unfold rab_build_receipt in Hb.
  case_hyp Hb; [done|]. bool_hyps.
  apply (read_back 2) in Hb as (kvs & Hk & Hload); [|done|auto 40 with jwf].
  inv_build. eval_members.
  unfold rab_parse_stored. rewrite Hload. simpl json_is_object. cbv iota.
  unfold get_integer at 1, get_string at 1, json_object_get at 1 2. eval_members.
  simpl. unfold parse_stored_receipt. simpl obj_only_keys. cbv iota.
  set (root := Some (JObject _)).
  rewrite (get_text_Some root "correlation_id" _ cid), (get_text_Some root "verb" _ (rc_verb r)),
    (get_text_Some root "boot_id" _ (rc_boot_id r)),
    (get_u64_Some root "issue_boottime_us" (rc_issue_boottime_us r)),
    (get_u64_Some root "ttl_us" (rc_ttl_us r)),
    (get_u64_Some root "accepted_time_us" (rc_accepted_time_us r)) by done.
  unfold get_integer, get_string, json_object_get. subst root. eval_members.
  assert (Hst : parse_rcpt_state (match rc_state r with
            RAB_RCPT_REDEEMED => "redeemed" | RAB_RCPT_ISSUED => "issued" end) = Some (rc_state r))
    by (by destruct (rc_state r)).
  assert (Hlen : ∀ s, is_hex64_lc s = true → strlen s < RAB_HEX64_MAX).
  { intros s Hs. apply is_hex_lc_n_length in Hs. unfold strlen. by rewrite Hs. }
  simpl. rewrite Hst, Hv, Hph, !copy_bounded_fits by auto.
  rewrite !(proj2 (Z.ltb_ge _ _)), u32_small, Z.eqb_refl by lia. simpl.
  by destruct ckpt, r.
Qed.

(** A rate carry is read back as the same operations, in order. *)
Lemma parse_rate_ops_print ops ts bs :
  Forall (λ tb, 0 ≤ fst tb < 2 ^ 64 ∧ 0 ≤ snd tb < 2 ^ 64) ops →
  mapM (λ z, json_string (print_u z)) (map fst ops) = Some ts →
  mapM (λ z, json_string (print_u z)) (map snd ops) = Some bs →
  length bs = length ts ∧ parse_rate_ops ts bs = Some ops.
Proof.
  intros Hops. revert ts bs. induction Hops as [|[t b] ops [Ht Hb] _ IH]; intros ts bs Hts Hbs.
  - injection Hts as <-. by injection Hbs as <-.
  - apply mapM_Some in Hts, Hbs. simpl in Hts, Hbs.
    inversion Hts as [|? jt ? ts' Hjt Hts']; inversion Hbs as [|? jb ? bs' Hjb Hbs']; subst.
    apply json_string_Some in Hjt as [_ ->], Hjb as [_ ->].
    apply mapM_Some in Hts', Hbs'. destruct (IH _ _ Hts' Hbs') as [Hl Hp].
    simpl. rewrite !parse_u64_print_u, Hp by done. auto.
Qed.

Lemma rate_roundtrip uid ops line :
  0 ≤ uid < 2 ^ 32 → Forall (λ tb, 0 ≤ fst tb < 2 ^ 64 ∧ 0 ≤ snd tb < 2 ^ 64) ops →
  rab_build_rate uid ops = Some line →
  rab_parse_stored (bs line) =
    Some (Stored RAB_REC_RATE "" "" "" zero_actor 0 "" "" "" uid ops zero_receipt false).
Proof.
  intros Hu Hops Hb. unfold rab_build_rate in Hb.
  apply (read_back 3) in Hb as (kvs & Hk & Hload); [|done|auto 20 with jwf].
  inv_build. unfold u64_array in *. inv_build. eval_members.
  unfold rab_parse_stored. rewrite Hload. simpl json_is_object. cbv iota.
  unfold get_integer at 1, get_string at 1, json_object_get at 1 2. eval_members. simpl.
  unfold parse_stored_rate, get_integer, json_object_get. simpl obj_only_keys. eval_members. simpl.
  match goal with H1 : mapM _ (map fst _) = Some _, H2 : mapM _ (map snd _) = Some _ |- _ =>
    destruct (parse_rate_ops_print _ _ _ Hops H1 H2) as [Hl Hp] end.
  rewrite (proj2 (Z.ltb_ge _ _)), Hl, Nat.eqb_refl, Hp, u32_small by lia. done.
Qed.

Lemma merge_members_get o kvs m :
  NoDup (map fst kvs) → merge_members o kvs = Some m →
  ∃ o', o = Some o' ∧ ∀ k,
    assoc_get k m = match assoc_get k kvs with Some v => Some v | None => assoc_get k o' end.
Proof.
  unfold merge_members. revert o. induction kvs as [|[k0 v0] kvs IH]; intros o Hnd Hm; simpl in *.
  - eauto.
  - inversion Hnd as [|? ? Hnin Hnd']; subst. destruct (IH _ Hnd' Hm) as (o1 & Ho1 & Hg).
    apply set_new_Some in Ho1 as (o' & j & -> & [= <-] & ->).
    exists o'. split; [done|]. intros k. rewrite Hg, assoc_get_set.
    destruct (String.eqb_spec k0 k) as [->|]; [|done].
    by rewrite (proj2 (assoc_get_None k kvs)).
Qed.

(** Audit arguments the broker itself supplies. *)
Definition audit_args_ok (phase cid : string) (binding : option string) (a : rab_actor) (t : Z)
  : Prop :=
  phase ≠ "" ∧ strlen phase < RAB_PHASE_MAX ∧ cid ≠ "" ∧ strlen cid < RAB_CID_MAX ∧
  actor_ok a ∧ 0 ≤ t < 2 ^ 64 ∧
  match binding with
  | Some b => phase = RAB_PHASE_INTENT ∧ b ≠ "" ∧ strlen b < RAB_BINDING_MAX
  | None => phase ≠ RAB_PHASE_INTENT
  end.

(** A record as the request parser admits it. *)
Definition domain_record (kvs : list (string * json)) : Prop :=
  (∀ k, k ∈ map fst kvs → k ∈ domain_keys) ∧
  json_wf (JObject kvs) = true ∧ rab_json_depth (JObject kvs) ≤ RAB_MAX_DEPTH.

Lemma domain_keys_print k : k ∈ domain_keys → string_forallb is_print k = true.
Proof. intros Hk. apply list_elem_of_In in Hk. simpl in Hk. naive_solver. Qed.

Lemma audit_object_wf phase cid binding a host t kvs ts :
  actor_ok a → domain_record kvs →
  obj_wf 9 (audit_object phase cid binding a host t (Some (JObject kvs)) ts).
Proof.
  intros Ha (Hdom & Hwf & Hdep). pose proof Ha as (Hu & Hg & Hp & _).
  assert (Hko : obj_wf 9 (Some kvs)).
  { intros ? [= <-]. split; [done|]. unfold RAB_MAX_DEPTH in Hdep. lia. }
  unfold audit_object. repeat apply obj_wf_set; try done; auto with jwf.
  - apply obj_wf_merge; [auto 20 with jwf|done|]. intros k Hk. by apply domain_keys_print, Hdom.
  - apply val_wf_object. intros ? Hbo.
    destruct (broker_object_wf a binding t None None None Ha _ Hbo). split; [done|lia].
Qed.

(** Members of an audit root: the broker's own, then the record's. *)
Lemma audit_root phase cid binding a host t kvs line :
  actor_ok a → domain_record kvs →
  rab_build_audit phase cid binding a host t (Some (JObject kvs)) = Some line →
  ∃ root, json_loadb (bs line) = Some (JObject root) ∧
    assoc_get "schema_version" root = Some (JInteger 1) ∧
    assoc_get "record_type" root = Some (JString "audit") ∧
    assoc_get "correlation_id" root = Some (JString cid) ∧
    assoc_get "phase" root = Some (JString phase) ∧
    assoc_get "pid" root = Some (JInteger (a_pid a)) ∧
    assoc_get "actor" root = Some (JString (actor_text (a_uid a))) ∧
    assoc_get "broker" root = Some (JObject (broker_members a binding t None None None)) ∧
    (∀ k, k ∈ domain_keys → assoc_get k root = assoc_get k kvs).
Proof.
  intros Ha (Hdom & Hwf & Hdep) Hb. unfold rab_build_audit in Hb.
  destruct (format_rfc3339 t 32) as [ts|]; [|done].
  pose proof (proj1 (obj_wf_spec RAB_MAX_DEPTH kvs) (conj Hwf Hdep)) as (Hnd & _ & _).
  apply (read_back 9) in Hb as (root & Hroot & Hload); [|done|by apply audit_object_wf].
  unfold audit_object in Hroot.
  exists root. split; [done|].
  apply set_new_Some in Hroot as (r1 & brk & Hr1 & Hbrk & ->).
  apply fmap_Some in Hbrk as (bm & Hbm & ->). apply broker_object_members in Hbm as ->.
  apply set_new_Some in Hr1 as (m & ? & Hm & ? & ->).
  apply merge_members_get in Hm as (pre & Hpre & Hget); [|done].
  assert (Hpre' : pre = [("schema_version", JInteger 1); ("record_type", JString "audit");
           ("correlation_id", JString cid); ("phase", JString phase); ("host", JString host);
           ("pid", JInteger (a_pid a)); ("actor", JString (actor_text (a_uid a)))])
    by (clear Hget; inv_build; reflexivity).
  assert (Hown : ∀ k, k ∈ broker_owned → assoc_get k kvs = None).
  { intros k Hk. apply assoc_get_None. intros Hin. apply (domain_keys_not_owned k); auto. }
  rewrite !assoc_get_set, !Hget, !Hown by (unfold broker_owned; set_solver).
  rewrite Hpre'. split_and!; try done.
  intros k Hk. rewrite !assoc_get_set, Hget, Hpre'.
  assert (Hno : k ∉ broker_owned) by (by apply domain_keys_not_owned).
  unfold broker_owned in Hno.
  destruct (String.eqb_spec "broker" k) as [<-|]; [set_solver|].
  destruct (String.eqb_spec "time" k) as [<-|]; [set_solver|].
  simpl json_members. destruct (assoc_get k kvs); [done|]. apply assoc_get_None. set_solver.
Qed.

(** An audit line is read back as the operation it records, exactly when its
    metadata fields fit the recovery buffers. *)
Lemma audit_readback phase cid binding a host t kvs line :
  audit_args_ok phase cid binding a t → domain_record kvs →
  rab_build_audit phase cid binding a host t (Some (JObject kvs)) = Some line →
  rab_parse_stored (bs line) =
    (let? op := load_opt_str (Some (JObject kvs)) "operation" RAB_META_MAX in
     let? res := load_opt_str (Some (JObject kvs)) "resource" RAB_META_MAX in
     let? sc := load_opt_str (Some (JObject kvs)) "scope" RAB_SCOPE_MAX in
     Some (Stored RAB_REC_AUDIT phase cid (binding_text binding) a t op res sc 0 []
             zero_receipt false)).
Proof.
  intros (Hph & Hphl & Hc & Hcl & Ha & Ht & Hbind) Hdom Hb.
  destruct (audit_root _ _ _ _ _ _ _ _ Ha Hdom Hb)
    as (root & Hload & Hsv & Hrt & Hcid & Hphase & Hpid & Hact & Hbrk & Hrest).
  unfold rab_parse_stored. rewrite Hload. simpl json_is_object. cbv iota.
  unfold get_integer at 1, get_string at 1, json_object_get at 1 2. simpl json_members.
  rewrite Hsv, Hrt. simpl. unfold parse_stored_audit.
  rewrite (parse_common_ok _ cid a binding t None None None);
    [|done..|intros b ->; tauto].
  cbn [sc_broker sc_binding sc_actor sc_cid sc_time]. rewrite broker_members_only. cbv iota.
  rewrite (get_text_Some _ _ _ phase) by done.
  assert (Hmatch : Bool.eqb (strcmp_eq phase RAB_PHASE_INTENT)
            (match binding with Some _ => true | None => false end) = true).
  { destruct binding; [destruct Hbind as (-> & _); done|].
    unfold strcmp_eq. by rewrite (proj2 (String.eqb_neq _ _)). }
  rewrite Hmatch. unfold get_integer, get_string, json_object_get. simpl json_members.
  rewrite Hpid, Hact. destruct Ha as (_ & _ & Hp & _). rewrite i32_small, Z.eqb_refl by lia.
  unfold strcmp_eq at 1. rewrite String.eqb_refl. cbv iota.
  unfold load_opt_str, json_object_get. simpl json_members.
  by rewrite !Hrest by (unfold domain_keys; simpl; set_solver).
Qed.

Lemma load_opt_str_fits kvs key cap :
  field_fits kvs key cap → load_opt_str (Some (JObject kvs)) key cap = Some (record_field kvs key).
Proof.
  unfold field_fits, load_opt_str, record_field, json_object_get. simpl json_members.
  destruct (assoc_get key kvs) as [[]|]; try done. by apply copy_bounded_fits.
Qed.

Lemma load_opt_str_field kvs key cap s :
  load_opt_str (Some (JObject kvs)) key cap = Some s → field_fits kvs key cap.
Proof.
  unfold field_fits, load_opt_str, json_object_get. simpl json_members.
  destruct (assoc_get key kvs) as [[]|]; try done. intros Hc. by apply copy_bounded_Some in Hc as [_ ?].
Qed.

Lemma audit_roundtrip phase cid binding a host t kvs line :
  audit_args_ok phase cid binding a t → domain_record kvs → record_fits kvs →
  rab_build_audit phase cid binding a host t (Some (JObject kvs)) = Some line →
  rab_parse_stored (bs line) =
    Some (Stored RAB_REC_AUDIT phase cid (binding_text binding) a t
            (record_field kvs "operation") (record_field kvs "resource")
            (record_field kvs "scope") 0 [] zero_receipt false).
Proof.
  intros Hargs Hdom (Hop & Hres & Hsc) Hb. rewrite (audit_readback _ _ _ _ _ _ _ _ Hargs Hdom Hb).
  by rewrite !load_opt_str_fits.
Qed.
End RoundTrip.

(** ** Properties *)

Section RecordProperties.
Context `{JanssonLaws}.

(** C22. Which audit lines recovery can read: a line built for an admitted record
    parses back exactly when [operation], [resource] and [scope] are absent,
    null or strings that fit their buffers, and then it carries the phase, id,
    binding, peer identity, time and fields it was built from. *)
Theorem audit_line_readable_iff phase cid binding a host t kvs line :
  audit_args_ok phase cid binding a t → domain_record kvs →
  rab_build_audit phase cid binding a host t (Some (JObject kvs)) = Some line →
  (record_fits kvs →
     rab_parse_stored (bs line) =
       Some (Stored RAB_REC_AUDIT phase cid (binding_text binding) a t
               (record_field kvs "operation") (record_field kvs "resource")
               (record_field kvs "scope") 0 [] zero_receipt false)) ∧
  (¬ record_fits kvs → rab_parse_stored (bs line) = None).
Proof.
  intros Ha Hd Hb. split; [by intros; eapply audit_roundtrip|]. intros Hn.
  rewrite (audit_readback _ _ _ _ _ _ _ _ Ha Hd Hb).
  destruct (load_opt_str _ "operation" _) eqn:H1'; [|done].
  destruct (load_opt_str _ "resource" _) eqn:H2'; [|done].
  destruct (load_opt_str _ "scope" _) eqn:H3'; [|done].
  destruct Hn. split_and!; by eapply load_opt_str_field.
Qed.

(** A carried intent reads back: id, binding, opener, time and domain fields of
    a checkpoint line are those it was built from. *)
Theorem checkpoint_line_reads_back cid binding a t op res sc line :
  cid ≠ "" → strlen cid < RAB_CID_MAX → binding ≠ "" → strlen binding < RAB_BINDING_MAX →
  actor_ok a → 0 ≤ t < 2 ^ 64 →
  strlen op < RAB_META_MAX → strlen res < RAB_META_MAX → strlen sc < RAB_SCOPE_MAX →
  rab_build_checkpoint cid binding a t op res sc = Some line →
  rab_parse_stored (bs line) =
    Some (Stored RAB_REC_CHECKPOINT "" cid binding a t op res sc 0 [] zero_receipt false).
Proof. apply checkpoint_roundtrip. Qed.

(** C23. A receipt line reads back: every bound field, the state, the times as exact
    64-bit values, and the checkpoint flag; the builder refuses what the parser
    would refuse, so its own checks are enough. *)
Theorem receipt_line_reads_back cid ckpt r line :
  0 ≤ rc_actor_uid r < 2 ^ 32 → rc_plan_schema r < 2 ^ 63 →
  0 ≤ rc_issue_boottime_us r < 2 ^ 64 → 0 ≤ rc_ttl_us r < 2 ^ 64 →
  0 ≤ rc_accepted_time_us r < 2 ^ 64 →
  rab_build_receipt cid ckpt r = Some line →
  rab_parse_stored (bs line) =
    Some (Stored RAB_REC_RECEIPT "" cid "" zero_actor 0 "" "" "" 0 [] r ckpt).
Proof.
  intros Hu Hp Hi Ht Ha Hb. apply receipt_roundtrip; [|done]. unfold receipt_ok.
  unfold rab_build_receipt in Hb. case_hyp Hb; [done|]. bool_hyps. split_and!; done || lia.
Qed.

(** A rate carry reads back: the uid and every window entry, in order, exactly. *)
Theorem rate_line_reads_back uid ops line :
  0 ≤ uid < 2 ^ 32 → Forall (λ tb, 0 ≤ fst tb < 2 ^ 64 ∧ 0 ≤ snd tb < 2 ^ 64) ops →
  rab_build_rate uid ops = Some line →
  rab_parse_stored (bs line) =
    Some (Stored RAB_REC_RATE "" "" "" zero_actor 0 "" "" "" uid ops zero_receipt false).
Proof. apply rate_roundtrip. Qed.
End RecordProperties.

(** ** Lines that satisfy the hypotheses *)

#[local] Existing Instance BitJansson.

Definition ex_actor : rab_actor := Actor 1000 1000 77 "boot" "123".
Definition ex_record : list (string * json) :=
  [("operation", JString "restart"); ("outcome", JString "ok")].
Definition ex_receipt : receipt :=
  Receipt RAB_RCPT_ISSUED
    "00112233445566778899aabbccddeeff00112233445566778899aabbccddeeff" 1000 "restart" "svc" 1
    "00112233445566778899aabbccddeeff00112233445566778899aabbccddeeff" 5 300000000 "boot"
    18446744073709551615.

Lemma ex_actor_ok : actor_ok ex_actor.
Proof. unfold actor_ok. cbn. split_and!; try done; lia. Qed.

Definition ex_audit_line : string :=
  default "" (rab_build_audit "outcome" "c" None ex_actor "h" 5 (Some (JObject ex_record))).

Lemma audit_line_readable_iff_witness :
  rab_parse_stored (bs ex_audit_line) =
    Some (Stored RAB_REC_AUDIT "outcome" "c" "" ex_actor 5 "restart" "" "" 0 [] zero_receipt false).
Proof.
  apply (audit_line_readable_iff "outcome" "c" None ex_actor "h" 5 ex_record ex_audit_line).
  - pose proof ex_actor_ok. by split_and!.
  - split_and!; [|done|by vm_compute]. intros k Hk. cbn in Hk. unfold domain_keys. cbn. set_solver.
  - by vm_compute.
  - by vm_compute.
Defined.

Lemma checkpoint_line_reads_back_witness :
  rab_parse_stored (bs (default "" (rab_build_checkpoint "c" "b" ex_actor 5 "restart" "svc" ""))) =
    Some (Stored RAB_REC_CHECKPOINT "" "c" "b" ex_actor 5 "restart" "svc" "" 0 [] zero_receipt false).
Proof.
  apply (checkpoint_line_reads_back "c" "b" ex_actor 5 "restart" "svc" "");
    solve [apply ex_actor_ok | done | by vm_compute].
Defined.

Lemma receipt_line_reads_back_witness :
  rab_parse_stored (bs (default "" (rab_build_receipt "c" false ex_receipt))) =
    Some (Stored RAB_REC_RECEIPT "" "c" "" zero_actor 0 "" "" "" 0 [] ex_receipt false).
Proof. apply (receipt_line_reads_back "c" false ex_receipt); by vm_compute. Defined.

Lemma rate_line_reads_back_witness :
  rab_parse_stored (bs (default "" (rab_build_rate 1000 [(5, 7); (18446744073709551615, 9)]))) =
    Some (Stored RAB_REC_RATE "" "" "" zero_actor 0 "" "" "" 1000 [(5, 7); (18446744073709551615, 9)]
            zero_receipt false).
Proof.
  apply (rate_line_reads_back 1000 [(5, 7); (18446744073709551615, 9)]);
    [by vm_compute|repeat constructor; by vm_compute|by vm_compute].
Defined.
