(* ===== verification/Receipt.v ===== *)
(** * Receipt-token digests (receipt.c)

    OpenSSL's SHA-256 is a parameter: the class [Sha256]. *)

From stdpp Require Import base gmap strings list.
From Stdlib Require Import ZArith Lia Ascii.
From S2P Require Import Prelude CString.

Definition RAB_SHA256_LEN : nat := 32.

(** The EVP digest of a byte string: its output, or a library failure. *)
Class Sha256 := evp_sha256 : bytes → option bytes.

(** [rab_sha256]: fails on any library error or an unexpected length. *)
Definition rab_sha256 `{Sha256} (data : bytes) : option bytes :=
  match evp_sha256 data with
  | Some d => if (length d =? RAB_SHA256_LEN)%nat then Some d else None
  | None => None
  end.

(** [rab_sha256_eq]: [CRYPTO_memcmp] over the digest length. *)
Fixpoint bytes_eqb (a b : bytes) : bool :=
  match a, b with
  | [], [] => true
  | x :: a', y :: b' => Ascii.eqb x y && bytes_eqb a' b'
  | _, _ => false
  end.

Definition rab_sha256_eq (a b : bytes) : bool := bytes_eqb a b.

(** The verifier of a token: the hex digest, [None] if the digest fails. *)
Definition token_verifier `{Sha256} (token : string) : option string :=
  match rab_sha256 (bs token) with Some d => Some (to_hex d) | None => None end.

(** A concrete digest for examples: the input padded or cut to 32 bytes. *)
Definition pad_sha : Sha256 := λ b, Some (take 32 (b ++ replicate 32 (byte_of 0))).

(** ** Facts *)

Lemma bytes_eqb_spec a b : bytes_eqb a b = true ↔ a = b.
Proof.
  revert b. induction a as [|x a IH]; intros [|y b]; simpl; try (by split).
  rewrite andb_true_iff, Ascii.eqb_eq, IH. split; [intros [-> ->]; done|intros [= -> ->]; done].
Qed.

Lemma rab_sha256_length `{Sha256} d r : rab_sha256 d = Some r → length r = 32%nat.
Proof.
  unfold rab_sha256. intros Hs. inv_guards Hs. simplify_eq. by apply Nat.eqb_eq.
Qed.

Lemma token_verifier_hex `{Sha256} t v : token_verifier t = Some v → is_hex_lc_n v 64 = true.
Proof.
  unfold token_verifier. destruct (rab_sha256 (bs t)) eqn:Hs; [|done]. intros [= <-].
  apply rab_sha256_length in Hs. change 64%nat with (2 * 32)%nat. rewrite <- Hs.
  apply to_hex_grammar.
Qed.
