(* ===== verification/Rate.v ===== *)
(** * Configuration and per-uid accounting (broker.c, broker.h)

    [rab_config], and the per-uid rate and byte accounting: the hash table of
    [uid_state]s, each with a FIFO ring of (timestamp, size) pairs, lazy
    eviction and a running byte sum, and the global tumbling byte window.
    Arithmetic on [unsigned] and [unsigned long long] fields wraps as in C.
    An allocation inside an operation is its argument [alloc].

    The ring refines a queue ([ring_queue]); the two window theorems at the end
    state what the limits guarantee over whole histories of admitted writes. *)

From stdpp Require Import base gmap strings list.
From Stdlib Require Import ZArith Lia.
From S2P Require Import Prelude.

Local Open Scope Z_scope.

(** ** Configuration *)

Record rab_config := Config {
  max_open_per_uid : Z;
  max_open_global : Z;
  rate_window_sec : Z;
  rate_max_in_window : Z;
  rate_max_bytes_per_uid : Z;
  rate_max_bytes_global : Z;
  rotate_bytes : Z;
  min_free_bytes : Z;
  retain_segments : Z;
  retain_bytes : Z;
  receipt_ttl_sec : Z
}.

Definition RAB_MAX_RECEIPT_TTL_SEC : Z := 30 * 24 * 60 * 60.

Definition rab_config_defaults : rab_config :=
  {| max_open_per_uid := 2048;
     max_open_global := 32768;
     rate_window_sec := 10;
     rate_max_in_window := 2000;
     rate_max_bytes_per_uid := Z.shiftl 16 20;
     rate_max_bytes_global := Z.shiftl 64 20;
     rotate_bytes := Z.shiftl 64 20;
     min_free_bytes := Z.shiftl 64 20;
     retain_segments := 16;
     retain_bytes := Z.shiftl 1024 20;
     receipt_ttl_sec := 300 |}.

(** The configurations [rab_broker_open] refuses, with its message. *)
Definition config_error (cfg : rab_config) : option string :=
  if negb (retain_bytes cfg =? 0) && negb (rotate_bytes cfg =? 0)
     && (retain_bytes cfg <? rotate_bytes cfg)
  then Some "retain_bytes must be >= rotate_bytes"%string
  else if negb (rate_max_bytes_per_uid cfg =? 0) && (rate_max_in_window cfg =? 0)
  then Some "rate_max_bytes_per_uid requires rate_max_in_window > 0"%string
  else if (receipt_ttl_sec cfg =? 0) || (RAB_MAX_RECEIPT_TTL_SEC <? receipt_ttl_sec cfg)
  then Some "receipt_ttl_sec must be in (0, RAB_MAX_RECEIPT_TTL_SEC]"%string
  else None.

(** ** State *)

Record uid_state := UidState {
  u_uid : Z;
  u_open : Z;
  u_ts : list Z;
  u_bytes : list Z;
  u_cap : Z;
  u_n : Z;
  u_head : Z;
  u_bsum : Z
}.

Record rates := Rates {
  bkt_uid : list (list uid_state);
  g_win_start : Z;
  g_win_bytes : Z
}.

Definition nbkt_uid : Z := 1024.

Definition rates_init : rates := Rates (replicate (Z.to_nat nbkt_uid) []) 0 0.

(** ** The by-uid table *)

Definition huid (uid : Z) : Z := Z.shiftr (u64 (uid * 11400714819323198485)) 29.
Definition uid_slot (uid : Z) : nat := Z.to_nat (Z.land (huid uid) (nbkt_uid - 1)).
Arguments uid_slot _ : simpl never.

Definition uid_chain (r : rates) (uid : Z) : list uid_state := nth (uid_slot uid) (bkt_uid r) [].

Definition set_chain (r : rates) (uid : Z) (c : list uid_state) : rates :=
  Rates (<[uid_slot uid := c]> (bkt_uid r)) (g_win_start r) (g_win_bytes r).

Fixpoint chain_find (c : list uid_state) (uid : Z) : option uid_state :=
  match c with
  | [] => None
  | u :: c' => if u_uid u =? uid then Some u else chain_find c' uid
  end.

Definition uid_find (r : rates) (uid : Z) : option uid_state := chain_find (uid_chain r uid) uid.

Definition new_uid_state (cfg : rab_config) (uid : Z) : uid_state :=
  let cap := if rate_max_in_window cfg =? 0 then 1 else rate_max_in_window cfg in
  UidState uid 0 (replicate (Z.to_nat cap) 0) (replicate (Z.to_nat cap) 0) cap 0 0 0.

Definition uid_get (cfg : rab_config) (alloc : bool) (uid : Z) (r : rates)
  : option uid_state * rates :=
  match uid_find r uid with
  | Some u => (Some u, r)
  | None =>
      if negb alloc then (None, r)
      else let u := new_uid_state cfg uid in (Some u, set_chain r uid (u :: uid_chain r uid))
  end.

(** Writing through the pointer [uid_get] returned: the entry of [uid]. *)
Fixpoint chain_store (c : list uid_state) (u : uid_state) : list uid_state :=
  match c with
  | [] => []
  | v :: c' => if u_uid v =? u_uid u then u :: c' else v :: chain_store c' u
  end.

Definition uid_store (r : rates) (u : uid_state) : rates :=
  set_chain r (u_uid u) (chain_store (uid_chain r (u_uid u)) u).

(** ** The ring *)

Definition win_th (cfg : rab_config) (now : Z) : Z :=
  let window := u64 (rate_window_sec cfg * 1000000) in
  if window <? now then now - window else 0.

Definition ring_ts (u : uid_state) (i : Z) : Z := nth (Z.to_nat i) (u_ts u) 0.
Definition ring_bytes (u : uid_state) (i : Z) : Z := nth (Z.to_nat i) (u_bytes u) 0.

(** Drop the entry at the head. *)
Definition ring_pop (u : uid_state) : uid_state :=
  UidState (u_uid u) (u_open u) (u_ts u) (u_bytes u) (u_cap u)
    (u32 (u_n u - 1)) (u32 (u_head u + 1) mod u_cap u)
    (u64 (u_bsum u - ring_bytes u (u_head u))).

Fixpoint uid_evict_loop (fuel : nat) (u : uid_state) (th : Z) : uid_state :=
  match fuel with
  | O => u
  | S fuel' =>
      if (0 <? u_n u) && (ring_ts u (u_head u) <? th)
      then uid_evict_loop fuel' (ring_pop u) th
      else u
  end.

(** Each round drops one of the [n] entries, so [n] rounds are enough. *)
Definition uid_evict (u : uid_state) (th : Z) : uid_state :=
  uid_evict_loop (Z.to_nat (u_n u)) u th.

Definition uid_push (u : uid_state) (t nbytes : Z) : uid_state :=
  let u := if u_n u =? u_cap u then ring_pop u else u in
  let idx := u32 (u_head u + u_n u) mod u_cap u in
  UidState (u_uid u) (u_open u) (<[Z.to_nat idx := t]> (u_ts u))
    (<[Z.to_nat idx := nbytes]> (u_bytes u)) (u_cap u)
    (u32 (u_n u + 1)) (u_head u) (u64 (u_bsum u + nbytes)).

Definition rate_allowed (cfg : rab_config) (alloc : bool) (uid now : Z) (r : rates)
  : bool * rates :=
  if rate_max_in_window cfg =? 0 then (true, r)
  else match uid_get cfg alloc uid r with
       | (None, r) => (false, r)
       | (Some u, r) =>
           let u := uid_evict u (win_th cfg now) in
           (u_n u <? rate_max_in_window cfg, uid_store r u)
       end.

(** The global half of [bytes_allowed]. *)
Definition global_bytes_ok (cfg : rab_config) (now nbytes : Z) (r : rates) : bool :=
  if rate_max_bytes_global cfg =? 0 then true
  else let window := u64 (rate_window_sec cfg * 1000000) in
       let cur := if window <=? u64 (now - g_win_start r) then 0 else g_win_bytes r in
       negb (rate_max_bytes_global cfg <? u64 (cur + nbytes)).

Definition bytes_allowed (cfg : rab_config) (alloc : bool) (uid now nbytes : Z) (r : rates)
  : bool * rates :=
  if rate_max_bytes_per_uid cfg =? 0 then (global_bytes_ok cfg now nbytes r, r)
  else match uid_get cfg alloc uid r with
       | (None, r) => (false, r)
       | (Some u, r) =>
           let u := uid_evict u (win_th cfg now) in
           let r := uid_store r u in
           if rate_max_bytes_per_uid cfg <? u64 (u_bsum u + nbytes) then (false, r)
           else (global_bytes_ok cfg now nbytes r, r)
       end.

Definition rate_note (cfg : rab_config) (alloc : bool) (uid t nbytes : Z) (r : rates) : rates :=
  if rate_max_in_window cfg =? 0 then r
  else match uid_get cfg alloc uid r with
       | (None, r) => r
       | (Some u, r) => uid_store r (uid_push u t nbytes)
       end.

Definition global_bytes_note (cfg : rab_config) (now nbytes : Z) (r : rates) : rates :=
  if rate_max_bytes_global cfg =? 0 then r
  else
    let window := u64 (rate_window_sec cfg * 1000000) in
    let r := if (g_win_start r =? 0) || (window <=? u64 (now - g_win_start r))
             then Rates (bkt_uid r) now 0 else r in
    Rates (bkt_uid r) (g_win_start r) (u64 (g_win_bytes r + nbytes)).

(** The open-intent count of a uid, as [open_add] and [open_remove] move it. *)
Definition uid_open_inc (cfg : rab_config) (alloc : bool) (uid : Z) (r : rates) : rates :=
  match uid_get cfg alloc uid r with
  | (None, r) => r
  | (Some u, r) =>
      uid_store r (UidState (u_uid u) (u32 (u_open u + 1)) (u_ts u) (u_bytes u) (u_cap u)
                     (u_n u) (u_head u) (u_bsum u))
  end.

Definition uid_open_dec (uid : Z) (r : rates) : rates :=
  match uid_find r uid with
  | None => r
  | Some u =>
      if 0 <? u_open u
      then uid_store r (UidState (u_uid u) (u32 (u_open u - 1)) (u_ts u) (u_bytes u) (u_cap u)
                          (u_n u) (u_head u) (u_bsum u))
      else r
  end.

(** ** The queue a ring stands for *)

Definition ring_entry (u : uid_state) (k : nat) : Z * Z :=
  let i := (u_head u + Z.of_nat k) mod u_cap u in (ring_ts u i, ring_bytes u i).

Definition ring_queue (u : uid_state) : list (Z * Z) :=
  map (ring_entry u) (seq 0 (Z.to_nat (u_n u))).

Definition total_bytes (q : list (Z * Z)) : Z := fold_right (λ e s, snd e + s) 0 q.

Record ring_ok (u : uid_state) : Prop := {
  ro_cap : 0 < u_cap u < 2 ^ 31;
  ro_ts : length (u_ts u) = Z.to_nat (u_cap u);
  ro_bytes : length (u_bytes u) = Z.to_nat (u_cap u);
  ro_n : 0 ≤ u_n u ≤ u_cap u;
  ro_head : 0 ≤ u_head u < u_cap u;
  ro_sum : u_bsum u = u64 (total_bytes (ring_queue u))
}.

(** Drop the entries before the first one inside the window. *)
Fixpoint drop_old (th : Z) (q : list (Z * Z)) : list (Z * Z) :=
  match q with
  | [] => []
  | e :: q' => if fst e <? th then drop_old th q' else q
  end.

(** A uid's queue; no entry is the empty queue. *)
Definition uid_queue (r : rates) (uid : Z) : list (Z * Z) :=
  match uid_find r uid with Some u => ring_queue u | None => [] end.

Definition uid_open_count (r : rates) (uid : Z) : Z :=
  match uid_find r uid with Some u => u_open u | None => 0 end.

Definition cfg_cap (cfg : rab_config) : Z :=
  if rate_max_in_window cfg =? 0 then 1 else rate_max_in_window cfg.

(** Every number an entry holds fits its C type. *)
Definition in_u64 (z : Z) : Prop := 0 ≤ z < 2 ^ 64.
Definition in_u32 (z : Z) : Prop := 0 ≤ z < 2 ^ 32.

Definition entry_wf (u : uid_state) : Prop :=
  in_u32 (u_uid u) ∧ Forall in_u64 (u_ts u) ∧ Forall in_u64 (u_bytes u).

(** The table: every chain holds well-formed rings of distinct uids that hash
    to it. *)
Record rates_ok (cfg : rab_config) (r : rates) : Prop := {
  rk_len : length (bkt_uid r) = Z.to_nat nbkt_uid;
  rk_ring : ∀ i c u, bkt_uid r !! i = Some c → u ∈ c →
    ring_ok u ∧ u_cap u = cfg_cap cfg ∧ uid_slot (u_uid u) = i ∧ entry_wf u;
  rk_nodup : ∀ i c, bkt_uid r !! i = Some c → NoDup (map u_uid c)
}.

(** ** Facts: the ring is a queue *)

Lemma u64_add_l a b : u64 (u64 a + b) = u64 (a + b).
Proof. unfold u64. by rewrite Zplus_mod_idemp_l. Qed.

Lemma u64_sub_l a b : u64 (u64 a - b) = u64 (a - b).
Proof. unfold u64. by rewrite Zminus_mod_idemp_l. Qed.

Lemma ring_head_val u :
  ring_ok u → (u_head u + 0) mod u_cap u = u_head u.
Proof. intros [? ? ? ? ? ?]. rewrite Z.add_0_r. by apply Z.mod_small. Qed.

Lemma ring_entry_0 u :
  ring_ok u → ring_entry u 0 = (ring_ts u (u_head u), ring_bytes u (u_head u)).
Proof. intros Hu. unfold ring_entry. change (Z.of_nat 0) with 0. by rewrite ring_head_val. Qed.

Lemma ring_queue_pop u :
  ring_ok u → 0 < u_n u → ring_queue u = ring_entry u 0 :: ring_queue (ring_pop u).
Proof.
  intros Hu Hn. pose proof Hu as [Hc ? ? ? ? ?]. unfold ring_queue.
  destruct (Z.to_nat (u_n u)) as [|m] eqn:Em; [lia|]. simpl seq. simpl map. f_equal.
  cbn [u_n ring_pop]. rewrite u32_small by lia.
  replace (Z.to_nat (u_n u - 1)) with m by lia.
  rewrite <- seq_shift, map_map. apply map_ext. intros k.
  unfold ring_entry, ring_ts, ring_bytes. cbn [u_head u_cap u_ts u_bytes ring_pop].
  rewrite u32_small by lia. rewrite Zplus_mod_idemp_l.
  replace (u_head u + 1 + Z.of_nat k) with (u_head u + Z.of_nat (S k)) by lia. done.
Qed.

Lemma ring_pop_ok u : ring_ok u → 0 < u_n u → ring_ok (ring_pop u).
Proof.
  intros Hu Hn. pose proof (ring_queue_pop u Hu Hn) as Hq. pose proof (ring_entry_0 u Hu) as He.
  destruct Hu as [Hc Ht Hb ? ? Hs]. split.
  - done.
  - done.
  - done.
  - cbn [u_n u_cap ring_pop]. rewrite u32_small by lia. lia.
  - cbn [u_head u_cap ring_pop]. apply Z.mod_pos_bound. lia.
  - cbn [u_bsum ring_pop]. rewrite Hs, Hq, He, u64_sub_l. simpl. f_equal. lia.
Qed.

Lemma evict_loop_spec fuel u th :
  ring_ok u → (Z.to_nat (u_n u) ≤ fuel)%nat →
  let u' := uid_evict_loop fuel u th in
  ring_ok u' ∧ ring_queue u' = drop_old th (ring_queue u) ∧
  u_uid u' = u_uid u ∧ u_open u' = u_open u ∧ u_cap u' = u_cap u.
Proof.
  revert u. induction fuel as [|fuel IH]; intros u Hu Hf.
  - simpl. assert (Hz : Z.to_nat (u_n u) = 0%nat) by lia. split_and!; try done. unfold ring_queue. by rewrite Hz.
  - simpl. pose proof Hu as [? ? ? ? ? ?]. destruct (0 <? u_n u) eqn:E0; bool_hyps.
    + rewrite (ring_queue_pop u Hu E0). rewrite (ring_entry_0 u Hu). simpl.
      destruct (ring_ts u (u_head u) <? th) eqn:E1.
      * destruct (IH (ring_pop u)) as (? & ? & ? & ? & ?).
        { by apply ring_pop_ok. }
        { cbn [u_n ring_pop]. rewrite u32_small by lia. lia. }
        done.
      * split_and!; try done. by rewrite (ring_queue_pop u Hu E0), (ring_entry_0 u Hu).
    + simpl andb. cbv iota. assert (Hz : Z.to_nat (u_n u) = 0%nat) by lia. split_and!; try done. unfold ring_queue. by rewrite Hz.
Qed.

Lemma uid_evict_spec u th :
  ring_ok u →
  ring_ok (uid_evict u th) ∧ ring_queue (uid_evict u th) = drop_old th (ring_queue u) ∧
  u_uid (uid_evict u th) = u_uid u ∧ u_open (uid_evict u th) = u_open u ∧
  u_cap (uid_evict u th) = u_cap u.
Proof. intros Hu. by apply evict_loop_spec. Qed.

Lemma ring_queue_length u : ring_ok u → Z.of_nat (length (ring_queue u)) = u_n u.
Proof. intros [? ? ? ? ? ?]. unfold ring_queue. rewrite length_map, length_seq. lia. Qed.

Lemma total_bytes_app q1 q2 : total_bytes (q1 ++ q2) = total_bytes q1 + total_bytes q2.
Proof. induction q1; simpl; [done|]. lia. Qed.

(** Appending below capacity: the new slot is none of the occupied ones. *)
Lemma ring_slot_fresh u k :
  ring_ok u → u_n u < u_cap u → (k < Z.to_nat (u_n u))%nat →
  (u_head u + Z.of_nat k) mod u_cap u ≠ (u_head u + u_n u) mod u_cap u.
Proof.
  intros [? ? ? ? ? ?] Hn Hk Heq.
  assert (Hd : (u_n u - Z.of_nat k) mod u_cap u = 0).
  { replace (u_n u - Z.of_nat k) with ((u_head u + u_n u) - (u_head u + Z.of_nat k)) by lia.
    rewrite Zminus_mod, Heq, Z.sub_diag. by rewrite Z.mod_0_l by lia. }
  rewrite Z.mod_small in Hd by lia. lia.
Qed.

Lemma push_below_spec u t nb :
  ring_ok u → u_n u < u_cap u →
  ring_ok (uid_push u t nb) ∧ ring_queue (uid_push u t nb) = ring_queue u ++ [(t, nb)].
Proof.
  intros Hu Hn. pose proof Hu as [Hc Ht Hb ? ? Hs].
  unfold uid_push. rewrite (proj2 (Z.eqb_neq _ _)) by lia. cbv zeta.
  set (idx := u32 (u_head u + u_n u) mod u_cap u). set (u' := UidState _ _ _ _ _ _ _ _).
  assert (Hidx : idx = (u_head u + u_n u) mod u_cap u) by (unfold idx; by rewrite u32_small by lia).
  assert (Hr : 0 ≤ idx < u_cap u) by (rewrite Hidx; apply Z.mod_pos_bound; lia).
  assert (Hq : ring_queue u' = ring_queue u ++ [(t, nb)]).
  { unfold ring_queue. cbn [u_n u']. rewrite u32_small by lia.
    replace (Z.to_nat (u_n u + 1)) with (Z.to_nat (u_n u) + 1)%nat by lia.
    rewrite seq_app, map_app. simpl. f_equal.
    - apply map_ext_in. intros k Hk. apply in_seq in Hk.
      unfold ring_entry, ring_ts, ring_bytes. cbn [u_head u_cap u_ts u_bytes u'].
      pose proof (ring_slot_fresh u k Hu Hn ltac:(lia)) as Hne.
      pose proof (Z.mod_pos_bound (u_head u + Z.of_nat k) (u_cap u)).
      rewrite !nth_lookup, !list_lookup_insert_ne by lia. done.
    - f_equal. unfold ring_entry, ring_ts, ring_bytes. cbn [u_head u_cap u_ts u_bytes u'].
      rewrite Z2Nat.id, <- Hidx, !nth_lookup by lia.
      rewrite !list_lookup_insert_eq by lia. done. }
  split; [|done]. split.
  - done.
  - cbn [u_ts u' u_cap]. by rewrite length_insert.
  - cbn [u_bytes u' u_cap]. by rewrite length_insert.
  - cbn [u_n u' u_cap]. rewrite u32_small; lia.
  - done.
  - rewrite Hq. cbn [u_bsum u']. rewrite Hs, total_bytes_app, u64_add_l. simpl. f_equal. lia.
Qed.

(** At capacity the oldest entry makes room. *)
Lemma uid_push_spec u t nb :
  ring_ok u →
  ring_ok (uid_push u t nb) ∧
  ring_queue (uid_push u t nb) =
    (if u_n u =? u_cap u then tail (ring_queue u) else ring_queue u) ++ [(t, nb)] ∧
  u_uid (uid_push u t nb) = u_uid u ∧ u_open (uid_push u t nb) = u_open u ∧
  u_cap (uid_push u t nb) = u_cap u.
Proof.
  intros Hu. pose proof Hu as [? ? ? ? ? ?].
  destruct (u_n u =? u_cap u) eqn:E; bool_hyps.
  - assert (Hn : 0 < u_n u) by lia.
    assert (Hpn : u_n (ring_pop u) = u_n u - 1) by (simpl; rewrite u32_small; lia).
    assert (Hp : uid_push u t nb = uid_push (ring_pop u) t nb).
    { unfold uid_push. rewrite (proj2 (Z.eqb_eq (u_n u) (u_cap u)) E).
      rewrite (proj2 (Z.eqb_neq (u_n (ring_pop u)) (u_cap (ring_pop u)))); [done|].
      rewrite Hpn. simpl. lia. }
    destruct (push_below_spec (ring_pop u) t nb (ring_pop_ok u Hu Hn)) as [H1 H2].
    { rewrite Hpn. simpl. lia. }
    rewrite Hp, (ring_queue_pop u Hu Hn). split_and!; try done;
      unfold uid_push; by case_goal.
  - destruct (push_below_spec u t nb Hu ltac:(lia)). split_and!; try done;
      unfold uid_push; by case_goal.
Qed.

(** ** Facts: the table *)

(** The configuration's fields at their C widths; the ring index arithmetic on
    [unsigned] additionally needs the op limit below [2^31]. *)
Record cfg_ok (cfg : rab_config) : Prop := {
  ck_rate : 0 ≤ rate_max_in_window cfg < 2 ^ 31;
  ck_window : 0 ≤ rate_window_sec cfg < 2 ^ 32;
  ck_open_uid : 0 ≤ max_open_per_uid cfg < 2 ^ 32;
  ck_open : 0 ≤ max_open_global cfg < 2 ^ 32;
  ck_buid : 0 ≤ rate_max_bytes_per_uid cfg < 2 ^ 64;
  ck_bglob : 0 ≤ rate_max_bytes_global cfg < 2 ^ 64;
  ck_ttl : 0 ≤ receipt_ttl_sec cfg < 2 ^ 32
}.

Section Table.
Context (cfg : rab_config).

Lemma uid_slot_lt uid : (uid_slot uid < Z.to_nat nbkt_uid)%nat.
Proof.
  unfold uid_slot, nbkt_uid. change (1024 - 1) with (2 ^ 10 - 1).
  rewrite land_mask_mod by lia. pose proof (Z.mod_pos_bound (huid uid) (2 ^ 10)). lia.
Qed.

Lemma chain_lookup r uid :
  rates_ok cfg r → bkt_uid r !! uid_slot uid = Some (uid_chain r uid).
Proof.
  intros [Hl _ _]. unfold uid_chain. pose proof (uid_slot_lt uid).
  destruct (lookup_lt_is_Some_2 (bkt_uid r) (uid_slot uid)) as [c Hc]; [lia|].
  by rewrite nth_lookup, Hc.
Qed.

Lemma chain_find_Some c uid u : chain_find c uid = Some u → u ∈ c ∧ u_uid u = uid.
Proof.
  induction c as [|v c IH]; simpl; [done|].
  destruct (Z.eqb_spec (u_uid v) uid); [intros [= <-]; set_solver|].
  intros Hf. apply IH in Hf. set_solver.
Qed.

Lemma chain_find_None c uid : chain_find c uid = None → uid ∉ map u_uid c.
Proof.
  induction c as [|v c IH]; simpl; [set_solver|].
  destruct (Z.eqb_spec (u_uid v) uid); [done|]. set_solver.
Qed.

Lemma chain_store_map c u : map u_uid (chain_store c u) = map u_uid c.
Proof.
  induction c as [|v c IH]; simpl; [done|].
  destruct (Z.eqb_spec (u_uid v) (u_uid u)); simpl; congruence.
Qed.

Lemma chain_store_elem c u v : v ∈ chain_store c u → v = u ∨ v ∈ c.
Proof.
  induction c as [|w c IH]; simpl; [set_solver|].
  destruct (u_uid w =? u_uid u); set_solver.
Qed.

Lemma chain_find_store c u uid :
  u_uid u ∈ map u_uid c →
  chain_find (chain_store c u) uid = if u_uid u =? uid then Some u else chain_find c uid.
Proof.
  induction c as [|v c IH]; simpl; [set_solver|]. intros Hin.
  destruct (Z.eqb_spec (u_uid v) (u_uid u)) as [He|Hne]; simpl.
  - rewrite He. by destruct (u_uid u =? uid).
  - rewrite IH by set_solver. destruct (Z.eqb_spec (u_uid v) uid); [|done].
    by rewrite (proj2 (Z.eqb_neq _ _)) by congruence.
Qed.

Lemma uid_chain_set r uid c uid' :
  rates_ok cfg r →
  uid_chain (set_chain r uid c) uid' =
    if (uid_slot uid =? uid_slot uid')%nat then c else uid_chain r uid'.
Proof.
  intros [Hl _ _]. unfold uid_chain, set_chain. cbn [bkt_uid]. rewrite !nth_lookup.
  pose proof (uid_slot_lt uid).
  destruct (Nat.eqb_spec (uid_slot uid) (uid_slot uid')) as [<-|Hne].
  - by rewrite list_lookup_insert_eq by lia.
  - by rewrite list_lookup_insert_ne.
Qed.

Lemma uid_find_Some r uid u :
  rates_ok cfg r → uid_find r uid = Some u →
  u_uid u = uid ∧ ring_ok u ∧ u_cap u = cfg_cap cfg ∧ u ∈ uid_chain r uid ∧ entry_wf u.
Proof.
  intros Hr Hf. apply chain_find_Some in Hf as [Hin Hu].
  destruct (rk_ring _ _ Hr _ _ _ (chain_lookup r uid Hr) Hin) as (? & ? & ? & ?). done.
Qed.

Lemma uid_find_store r u uid :
  rates_ok cfg r → u_uid u ∈ map u_uid (uid_chain r (u_uid u)) →
  uid_find (uid_store r u) uid = if u_uid u =? uid then Some u else uid_find r uid.
Proof.
  intros Hr Hin. unfold uid_find, uid_store. rewrite uid_chain_set by done.
  destruct (Nat.eqb_spec (uid_slot (u_uid u)) (uid_slot uid)) as [He|Hne].
  - rewrite chain_find_store by done. unfold uid_chain. by rewrite He.
  - destruct (Z.eqb_spec (u_uid u) uid); [congruence|done].
Qed.

Lemma set_chain_ok r uid c :
  rates_ok cfg r → NoDup (map u_uid c) →
  (∀ u, u ∈ c → ring_ok u ∧ u_cap u = cfg_cap cfg ∧ uid_slot (u_uid u) = uid_slot uid ∧
                entry_wf u) →
  rates_ok cfg (set_chain r uid c).
Proof.
  intros Hr Hnd Hc. pose proof Hr as [Hl Hring Hn]. pose proof (uid_slot_lt uid). split; cbn [bkt_uid set_chain].
  - by rewrite length_insert.
  - intros i c' u Hi Hu. destruct (decide (i = uid_slot uid)) as [->|Hne].
    + rewrite list_lookup_insert_eq in Hi by lia. injection Hi as <-. auto.
    + rewrite list_lookup_insert_ne in Hi by done. eauto.
  - intros i c' Hi. destruct (decide (i = uid_slot uid)) as [->|Hne].
    + rewrite list_lookup_insert_eq in Hi by lia. by injection Hi as <-.
    + rewrite list_lookup_insert_ne in Hi by done. eauto.
Qed.

Lemma uid_store_ok r u :
  rates_ok cfg r → u_uid u ∈ map u_uid (uid_chain r (u_uid u)) → ring_ok u →
  u_cap u = cfg_cap cfg → entry_wf u → rates_ok cfg (uid_store r u).
Proof.
  intros Hr Hin Hu Hcap Hwf. pose proof (chain_lookup r (u_uid u) Hr) as Hlk. apply set_chain_ok.
  - done.
  - rewrite chain_store_map. eapply rk_nodup; eauto.
  - intros v Hv. apply chain_store_elem in Hv as [->|Hv]; [done|]. eapply rk_ring; eauto.
Qed.

Lemma uid_find_in r uid u :
  rates_ok cfg r → uid_find r uid = Some u → u_uid u ∈ map u_uid (uid_chain r (u_uid u)).
Proof.
  intros Hr Hf. destruct (uid_find_Some r uid u Hr Hf) as (<- & _ & _ & Hin & _).
  apply list_elem_of_In, in_map, list_elem_of_In. done.
Qed.

(** Storing a changed entry changes that uid's view only. *)
Lemma uid_store_spec r uid u u' :
  rates_ok cfg r → uid_find r uid = Some u → u_uid u' = uid → ring_ok u' →
  u_cap u' = cfg_cap cfg → entry_wf u' →
  rates_ok cfg (uid_store r u') ∧
  (∀ uid', uid_queue (uid_store r u') uid' =
             if uid =? uid' then ring_queue u' else uid_queue r uid') ∧
  (∀ uid', uid_open_count (uid_store r u') uid' =
             if uid =? uid' then u_open u' else uid_open_count r uid') ∧
  g_win_start (uid_store r u') = g_win_start r ∧ g_win_bytes (uid_store r u') = g_win_bytes r.
Proof.
  intros Hr Hf <- Hu Hcap Hwf.
  assert (Hin : u_uid u' ∈ map u_uid (uid_chain r (u_uid u'))).
  { pose proof (uid_find_in r _ u Hr Hf) as Hin.
    destruct (uid_find_Some r _ u Hr Hf) as (He & _). by rewrite He in Hin. }
  split_and!; try done.
  - by apply uid_store_ok.
  - intros uid'. unfold uid_queue. rewrite uid_find_store by done. by destruct (u_uid u' =? uid').
  - intros uid'. unfold uid_open_count. rewrite uid_find_store by done.
    by destruct (u_uid u' =? uid').
Qed.
Context (Hcfg : cfg_ok cfg).

Lemma new_uid_state_ok uid : ring_ok (new_uid_state cfg uid).
Proof.
  destruct Hcfg. unfold new_uid_state. split; cbn [u_cap u_ts u_bytes u_n u_head u_bsum];
    rewrite ?length_replicate; try case_goal; bool_hyps; try lia; done.
Qed.

Lemma new_uid_state_wf uid : in_u32 uid → entry_wf (new_uid_state cfg uid).
Proof.
  intros Hu. unfold new_uid_state. split_and!; cbn [u_uid u_ts u_bytes]; [done|..];
    apply Forall_replicate; unfold in_u64; lia.
Qed.

(** What [uid_get] leaves observable: nothing but a possibly new empty entry. *)
Definition same_view (r r' : rates) : Prop :=
  (∀ uid, uid_queue r' uid = uid_queue r uid ∧ uid_open_count r' uid = uid_open_count r uid) ∧
  g_win_start r' = g_win_start r ∧ g_win_bytes r' = g_win_bytes r ∧
  (∀ v u, uid_find r v = Some u → uid_find r' v = Some u).

Lemma uid_get_spec alloc uid r o r' :
  rates_ok cfg r → in_u32 uid → uid_get cfg alloc uid r = (o, r') →
  rates_ok cfg r' ∧ same_view r r' ∧ uid_find r' uid = o ∧ (alloc = true → o ≠ None) ∧
  (o = None → r' = r).
Proof.
  intros Hr Huid Hg. unfold uid_get in Hg. destruct (uid_find r uid) as [u|] eqn:Hf.
  { injection Hg as <- <-. split_and!; done. }
  destruct alloc; simpl in Hg; injection Hg as <- <-; [|split_and!; done].
  pose proof (chain_lookup r uid Hr) as Hlk. pose proof (new_uid_state_ok uid) as Hnew.
  pose proof (new_uid_state_wf uid Huid) as Hnwf.
  assert (Hok : rates_ok cfg (set_chain r uid (new_uid_state cfg uid :: uid_chain r uid))).
  { apply set_chain_ok; [done| |].
    - simpl. constructor; [by apply chain_find_None|]. eapply rk_nodup; eauto.
    - intros u Hu. apply elem_of_cons in Hu as [->|Hu]; [done|]. eapply rk_ring; eauto. }
  assert (Hfind : ∀ uid', uid_find (set_chain r uid (new_uid_state cfg uid :: uid_chain r uid)) uid'
            = if uid =? uid' then Some (new_uid_state cfg uid) else uid_find r uid').
  { intros uid'. unfold uid_find at 1. rewrite uid_chain_set by done.
    destruct (Nat.eqb_spec (uid_slot uid) (uid_slot uid')) as [He|Hne].
    - simpl. destruct (uid =? uid'); [done|]. unfold uid_find, uid_chain. by rewrite He.
    - destruct (Z.eqb_spec uid uid'); [congruence|done]. }
  split_and!; try done.
  - split_and!; [|done..|].
    + intros uid'. unfold uid_queue, uid_open_count. rewrite Hfind.
      destruct (Z.eqb_spec uid uid') as [<-|]; [|done]. by rewrite Hf.
    + intros v u Hv. rewrite Hfind. destruct (Z.eqb_spec uid v); [congruence|done].
  - rewrite Hfind. by rewrite Z.eqb_refl.
Qed.

End Table.

(** ** Facts: the operations, seen through queues and counts *)

Section Views.
Context (cfg : rab_config) (Hcfg : cfg_ok cfg).

(** An operation that may only have evicted from the queue of [uid]. *)
Record trims (uid now : Z) (r r' : rates) : Prop := {
  tr_ok : rates_ok cfg r';
  tr_open : ∀ v, uid_open_count r' v = uid_open_count r v;
  tr_start : g_win_start r' = g_win_start r;
  tr_gbytes : g_win_bytes r' = g_win_bytes r;
  tr_other : ∀ v, v ≠ uid → uid_queue r' v = uid_queue r v;
  tr_queue : uid_queue r' uid = uid_queue r uid ∨
             uid_queue r' uid = drop_old (win_th cfg now) (uid_queue r uid);
  tr_find : ∀ v u, uid_find r v = Some u → ∃ u', uid_find r' v = Some u'
}.

Lemma trims_refl uid now r : rates_ok cfg r → trims uid now r r.
Proof. intros Hr. split; eauto. Qed.

Lemma uid_evict_wf u th : entry_wf u → entry_wf (uid_evict u th).
Proof.
  unfold uid_evict. generalize (Z.to_nat (u_n u)). intros n. revert u.
  induction n as [|n IH]; intros u Hu; simpl; [done|]. case_goal; [|done]. by apply IH.
Qed.

Lemma uid_push_wf u t nb : entry_wf u → in_u64 t → in_u64 nb → entry_wf (uid_push u t nb).
Proof.
  intros (? & ? & ?) Ht Hn. unfold uid_push.
  destruct (u_n u =? u_cap u); split_and!; simpl; try done; by apply Forall_insert.
Qed.

(** [uid_get] followed by eviction of the entry it returned. *)
Lemma get_evict_spec alloc uid now r u r1 :
  rates_ok cfg r → in_u32 uid → uid_get cfg alloc uid r = (Some u, r1) →
  let u' := uid_evict u (win_th cfg now) in
  trims uid now r (uid_store r1 u') ∧
  uid_queue (uid_store r1 u') uid = drop_old (win_th cfg now) (uid_queue r uid) ∧
  ring_queue u' = uid_queue (uid_store r1 u') uid ∧ ring_ok u'.
Proof.
  intros Hr Huid Hg u'.
  apply (uid_get_spec cfg Hcfg) in Hg as (Hr1 & (Hv & Hs & Hb & Hfr) & Hf & _); [|done..].
  destruct (uid_find_Some cfg r1 uid u Hr1 Hf) as (Hu & Hring & Hcap & _ & Hwf).
  destruct (uid_evict_spec u (win_th cfg now) Hring) as (Hok' & Hq' & Hu' & Ho' & Hc').
  destruct (uid_store_spec cfg r1 uid u u' Hr1 Hf) as (Hrok & Hq & Ho & Hs' & Hb');
    [by rewrite <- Hu|done|unfold u'; congruence|by apply uid_evict_wf|].
  assert (Hqu : uid_queue r uid = ring_queue u).
  { destruct (Hv uid) as [<- _]. unfold uid_queue. by rewrite Hf. }
  assert (Heq : uid_queue (uid_store r1 u') uid = drop_old (win_th cfg now) (uid_queue r uid)).
  { rewrite Hq, Z.eqb_refl, Hqu. done. }
  split_and!; [split|done| |done].
  - done.
  - intros v. rewrite Ho. destruct (Hv v) as [_ Hov]. destruct (Z.eqb_spec uid v) as [<-|]; [|done].
    rewrite <- Hov. unfold uid_open_count. rewrite Hf. done.
  - congruence.
  - congruence.
  - intros v Hne. rewrite Hq, (proj2 (Z.eqb_neq _ _)) by congruence. apply Hv.
  - by right.
  - intros v u0 Hv0. rewrite (uid_find_store cfg); [|done|].
    + apply Hfr in Hv0. destruct (u_uid u' =? v); eauto.
    + unfold u'. rewrite Hu'. by apply (uid_find_in cfg _ uid).
  - by rewrite Hq, Z.eqb_refl.
Qed.

Lemma rate_allowed_spec alloc uid now r b r' :
  rates_ok cfg r → in_u32 uid → rate_allowed cfg alloc uid now r = (b, r') →
  trims uid now r r' ∧
  (b = true → rate_max_in_window cfg ≠ 0 →
     uid_queue r' uid = drop_old (win_th cfg now) (uid_queue r uid) ∧
     (∃ u, uid_find r' uid = Some u) ∧
     Z.of_nat (length (uid_queue r' uid)) < rate_max_in_window cfg).
Proof.
  intros Hr Huid Ha. unfold rate_allowed in Ha.
  destruct (rate_max_in_window cfg =? 0) eqn:E; bool_hyps.
  { injection Ha as <- <-. split; [by apply trims_refl|done]. }
  destruct (uid_get cfg alloc uid r) as [[u|] r1] eqn:Hg; injection Ha as <- <-.
  - destruct (get_evict_spec _ _ now _ _ _ Hr Huid Hg) as (Htr & Hq & Hu' & Hok').
    split; [done|]. intros Hlt _. bool_hyps. split_and!; [done| |].
    + destruct (uid_get_spec cfg Hcfg _ _ _ _ _ Hr Huid Hg) as (Hr1 & _ & Hf & _).
      destruct (uid_find_Some cfg r1 uid u Hr1 Hf) as (Hu & Hring & _ & _ & _).
      destruct (uid_evict_spec u (win_th cfg now) Hring) as (_ & _ & He & _).
      eexists. rewrite (uid_find_store cfg); [|done|].
      * by rewrite He, Hu, Z.eqb_refl.
      * rewrite He. by apply (uid_find_in cfg _ uid).
    + rewrite <- Hu', ring_queue_length by done. done.
  - apply (uid_get_spec cfg Hcfg) in Hg as (_ & _ & _ & _ & Hno); [|done..]. rewrite (Hno eq_refl) in *.
    split; [by apply trims_refl|done].
Qed.

Lemma bytes_allowed_spec alloc uid now nb r b r' :
  rates_ok cfg r → in_u32 uid → bytes_allowed cfg alloc uid now nb r = (b, r') →
  trims uid now r r' ∧
  (b = true → global_bytes_ok cfg now nb r = true ∧
     (rate_max_bytes_per_uid cfg ≠ 0 →
        uid_queue r' uid = drop_old (win_th cfg now) (uid_queue r uid) ∧
        u64 (total_bytes (uid_queue r' uid) + nb) ≤ rate_max_bytes_per_uid cfg)).
Proof.
  intros Hr Huid Ha. unfold bytes_allowed in Ha.
  destruct (rate_max_bytes_per_uid cfg =? 0) eqn:E; bool_hyps.
  { injection Ha as <- <-. split; [by apply trims_refl|done]. }
  destruct (uid_get cfg alloc uid r) as [[u|] r1] eqn:Hg.
  - destruct (get_evict_spec _ _ now _ _ _ Hr Huid Hg) as (Htr & Hq & Hu' & Hok').
    case_hyp Ha; injection Ha as <- <-; split; try done. bool_hyps.
    intros Hglob. split.
    + revert Hglob. unfold global_bytes_ok. by rewrite (tr_start _ _ _ _ Htr), (tr_gbytes _ _ _ _ Htr).
    + intros _. split; [done|]. rewrite <- Hu', <- u64_add_l, <- (ro_sum _ Hok'). done.
  - apply (uid_get_spec cfg Hcfg) in Hg as (_ & _ & _ & _ & Hno); [|done..]. rewrite (Hno eq_refl) in *.
    injection Ha as <- <-. split; [by apply trims_refl|done].
Qed.

(** What a refusal means when memory is available: the window is full, or the
    bytes would exceed a quota. *)
Definition over_rate (uid now : Z) (r : rates) : Prop :=
  rate_max_in_window cfg ≠ 0 ∧
  rate_max_in_window cfg ≤ Z.of_nat (length (drop_old (win_th cfg now) (uid_queue r uid))).

Definition over_bytes (uid now nb : Z) (r : rates) : Prop :=
  (rate_max_bytes_per_uid cfg ≠ 0 ∧
   rate_max_bytes_per_uid cfg <
     u64 (total_bytes (drop_old (win_th cfg now) (uid_queue r uid)) + nb)) ∨
  global_bytes_ok cfg now nb r = false.

Lemma rate_refused uid now r r' :
  rates_ok cfg r → in_u32 uid → rate_allowed cfg true uid now r = (false, r') →
  over_rate uid now r.
Proof.
  intros Hr Huid Ha. unfold rate_allowed in Ha.
  destruct (rate_max_in_window cfg =? 0) eqn:E; [done|]. bool_hyps.
  destruct (uid_get cfg true uid r) as [[u|] r1] eqn:Hg.
  - destruct (get_evict_spec _ _ now _ _ _ Hr Huid Hg) as (_ & Hq & Hu' & Hok').
    injection Ha as Hlt _. bool_hyps. split; [done|].
    rewrite <- Hq, <- Hu', ring_queue_length by done. done.
  - apply (uid_get_spec cfg Hcfg) in Hg as (_ & _ & _ & Hal & _); [|done..]. by destruct Hal.
Qed.

Lemma bytes_refused uid now nb r r' :
  rates_ok cfg r → in_u32 uid → bytes_allowed cfg true uid now nb r = (false, r') →
  over_bytes uid now nb r.
Proof.
  intros Hr Huid Ha. unfold bytes_allowed in Ha.
  destruct (rate_max_bytes_per_uid cfg =? 0) eqn:E; bool_hyps.
  { injection Ha as Hg _. by right. }
  destruct (uid_get cfg true uid r) as [[u|] r1] eqn:Hg.
  - destruct (get_evict_spec _ _ now _ _ _ Hr Huid Hg) as (Htr & Hq & Hu' & Hok').
    case_hyp Ha; bool_hyps.
    + left. split; [done|]. rewrite <- Hq, <- Hu', <- u64_add_l, <- (ro_sum _ Hok'). done.
    + injection Ha as Ha _. right. revert Ha. unfold global_bytes_ok. by rewrite (tr_start _ _ _ _ Htr), (tr_gbytes _ _ _ _ Htr).
  - apply (uid_get_spec cfg Hcfg) in Hg as (_ & _ & _ & Hal & _); [|done..]. by destruct Hal.
Qed.

Lemma drop_old_twice th q : drop_old th (drop_old th q) = drop_old th q.
Proof.
  induction q as [|e q IH]; simpl; [done|]. destruct (fst e <? th) eqn:E; [done|]. simpl. by rewrite E.
Qed.

(** Eviction does not change what is over a quota. *)
Lemma over_bytes_trims uid now nb r r' :
  trims uid now r r' → over_bytes uid now nb r' → over_bytes uid now nb r.
Proof.
  intros []. unfold over_bytes, global_bytes_ok. rewrite tr_start0, tr_gbytes0.
  destruct tr_queue0 as [->| ->]; rewrite ?drop_old_twice; done.
Qed.

Lemma rate_note_spec alloc uid t nb r :
  rates_ok cfg r → in_u32 uid → in_u64 t → in_u64 nb →
  let r' := rate_note cfg alloc uid t nb r in
  rates_ok cfg r' ∧ (∀ v, uid_open_count r' v = uid_open_count r v) ∧
  g_win_start r' = g_win_start r ∧ g_win_bytes r' = g_win_bytes r ∧
  (∀ v, v ≠ uid → uid_queue r' v = uid_queue r v) ∧
  (rate_max_in_window cfg = 0 → r' = r) ∧
  (rate_max_in_window cfg ≠ 0 → alloc = true ∨ (∃ u, uid_find r uid = Some u) →
     uid_queue r' uid =
       (if Z.of_nat (length (uid_queue r uid)) =? cfg_cap cfg then tail (uid_queue r uid)
        else uid_queue r uid) ++ [(t, nb)]).
Proof.
  intros Hr Huid Ht Hnb. unfold rate_note. destruct (rate_max_in_window cfg =? 0) eqn:E; bool_hyps.
  { cbv zeta. split_and!; done. }
  destruct (uid_get cfg alloc uid r) as [[u|] r1] eqn:Hg;
    pose proof (uid_get_spec cfg Hcfg _ _ _ _ _ Hr Huid Hg) as (Hr1 & (Hv & Hs & Hb & Hfr) & Hf & Hal & Hno).
  - destruct (uid_find_Some cfg r1 uid u Hr1 Hf) as (Hu & Hring & Hcap & _ & Hwf).
    destruct (uid_push_spec u t nb Hring) as (Hok' & Hq' & Hu' & Ho' & Hc').
    destruct (uid_store_spec cfg r1 uid u (uid_push u t nb) Hr1 Hf)
      as (Hrok & Hq & Ho & Hs' & Hb'); [congruence|done|congruence|by apply uid_push_wf|].
    assert (Hqu : uid_queue r uid = ring_queue u).
    { destruct (Hv uid) as [<- _]. unfold uid_queue. by rewrite Hf. }
    cbv zeta. split_and!; try done; try congruence.
    + intros v. rewrite Ho. destruct (Hv v) as [_ <-]. destruct (Z.eqb_spec uid v) as [<-|]; [|done].
      rewrite Ho'. unfold uid_open_count. by rewrite Hf.
    + intros v Hne. rewrite Hq, (proj2 (Z.eqb_neq _ _)) by congruence. apply Hv.
    + intros _ _. rewrite Hq, Z.eqb_refl, Hq', Hqu, ring_queue_length, Hcap by done. done.
  - rewrite (Hno eq_refl). cbv zeta. split_and!; try done.
    intros _ [->|[u Hfu]]; [by destruct Hal|].
    unfold uid_get in Hg. by rewrite Hfu in Hg.
Qed.

Lemma global_note_spec now nb r :
  rates_ok cfg r →
  let r' := global_bytes_note cfg now nb r in
  rates_ok cfg r' ∧ (∀ v, uid_find r' v = uid_find r v).
Proof.
  intros Hr. unfold global_bytes_note. cbv zeta. destruct Hr.
  repeat case_goal; split; try done; split; done.
Qed.

Lemma uid_open_inc_spec alloc uid r :
  rates_ok cfg r → in_u32 uid →
  let r' := uid_open_inc cfg alloc uid r in
  rates_ok cfg r' ∧ (∀ v, uid_queue r' v = uid_queue r v) ∧
  g_win_start r' = g_win_start r ∧ g_win_bytes r' = g_win_bytes r ∧
  (∀ v, v ≠ uid → uid_open_count r' v = uid_open_count r v) ∧
  (alloc = true ∨ (∃ u, uid_find r uid = Some u) →
     uid_open_count r' uid = u32 (uid_open_count r uid + 1)).
Proof.
  intros Hr Huid. unfold uid_open_inc.
  destruct (uid_get cfg alloc uid r) as [[u|] r1] eqn:Hg;
    pose proof (uid_get_spec cfg Hcfg _ _ _ _ _ Hr Huid Hg) as (Hr1 & (Hv & Hs & Hb & Hfr) & Hf & Hal & Hno).
  - destruct (uid_find_Some cfg r1 uid u Hr1 Hf) as (Hu & Hring & Hcap & _ & Hwf).
    set (u' := UidState _ _ _ _ _ _ _ _).
    assert (Hring' : ring_ok u') by (destruct Hring; split; done).
    destruct (uid_store_spec cfg r1 uid u u' Hr1 Hf Hu Hring' Hcap Hwf) as (Hrok & Hq & Ho & Hs' & Hb').
    cbv zeta. split_and!; try done; try congruence.
    + intros v. rewrite Hq. destruct (Hv v) as [<- _]. destruct (Z.eqb_spec uid v) as [<-|]; [|done].
      unfold uid_queue. by rewrite Hf.
    + intros v Hne. rewrite Ho, (proj2 (Z.eqb_neq _ _)) by congruence. apply Hv.
    + intros _. rewrite Ho, Z.eqb_refl. destruct (Hv uid) as [_ <-].
      unfold uid_open_count. by rewrite Hf.
  - rewrite (Hno eq_refl). cbv zeta. split_and!; try done.
    intros [->|[u Hfu]]; [by destruct Hal|].
    unfold uid_get in Hg. by rewrite Hfu in Hg.
Qed.

Lemma uid_open_dec_spec uid r :
  rates_ok cfg r →
  let r' := uid_open_dec uid r in
  rates_ok cfg r' ∧ (∀ v, uid_queue r' v = uid_queue r v) ∧
  g_win_start r' = g_win_start r ∧ g_win_bytes r' = g_win_bytes r ∧
  (∀ v, v ≠ uid → uid_open_count r' v = uid_open_count r v) ∧
  uid_open_count r' uid = if 0 <? uid_open_count r uid then u32 (uid_open_count r uid - 1)
                          else uid_open_count r uid.
Proof.
  intros Hr. unfold uid_open_dec. unfold uid_open_count at 4 5 6.
  destruct (uid_find r uid) as [u|] eqn:Hf; cbv zeta; [|by unfold uid_open_count; rewrite Hf; split_and!].
  destruct (uid_find_Some cfg r uid u Hr Hf) as (Hu & Hring & Hcap & _ & Hwf).
  destruct (0 <? u_open u); [|by unfold uid_open_count; rewrite Hf; split_and!].
  set (u' := UidState _ _ _ _ _ _ _ _).
  assert (Hring' : ring_ok u') by (destruct Hring; split; done).
  destruct (uid_store_spec cfg r uid u u' Hr Hf Hu Hring' Hcap Hwf) as (Hrok & Hq & Ho & Hs' & Hb').
  split_and!; try done.
  - intros v. rewrite Hq. destruct (Z.eqb_spec uid v) as [<-|]; [|done].
    unfold uid_queue. by rewrite Hf.
  - intros v Hne. by rewrite Ho, (proj2 (Z.eqb_neq _ _)) by congruence.
  - by rewrite Ho, Z.eqb_refl.
Qed.
End Views.

(** ** Tables that only lost old entries *)

Record shrunk (cfg : rab_config) (r r' : rates) : Prop := {
  sh_ok : rates_ok cfg r';
  sh_open : ∀ uid, uid_open_count r' uid = uid_open_count r uid;
  sh_start : g_win_start r' = g_win_start r;
  sh_bytes : g_win_bytes r' = g_win_bytes r;
  sh_queue : ∀ uid, uid_queue r' uid `suffix_of` uid_queue r uid
}.

Lemma shrunk_refl cfg r : rates_ok cfg r → shrunk cfg r r.
Proof. by split. Qed.

Lemma shrunk_trans cfg r r1 r2 : shrunk cfg r r1 → shrunk cfg r1 r2 → shrunk cfg r r2.
Proof.
  intros [? Ho1 ? ? Hq1] [? Ho2 ? ? Hq2]. split; [done| |congruence..|]; intros uid.
  - by rewrite Ho2.
  - etrans; [apply Hq2|apply Hq1].
Qed.

Lemma drop_old_suffix th q : drop_old th q `suffix_of` q.
Proof. induction q as [|e q IH]; cbn; [done|]. case_goal; [by apply suffix_cons_r|done]. Qed.

Lemma trims_shrunk cfg uid now r r' : trims cfg uid now r r' → shrunk cfg r r'.
Proof.
  intros [? ? ? ? Hother Hq _]. split; [done..|]. intros v. destruct (decide (v = uid)) as [->|Hne].
  - destruct Hq as [->| ->]; [done|apply drop_old_suffix].
  - by rewrite Hother.
Qed.

Lemma view_shrunk cfg r r' : rates_ok cfg r' → same_view r r' → shrunk cfg r r'.
Proof. intros Hr (Hv & Hs & Hb & _). split; [done| |done..|]; intros v; destruct (Hv v) as [Hq Ho]; [done|by rewrite Hq]. Qed.

(** The window of a shorter queue is shorter. *)
Lemma drop_old_suffixes th q q' : q' `suffix_of` q → drop_old th q' `suffix_of` drop_old th q.
Proof.
  intros [k ->]. induction k as [|e k IH]; [done|]. cbn. case_goal; [done|].
  etrans; [apply drop_old_suffix|]. rewrite app_comm_cons. by apply suffix_app_r.
Qed.

(** ** What a rate table owes to a list of charges

    [charges uid] is what was charged to [uid], oldest first. *)

Definition charge (L : Z → list (Z * Z)) (uid : Z) (e : Z * Z) (v : Z) : list (Z * Z) :=
  if v =? uid then L v ++ [e] else L v.

(** Each queue is the recent end of the charges; with the limit off there is none. *)
Definition windows (cfg : rab_config) (r : rates) (L : Z → list (Z * Z)) : Prop :=
  (∀ uid, uid_queue r uid `suffix_of` L uid) ∧
  (rate_max_in_window cfg = 0 → ∀ uid, uid_queue r uid = []).

(** The last [n] entries. *)
Definition last_n {A} (n : nat) (l : list A) : list A := drop (length l - n) l.

(** Each queue is as much of the charges as a ring holds. *)
Definition full_windows (cfg : rab_config) (r : rates) (L : Z → list (Z * Z)) : Prop :=
  rate_max_in_window cfg ≠ 0 → ∀ uid, uid_queue r uid = last_n (Z.to_nat (cfg_cap cfg)) (L uid).

Lemma last_n_suffix {A} n (l : list A) : last_n n l `suffix_of` l.
Proof. exists (take (length l - n) l). unfold last_n. by rewrite take_drop. Qed.

Lemma last_n_short {A} n (l k : list A) :
  k `suffix_of` l → (length k ≤ n)%nat → k `suffix_of` last_n n l.
Proof.
  intros [j ->] Hk. unfold last_n. rewrite length_app.
  rewrite drop_app_le by lia. by apply suffix_app_r.
Qed.

Lemma last_n_snoc {A} n (l : list A) e :
  (0 < n)%nat →
  last_n n (l ++ [e]) =
    (if (length (last_n n l) =? n)%nat then tail (last_n n l) else last_n n l) ++ [e].
Proof.
  intros Hn. unfold last_n. rewrite length_app, length_drop. cbn [length].
  destruct (decide (n ≤ length l)%nat) as [Hle|Hgt].
  - replace (length l - (length l - n) =? n)%nat with true by (symmetry; apply Nat.eqb_eq; lia).
    replace (length l + 1 - n)%nat with (S (length l - n)) by lia.
    rewrite drop_app_le by lia. f_equal. rewrite <- Nat.add_1_r, <- drop_drop.
    by destruct (drop (length l - n) l).
  - replace (length l - (length l - n) =? n)%nat with false by (symmetry; apply Nat.eqb_neq; lia).
    replace (length l + 1 - n)%nat with 0%nat by lia. by replace (length l - n)%nat with 0%nat by lia.
Qed.

Section Owed.
Context (cfg : rab_config) (Hcfg : cfg_ok cfg).

Lemma windows_shrunk r r' L : windows cfg r L → shrunk cfg r r' → windows cfg r' L.
Proof.
  intros [Hq Hz] Hs. split.
  - intros uid. etrans; [apply Hs|apply Hq].
  - intros H0 uid. apply suffix_nil_inv. rewrite <- (Hz H0 uid). apply Hs.
Qed.

Lemma windows_queue r r' L :
  (∀ v, uid_queue r' v = uid_queue r v) → windows cfg r L → windows cfg r' L.
Proof. intros He [Hq Hz]. split; [intros v|intros H0 v]; rewrite He; auto. Qed.

Lemma full_queue r r' L :
  (∀ v, uid_queue r' v = uid_queue r v) → full_windows cfg r L → full_windows cfg r' L.
Proof. intros He Hf Hn v. rewrite He. by apply Hf. Qed.

Lemma windows_ext r L L' : (∀ v, L' v = L v) → windows cfg r L → windows cfg r L'.
Proof. intros He [Hq Hz]. split; [|done]. intros v. by rewrite He. Qed.

Lemma full_ext r L L' : (∀ v, L' v = L v) → full_windows cfg r L → full_windows cfg r L'.
Proof. intros He Hf Hn v. by rewrite He, Hf. Qed.

(** Without memory for a new entry nothing is noted, and there was nothing. *)
Lemma rate_note_none uid t nb r :
  uid_find r uid = None → rate_note cfg false uid t nb r = r.
Proof. intros Hf. unfold rate_note, uid_get. rewrite Hf. cbn. by destruct (_ =? 0). Qed.

Lemma windows_note alloc uid t nb r L :
  rates_ok cfg r → in_u32 uid → in_u64 t → in_u64 nb → windows cfg r L →
  windows cfg (rate_note cfg alloc uid t nb r) (charge L uid (t, nb)).
Proof.
  intros Hr Hu Ht Hn [Hq Hz].
  destruct (rate_note_spec cfg Hcfg alloc uid t nb r Hr Hu Ht Hn) as (_ & _ & _ & _ & Ho & H0 & Hq').
  split; cycle 1. { intros Hx. rewrite H0 by done. by apply Hz. }
  intros v. unfold charge. destruct (Z.eqb_spec v uid) as [->|Hne]; [|by rewrite Ho].
  destruct (decide (rate_max_in_window cfg = 0)) as [Hx|Hx].
  { rewrite H0, Hz by done. apply suffix_nil. }
  destruct (uid_find r uid) as [u|] eqn:Hf; [|destruct alloc].
  3: { rewrite rate_note_none by done. unfold uid_queue. rewrite Hf. apply suffix_nil. }
  all: rewrite Hq' by eauto; apply suffix_app; etrans; [|apply Hq]; case_goal;
    [destruct (uid_queue r uid); [done|by apply suffix_cons_r]|done].
Qed.

Lemma full_note uid t nb r L :
  rates_ok cfg r → in_u32 uid → in_u64 t → in_u64 nb → full_windows cfg r L →
  full_windows cfg (rate_note cfg true uid t nb r) (charge L uid (t, nb)).
Proof.
  intros Hr Hu Ht Hn Hf Hx v.
  destruct (rate_note_spec cfg Hcfg true uid t nb r Hr Hu Ht Hn) as (_ & _ & _ & _ & Ho & _ & Hq').
  assert (Hc : 0 < cfg_cap cfg).
  { unfold cfg_cap. destruct (Z.eqb_spec (rate_max_in_window cfg) 0); destruct Hcfg; lia. }
  unfold charge. destruct (Z.eqb_spec v uid) as [->|Hne]; [|by rewrite Ho, Hf].
  rewrite Hq', !Hf, last_n_snoc by auto with lia. f_equal.
  set (q := last_n _ _). destruct (Nat.eqb_spec (length q) (Z.to_nat (cfg_cap cfg))).
  - by rewrite (proj2 (Z.eqb_eq _ _)) by lia.
  - by rewrite (proj2 (Z.eqb_neq _ _)) by lia.
Qed.

Lemma global_note_queue now nb r v :
  rates_ok cfg r → uid_queue (global_bytes_note cfg now nb r) v = uid_queue r v ∧
                   uid_open_count (global_bytes_note cfg now nb r) v = uid_open_count r v.
Proof.
  intros Hr. destruct (global_note_spec cfg now nb r Hr) as [_ Hf].
  unfold uid_queue, uid_open_count. by rewrite Hf.
Qed.

(** A charged write, as every handler notes it. *)
Lemma windows_noted alloc uid t nb r L :
  rates_ok cfg r → in_u32 uid → in_u64 t → in_u64 nb → windows cfg r L →
  windows cfg (global_bytes_note cfg t nb (rate_note cfg alloc uid t nb r)) (charge L uid (t, nb)).
Proof.
  intros Hr Hu Ht Hn Hw. pose proof (windows_note alloc uid t nb r L Hr Hu Ht Hn Hw) as [Hq Hz].
  destruct (rate_note_spec cfg Hcfg alloc uid t nb r Hr Hu Ht Hn) as (Hr1 & _).
  split; [intros v|intros Hx v]; destruct (global_note_queue t nb _ v Hr1) as [-> _]; auto.
Qed.

Lemma noted_open alloc uid t nb r v :
  rates_ok cfg r → in_u32 uid → in_u64 t → in_u64 nb →
  uid_open_count (global_bytes_note cfg t nb (rate_note cfg alloc uid t nb r)) v = uid_open_count r v.
Proof.
  intros Hr Hu Ht Hn.
  destruct (rate_note_spec cfg Hcfg alloc uid t nb r Hr Hu Ht Hn) as (Hr1 & Ho & _).
  destruct (global_note_queue t nb _ v Hr1) as [_ ->]. done.
Qed.
End Owed.

(** ** Histories of admitted writes

    A write is admitted by [rate_allowed] and [bytes_allowed] and then recorded
    by [rate_note] and [global_bytes_note], all at the same clock reading.
    [history cfg log last r]: the table [r] is reached from an empty one by
    attempts whose clock readings do not run backwards, [last] being the latest;
    [log] holds the admitted ones, oldest first, as (uid, time, bytes). *)

Definition admission (cfg : rab_config) (a1 a2 a3 : bool) (uid now nb : Z) (r : rates) : bool * rates :=
  match rate_allowed cfg a1 uid now r with
  | (false, r1) => (false, r1)
  | (true, r1) =>
      match bytes_allowed cfg a2 uid now nb r1 with
      | (false, r2) => (false, r2)
      | (true, r2) => (true, global_bytes_note cfg now nb (rate_note cfg a3 uid now nb r2))
      end
  end.

Inductive history (cfg : rab_config) : list (Z * Z * Z) → Z → rates → Prop :=
| hist_init : history cfg [] 0 rates_init
| hist_step log last r a1 a2 a3 uid now nb b r' :
    history cfg log last r → in_u32 uid → in_u64 now → last ≤ now →
    0 ≤ nb < 2 ^ 32 → admission cfg a1 a2 a3 uid now nb r = (b, r') →
    history cfg (if b then log ++ [(uid, now, nb)] else log) now r'.

(** The entries of a uid, and those of them inside the window that ends at [now]. *)
Definition uid_log (uid : Z) (log : list (Z * Z * Z)) : list (Z * Z) :=
  map (λ e, (snd (fst e), snd e)) (List.filter (λ e, fst (fst e) =? uid) log).

Definition in_window (cfg : rab_config) (now : Z) (q : list (Z * Z)) : list (Z * Z) :=
  List.filter (λ e, (win_th cfg now <=? fst e) && (fst e <=? now)) q.

Section Windows.
Context (cfg : rab_config) (Hcfg : cfg_ok cfg).

Lemma rates_init_ok : rates_ok cfg rates_init.
Proof.
  split.
  - done.
  - intros i c u Hi Hu. unfold rates_init in Hi. cbn [bkt_uid] in Hi.
    apply lookup_replicate in Hi as [-> _]. set_solver.
  - intros i c Hi. unfold rates_init in Hi. cbn [bkt_uid] in Hi.
    apply lookup_replicate in Hi as [-> _]. constructor.
Qed.

Lemma uid_find_init uid : uid_find rates_init uid = None.
Proof.
  unfold uid_find, uid_chain, rates_init. cbn [bkt_uid]. rewrite nth_lookup.
  destruct (replicate _ _ !! uid_slot uid) as [c|] eqn:Hc; [|done].
  by apply lookup_replicate in Hc as [-> _].
Qed.

Lemma win_th_mono now1 now2 : now1 ≤ now2 → win_th cfg now1 ≤ win_th cfg now2.
Proof.
  intros H. unfold win_th. cbv zeta. pose proof (u64_range (rate_window_sec cfg * 1000000)).
  repeat case_goal; bool_hyps; lia.
Qed.

Lemma drop_old_split th q : ∃ d, q = d ++ drop_old th q ∧ Forall (λ e, fst e < th) d.
Proof.
  induction q as [|e q IH]; simpl; [by exists []|].
  destruct (fst e <? th) eqn:E; bool_hyps; [|by exists []].
  destruct IH as (d & Hd & Hf). exists (e :: d). simpl. split; [by f_equal|by constructor].
Qed.

Lemma filter_all {A} (p : A → bool) l : Forall (λ x, p x = true) l → List.filter p l = l.
Proof. induction 1 as [|x l Hx _ IH]; simpl; [done|]. by rewrite Hx, IH. Qed.

Lemma filter_none {A} (p : A → bool) l : Forall (λ x, p x = false) l → List.filter p l = [].
Proof. induction 1 as [|x l Hx _ IH]; simpl; [done|]. by rewrite Hx. Qed.

Lemma filter_length_le {A} (p : A → bool) l : (length (List.filter p l) ≤ length l)%nat.
Proof. induction l as [|x l IH]; simpl; [lia|]. destruct (p x); simpl; lia. Qed.

Lemma total_bytes_nonneg q : Forall (λ e, 0 ≤ snd e) q → 0 ≤ total_bytes q.
Proof. induction 1; simpl; lia. Qed.

Lemma total_bytes_filter p q :
  Forall (λ e, 0 ≤ snd e) q → total_bytes (List.filter p q) ≤ total_bytes q.
Proof.
  induction 1 as [|x l Hx _ IH]; simpl; [lia|]. destruct (p x); simpl; [lia|].
  lia.
Qed.

Lemma uid_log_app uid log e :
  uid_log uid (log ++ [e]) =
    uid_log uid log ++ (if fst (fst e) =? uid then [(snd (fst e), snd e)] else []).
Proof.
  unfold uid_log. rewrite List.filter_app, map_app. simpl. by destruct (fst (fst e) =? uid).
Qed.

(** A queue against the log: what left it is older than the window. *)
Definition tracks (last : Z) (q full : list (Z * Z)) : Prop :=
  ∃ old, full = old ++ q ∧ Forall (λ e, fst e < win_th cfg last) old ∧
         Forall (λ e, fst e ≤ last ∧ 0 ≤ snd e < 2 ^ 32) full.

Lemma tracks_later last last' q full : tracks last q full → last ≤ last' → tracks last' q full.
Proof.
  intros (old & -> & Ho & Hf) Hl. pose proof (win_th_mono _ _ Hl). exists old. split_and!; [done|..].
  - eapply Forall_impl; [done|]. simpl. lia.
  - eapply Forall_impl; [done|]. simpl. lia.
Qed.

Lemma tracks_drop last q full : tracks last q full → tracks last (drop_old (win_th cfg last) q) full.
Proof.
  intros (old & -> & Ho & Hf). destruct (drop_old_split (win_th cfg last) q) as (d & Hd & Hdf).
  exists (old ++ d). split_and!; [|by apply Forall_app|done].
  by rewrite <- app_assoc, <- Hd.
Qed.

Lemma tracks_push last q full t nb :
  tracks last q full → t = last → 0 ≤ nb < 2 ^ 32 → tracks last (q ++ [(t, nb)]) (full ++ [(t, nb)]).
Proof.
  intros (old & -> & Ho & Hf) -> Hn. exists old. rewrite app_assoc. split_and!; try done.
  apply Forall_app. split; [done|]. constructor; [simpl; lia|constructor].
Qed.

(** Everything inside a window that ends no earlier is still queued. *)
Lemma tracks_window last q full now :
  tracks last q full → last ≤ now → in_window cfg now full = in_window cfg now q.
Proof.
  intros (old & -> & Ho & _) Hl. unfold in_window. rewrite List.filter_app.
  rewrite filter_none; [done|]. eapply Forall_impl; [done|]. simpl. intros e He.
  pose proof (win_th_mono _ _ Hl). rewrite (proj2 (Z.leb_gt _ _)) by lia. done.
Qed.

(** One uid's view of an attempt. *)
Lemma admit_spec a1 a2 a3 uid now nb r b r' :
  rates_ok cfg r → in_u32 uid → in_u64 now → in_u64 nb →
  admission cfg a1 a2 a3 uid now nb r = (b, r') →
  rates_ok cfg r' ∧
  (∀ v, v ≠ uid → uid_queue r' v = uid_queue r v) ∧
  (b = false → uid_queue r' uid = uid_queue r uid ∨
               uid_queue r' uid = drop_old (win_th cfg now) (uid_queue r uid) ∨
               uid_queue r' uid = drop_old (win_th cfg now)
                                    (drop_old (win_th cfg now) (uid_queue r uid))) ∧
  (b = true → rate_max_in_window cfg ≠ 0 → ∃ q,
     (q = drop_old (win_th cfg now) (uid_queue r uid) ∨
      q = drop_old (win_th cfg now) (drop_old (win_th cfg now) (uid_queue r uid))) ∧
     uid_queue r' uid = q ++ [(now, nb)] ∧
     Z.of_nat (length q) < rate_max_in_window cfg ∧
     (rate_max_bytes_per_uid cfg ≠ 0 →
        u64 (total_bytes q + nb) ≤ rate_max_bytes_per_uid cfg)).
Proof.
  intros Hr Huid Hnow Hnb Ha. unfold admission in Ha.
  destruct (rate_allowed cfg a1 uid now r) as [b1 r1] eqn:E1.
  destruct (rate_allowed_spec cfg Hcfg _ _ _ _ _ _ Hr Huid E1) as [T1 H1].
  destruct b1; [|injection Ha as <- <-; destruct T1; split_and!; naive_solver].
  destruct (bytes_allowed cfg a2 uid now nb r1) as [b2 r2] eqn:E2.
  destruct (bytes_allowed_spec cfg Hcfg _ _ _ _ _ _ _ (tr_ok _ _ _ _ _ T1) Huid E2) as [T2 H2].
  destruct b2.
  2: { injection Ha as <- <-. destruct T1 as [? ? ? ? Hot1 Hq1], T2 as [? ? ? ? Hot2 Hq2].
       split_and!; [done| | |done].
       - intros v Hv. by rewrite Hot2, Hot1.
       - intros _. destruct Hq2 as [-> | ->], Hq1 as [-> | ->]; auto. }
  injection Ha as <- <-.
  destruct (rate_note_spec cfg Hcfg a3 uid now nb r2 (tr_ok _ _ _ _ _ T2) Huid Hnow Hnb)
    as (Hr3 & _ & _ & _ & Hot3 & _ & Hn3).
  destruct (global_note_spec cfg now nb _ Hr3) as [Hr4 Hf4].
  split_and!; [done| |done|].
  - intros v Hv. unfold uid_queue at 1. rewrite Hf4. fold (uid_queue (rate_note cfg a3 uid now nb r2) v).
    rewrite Hot3, (tr_other _ _ _ _ _ T2), (tr_other _ _ _ _ _ T1); done.
  - intros _ Hmax. destruct (H1 eq_refl Hmax) as (Hq1 & [u Hu] & Hlen1).
    destruct (H2 eq_refl) as [_ Hby].
    exists (uid_queue r2 uid).
    assert (Hq2 : uid_queue r2 uid = uid_queue r1 uid ∨
                  uid_queue r2 uid = drop_old (win_th cfg now) (uid_queue r1 uid))
      by apply (tr_queue _ _ _ _ _ T2).
    assert (Hlen2 : Z.of_nat (length (uid_queue r2 uid)) < rate_max_in_window cfg).
    { destruct Hq2 as [-> | ->]; [done|].
      destruct (drop_old_split (win_th cfg now) (uid_queue r1 uid)) as (d & Hd & _).
      rewrite Hd, length_app in Hlen1. lia. }
    split_and!.
    + rewrite Hq1 in Hq2. tauto.
    + unfold uid_queue at 1. rewrite Hf4. fold (uid_queue (rate_note cfg a3 uid now nb r2) uid).
      rewrite Hn3; [|done|].
      * unfold cfg_cap. rewrite (proj2 (Z.eqb_neq _ 0)) by done.
        by rewrite (proj2 (Z.eqb_neq _ _)) by lia.
      * right. by apply (tr_find _ _ _ _ _ T2 _ _ Hu).
    + done.
    + intros Hb. by apply Hby.
Qed.

Lemma u32_in_u64 z : 0 ≤ z < 2 ^ 32 → in_u64 z.
Proof. unfold in_u64. lia. Qed.

Lemma history_tracks log last r :
  history cfg log last r →
  rates_ok cfg r ∧
  (rate_max_in_window cfg ≠ 0 → ∀ uid, tracks last (uid_queue r uid) (uid_log uid log)).
Proof.
  induction 1 as [|log last r a1 a2 a3 uid now nb b r' Hh [Hr IH] Huid Hnow Hlast Hnb Ha].
  { split; [apply rates_init_ok|]. intros _ uid. exists []. unfold uid_queue. rewrite uid_find_init.
    split_and!; done || constructor. }
  destruct (admit_spec _ _ _ _ _ _ _ _ _ Hr Huid Hnow (u32_in_u64 _ Hnb) Ha) as (Hr' & Hoth & Hno & Hyes).
  split; [done|]. intros Hmax v. specialize (IH Hmax v).
  assert (IH' : tracks now (uid_queue r v) (uid_log v log)) by (eapply tracks_later; eauto; lia).
  destruct (decide (v = uid)) as [->|Hne].
  - destruct b.
    + destruct (Hyes eq_refl Hmax) as (q & Hq & -> & _). rewrite uid_log_app. simpl.
      rewrite Z.eqb_refl. apply tracks_push; [|done|done].
      destruct Hq as [-> | ->]; auto using tracks_drop.
    + destruct (Hno eq_refl) as [-> | [-> | ->]]; auto using tracks_drop.
  - rewrite Hoth by done. destruct b; [|done].
    rewrite uid_log_app. simpl. rewrite (proj2 (Z.eqb_neq _ _)) by congruence. by rewrite app_nil_r.
Qed.

(** The part of a window a newly admitted write can see. *)
Lemma in_window_snoc now q t nb :
  in_window cfg now (q ++ [(t, nb)]) =
    in_window cfg now q ++ (if (win_th cfg now <=? t) && (t <=? now) then [(t, nb)] else []).
Proof. unfold in_window. rewrite List.filter_app. simpl. by case_goal. Qed.

(** A measure of a list of entries that filtering does not increase and that
    adds up: the number of entries, or their bytes. *)
Lemma window_step (f : list (Z * Z) → Z) limit log last r a1 a2 a3 uid now nb r' v when :
  (∀ p q, Forall (λ e, 0 ≤ snd e) q → f (List.filter p q) ≤ f q) →
  history cfg log last r → in_u32 uid → in_u64 now → last ≤ now → 0 ≤ nb < 2 ^ 32 →
  rate_max_in_window cfg ≠ 0 →
  admission cfg a1 a2 a3 uid now nb r = (true, r') →
  (∀ v when, f (in_window cfg when (uid_log v log)) ≤ limit) →
  (∀ q, tracks now q (uid_log uid log) → uid_queue r' uid = q ++ [(now, nb)] →
        f (q ++ [(now, nb)]) ≤ limit) →
  f (in_window cfg when (uid_log v (log ++ [(uid, now, nb)]))) ≤ limit.
Proof.
  intros Hfilt Hh Huid Hnow Hlast Hnb Hmax Ha IH Hnew. rewrite uid_log_app. simpl.
  destruct (Z.eqb_spec uid v) as [<-|]; [|rewrite app_nil_r; apply IH].
  destruct (history_tracks _ _ _ Hh) as [Hr Htr]. specialize (Htr Hmax uid).
  destruct (admit_spec _ _ _ _ _ _ _ _ _ Hr Huid Hnow (u32_in_u64 _ Hnb) Ha) as (_ & _ & _ & Hyes).
  destruct (Hyes eq_refl Hmax) as (q & Hq & Hr' & _).
  assert (Hq' : tracks now q (uid_log uid log)).
  { destruct Hq as [-> | ->]; eauto using tracks_drop, tracks_later. }
  specialize (Hnew q Hq' Hr').
  destruct (Z.le_gt_cases now when) as [Hle|Hgt].
  - rewrite in_window_snoc, (tracks_window now q _ when Hq' Hle), <- in_window_snoc.
    etrans; [|exact Hnew]. apply Hfilt.
    destruct Hq' as (old & Hold & _ & Hall). rewrite Hold in Hall. apply Forall_app in Hall as [_ Hall].
    apply Forall_app. split; [|constructor; [simpl; lia|constructor]].
    eapply Forall_impl; [done|]. simpl. lia.
  - rewrite in_window_snoc, (proj2 (Z.leb_gt _ _) Hgt), andb_false_r, app_nil_r. apply IH.
Qed.

Lemma drop_old_total th q last :
  Forall (λ e, fst e ≤ last ∧ 0 ≤ snd e < 2 ^ 32) q →
  0 ≤ total_bytes (drop_old th q) ≤ total_bytes q ∧
  Forall (λ e, fst e ≤ last ∧ 0 ≤ snd e < 2 ^ 32) (drop_old th q).
Proof.
  induction 1 as [|e q He Hq IH]; simpl; [by split; [|constructor]|].
  destruct (fst e <? th).
  - split; [lia|tauto].
  - split; [|by constructor]. simpl.
    assert (0 ≤ total_bytes q); [|lia]. apply total_bytes_nonneg.
    eapply Forall_impl; [done|]. simpl. lia.
Qed.

Lemma history_queue_bytes log last r :
  history cfg log last r → rate_max_in_window cfg ≠ 0 →
  0 < rate_max_bytes_per_uid cfg < 2 ^ 63 →
  ∀ uid, 0 ≤ total_bytes (uid_queue r uid) ≤ rate_max_bytes_per_uid cfg.
Proof.
  intros Hh Hmax Hquota.
  induction Hh as [|log last r a1 a2 a3 uid now nb b r' Hh IH Huid Hnow Hlast Hnb Ha]; intros v.
  { unfold uid_queue. rewrite uid_find_init. simpl. lia. }
  destruct (history_tracks _ _ _ Hh) as [Hr Htr].
  destruct (admit_spec _ _ _ _ _ _ _ _ _ Hr Huid Hnow (u32_in_u64 _ Hnb) Ha) as (_ & Hoth & Hno & Hyes).
  destruct (decide (v = uid)) as [->|]; [|by rewrite Hoth].
  destruct (Htr Hmax uid) as (old & Hold & _ & Hall). rewrite Hold in Hall.
  apply Forall_app in Hall as [_ Hall]. specialize (IH uid).
  pose proof (drop_old_total (win_th cfg now) _ _ Hall) as [Hd Hd'].
  pose proof (drop_old_total (win_th cfg now) _ _ Hd') as [Hd2 _].
  destruct b.
  - destruct (Hyes eq_refl Hmax) as (q & Hq & -> & _ & Hby). specialize (Hby ltac:(lia)).
    rewrite total_bytes_app. simpl.
    assert (0 ≤ total_bytes q ≤ rate_max_bytes_per_uid cfg) by (destruct Hq as [-> | ->]; lia).
    rewrite u64_small in Hby by lia. lia.
  - destruct (Hno eq_refl) as [-> | [-> | ->]]; lia.
Qed.


(** The attempts that count towards the current global window: a suffix [suf] of
    the admitted ones, none older than the window's start. *)
Definition global_window (log : list (Z * Z * Z)) (last : Z) (r : rates) : Prop :=
  ∃ pre suf, log = pre ++ suf ∧ g_win_bytes r = total_bytes (map (λ e, (snd (fst e), snd e)) suf) ∧
    Forall (λ e, g_win_start r ≤ snd (fst e) ≤ last) suf ∧ 0 ≤ g_win_start r ≤ last ∧
    0 ≤ g_win_bytes r ≤ rate_max_bytes_global cfg.

Lemma admit_global a1 a2 a3 uid now nb r b r' :
  rates_ok cfg r → in_u32 uid → in_u64 now → in_u64 nb → admission cfg a1 a2 a3 uid now nb r = (b, r') →
  if b then
    global_bytes_ok cfg now nb r = true ∧
    ∃ r2, g_win_start r2 = g_win_start r ∧ g_win_bytes r2 = g_win_bytes r ∧
          g_win_start r' = g_win_start (global_bytes_note cfg now nb r2) ∧
          g_win_bytes r' = g_win_bytes (global_bytes_note cfg now nb r2)
  else g_win_start r' = g_win_start r ∧ g_win_bytes r' = g_win_bytes r.
Proof.
  intros Hr Huid Hnow Hnb Ha. unfold admission in Ha.
  destruct (rate_allowed cfg a1 uid now r) as [b1 r1] eqn:E1.
  destruct (rate_allowed_spec cfg Hcfg _ _ _ _ _ _ Hr Huid E1) as [[? ? S1 G1] _].
  destruct b1; [|injection Ha as <- <-; done].
  destruct (bytes_allowed cfg a2 uid now nb r1) as [b2 r2] eqn:E2.
  destruct (bytes_allowed_spec cfg Hcfg _ _ _ _ _ _ _ tr_ok0 Huid E2) as [[Hr2 ? S2 G2] Hok].
  destruct b2; injection Ha as <- <-; [|split; congruence].
  destruct (Hok eq_refl) as [Hg _].
  destruct (rate_note_spec cfg Hcfg a3 uid now nb r2 Hr2 Huid Hnow Hnb) as (_ & _ & S3 & G3 & _).
  split; [unfold global_bytes_ok in *; by rewrite S1, G1 in Hg|].
  exists (rate_note cfg a3 uid now nb r2). split_and!; congruence.
Qed.

Lemma global_note_window log last r uid now nb r2 :
  global_window log last r → 0 < rate_max_bytes_global cfg < 2 ^ 63 → in_u64 now → last ≤ now →
  0 ≤ nb < 2 ^ 32 → global_bytes_ok cfg now nb r = true →
  g_win_start r2 = g_win_start r → g_win_bytes r2 = g_win_bytes r →
  global_window (log ++ [(uid, now, nb)]) now (global_bytes_note cfg now nb r2).
Proof.
  intros (pre & suf & Hl & Hb & Hf & Hs & Hq) Hquota Hnow Hlast Hnb Hok Hs2 Hb2.
  unfold global_bytes_ok, global_bytes_note in *. rewrite (proj2 (Z.eqb_neq _ 0)) in * by lia.
  rewrite Hs2. apply negb_true_iff, Z.ltb_ge in Hok.
  set (late := _ <=? u64 (now - g_win_start r)) in *.
  destruct ((g_win_start r =? 0) || late) eqn:Hreset; cbn [g_win_start g_win_bytes].
  - exists (pre ++ suf), [(uid, now, nb)]. rewrite Hl. split_and!; cbn; try lia; try done.
    + rewrite u64_small by lia. lia.
    + constructor; [cbn; lia|constructor].
    + rewrite u64_small by lia. lia.
    + rewrite u64_small by lia. destruct late; [rewrite u64_small in Hok; lia|].
      rewrite u64_small in Hok; lia.
  - apply orb_false_iff in Hreset as [_ ->]. rewrite Hs2, Hb2. rewrite u64_small in Hok by lia.
    exists pre, (suf ++ [(uid, now, nb)]). rewrite Hl, app_assoc. split_and!; cbn; try lia; try done.
    + rewrite u64_small by lia. rewrite map_app, total_bytes_app, Hb. cbn. lia.
    + apply Forall_app. split; [|constructor; [cbn; lia|constructor]].
      eapply Forall_impl; [exact Hf|]. cbn. intros. lia.
    + rewrite u64_small by lia. lia.
    + rewrite u64_small by lia. lia.
Qed.

End Windows.

(** ** A history that satisfies the hypotheses *)

Definition ex_cfg : rab_config := Config 4 8 10 2 100 150 0 0 0 0 300.

(** Three attempts of one uid inside a window that admits two. *)
Definition ex_admit (r : rates) (now nb : Z) : bool * rates := admission ex_cfg true true true 7 now nb r.
Definition ex_r1 : rates := (ex_admit rates_init 1000 40).2.
Definition ex_r2 : rates := (ex_admit ex_r1 2000 50).2.
Definition ex_r3 : rates := (ex_admit ex_r2 3000 5).2.

Lemma ex_cfg_ok : cfg_ok ex_cfg.
Proof. split; cbn; lia. Qed.

Lemma ex_history : history ex_cfg [(7, 1000, 40); (7, 2000, 50)] 3000 ex_r3.
Proof.
  assert (H1 : history ex_cfg [(7, 1000, 40)] 1000 ex_r1)
    by (apply (hist_step ex_cfg [] 0 rates_init true true true 7 1000 40 true); done || constructor).
  assert (H2 : history ex_cfg [(7, 1000, 40); (7, 2000, 50)] 2000 ex_r2)
    by (apply (hist_step ex_cfg [(7, 1000, 40)] 1000 ex_r1 true true true 7 2000 50 true); done).
  by apply (hist_step ex_cfg _ 2000 ex_r2 true true true 7 3000 5 false).
Qed.



