(* ===== verification/OpenSet.v ===== *)
(** * The open-intent set (broker.c)

    Open intents live in a heap of nodes; three hash tables of node pointers
    index them by correlation id, by binding and by receipt verifier (the last
    only while a receipt is installed).  Chains are lists of pointers, new
    nodes go to the head, and removal unlinks the node itself.  The receipt
    fields of a node are one optional [receipt]: [has_receipt] is its presence.

    [index_ok] says that a table indexes exactly the nodes that have a key;
    [opens_ok] is the invariant of the whole set. *)

From stdpp Require Import base gmap strings list.
From Stdlib Require Import ZArith Lia Ascii.
From S2P Require Import Prelude CString Id Peer Record Rate.

Local Open Scope string_scope.
Local Open Scope Z_scope.

(** ** Hashing *)

Definition RAB_MAX_BUCKETS : Z := Z.shiftl 1 20.

Fixpoint pow2_loop (fuel : nat) (p x : Z) : Z :=
  match fuel with
  | O => p
  | S fuel' =>
      if (p <? x) && (p <? RAB_MAX_BUCKETS) then pow2_loop fuel' (Z.shiftl p 1) x else p
  end.

(** From 16, doubling reaches the cap of [2^20] in 16 rounds. *)
Definition pow2_ceil (x : Z) : Z := pow2_loop 16 16 x.

Fixpoint fnv1a (s : string) (h : Z) : Z :=
  match s with
  | EmptyString => h
  | String c s' => fnv1a s' (u64 (Z.lxor h (byte_val c) * 1099511628211))
  end.

Definition hstr (s : string) : Z := fnv1a s 1469598103934665603.

Definition slot (nbkt : Z) (s : string) : nat := Z.to_nat (Z.land (hstr s) (nbkt - 1)).
Arguments slot : simpl never.

(** ** State *)

Record intent := Intent {
  it_cid : string;
  it_binding : string;
  it_actor : rab_actor;
  it_operation : string;
  it_resource : string;
  it_scope : string;
  it_from_checkpoint : bool;
  it_rcpt : option receipt
}.

Definition has_receipt (it : intent) : bool :=
  match it_rcpt it with Some _ => true | None => false end.

(** [verifier_hex]: empty until a receipt is installed. *)
Definition verifier_hex (it : intent) : string :=
  match it_rcpt it with Some r => rc_verifier r | None => "" end.

Abbreviation table := (list (list nat)).

Record opens := Opens {
  o_heap : gmap nat intent;
  o_next : nat;
  bkt_cid : table;
  bkt_bind : table;
  bkt_rcpt : table;
  o_nbkt : Z;
  open_count : Z
}.

Definition opens_init (cfg : rab_config) : opens :=
  let nbkt := pow2_ceil (if max_open_global cfg =? 0 then 16 else max_open_global cfg) in
  let t := replicate (Z.to_nat nbkt) [] in
  Opens ∅ 0 t t t nbkt 0.

(** ** Lookups *)

Definition chain_at (t : table) (i : nat) : list nat := nth i t [].

(** The first node of a chain that passes the test. *)
Fixpoint walk (heap : gmap nat intent) (c : list nat) (test : intent → bool) : option nat :=
  match c with
  | [] => None
  | p :: c' =>
      match heap !! p with
      | Some it => if test it then Some p else walk heap c' test
      | None => None
      end
  end.

Definition open_find_binding (o : opens) (binding : string) : option nat :=
  if is_empty binding then None
  else walk (o_heap o) (chain_at (bkt_bind o) (slot (o_nbkt o) binding))
         (λ it, strcmp_eq (it_binding it) binding).

Definition open_find_cid (o : opens) (cid : string) : option nat :=
  walk (o_heap o) (chain_at (bkt_cid o) (slot (o_nbkt o) cid))
    (λ it, strcmp_eq (it_cid it) cid).

Definition open_find_verifier (o : opens) (vhex : string) : option nat :=
  if is_empty vhex then None
  else walk (o_heap o) (chain_at (bkt_rcpt o) (slot (o_nbkt o) vhex))
         (λ it, has_receipt it && strcmp_eq (verifier_hex it) vhex).

Definition rab_broker_open_count (o : opens) : Z := open_count o.

Definition rab_broker_has_open (o : opens) (cid : string) : bool :=
  match open_find_cid o cid with Some _ => true | None => false end.

Definition rab_broker_receipt_state (o : opens) (cid : string) : Z :=
  match open_find_cid o cid with
  | None => -1
  | Some p =>
      match o_heap o !! p with
      | None => -1
      | Some it =>
          match it_rcpt it with
          | None => -1
          | Some r => if rcpt_state_eqb (rc_state r) RAB_RCPT_REDEEMED then 1 else 0
          end
      end
  end.

(** ** Updates *)

Definition push_at (t : table) (i p : nat) : table := <[i := p :: chain_at t i]> t.

Fixpoint unlink_ptr (c : list nat) (p : nat) : list nat :=
  match c with
  | [] => []
  | q :: c' => if (q =? p)%nat then c' else q :: unlink_ptr c' p
  end.

Definition unlink_at (t : table) (i p : nat) : table := <[i := unlink_ptr (chain_at t i) p]> t.

(** Write through a node pointer. *)
Definition set_node (o : opens) (p : nat) (it : intent) : opens :=
  Opens (<[p := it]> (o_heap o)) (o_next o) (bkt_cid o) (bkt_bind o) (bkt_rcpt o) (o_nbkt o)
    (open_count o).

Definition rcpt_index_add (o : opens) (p : nat) (it : intent) : opens :=
  Opens (o_heap o) (o_next o) (bkt_cid o) (bkt_bind o)
    (push_at (bkt_rcpt o) (slot (o_nbkt o) (verifier_hex it)) p) (o_nbkt o) (open_count o).

Definition rcpt_index_remove (o : opens) (p : nat) (it : intent) : opens :=
  Opens (o_heap o) (o_next o) (bkt_cid o) (bkt_bind o)
    (unlink_at (bkt_rcpt o) (slot (o_nbkt o) (verifier_hex it)) p) (o_nbkt o) (open_count o).

Definition open_add (cfg : rab_config) (alloc alloc_uid : bool) (cid binding : string)
    (actor : rab_actor) (operation resource scope : string) (s : opens * rates)
  : bool * (opens * rates) :=
  let '(o, r) := s in
  if negb alloc then (false, s)
  else
    let it := Intent (snprintf_s RAB_CID_MAX cid) (snprintf_s RAB_BINDING_MAX binding) actor
                (snprintf_s RAB_META_MAX operation) (snprintf_s RAB_META_MAX resource)
                (snprintf_s RAB_SCOPE_MAX scope) false None in
    let p := o_next o in
    let o' := Opens (<[p := it]> (o_heap o)) (S p)
                (push_at (bkt_cid o) (slot (o_nbkt o) cid) p)
                (push_at (bkt_bind o) (slot (o_nbkt o) binding) p)
                (bkt_rcpt o) (o_nbkt o) (u64 (open_count o + 1)) in
    (true, (o', uid_open_inc cfg alloc_uid (a_uid actor) r)).

Definition open_remove (p : nat) (it : intent) (s : opens * rates) : opens * rates :=
  let '(o, r) := s in
  let o := Opens (o_heap o) (o_next o) (unlink_at (bkt_cid o) (slot (o_nbkt o) (it_cid it)) p)
             (unlink_at (bkt_bind o) (slot (o_nbkt o) (it_binding it)) p)
             (bkt_rcpt o) (o_nbkt o) (open_count o) in
  let o := if has_receipt it then rcpt_index_remove o p it else o in
  (Opens (delete p (o_heap o)) (o_next o) (bkt_cid o) (bkt_bind o) (bkt_rcpt o) (o_nbkt o)
     (u64 (open_count o - 1)),
   uid_open_dec (a_uid (it_actor it)) r).

(** ** Invariant *)

Section Index.
Context (nbkt : Z) (key : intent → option string).

(** [t] indexes exactly the nodes of [heap] that have a key, each once, in the
    chain its key hashes to. *)
Record index_ok (heap : gmap nat intent) (t : table) : Prop := {
  ix_len : length t = Z.to_nat nbkt;
  ix_nodup : ∀ i c, t !! i = Some c → NoDup c;
  ix_mem : ∀ i c p, t !! i = Some c →
    (p ∈ c ↔ ∃ it k, heap !! p = Some it ∧ key it = Some k ∧ slot nbkt k = i)
}.
End Index.

Definition key_cid (it : intent) : option string := Some (it_cid it).
Definition key_bind (it : intent) : option string := Some (it_binding it).
Definition key_rcpt (it : intent) : option string :=
  match it_rcpt it with Some r => Some (rc_verifier r) | None => None end.

Record opens_ok (o : opens) : Prop := {
  ok_nbkt : ∃ k, (k ≤ 20)%nat ∧ o_nbkt o = 2 ^ Z.of_nat k;
  ok_cid : index_ok (o_nbkt o) key_cid (o_heap o) (bkt_cid o);
  ok_bind : index_ok (o_nbkt o) key_bind (o_heap o) (bkt_bind o);
  ok_rcpt : index_ok (o_nbkt o) key_rcpt (o_heap o) (bkt_rcpt o);
  ok_count : open_count o = u64 (Z.of_nat (size (o_heap o)));
  ok_next : ∀ p it, o_heap o !! p = Some it → (p < o_next o)%nat
}.

(** ** Facts: hashing *)

Lemma slot_lt nbkt k s :
  nbkt = 2 ^ Z.of_nat k → (slot nbkt s < Z.to_nat nbkt)%nat.
Proof.
  intros ->. unfold slot. rewrite land_mask_mod by lia.
  pose proof (Z.pow_pos_nonneg 2 (Z.of_nat k)).
  pose proof (Z.mod_pos_bound (hstr s) (2 ^ Z.of_nat k)). lia.
Qed.

Lemma pow2_loop_pow fuel j x :
  (j ≤ 20)%nat → (j + fuel ≤ 20)%nat ∨ (20 ≤ j)%nat →
  ∃ k, (k ≤ 20)%nat ∧ pow2_loop fuel (2 ^ Z.of_nat j) x = 2 ^ Z.of_nat k.
Proof.
  revert j. induction fuel as [|fuel IH]; intros j Hj Hf; simpl; [eauto|].
  destruct ((2 ^ Z.of_nat j <? x) && (2 ^ Z.of_nat j <? RAB_MAX_BUCKETS)) eqn:E; [|eauto].
  bool_hyps. change RAB_MAX_BUCKETS with (2 ^ 20) in *.
  rewrite Z.shiftl_mul_pow2 by lia. change (2 ^ 1) with 2.
  replace (2 ^ Z.of_nat j * 2) with (2 ^ Z.of_nat (S j)).
  2: { rewrite Nat2Z.inj_succ, Z.pow_succ_r by lia. lia. }
  assert (Z.of_nat j < 20) by (apply (Z.pow_lt_mono_r_iff 2); lia).
  apply IH; lia.
Qed.

Lemma pow2_ceil_pow x : ∃ k, (k ≤ 20)%nat ∧ pow2_ceil x = 2 ^ Z.of_nat k.
Proof. unfold pow2_ceil. change 16 with (2 ^ Z.of_nat 4). apply pow2_loop_pow; lia. Qed.

(** ** Facts: one index *)

Section IndexFacts.
Context (nbkt : Z) (key : intent → option string).

Lemma index_nil : index_ok nbkt key ∅ (replicate (Z.to_nat nbkt) []).
Proof.
  split.
  - by rewrite length_replicate.
  - intros i c Hc. apply lookup_replicate in Hc as [-> _]. constructor.
  - intros i c p Hc. apply lookup_replicate in Hc as [-> _].
    split; [set_solver|]. intros (it & ? & Hit & _). by rewrite lookup_empty in Hit.
Qed.

Context (k : nat) (Hnbkt : nbkt = 2 ^ Z.of_nat k).

Lemma chain_at_lookup heap t s :
  index_ok nbkt key heap t → t !! slot nbkt s = Some (chain_at t (slot nbkt s)).
Proof.
  intros [Hl _ _]. pose proof (slot_lt nbkt k s Hnbkt).
  destruct (lookup_lt_is_Some_2 t (slot nbkt s)) as [c Hc]; [lia|].
  unfold chain_at. by rewrite nth_lookup, Hc.
Qed.

Lemma chain_at_mem heap t s p :
  index_ok nbkt key heap t →
  p ∈ chain_at t (slot nbkt s) ↔
    ∃ it k', heap !! p = Some it ∧ key it = Some k' ∧ slot nbkt k' = slot nbkt s.
Proof. intros Hi. apply (ix_mem _ _ _ _ Hi). by eapply chain_at_lookup. Qed.

Lemma walk_Some heap c test p :
  walk heap c test = Some p → p ∈ c ∧ ∃ it, heap !! p = Some it ∧ test it = true.
Proof.
  induction c as [|q c IH]; simpl; [done|].
  destruct (heap !! q) as [it|] eqn:Hq; [|done]. destruct (test it) eqn:Ht.
  - intros [= <-]. split; [left|eauto].
  - intros Hw. destruct (IH Hw). split; [by right|done].
Qed.

Lemma walk_None heap c test :
  (∀ p, p ∈ c → ∃ it, heap !! p = Some it) → walk heap c test = None →
  ∀ p it, p ∈ c → heap !! p = Some it → test it = false.
Proof.
  induction c as [|q c IH]; intros Hall Hw p it Hp Hit; [set_solver|]. simpl in Hw.
  destruct (Hall q) as [itq Hq]; [left|]. rewrite Hq in Hw.
  destruct (test itq) eqn:Ht; [done|].
  apply elem_of_cons in Hp as [->|Hp]; [congruence|].
  apply (IH ltac:(set_solver) Hw p it Hp Hit).
Qed.

(** Looking up [s] in its chain with a test that means "the key is [s]". *)
Lemma index_find heap t s test :
  index_ok nbkt key heap t →
  (∀ it, test it = true ↔ key it = Some s) →
  match walk heap (chain_at t (slot nbkt s)) test with
  | Some p => ∃ it, heap !! p = Some it ∧ key it = Some s
  | None => ∀ p it, heap !! p = Some it → key it ≠ Some s
  end.
Proof.
  intros Hi Ht. destruct (walk _ _ _) as [p|] eqn:Hw.
  - apply walk_Some in Hw as (_ & it & Hit & Htest). exists it. split; [done|]. by apply Ht.
  - intros p it Hit Hk.
    assert (Hmem : p ∈ chain_at t (slot nbkt s)) by (apply (chain_at_mem heap); eauto).
    assert (Hfalse : test it = false).
    { eapply walk_None; eauto. intros q Hq. apply (chain_at_mem heap) in Hq as (? & ? & ? & _); eauto. }
    apply Ht in Hk. congruence.
Qed.

Lemma index_push heap t p it s :
  index_ok nbkt key heap t → heap !! p = None → key it = Some s →
  index_ok nbkt key (<[p := it]> heap) (push_at t (slot nbkt s) p).
Proof.
  intros Hi Hp Hk. pose proof Hi as [Hl Hn Hm]. pose proof (slot_lt nbkt k s Hnbkt).
  pose proof (chain_at_lookup _ _ s Hi) as Hc. unfold push_at. split.
  - by rewrite length_insert.
  - intros i c Hlk. destruct (decide (i = slot nbkt s)) as [->|Hne].
    + rewrite list_lookup_insert_eq in Hlk by lia. injection Hlk as <-. constructor; [|eauto].
      intros Hin. apply (Hm _ _ _ Hc) in Hin as (? & ? & Hh & _). congruence.
    + rewrite list_lookup_insert_ne in Hlk by done. eauto.
  - intros i c q Hlk. destruct (decide (q = p)) as [->|Hqp].
    + rewrite lookup_insert_eq. destruct (decide (i = slot nbkt s)) as [->|Hne].
      * rewrite list_lookup_insert_eq in Hlk by lia. injection Hlk as <-. split; [eauto|left].
      * rewrite list_lookup_insert_ne in Hlk by done. split.
        -- intros Hin. apply (Hm _ _ _ Hlk) in Hin as (? & ? & Hh & _). congruence.
        -- intros (it' & s' & [= <-] & Hs' & Hi'). congruence.
    + rewrite lookup_insert_ne by done. destruct (decide (i = slot nbkt s)) as [->|Hne].
      * rewrite list_lookup_insert_eq in Hlk by lia. injection Hlk as <-.
        rewrite elem_of_cons, (Hm _ _ _ Hc). naive_solver.
      * rewrite list_lookup_insert_ne in Hlk by done. by apply Hm.
Qed.

(** A new node without a key leaves the index alone. *)
Lemma index_skip heap t p it :
  index_ok nbkt key heap t → heap !! p = None → key it = None →
  index_ok nbkt key (<[p := it]> heap) t.
Proof.
  intros [Hl Hn Hm] Hp Hk. split; [done..|]. intros i c q Hlk. rewrite (Hm _ _ _ Hlk).
  destruct (decide (q = p)) as [->|Hne].
  - rewrite lookup_insert_eq, Hp. naive_solver.
  - by rewrite lookup_insert_ne.
Qed.

(** Replacing a node by one with the same key. *)
Lemma index_same heap t p it it' :
  index_ok nbkt key heap t → heap !! p = Some it → key it' = key it →
  index_ok nbkt key (<[p := it']> heap) t.
Proof.
  intros [Hl Hn Hm] Hp Hk. split; [done..|]. intros i c q Hlk. rewrite (Hm _ _ _ Hlk).
  destruct (decide (q = p)) as [->|Hne].
  - rewrite lookup_insert_eq, Hp. split.
    + intros (? & s & [= <-] & Hs & Hi). exists it', s. by rewrite Hk.
    + intros (? & s & [= <-] & Hs & Hi). exists it, s. by rewrite <- Hk.
  - by rewrite lookup_insert_ne.
Qed.

(** Giving a key to a node that had none. *)
Lemma index_gain heap t p it it' s :
  index_ok nbkt key heap t → heap !! p = Some it → key it = None → key it' = Some s →
  index_ok nbkt key (<[p := it']> heap) (push_at t (slot nbkt s) p).
Proof.
  intros Hi Hp Hno Hk.
  assert (Hdel : index_ok nbkt key (delete p heap) t).
  { destruct Hi as [Hl Hn Hm]. split; [done..|]. intros i c q Hlk. rewrite (Hm _ _ _ Hlk).
    destruct (decide (q = p)) as [->|Hne].
    - rewrite lookup_delete_eq, Hp. naive_solver.
    - by rewrite lookup_delete_ne. }
  rewrite <- insert_delete_eq. apply index_push; [done|apply lookup_delete_eq|done].
Qed.

Lemma unlink_ptr_mem c p q : NoDup c → q ∈ unlink_ptr c p ↔ q ∈ c ∧ q ≠ p.
Proof.
  induction c as [|x c IH]; simpl; [set_solver|]. intros Hn. inversion Hn; subst.
  destruct (Nat.eqb_spec x p) as [->|]; [set_solver|]. rewrite !elem_of_cons, IH by done. naive_solver.
Qed.

Lemma unlink_ptr_NoDup c p : NoDup c → NoDup (unlink_ptr c p).
Proof.
  induction c as [|x c IH]; simpl; [done|]. intros Hn. inversion Hn; subst.
  destruct (Nat.eqb_spec x p); [done|]. constructor; [|auto].
  rewrite unlink_ptr_mem by done. tauto.
Qed.

Lemma index_unlink heap t p it s :
  index_ok nbkt key heap t → heap !! p = Some it → key it = Some s →
  index_ok nbkt key (delete p heap) (unlink_at t (slot nbkt s) p).
Proof.
  intros Hi Hp Hk. pose proof Hi as [Hl Hn Hm]. pose proof (slot_lt nbkt k s Hnbkt).
  pose proof (chain_at_lookup _ _ s Hi) as Hc. unfold unlink_at. split.
  - by rewrite length_insert.
  - intros i c Hlk. destruct (decide (i = slot nbkt s)) as [->|Hne].
    + rewrite list_lookup_insert_eq in Hlk by lia. injection Hlk as <-.
      apply unlink_ptr_NoDup. eauto.
    + rewrite list_lookup_insert_ne in Hlk by done. eauto.
  - intros i c q Hlk. destruct (decide (i = slot nbkt s)) as [->|Hne].
    + rewrite list_lookup_insert_eq in Hlk by lia. injection Hlk as <-.
      rewrite unlink_ptr_mem by eauto. rewrite (Hm _ _ _ Hc).
      destruct (decide (q = p)) as [->|Hqp].
      * rewrite lookup_delete_eq. naive_solver.
      * rewrite lookup_delete_ne by done. naive_solver.
    + rewrite list_lookup_insert_ne in Hlk by done. rewrite (Hm _ _ _ Hlk).
      destruct (decide (q = p)) as [->|Hqp].
      * rewrite lookup_delete_eq, Hp. naive_solver.
      * by rewrite lookup_delete_ne.
Qed.

Lemma index_drop heap t p it :
  index_ok nbkt key heap t → heap !! p = Some it → key it = None →
  index_ok nbkt key (delete p heap) t.
Proof.
  intros [Hl Hn Hm] Hp Hk. split; [done..|]. intros i c q Hlk. rewrite (Hm _ _ _ Hlk).
  destruct (decide (q = p)) as [->|Hne].
  - rewrite lookup_delete_eq, Hp. naive_solver.
  - by rewrite lookup_delete_ne.
Qed.
End IndexFacts.

(** ** Facts: the set *)

Lemma strcmp_test (f : intent → string) s it : strcmp_eq (f it) s = true ↔ Some (f it) = Some s.
Proof. unfold strcmp_eq. rewrite String.eqb_eq. naive_solver. Qed.

Lemma find_cid_spec o cid :
  opens_ok o →
  match open_find_cid o cid with
  | Some p => ∃ it, o_heap o !! p = Some it ∧ it_cid it = cid
  | None => ∀ p it, o_heap o !! p = Some it → it_cid it ≠ cid
  end.
Proof.
  intros [(k & _ & Hk) Hc _ _ _ _]. unfold open_find_cid.
  pose proof (index_find _ key_cid k Hk _ _ cid (λ it, strcmp_eq (it_cid it) cid) Hc
                (strcmp_test it_cid cid)) as Hf.
  unfold key_cid in Hf. destruct (walk _ _ _); naive_solver.
Qed.

Lemma find_binding_spec o b :
  opens_ok o →
  match open_find_binding o b with
  | Some p => b ≠ "" ∧ ∃ it, o_heap o !! p = Some it ∧ it_binding it = b
  | None => b = "" ∨ ∀ p it, o_heap o !! p = Some it → it_binding it ≠ b
  end.
Proof.
  intros [(k & _ & Hk) _ Hb _ _ _]. unfold open_find_binding.
  destruct (is_empty b) eqn:E; bool_hyps; [by left|].
  pose proof (index_find _ key_bind k Hk _ _ b (λ it, strcmp_eq (it_binding it) b) Hb
                (strcmp_test it_binding b)) as Hf.
  unfold key_bind in Hf. destruct (walk _ _ _); naive_solver.
Qed.

Lemma key_rcpt_test it v :
  has_receipt it && strcmp_eq (verifier_hex it) v = true ↔ key_rcpt it = Some v.
Proof.
  unfold has_receipt, verifier_hex, key_rcpt, strcmp_eq. destruct (it_rcpt it) as [r|]; simpl; [|done].
  rewrite String.eqb_eq. naive_solver.
Qed.

Lemma find_verifier_spec o v :
  opens_ok o →
  match open_find_verifier o v with
  | Some p => v ≠ "" ∧ ∃ it, o_heap o !! p = Some it ∧ key_rcpt it = Some v
  | None => v = "" ∨ ∀ p it, o_heap o !! p = Some it → key_rcpt it ≠ Some v
  end.
Proof.
  intros [(k & _ & Hk) _ _ Hr _ _]. unfold open_find_verifier.
  destruct (is_empty v) eqn:E; bool_hyps; [by left|].
  pose proof (index_find _ key_rcpt k Hk _ _ v
                (λ it, has_receipt it && strcmp_eq (verifier_hex it) v) Hr
                (λ it, key_rcpt_test it v)) as Hf.
  destruct (walk _ _ _); [split; [done|]|right]; done.
Qed.

Lemma opens_init_ok cfg : opens_ok (opens_init cfg).
Proof.
  unfold opens_init. set (n := pow2_ceil _).
  split; cbn [o_nbkt o_heap bkt_cid bkt_bind bkt_rcpt open_count o_next].
  - apply pow2_ceil_pow.
  - apply index_nil.
  - apply index_nil.
  - apply index_nil.
  - by rewrite map_size_empty.
  - intros p it. by rewrite lookup_empty.
Qed.

Definition new_intent (cid binding : string) (actor : rab_actor) (op res sc : string) : intent :=
  Intent cid binding actor (snprintf_s RAB_META_MAX op) (snprintf_s RAB_META_MAX res)
    (snprintf_s RAB_SCOPE_MAX sc) false None.

Lemma open_add_spec cfg alloc alloc_u cid binding actor op res sc o r b o' r' :
  opens_ok o → strlen cid < RAB_CID_MAX → strlen binding < RAB_BINDING_MAX →
  open_add cfg alloc alloc_u cid binding actor op res sc (o, r) = (b, (o', r')) →
  if b then
    opens_ok o' ∧ o_heap o !! o_next o = None ∧
    o_heap o' = <[o_next o := new_intent cid binding actor op res sc]> (o_heap o) ∧
    o_nbkt o' = o_nbkt o ∧
    r' = uid_open_inc cfg alloc_u (a_uid actor) r
  else alloc = false ∧ o' = o ∧ r' = r.
Proof.
  intros Ho Hc Hb Ha. unfold open_add in Ha. destruct alloc; [|by simplify_eq/=].
  cbn [negb] in Ha. rewrite !(snprintf_s_fits RAB_CID_MAX), (snprintf_s_fits RAB_BINDING_MAX) in Ha by done.
  injection Ha as <- <- <-. pose proof Ho as [(k & Hk20 & Hk) Hci Hbi Hri Hcnt Hnext].
  assert (Hfresh : o_heap o !! o_next o = None).
  { destruct (o_heap o !! o_next o) as [it|] eqn:Hn; [|done]. apply Hnext in Hn. lia. }
  split_and!; try done.
  split; cbn [o_nbkt o_heap bkt_cid bkt_bind bkt_rcpt open_count o_next].
  - eauto.
  - by eapply index_push.
  - by eapply index_push.
  - by eapply index_skip.
  - rewrite map_size_insert, Hfresh, Hcnt, u64_add_l. f_equal. lia.
  - intros p it Hp. destruct (decide (p = o_next o)) as [->|Hne]; [lia|].
    rewrite lookup_insert_ne in Hp by done. apply Hnext in Hp. lia.
Qed.

Lemma open_remove_spec p it o r o' r' :
  opens_ok o → o_heap o !! p = Some it → open_remove p it (o, r) = (o', r') →
  opens_ok o' ∧ o_heap o' = delete p (o_heap o) ∧ o_nbkt o' = o_nbkt o ∧
  r' = uid_open_dec (a_uid (it_actor it)) r.
Proof.
  intros Ho Hp Hrm. pose proof Ho as [(k & Hk20 & Hk) Hci Hbi Hri Hcnt Hnext].
  assert (Hsz : u64 (open_count o - 1) = u64 (Z.of_nat (size (delete p (o_heap o))))).
  { rewrite map_size_delete, Hp, Hcnt, u64_sub_l. f_equal.
    assert (size (o_heap o) ≠ 0%nat); [|lia].
    intros Hz. apply map_size_empty_inv in Hz. rewrite Hz, lookup_empty in Hp. done. }
  assert (Hnx : ∀ q i, delete p (o_heap o) !! q = Some i → (q < o_next o)%nat).
  { intros q i Hq. apply lookup_delete_Some in Hq as [_ Hq]. eauto. }
  unfold open_remove in Hrm. unfold has_receipt, verifier_hex, rcpt_index_remove in Hrm.
  destruct (it_rcpt it) as [rc|] eqn:Hrc; injection Hrm as <- <-;
    split_and!; try done; split;
    cbn [o_nbkt o_heap bkt_cid bkt_bind bkt_rcpt open_count o_next]; try done; eauto;
    try (by eapply index_unlink).
  - unfold verifier_hex. rewrite Hrc. eapply index_unlink; [done..|]. unfold key_rcpt. by rewrite Hrc.
  - eapply index_drop; [done..|]. unfold key_rcpt. by rewrite Hrc.
Qed.

(** Changing a node without touching its keys. *)
Lemma set_node_ok o p it it' :
  opens_ok o → o_heap o !! p = Some it → it_cid it' = it_cid it →
  it_binding it' = it_binding it → key_rcpt it' = key_rcpt it → opens_ok (set_node o p it').
Proof.
  intros [Hk Hci Hbi Hri Hcnt Hnext] Hp Hc Hb Hr.
  split; cbn [set_node o_nbkt o_heap bkt_cid bkt_bind bkt_rcpt open_count o_next].
  - done.
  - eapply index_same; [done..|]. unfold key_cid. by rewrite Hc.
  - eapply index_same; [done..|]. unfold key_bind. by rewrite Hb.
  - by eapply index_same.
  - rewrite map_size_insert, Hp. done.
  - intros q i Hq. destruct (decide (q = p)) as [->|Hne]; [eauto|].
    rewrite lookup_insert_ne in Hq by done. eauto.
Qed.

(** Installing a receipt: the node is changed, then indexed by its verifier. *)
Definition install_receipt (o : opens) (p : nat) (it : intent) (rc : receipt) : opens :=
  let it' := Intent (it_cid it) (it_binding it) (it_actor it) (it_operation it) (it_resource it)
               (it_scope it) (it_from_checkpoint it) (Some rc) in
  rcpt_index_add (set_node o p it') p it'.

Lemma install_receipt_ok o p it rc :
  opens_ok o → o_heap o !! p = Some it → it_rcpt it = None → opens_ok (install_receipt o p it rc).
Proof.
  intros [(k & Hk20 & Hk) Hci Hbi Hri Hcnt Hnext] Hp Hno.
  unfold install_receipt, rcpt_index_add, set_node.
  split; cbn [o_nbkt o_heap bkt_cid bkt_bind bkt_rcpt open_count o_next].
  - eauto.
  - by eapply index_same.
  - by eapply index_same.
  - eapply index_gain; [done..| |]; unfold key_rcpt; [by rewrite Hno|done].
  - rewrite map_size_insert, Hp. done.
  - intros q i Hq. destruct (decide (q = p)) as [->|Hne]; [eauto|].
    rewrite lookup_insert_ne in Hq by done. eauto.
Qed.
