(* ===== verification/Broker.v ===== *)
(** * The broker's state and request handlers (broker.c)

    [broker] is [struct rab_broker]: the sink's path and descriptor, the
    configuration, the open-intent set, the accounting, the segment size and
    the poison flag.  A handler is a computation on the broker and the file
    system under it; every clock reading, allocation, random fill and system
    call takes the next answer of the environment.  A handler returns the
    response it chose; [render] prints it.

    Contents: append and quota primitives, carry-forward rotation and
    retention, receipt issuance and redemption, the five request handlers and
    the dispatcher. *)

From stdpp Require Import base gmap strings list sorting.
From Stdlib Require Import ZArith Lia Ascii.
From S2P Require Import Prelude CString Jansson Env Id Sink Request Peer Record Receipt Rate.
From S2P Require Import OpenSet.

Local Open Scope string_scope.
Local Open Scope Z_scope.

Definition PATH_MAX : Z := 4096.
Definition RAB_RECEIPT_MINT_TRIES : nat := 8.

Inductive rab_test_fail_mode := RAB_FAIL_NONE | RAB_FAIL_PARTIAL | RAB_FAIL_SYNC.

Record broker := Broker {
  b_path : string;
  b_fd : nat;
  b_cfg : rab_config;
  b_host : string;
  b_opens : opens;
  b_rates : rates;
  b_seg_bytes : Z;
  b_poisoned : bool;
  b_test_fail : rab_test_fail_mode
}.

Record sys := Sys { s_w : world; s_b : broker }.

(** ** Field updates *)

Definition set_opens (b : broker) (o : opens) : broker :=
  Broker (b_path b) (b_fd b) (b_cfg b) (b_host b) o (b_rates b) (b_seg_bytes b) (b_poisoned b)
    (b_test_fail b).
Definition set_rates (b : broker) (r : rates) : broker :=
  Broker (b_path b) (b_fd b) (b_cfg b) (b_host b) (b_opens b) r (b_seg_bytes b) (b_poisoned b)
    (b_test_fail b).
Definition set_seg (b : broker) (n : Z) : broker :=
  Broker (b_path b) (b_fd b) (b_cfg b) (b_host b) (b_opens b) (b_rates b) n (b_poisoned b)
    (b_test_fail b).
Definition set_poisoned (b : broker) : broker :=
  Broker (b_path b) (b_fd b) (b_cfg b) (b_host b) (b_opens b) (b_rates b) (b_seg_bytes b) true
    (b_test_fail b).
Definition set_test_fail (b : broker) (m : rab_test_fail_mode) : broker :=
  Broker (b_path b) (b_fd b) (b_cfg b) (b_host b) (b_opens b) (b_rates b) (b_seg_bytes b)
    (b_poisoned b) m.
Definition set_fd (b : broker) (fd : nat) : broker :=
  Broker (b_path b) fd (b_cfg b) (b_host b) (b_opens b) (b_rates b) (b_seg_bytes b)
    (b_poisoned b) (b_test_fail b).

Definition getb : M sys broker := mgets s_b.
Definition modb (f : broker → broker) : M sys unit := mmodify (λ s, Sys (s_w s) (f (s_b s))).
Definition liftW {A} (m : M world A) : M sys A := zoom s_w (λ s w, Sys w (s_b s)) m.

Definition rab_broker_poisoned (b : broker) : bool := b_poisoned b.
Definition rab_broker_test_fail_next_append (b : broker) (m : rab_test_fail_mode) : broker :=
  set_test_fail b m.

(** Copy a string member of a client record ("" if absent). *)
Definition rec_str (record : jptr) (key : string) (cap : Z) : string :=
  match json_object_get record key with
  | Some (JString s) => snprintf_s cap s
  | _ => ""
  end.

Definition error (code message : string) : M sys response := mreturn (RespError code message).

(** ** Archive names *)

(** The directory part of a path up to its last slash, and the rest. *)
Fixpoint split_path (s : string) : string * string :=
  match s with
  | EmptyString => ("", "")
  | String c s' =>
      let '(dir, base) := split_path s' in
      if is_empty dir && negb (byte_val c =? 47) then ("", String c base)
      else (String c dir, base)
  end.

(** The length of ["<dir>/<name>"] as retention writes it ("." for no directory). *)
Definition full_len (path : string) : Z :=
  let '(dir, name) := split_path path in Z.max 2 (strlen dir) + strlen name.

Definition arch_suffix_value (s : string) : option Z :=
  if is_empty s then None
  else if negb (string_forallb is_digit s) then None
  else let r := strtoull s in
       if st_erange r || negb (is_empty (st_end r)) then None else Some (st_value r).

(** [strncmp(name, base, baselen) == 0 && name[baselen] == '.']: the rest. *)
Fixpoint strip_prefix (base name : string) : option string :=
  match base, name with
  | EmptyString, String c rest => if byte_val c =? 46 then Some rest else None
  | String b base', String c name' => if Ascii.eqb b c then strip_prefix base' name' else None
  | _, EmptyString => None
  end.

Record archive_ent := ArchiveEnt { ae_name : string; ae_suffix : Z; ae_size : Z }.

Definition archive_le (a b : archive_ent) : Prop := ae_suffix a ≤ ae_suffix b.
#[export] Instance archive_le_dec : RelDecision archive_le.
Proof. intros a b. unfold archive_le. apply _. Defined.

Section Handlers.
Context `{Jansson} `{Sha256} {E : env}.

(** ** Primitives *)

Definition clock : M sys Z := let! t := liftW (ask e_clock) in mreturn (u64 t).
Definition alloc : M sys bool := liftW (ask e_ok).
Definition alloc_uid : M sys bool := liftW (ask e_uid).

(** A built line, or NULL when an allocation inside the builder fails. *)
Definition built (o : option string) : M sys (option string) :=
  let! ok := alloc in mreturn (if ok then o else None).

Definition check_rate (uid now : Z) : M sys bool :=
  let! ok := alloc_uid in
  let! b := getb in
  let '(allowed, r) := rate_allowed (b_cfg b) ok uid now (b_rates b) in
  modb (λ b, set_rates b r) ;;; mreturn allowed.

Definition check_bytes (uid now nbytes : Z) : M sys bool :=
  let! ok := alloc_uid in
  let! b := getb in
  let '(allowed, r) := bytes_allowed (b_cfg b) ok uid now nbytes (b_rates b) in
  modb (λ b, set_rates b r) ;;; mreturn allowed.

(** [rate_note] then [global_bytes_note], as every accepted write does. *)
Definition note_write (uid now nbytes : Z) : M sys unit :=
  let! ok := alloc_uid in
  modb (λ b, set_rates b (global_bytes_note (b_cfg b) now nbytes
                            (rate_note (b_cfg b) ok uid now nbytes (b_rates b)))).

Definition enough_free_space : M sys bool :=
  let! b := getb in
  if min_free_bytes (b_cfg b) =? 0 then mreturn true
  else
    let! vfs := liftW (ask e_statvfs) in
    mreturn (match vfs with
             | None => false
             | Some (bavail, frsize) => min_free_bytes (b_cfg b) <=? u64 (bavail * frsize)
             end).

(** One [write(2)] whose result is ignored. *)
Definition write_once (ino : nat) (data : bytes) : M world unit :=
  let! script := ask e_write in
  on_fs (write_data ino (match script with
                         | [] => data
                         | WrBytes n :: _ => take n data
                         | _ => []
                         end)).

Definition append_line (line : string) : M sys bool :=
  let len := strlen line in
  let! b := getb in
  match b_test_fail b with
  | RAB_FAIL_NONE =>
      let! ok := liftW (rab_sink_append (b_fd b) (bs line)) in
      if negb ok then modb set_poisoned ;;; mreturn false
      else modb (λ b, set_seg b (u64 (b_seg_bytes b + (len + 1)))) ;;; mreturn true
  | mode =>
      modb (λ b, set_test_fail b RAB_FAIL_NONE) ;;;
      (match mode with
       | RAB_FAIL_PARTIAL =>
           if 1 <? len then liftW (write_once (b_fd b) (take (Z.to_nat (len / 2)) (bs line)))
           else mreturn tt
       | _ => liftW (write_once (b_fd b) (bs line)) ;;; liftW (write_once (b_fd b) [nl])
       end) ;;;
      modb set_poisoned ;;; mreturn false
  end.

(** ** Retention *)

(** One directory entry: an archive of this sink that is a regular file owned by
    the broker. *)
Definition archive_candidate (b : broker) (f : fsys) (lstat_ok : bool) (path : string) (ino : nat)
  : option archive_ent :=
  let '(dir, base) := split_path (b_path b) in
  let '(edir, name) := split_path path in
  if negb (String.eqb edir dir) then None
  else
    let? rest := strip_prefix base name in
    let? sv := arch_suffix_value rest in
    if PATH_MAX <=? full_len path then None
    else if negb lstat_ok then None
    else match fs_ino f !! ino with
         | Some (Inode KReg _ uid data _) =>
             if uid =? e_euid then Some (ArchiveEnt path sv (blen data)) else None
         | _ => None
         end.

(** The [readdir] loop; [None] when growing the array fails. *)
Fixpoint collect_archives (b : broker) (dirents : list (string * nat)) (acc : list archive_ent)
    (cap : nat) : M sys (option (list archive_ent)) :=
  match dirents with
  | [] => mreturn (Some acc)
  | (path, ino) :: rest =>
      let! lstat_ok := alloc in
      let! s := mget in
      match archive_candidate b (w_fs (s_w s)) lstat_ok path ino with
      | None => collect_archives b rest acc cap
      | Some e =>
          if (length acc =? cap)%nat then
            let! grown := alloc in
            if negb grown then mreturn None
            else collect_archives b rest (acc ++ [e]) (if (cap =? 0)%nat then 16 else cap * 2)%nat
          else collect_archives b rest (acc ++ [e]) cap
      end
  end.

(** Oldest first, unlink until within both bounds; whether anything was pruned. *)
Fixpoint prune_archives (cfg : rab_config) (ents : list archive_ent) (archives total : Z)
    (pruned : bool) : M sys bool :=
  match ents with
  | [] => mreturn pruned
  | e :: rest =>
      let over_count := negb (retain_segments cfg =? 0) && (retain_segments cfg <? archives) in
      let over_bytes := negb (retain_bytes cfg =? 0) && (retain_bytes cfg <? total) in
      if negb over_count && negb over_bytes then mreturn pruned
      else if PATH_MAX <=? full_len (ae_name e) then prune_archives cfg rest archives total pruned
      else
        let! ok := liftW (sys_unlink (ae_name e)) in
        if ok then prune_archives cfg rest (archives - 1) (u64 (total - ae_size e)) true
        else prune_archives cfg rest archives total pruned
  end.

Definition sum_sizes (ents : list archive_ent) (start : Z) : Z :=
  fold_left (λ t e, u64 (t + ae_size e)) ents start.

Definition apply_retention : M sys unit :=
  let! b := getb in
  let cfg := b_cfg b in
  if (retain_segments cfg =? 0) && (retain_bytes cfg =? 0) then mreturn tt
  else if PATH_MAX <? strlen (fst (split_path (b_path b))) then mreturn tt
  else
    let! opened := alloc in
    if negb opened then mreturn tt
    else
      let! s := mget in
      let! ents := collect_archives b (map_to_list (fs_dir (w_fs (s_w s)))) [] 0 in
      match ents with
      | None => mreturn tt
      | Some ents =>
          if (length ents =? 0)%nat then mreturn tt
          else
            let! pruned := prune_archives cfg (merge_sort archive_le ents)
                             (Z.of_nat (length ents)) (sum_sizes ents (b_seg_bytes b)) false in
            if pruned then liftW (rab_fsync_parent_dir (b_path b)) ;;; mreturn tt
            else mreturn tt
      end.

(** ** Rotation *)

(** The window entries of a ring, oldest first, as the carry loop reads them. *)
Definition ring_carry (u : uid_state) : list (Z * Z) :=
  map (λ k, let idx := u32 (u_head u + Z.of_nat k) mod u_cap u in
            (ring_ts u idx, ring_bytes u idx)) (seq 0 (Z.to_nat (u_n u))).

Fixpoint carry_uids (fd : nat) (th : Z) (us : list uid_state) : M sys bool :=
  match us with
  | [] => mreturn true
  | u :: rest =>
      let u := uid_evict u th in
      modb (λ b, set_rates b (uid_store (b_rates b) u)) ;;;
      if u_n u =? 0 then carry_uids fd th rest
      else
        let! line := built (rab_build_rate (u_uid u) (ring_carry u)) in
        match line with
        | None => mreturn false
        | Some line =>
            let! ok := liftW (rab_sink_append fd (bs line)) in
            if negb ok then mreturn false else carry_uids fd th rest
        end
  end.

Definition write_rate_carries (fd : nat) : M sys bool :=
  let! b := getb in
  if rate_max_in_window (b_cfg b) =? 0 then mreturn true
  else
    let! now := clock in
    let! b := getb in
    carry_uids fd (win_th (b_cfg b) now) (concat (bkt_uid (b_rates b))).

(** Every open intent as a checkpoint, its receipt right after it. *)
Fixpoint carry_intents (fd : nat) (ptrs : list nat) : M sys bool :=
  match ptrs with
  | [] => mreturn true
  | p :: rest =>
      let! b := getb in
      match o_heap (b_opens b) !! p with
      | None => mreturn false
      | Some it =>
          let! now := clock in
          let! line := built (rab_build_checkpoint (it_cid it) (it_binding it) (it_actor it) now
                                (it_operation it) (it_resource it) (it_scope it)) in
          match line with
          | None => mreturn false
          | Some line =>
              let! ok := liftW (rab_sink_append fd (bs line)) in
              if negb ok then mreturn false
              else match it_rcpt it with
                   | None => carry_intents fd rest
                   | Some rc =>
                       let! rl := built (rab_build_receipt (it_cid it) true rc) in
                       match rl with
                       | None => mreturn false
                       | Some rl =>
                           let! ok := liftW (rab_sink_append fd (bs rl)) in
                           if negb ok then mreturn false else carry_intents fd rest
                       end
                   end
          end
      end
  end.

(** Give up a rotation: drop the pending segment. *)
Definition abandon (pending : string) : M sys bool :=
  liftW (sys_unlink pending) ;;; mreturn false.

(** The swap: archive the old segment, rename the new one into place. *)
Definition rotate_swap (pending : string) (pfd : nat) (arch : string) : M sys bool :=
  let! b := getb in
  let path := b_path b in
  let! locked := alloc in
  if negb locked then abandon pending
  else
    let! linked := liftW (sys_link path arch) in
    let! synced := (if linked then liftW (rab_fsync_parent_dir path) else mreturn false) in
    if negb synced then
      liftW (sys_unlink pending) ;;; liftW (sys_unlink arch) ;;; mreturn false
    else
      let! renamed := liftW (sys_rename pending path) in
      if negb renamed then abandon pending
      else
        let! durable := liftW (rab_fsync_parent_dir path) in
        (if durable then mreturn tt else modb set_poisoned) ;;;
        modb (λ b, set_fd b pfd) ;;;
        let! st := liftW (sys_fstat pfd) in
        modb (λ b, set_seg b (match st with Some i => blen (i_data i) | None => 0 end)) ;;;
        let! b := getb in
        (if b_poisoned b then mreturn tt else apply_retention) ;;;
        let! b := getb in
        mreturn (negb (b_poisoned b)).

Definition rotate : M sys bool :=
  let! b := getb in
  let path := b_path b in
  let pending := path +:+ ".pending" in
  if PATH_MAX <=? strlen pending then mreturn false
  else
    liftW (sys_unlink pending) ;;;
    let! pfd := liftW (rab_sink_open pending) in
    match pfd with
    | None => mreturn false
    | Some pfd =>
        let! ok := carry_intents pfd (concat (bkt_cid (b_opens b))) in
        if negb ok then abandon pending
        else
          let! ok := write_rate_carries pfd in
          if negb ok then abandon pending
          else
            let! ts := clock in
            let arch := path +:+ "." +:+ print_u ts in
            if PATH_MAX <=? strlen arch then abandon pending
            else rotate_swap pending pfd arch
    end.

Definition maybe_rotate : M sys unit :=
  let! b := getb in
  if (rotate_bytes (b_cfg b) =? 0) || (b_seg_bytes b <=? rotate_bytes (b_cfg b)) then mreturn tt
  else rotate ;;; mreturn tt.

(** ** Effect receipts *)

(** The boot id, through a buffer of [RAB_BOOT_ID_MAX] bytes. *)
Definition read_bootid : M sys (option string) :=
  let! o := liftW (ask e_bootid) in
  mreturn (match o with
           | Some s => if strlen s <? RAB_BOOT_ID_MAX then Some s else None
           | None => None
           end).

(** Mint a token that differs from the binding and whose verifier is unused. *)
Fixpoint mint_token (tries : nat) (binding : string) : M sys (option (string * string)) :=
  match tries with
  | O => mreturn None
  | S tries' =>
      let! rnd := liftW (ask e_random) in
      match rab_make_receipt rnd RAB_RECEIPT_MAX with
      | None => mreturn None
      | Some token =>
          match token_verifier token with
          | None => mreturn None
          | Some vhex =>
              let! b := getb in
              match open_find_verifier (b_opens b) vhex with
              | None => if strcmp_eq token binding then mint_token tries' binding
                        else mreturn (Some (token, vhex))
              | Some _ => mint_token tries' binding
              end
          end
      end
  end.

Inductive issue_result := ISSUE_OK (token : string) | ISSUE_RATE_LIMITED | ISSUE_FAILED.

(** The issued state is installed only after its record is durable. *)
Definition issue_commit (p : nat) (it : intent) (token : string) (rc : receipt) (line : string)
    (now : Z) : M sys issue_result :=
  let uid := a_uid (it_actor it) in
  let nbytes := u64 (strlen line + 1) in
  let! ok := check_rate uid now in
  if negb ok then mreturn ISSUE_RATE_LIMITED
  else
    let! ok := check_bytes uid now nbytes in
    if negb ok then mreturn ISSUE_RATE_LIMITED
    else
      let! ok := append_line line in
      if negb ok then mreturn ISSUE_FAILED
      else
        modb (λ b, set_opens b (install_receipt (b_opens b) p it rc)) ;;;
        note_write uid now nbytes ;;;
        maybe_rotate ;;;
        let! b := getb in
        mreturn (if b_poisoned b then ISSUE_FAILED else ISSUE_OK token).

Definition rab_broker_issue_receipt (correlation_id : string) (plan_schema : Z)
    (plan_hash : string) : M sys issue_result :=
  let! b := getb in
  if b_poisoned b then mreturn ISSUE_FAILED
  else if negb (plan_schema =? RAB_PLAN_SCHEMA_V1) then mreturn ISSUE_FAILED
  else match open_find_cid (b_opens b) correlation_id with
  | None => mreturn ISSUE_FAILED
  | Some p =>
  match o_heap (b_opens b) !! p with
  | None => mreturn ISSUE_FAILED
  | Some it =>
  if has_receipt it then mreturn ISSUE_FAILED
  else
    let! free := enough_free_space in
    if negb free then mreturn ISSUE_FAILED
    else
      let! bt := liftW (ask e_boottime) in
      match bt with
      | None => mreturn ISSUE_FAILED
      | Some bt =>
      let! bootid := read_bootid in
      match bootid with
      | None => mreturn ISSUE_FAILED
      | Some boot_id =>
          let ttl_us := u64 (receipt_ttl_sec (b_cfg b) * 1000000) in
          let! minted := mint_token RAB_RECEIPT_MINT_TRIES (it_binding it) in
          match minted with
          | None => mreturn ISSUE_FAILED
          | Some (token, vhex) =>
              let! now := clock in
              let rc := Receipt RAB_RCPT_ISSUED (snprintf_s RAB_HEX64_MAX vhex)
                          (a_uid (it_actor it)) (it_operation it) (it_resource it) plan_schema
                          (snprintf_s RAB_HEX64_MAX plan_hash) (u64 bt) ttl_us boot_id now in
              let! line := built (rab_build_receipt (it_cid it) false
                             (Receipt RAB_RCPT_ISSUED vhex (a_uid (it_actor it)) (it_operation it)
                                (it_resource it) plan_schema plan_hash (u64 bt) ttl_us boot_id
                                now)) in
              match line with
              | None => mreturn ISSUE_FAILED
              | Some line => issue_commit p it token rc line now
              end
          end
      end
      end
  end
  end.

Inductive rab_redeem_result :=
| RAB_REDEEM_OK | RAB_REDEEM_UNKNOWN | RAB_REDEEM_NOT_REDEEMER | RAB_REDEEM_PRINCIPAL
| RAB_REDEEM_TOKEN | RAB_REDEEM_BINDING | RAB_REDEEM_EXPIRED | RAB_REDEEM_ALREADY
| RAB_REDEEM_RATE | RAB_REDEEM_PERSIST.

(** The constant-time verifier check: digests are compared raw. *)
Definition token_matches (token verifier : string) : bool :=
  match rab_sha256 (bs token) with
  | None => false
  | Some presented =>
      (strlen verifier =? Z.of_nat RAB_SHA256_LEN * 2) &&
      match hex_decode verifier RAB_SHA256_LEN with
      | None => false
      | Some stored => rab_sha256_eq presented stored
      end
  end.

Definition mark_redeemed (rc : receipt) (now : Z) : receipt :=
  Receipt RAB_RCPT_REDEEMED (rc_verifier rc) (rc_actor_uid rc) (rc_verb rc) (rc_resource rc)
    (rc_plan_schema rc) (rc_plan_hash rc) (rc_issue_boottime_us rc) (rc_ttl_us rc)
    (rc_boot_id rc) now.

Definition set_rcpt (it : intent) (rc : receipt) : intent :=
  Intent (it_cid it) (it_binding it) (it_actor it) (it_operation it) (it_resource it)
    (it_scope it) (it_from_checkpoint it) (Some rc).

(** The redeemed transition is appended durably before the state advances. *)
Definition redeem_commit (p : nat) (it : intent) (rc : receipt) : M sys rab_redeem_result :=
  let uid := rc_actor_uid rc in
  let! free := enough_free_space in
  if negb free then mreturn RAB_REDEEM_PERSIST
  else
    let! now := clock in
    let! line := built (rab_build_receipt (it_cid it) false (mark_redeemed rc now)) in
    match line with
    | None => mreturn RAB_REDEEM_PERSIST
    | Some line =>
        let nbytes := u64 (strlen line + 1) in
        let! ok := check_rate uid now in
        if negb ok then mreturn RAB_REDEEM_RATE
        else
          let! ok := check_bytes uid now nbytes in
          if negb ok then mreturn RAB_REDEEM_RATE
          else
            let! ok := append_line line in
            if negb ok then mreturn RAB_REDEEM_PERSIST
            else
              modb (λ b, set_opens b (set_node (b_opens b) p (set_rcpt it (mark_redeemed rc now)))) ;;;
              note_write uid now nbytes ;;;
              maybe_rotate ;;;
              let! b := getb in
              mreturn (if b_poisoned b then RAB_REDEEM_PERSIST else RAB_REDEEM_OK)
    end.

(** Same boot, and the elapsed boot time within the TTL. *)
Definition receipt_unexpired (rc : receipt) (now_us : Z) (cur_boot : string) : bool :=
  negb (negb (strcmp_eq cur_boot (rc_boot_id rc)) || (now_us <? rc_issue_boottime_us rc)
        || (rc_ttl_us rc <? now_us - rc_issue_boottime_us rc)).

Definition rab_broker_redeem_receipt (correlation_id token : string)
    (redeemer_uid principal_uid : Z) (verb resource : string) (plan_schema : Z)
    (plan_hash : string) : M sys rab_redeem_result :=
  let! b := getb in
  if b_poisoned b then mreturn RAB_REDEEM_PERSIST
  else if negb (redeemer_uid =? 0) then mreturn RAB_REDEEM_NOT_REDEEMER
  else match open_find_cid (b_opens b) correlation_id with
  | None => mreturn RAB_REDEEM_UNKNOWN
  | Some p =>
  match o_heap (b_opens b) !! p with
  | None => mreturn RAB_REDEEM_UNKNOWN
  | Some it =>
  match it_rcpt it with
  | None => mreturn RAB_REDEEM_UNKNOWN
  | Some rc =>
  if negb (principal_uid =? rc_actor_uid rc) then mreturn RAB_REDEEM_PRINCIPAL
  else if negb (token_matches token (rc_verifier rc)) then mreturn RAB_REDEEM_TOKEN
  else if negb (plan_schema =? rc_plan_schema rc) || negb (strcmp_eq verb (rc_verb rc))
          || negb (strcmp_eq resource (rc_resource rc))
          || negb (strcmp_eq plan_hash (rc_plan_hash rc)) then mreturn RAB_REDEEM_BINDING
  else if rcpt_state_eqb (rc_state rc) RAB_RCPT_REDEEMED then mreturn RAB_REDEEM_ALREADY
  else
    let! bt := liftW (ask e_boottime) in
    match bt with
    | None => mreturn RAB_REDEEM_EXPIRED
    | Some now_us =>
    let! bootid := read_bootid in
    match bootid with
    | None => mreturn RAB_REDEEM_EXPIRED
    | Some cur_boot =>
        if negb (receipt_unexpired rc (u64 now_us) cur_boot) then mreturn RAB_REDEEM_EXPIRED
        else redeem_commit p it rc
    end
    end
  end
  end
  end.

(** ** Request handlers *)

Definition get_uid (uid : Z) : M sys (option uid_state) :=
  let! ok := alloc_uid in
  let! b := getb in
  let '(u, r) := uid_get (b_cfg b) ok uid (b_rates b) in
  modb (λ b, set_rates b r) ;;; mreturn u.

Definition mint_cid : M sys (option string) :=
  let! ts := liftW (ask e_realtime) in
  let! rnd := liftW (ask e_random) in
  mreturn (rab_make_correlation_id ts rnd RAB_CID_MAX).

Definition mint_binding : M sys (option string) :=
  let! rnd := liftW (ask e_random) in
  mreturn (rab_make_binding rnd RAB_BINDING_MAX).

Definition add_open (cid binding : string) (actor : rab_actor) (op res scope : string)
  : M sys bool :=
  let! ok := liftW (ask e_node) in
  let! ok_uid := alloc_uid in
  let! b := getb in
  let '(added, (o, r)) := open_add (b_cfg b) ok ok_uid cid binding actor op res scope
                            (b_opens b, b_rates b) in
  modb (λ b, set_rates (set_opens b o) r) ;;; mreturn added.

(** The receipt step of an effect open. *)
Definition open_effect (req : rab_request) (cid binding : string) : M sys response :=
  let! irc := rab_broker_issue_receipt cid (rq_effect_plan_schema req)
                (rq_effect_plan_hash req) in
  match irc with
  | ISSUE_OK token => mreturn (RespOpenOk cid binding "system" (Some token))
  | ISSUE_RATE_LIMITED => error "rate_limited" "effect receipt write-quota exceeded"
  | ISSUE_FAILED => error "persist_failed" "effect receipt issuance failed"
  end.

(** From the minted ids on: build, charge, append, install, rotate, issue. *)
Definition open_commit (actor : rab_actor) (req : rab_request) (now : Z) (cid binding : string)
  : M sys response :=
  let uid := a_uid actor in
  let op := rec_str (rq_record req) "operation" RAB_META_MAX in
  let res := rec_str (rq_record req) "resource" RAB_META_MAX in
  let scope := rec_str (rq_record req) "scope" RAB_SCOPE_MAX in
  let! b := getb in
  let! line := built (rab_build_audit RAB_PHASE_INTENT cid (Some binding) actor (b_host b) now
                        (rq_record req)) in
  match line with
  | None => error "internal" "record build"
  | Some line =>
      let nbytes := u64 (strlen line + 1) in
      let! ok := check_bytes uid now nbytes in
      if negb ok then error "rate_limited" "write-byte quota exceeded"
      else
        let! ok := append_line line in
        if negb ok then error "persist_failed" "sink append failed"
        else
          let! ok := add_open cid binding actor op res scope in
          if negb ok then error "internal" "open-set alloc"
          else
            note_write uid now nbytes ;;;
            maybe_rotate ;;;
            let! b := getb in
            if b_poisoned b
            then error "persist_failed" "audit durability uncertain after rotation"
            else if rq_effect_present req then open_effect req cid binding
            else mreturn (RespOpenOk cid binding "system" None)
  end.

Definition handle_open (actor : rab_actor) (req : rab_request) : M sys response :=
  let uid := a_uid actor in
  let sop := json_string_value (json_object_get (rq_record req) "operation") in
  let sres := json_string_value (json_object_get (rq_record req) "resource") in
  if rq_effect_present req
     && ((RAB_META_MAX <=? strlen sop) || (RAB_META_MAX <=? strlen sres))
  then error "schema_invalid" "effect operation/resource too long to bind"
  else
    let! now := clock in
    let! ok := check_rate uid now in
    if negb ok then error "rate_limited" "per-uid rate exceeded"
    else
      let! b := getb in
      if max_open_global (b_cfg b) <=? open_count (b_opens b)
      then error "rate_limited" "global open-intent cap"
      else
        let! u := get_uid uid in
        match u with
        | None => error "internal" "out of memory"
        | Some u =>
            if max_open_per_uid (b_cfg b) <=? u_open u
            then error "rate_limited" "per-uid open-intent cap"
            else
              let! free := enough_free_space in
              if negb free then error "persist_failed" "insufficient free space"
              else
                let! cid := mint_cid in
                match cid with
                | None => error "internal" "id minting failed"
                | Some cid =>
                    let! binding := mint_binding in
                    match binding with
                    | None => error "internal" "id minting failed"
                    | Some binding => open_commit actor req now cid binding
                    end
                end
        end.

(** Remove a node through its pointer. *)
Definition remove_open (p : nat) (it : intent) : M sys unit :=
  modb (λ b, let '(o, r) := open_remove p it (b_opens b, b_rates b) in
             set_rates (set_opens b o) r).

Definition outcome_commit (actor : rab_actor) (req : rab_request) (now : Z) (p : nat) (it : intent)
  : M sys response :=
  let uid := a_uid actor in
  let! b := getb in
  let! line := built (rab_build_audit RAB_PHASE_OUTCOME (it_cid it) None actor (b_host b) now
                        (rq_record req)) in
  match line with
  | None => error "internal" "record build"
  | Some line =>
      let nbytes := u64 (strlen line + 1) in
      let! ok := check_bytes uid now nbytes in
      if negb ok then error "rate_limited" "write-byte quota exceeded"
      else
        let! ok := append_line line in
        if negb ok then error "persist_failed" "sink append failed"
        else
          remove_open p it ;;;
          note_write uid now nbytes ;;;
          maybe_rotate ;;;
          let! b := getb in
          if b_poisoned b
          then error "persist_failed" "audit durability uncertain after rotation"
          else mreturn RespOutcomeOk
  end.

(** The effect gate: a claimed effect on a receipt-bearing intent needs the
    receipt redeemed. *)
Definition effect_gate (it : intent) (record : jptr) : bool :=
  match it_rcpt it with
  | None => false
  | Some rc => negb (rcpt_state_eqb (rc_state rc) RAB_RCPT_REDEEMED) &&
               json_is_true (json_object_get record "effect_issued")
  end.

Definition handle_outcome (actor : rab_actor) (req : rab_request) : M sys response :=
  let! now := clock in
  let! ok := check_rate (a_uid actor) now in
  if negb ok then error "rate_limited" "per-uid rate exceeded"
  else
    let! b := getb in
    match open_find_binding (b_opens b) (rq_binding req) with
    | None => error "unknown_intent" "no such open intent"
    | Some p =>
    match o_heap (b_opens b) !! p with
    | None => error "unknown_intent" "no such open intent"
    | Some it =>
        if negb (rab_actor_eq (it_actor it) actor)
        then error "actor_mismatch" "peer identity does not match the opener"
        else if effect_gate it (rq_record req)
        then error "effect_without_receipt" "effect claimed without a redeemed receipt"
        else
          let! free := enough_free_space in
          if negb free then error "persist_failed" "insufficient free space"
          else outcome_commit actor req now p it
    end
    end.

Definition emit_commit (actor : rab_actor) (req : rab_request) (now : Z) (cid : string)
  : M sys response :=
  let uid := a_uid actor in
  let! b := getb in
  let! line := built (rab_build_audit (rq_phase req) cid None actor (b_host b) now
                        (rq_record req)) in
  match line with
  | None => error "internal" "record build"
  | Some line =>
      let nbytes := u64 (strlen line + 1) in
      let! ok := check_bytes uid now nbytes in
      if negb ok then error "rate_limited" "write-byte quota exceeded"
      else
        let! ok := append_line line in
        if negb ok then error "persist_failed" "sink append failed"
        else
          note_write uid now nbytes ;;;
          maybe_rotate ;;;
          let! b := getb in
          if b_poisoned b
          then error "persist_failed" "audit durability uncertain after rotation"
          else mreturn (RespEmitOk cid "system")
  end.

Definition handle_emit (actor : rab_actor) (req : rab_request) : M sys response :=
  let! now := clock in
  let! ok := check_rate (a_uid actor) now in
  if negb ok then error "rate_limited" "per-uid rate exceeded"
  else
    let! free := enough_free_space in
    if negb free then error "persist_failed" "insufficient free space"
    else
      let! cid := mint_cid in
      match cid with
      | None => error "internal" "id minting failed"
      | Some cid => emit_commit actor req now cid
      end.

Definition handle_capabilities : M sys response := mreturn RespCapabilities.

(** The protocol's closed set of redemption answers. *)
Definition redeem_response (rr : rab_redeem_result) (cid : string) : response :=
  match rr with
  | RAB_REDEEM_OK => RespRedeemOk cid
  | RAB_REDEEM_NOT_REDEEMER =>
      RespError "receipt_unauthorized" "the redeeming peer is not uid 0"
  | RAB_REDEEM_PRINCIPAL =>
      RespError "receipt_actor_mismatch" "principal_uid differs from the bound actor"
  | RAB_REDEEM_BINDING =>
      RespError "receipt_mismatch" "verb/resource/plan differ from the bound values"
  | RAB_REDEEM_EXPIRED => RespError "receipt_expired" "past its TTL, or the boot id changed"
  | RAB_REDEEM_ALREADY => RespError "receipt_redeemed" "already redeemed"
  | RAB_REDEEM_RATE => RespError "rate_limited" "redemption write-quota exceeded"
  | RAB_REDEEM_UNKNOWN | RAB_REDEEM_TOKEN =>
      RespError "receipt_invalid" "no such effect receipt"
  | RAB_REDEEM_PERSIST => RespError "persist_failed" "redemption durability failed"
  end.

Definition handle_redeem (actor : rab_actor) (req : rab_request) : M sys response :=
  if negb (a_uid actor =? 0)
  then error "receipt_unauthorized" "the redeeming peer is not the root helper"
  else
    match token_verifier (rq_effect_receipt req) with
    | None => error "internal" "digest failure"
    | Some vhex =>
        let! b := getb in
        match open_find_verifier (b_opens b) vhex with
        | None => error "receipt_invalid" "no such effect receipt"
        | Some p =>
        match o_heap (b_opens b) !! p with
        | None => error "receipt_invalid" "no such effect receipt"
        | Some it =>
            let! rr := rab_broker_redeem_receipt (it_cid it) (rq_effect_receipt req)
                         (a_uid actor) (rq_redeem_principal_uid req) (rq_redeem_verb req)
                         (rq_redeem_resource req) (rq_redeem_plan_schema req)
                         (rq_redeem_plan_hash req) in
            mreturn (redeem_response rr (it_cid it))
        end
        end
    end.

Definition rab_broker_handle (actor : rab_actor) (req : rab_request) : M sys response :=
  let! b := getb in
  if b_poisoned b
  then error "persist_failed" "sink unusable after a write fault; restart required"
  else match rq_type req with
       | RAB_REQ_OPEN_INTENT => handle_open actor req
       | RAB_REQ_WRITE_OUTCOME => handle_outcome actor req
       | RAB_REQ_EMIT => handle_emit actor req
       | RAB_REQ_CAPABILITIES => handle_capabilities
       | RAB_REQ_REDEEM => handle_redeem actor req
       end.
End Handlers.

(** ** Rules for the primitives

    Every question to the environment may be answered in any way; the rules
    quantify over the answer and the new tick. *)

Section Rules.
Context `{Jansson} `{Sha256} {E : env}.
Implicit Types (t : nat) (f : fsys) (b : broker).

Lemma wp_liftW {A} (m : M world A) (Q : A → sys → Prop) w b :
  wp m (λ a w', Q a (Sys w' b)) w → wp (liftW m) Q (Sys w b).
Proof. unfold wp, liftW, zoom. simpl. by destruct (m w). Qed.

Lemma wp_getb (Q : broker → sys → Prop) s : Q (s_b s) s → wp getb Q s.
Proof. done. Qed.

Lemma wp_modb g (Q : unit → sys → Prop) w b :
  Q tt (Sys w (g b)) → wp (modb g) Q (Sys w b).
Proof. done. Qed.

Lemma wp_ask_any {A} (q : nat → A) (Q : A → sys → Prop) t f b :
  (∀ x t', (t < t')%nat → Q x (Sys (World t' f) b)) → wp (liftW (ask q)) Q (Sys (World t f) b).
Proof. intros HQ. apply wp_liftW, wp_ask. apply HQ. simpl. lia. Qed.

Lemma wp_alloc (Q : bool → sys → Prop) t f b :
  (∀ ok t', (t < t')%nat → (healthy → ok = true) → Q ok (Sys (World t' f) b)) → wp alloc Q (Sys (World t f) b).
Proof. intros HQ. apply wp_liftW, wp_ask. apply HQ; [simpl; lia|]. intros Hh. apply Hh. Qed.

Lemma wp_alloc_uid (Q : bool → sys → Prop) t f b :
  (∀ ok t', (t < t')%nat → (roomy → ok = true) → Q ok (Sys (World t' f) b)) →
  wp alloc_uid Q (Sys (World t f) b).
Proof. intros HQ. apply wp_liftW, wp_ask. apply HQ; [simpl; lia|]. intros Hh. apply Hh. Qed.

Lemma wp_clock (Q : Z → sys → Prop) t f b :
  (∀ now t', (t < t')%nat → 0 ≤ now < 2 ^ 64 → Q now (Sys (World t' f) b)) → wp clock Q (Sys (World t f) b).
Proof. intros HQ. apply wp_bind, wp_ask_any. intros. apply wp_ret, HQ; [done|]. apply u64_range. Qed.

Lemma wp_built o (Q : option string → sys → Prop) t f b :
  (∀ r t', (t < t')%nat → r = None ∨ r = o → (healthy → r = o) → Q r (Sys (World t' f) b)) →
  wp (built o) Q (Sys (World t f) b).
Proof.
  intros HQ. apply wp_bind, wp_alloc. intros ok t' Ht Hok. apply wp_ret, HQ; [done|case_goal; auto|].
  intros Hh. by rewrite (Hok Hh).
Qed.

Lemma wp_free (Q : bool → sys → Prop) t f b :
  (∀ ok t', (t ≤ t')%nat → Q ok (Sys (World t' f) b)) → wp enough_free_space Q (Sys (World t f) b).
Proof.
  intros HQ. apply wp_bind, wp_getb. case_goal; [apply wp_ret, HQ; lia|].
  apply wp_bind, wp_ask_any. intros. apply wp_ret, HQ. lia.
Qed.

Lemma wp_bootid (Q : option string → sys → Prop) t f b :
  (∀ o t', (t < t')%nat →
     (∀ s, o = Some s → strlen s < RAB_BOOT_ID_MAX ∧ e_bootid t = Some s) →
     Q o (Sys (World t' f) b)) →
  wp read_bootid Q (Sys (World t f) b).
Proof.
  intros HQ. apply wp_bind, wp_liftW, wp_ask. apply wp_ret, HQ; [simpl; lia|].
  intros s Hs. cbn [w_tick] in Hs. inv_guards Hs. bool_hyps. by simplify_eq.
Qed.

Lemma wp_check_rate uid now (Q : bool → sys → Prop) t f b :
  (∀ a r ok t', (t < t')%nat → rate_allowed (b_cfg b) a uid now (b_rates b) = (ok, r) →
     Q ok (Sys (World t' f) (set_rates b r))) →
  wp (check_rate uid now) Q (Sys (World t f) b).
Proof.
  intros HQ. apply wp_bind, wp_alloc_uid. intros a t' Ht _. apply wp_bind, wp_getb. cbn [s_b].
  destruct (rate_allowed _ _ _ _ _) as [ok r] eqn:Hr. apply wp_bind, wp_modb, wp_ret. eauto.
Qed.

Lemma wp_check_bytes uid now nb (Q : bool → sys → Prop) t f b :
  (∀ a r ok t', (t < t')%nat → bytes_allowed (b_cfg b) a uid now nb (b_rates b) = (ok, r) →
     Q ok (Sys (World t' f) (set_rates b r))) →
  wp (check_bytes uid now nb) Q (Sys (World t f) b).
Proof.
  intros HQ. apply wp_bind, wp_alloc_uid. intros a t' Ht _. apply wp_bind, wp_getb. cbn [s_b].
  destruct (bytes_allowed _ _ _ _ _ _) as [ok r] eqn:Hr. apply wp_bind, wp_modb, wp_ret. eauto.
Qed.

Lemma wp_note_write uid now nb (Q : unit → sys → Prop) t f b :
  (∀ a t', (t < t')%nat → Q tt (Sys (World t' f) (set_rates b (global_bytes_note (b_cfg b) now nb
                                     (rate_note (b_cfg b) a uid now nb (b_rates b)))))) →
  wp (note_write uid now nb) Q (Sys (World t f) b).
Proof. intros HQ. apply wp_bind, wp_alloc_uid. intros. by apply wp_modb, HQ. Qed.

Lemma wp_get_uid uid (Q : option uid_state → sys → Prop) t f b :
  (∀ a u r t', (t < t')%nat → uid_get (b_cfg b) a uid (b_rates b) = (u, r) →
     Q u (Sys (World t' f) (set_rates b r))) →
  wp (get_uid uid) Q (Sys (World t f) b).
Proof.
  intros HQ. apply wp_bind, wp_alloc_uid. intros a t' Ht _. apply wp_bind, wp_getb. cbn [s_b].
  destruct (uid_get _ _ _ _) as [u r] eqn:Hr. apply wp_bind, wp_modb, wp_ret. eauto.
Qed.

Lemma wp_add_open cid binding actor op res sc (Q : bool → sys → Prop) t f b :
  (∀ n a2 ok o r t', (t < t')%nat → (roomy → a2 = true) →
     open_add (b_cfg b) (e_node n) a2 cid binding actor op res sc (b_opens b, b_rates b) = (ok, (o, r)) →
     Q ok (Sys (World t' f) (set_rates (set_opens b o) r))) →
  wp (add_open cid binding actor op res sc) Q (Sys (World t f) b).
Proof.
  intros HQ. apply wp_bind, wp_liftW, wp_ask. cbn [w_tick w_fs].
  apply wp_bind, wp_alloc_uid. intros a2 t2 Ht2 Ha2.
  apply wp_bind, wp_getb. cbn [s_b]. destruct (open_add _ _ _ _ _ _ _ _ _ _) as [ok [o r]] eqn:Ha.
  apply wp_bind, wp_modb, wp_ret. eapply HQ; eauto. lia.
Qed.

Lemma wp_mint_cid (Q : option string → sys → Prop) t f b :
  (∀ n t', (t ≤ n < t')%nat →
     Q (rab_make_correlation_id (e_realtime n) (e_random (S n)) RAB_CID_MAX)
       (Sys (World t' f) b)) →
  wp mint_cid Q (Sys (World t f) b).
Proof.
  intros HQ. apply wp_bind, wp_liftW, wp_ask. cbn [w_tick w_fs].
  apply wp_bind, wp_liftW, wp_ask. cbn [w_tick w_fs]. apply wp_ret, HQ. lia.
Qed.

Lemma wp_mint_binding (Q : option string → sys → Prop) t f b :
  (∀ rnd t', (t < t')%nat → Q (rab_make_binding rnd RAB_BINDING_MAX) (Sys (World t' f) b)) →
  wp mint_binding Q (Sys (World t f) b).
Proof. intros HQ. apply wp_bind, wp_ask_any. intros. by apply wp_ret, HQ. Qed.

Lemma wp_error code msg (Q : response → sys → Prop) s :
  Q (RespError code msg) s → wp (error code msg) Q s.
Proof. done. Qed.

(** What [mint_token] guarantees about a token. *)
Lemma wp_mint_token tries binding (Q : option (string * string) → sys → Prop) t f b :
  (∀ o t', (∀ tok v, o = Some (tok, v) →
              is_hex_lc_n tok 32 = true ∧ token_verifier tok = Some v ∧ tok ≠ binding ∧
              open_find_verifier (b_opens b) v = None) → Q o (Sys (World t' f) b)) →
  wp (mint_token tries binding) Q (Sys (World t f) b).
Proof.
  revert t. induction tries as [|n IH]; intros t HQ; cbn [mint_token].
  { apply wp_ret, HQ. done. }
  apply wp_bind, wp_ask_any. intros rnd t' Ht.
  destruct (rab_make_receipt rnd RAB_RECEIPT_MAX) as [tok|] eqn:Hm; [|apply wp_ret, HQ; done].
  destruct (token_verifier tok) as [v|] eqn:Hv; [|apply wp_ret, HQ; done].
  apply wp_bind, wp_getb. cbn [s_b].
  destruct (open_find_verifier (b_opens b) v) eqn:Hf; [by apply IH|].
  destruct (strcmp_eq tok binding) eqn:Hs; [by apply IH|].
  apply wp_ret, HQ. intros ? ? [= <- <-]. bool_hyps. split_and!; try done.
  by eapply make_receipt_Some.
Qed.
End Rules.
