(* ===== verification/Reconstruct.v ===== *)
(** * Startup reconstruction (broker.c)

    [rab_broker_open]: read the current segment, replay every line into the
    open-intent set and the accounting, repair a torn tail, open the sink.  The
    set of closed correlation ids is the hashed [cidset].  An inconsistent
    segment is refused with the message the code reports. *)

From stdpp Require Import base gmap strings list sorting.
From Stdlib Require Import ZArith Lia Ascii.
From S2P Require Import Prelude CString Jansson Env Id Sink Request Peer Record Receipt Rate.
From S2P Require Import OpenSet Broker.

Local Open Scope string_scope.
Local Open Scope Z_scope.

Definition RAB_MAX_SEGMENT_BYTES : Z := 1024 * 1024 * 1024.

(** ** Closed correlation ids *)

Record cidset := CidSet { cs_bkt : list (list string); cs_nbkt : Z }.

Definition cidset_init (ok : bool) (hint : Z) : option cidset :=
  let nbkt := pow2_ceil (if hint <? 1024 then 1024 else hint) in
  if ok then Some (CidSet (replicate (Z.to_nat nbkt) []) nbkt) else None.

Definition cidset_has (s : cidset) (cid : string) : bool :=
  existsb (λ c, strcmp_eq c cid) (nth (slot (cs_nbkt s) cid) (cs_bkt s) []).

Definition cidset_add (ok : bool) (s : cidset) (cid : string) : option cidset :=
  let h := slot (cs_nbkt s) cid in
  if negb ok then None
  else Some (CidSet (<[h := snprintf_s RAB_CID_MAX cid :: nth h (cs_bkt s) []]> (cs_bkt s))
               (cs_nbkt s)).

(** ** Applying one record *)

Definition receipt_bound_eq (a b : receipt) : bool :=
  (rc_actor_uid a =? rc_actor_uid b) && (rc_plan_schema a =? rc_plan_schema b) &&
  (rc_issue_boottime_us a =? rc_issue_boottime_us b) && (rc_ttl_us a =? rc_ttl_us b) &&
  strcmp_eq (rc_verifier a) (rc_verifier b) && strcmp_eq (rc_verb a) (rc_verb b) &&
  strcmp_eq (rc_resource a) (rc_resource b) && strcmp_eq (rc_plan_hash a) (rc_plan_hash b) &&
  strcmp_eq (rc_boot_id a) (rc_boot_id b).

(** The stored receipt as the node's buffers hold it. *)
Definition copy_receipt (s : receipt) : receipt :=
  Receipt (rc_state s) (snprintf_s RAB_HEX64_MAX (rc_verifier s)) (rc_actor_uid s)
    (snprintf_s RAB_META_MAX (rc_verb s)) (snprintf_s RAB_META_MAX (rc_resource s))
    (rc_plan_schema s) (snprintf_s RAB_HEX64_MAX (rc_plan_hash s)) (rc_issue_boottime_us s)
    (rc_ttl_us s) (snprintf_s RAB_BOOT_ID_MAX (rc_boot_id s)) (rc_accepted_time_us s).

(** [None] is success, as the C function returns NULL. *)
Definition apply_receipt (p : nat) (it : intent) (s : rab_stored) (o : opens)
  : option string * opens :=
  let rc := sr_rcpt s in
  if negb (rc_actor_uid rc =? a_uid (it_actor it))
     || negb (strcmp_eq (rc_verb rc) (it_operation it))
     || negb (strcmp_eq (rc_resource rc) (it_resource it))
  then (Some "receipt bound fields inconsistent with its intent", o)
  else if sr_rcpt_is_checkpoint s && negb (it_from_checkpoint it)
  then (Some "receipt checkpoint beside a non-checkpoint intent", o)
  else match it_rcpt it with
       | None =>
           if negb (sr_rcpt_is_checkpoint s) && rcpt_state_eqb (rc_state rc) RAB_RCPT_REDEEMED
           then (Some "redeemed receipt transition without a prior issued", o)
           else match open_find_verifier o (rc_verifier rc) with
                | Some _ => (Some "receipt verifier collides with another intent", o)
                | None => (None, install_receipt o p it (copy_receipt rc))
                end
       | Some cur =>
           if negb (receipt_bound_eq cur rc) then (Some "conflicting duplicate receipt", o)
           else if rcpt_state_eqb (rc_state rc) (rc_state cur) then
             if negb (rc_accepted_time_us rc =? rc_accepted_time_us cur)
             then (Some "conflicting duplicate receipt", o)
             else (None, o)
           else if rcpt_state_eqb (rc_state cur) RAB_RCPT_ISSUED
                   && rcpt_state_eqb (rc_state rc) RAB_RCPT_REDEEMED
           then (None, set_node o p (set_rcpt it (mark_redeemed cur (rc_accepted_time_us rc))))
           else (Some "inconsistent receipt state transition", o)
       end.

Definition mark_checkpoint (it : intent) : intent :=
  Intent (it_cid it) (it_binding it) (it_actor it) (it_operation it) (it_resource it)
    (it_scope it) true (it_rcpt it).

Definition is_intent_rec (s : rab_stored) : bool :=
  match sr_type s with RAB_REC_AUDIT => strcmp_eq (sr_phase s) RAB_PHASE_INTENT | _ => false end.
Definition is_outcome_rec (s : rab_stored) : bool :=
  match sr_type s with RAB_REC_AUDIT => strcmp_eq (sr_phase s) RAB_PHASE_OUTCOME | _ => false end.
Definition is_checkpoint_rec (s : rab_stored) : bool :=
  match sr_type s with RAB_REC_CHECKPOINT => true | _ => false end.

Section Reconstruct.
Context `{Jansson} `{Sha256} {E : env}.

Definition apply_open (s : rab_stored) (closed : cidset) : M sys (option string * cidset) :=
  if is_empty (sr_binding s)
  then mreturn (Some "intent/checkpoint record without a binding", closed)
  else
    let! b := getb in
    match open_find_cid (b_opens b) (sr_cid s) with
    | Some p =>
        if is_intent_rec s then mreturn (Some "inconsistent duplicate intent", closed)
        else match o_heap (b_opens b) !! p with
             | None => mreturn (Some "inconsistent duplicate checkpoint", closed)
             | Some it =>
                 if negb (strcmp_eq (it_binding it) (sr_binding s))
                    || negb (rab_actor_eq (it_actor it) (sr_actor s))
                 then mreturn (Some "inconsistent duplicate checkpoint", closed)
                 else mreturn (None, closed)
             end
    | None =>
        if cidset_has closed (sr_cid s)
        then mreturn (Some (if is_intent_rec s then "duplicate intent for a closed operation"
                            else "checkpoint of a closed operation"), closed)
        else
          let! ok := add_open (sr_cid s) (sr_binding s) (sr_actor s) (sr_operation s)
                       (sr_resource s) (sr_scope s) in
          if negb ok then mreturn (Some "out of memory during reconstruction", closed)
          else if is_checkpoint_rec s then
            let! b := getb in
            (match open_find_cid (b_opens b) (sr_cid s) with
             | None => mreturn tt
             | Some p =>
                 match o_heap (b_opens b) !! p with
                 | None => mreturn tt
                 | Some it => modb (λ b, set_opens b (set_node (b_opens b) p (mark_checkpoint it)))
                 end
             end) ;;;
            mreturn (None, closed)
          else mreturn (None, closed)
    end.

Definition apply_outcome (s : rab_stored) (closed : cidset) : M sys (option string * cidset) :=
  let! b := getb in
  match open_find_cid (b_opens b) (sr_cid s) with
  | None =>
      mreturn (Some (if cidset_has closed (sr_cid s) then "double outcome"
                     else "outcome without a matching intent"), closed)
  | Some p =>
      match o_heap (b_opens b) !! p with
      | None => mreturn (Some "outcome without a matching intent", closed)
      | Some it =>
          remove_open p it ;;;
          let! ok := alloc in
          match cidset_add ok closed (sr_cid s) with
          | None => mreturn (Some "out of memory during reconstruction", closed)
          | Some closed => mreturn (None, closed)
          end
      end
  end.

Definition apply_stored (s : rab_stored) (closed : cidset) : M sys (option string * cidset) :=
  if is_intent_rec s || is_checkpoint_rec s then apply_open s closed
  else if is_outcome_rec s then apply_outcome s closed
  else match sr_type s with
       | RAB_REC_RECEIPT =>
           let! b := getb in
           match open_find_cid (b_opens b) (sr_cid s) with
           | None =>
               mreturn (Some (if cidset_has closed (sr_cid s) then "receipt for a closed operation"
                              else "orphan receipt without a matching intent"), closed)
           | Some p =>
               match o_heap (b_opens b) !! p with
               | None => mreturn (Some "orphan receipt without a matching intent", closed)
               | Some it =>
                   let '(err, o) := apply_receipt p it s (b_opens b) in
                   modb (λ b, set_opens b o) ;;; mreturn (err, closed)
               end
           end
       | _ => mreturn (None, closed)
       end.

(** ** Replaying the segment *)

Definition note_rate (uid t nbytes : Z) : M sys unit :=
  let! ok := alloc_uid in
  modb (λ b, set_rates b (rate_note (b_cfg b) ok uid t nbytes (b_rates b))).

Fixpoint note_carry (uid : Z) (ops : list (Z * Z)) : M sys unit :=
  match ops with
  | [] => mreturn tt
  | (t, n) :: rest => note_rate uid t n ;;; note_carry uid rest
  end.

(** The charge of a replayed line: client operations and receipt transitions. *)
Definition note_replayed (s : rab_stored) (linelen : Z) : M sys unit :=
  match sr_type s with
  | RAB_REC_AUDIT => note_rate (a_uid (sr_actor s)) (sr_time_us s) (u64 (linelen + 1))
  | RAB_REC_RECEIPT =>
      if sr_rcpt_is_checkpoint s then mreturn tt
      else note_rate (rc_actor_uid (sr_rcpt s)) (rc_accepted_time_us (sr_rcpt s))
             (u64 (linelen + 1))
  | _ => mreturn tt
  end.

(** One complete, non-empty line. *)
Definition replay_line (line : bytes) (closed : cidset) : M sys (option string * cidset) :=
  match rab_parse_stored line with
  | None => mreturn (Some "corrupt audit record during reconstruction", closed)
  | Some s =>
      match sr_type s with
      | RAB_REC_RATE => note_carry (sr_rate_uid s) (sr_rate s) ;;; mreturn (None, closed)
      | _ =>
          let! res := apply_stored s closed in
          match res with
          | (Some e, closed) => mreturn (Some e, closed)
          | (None, closed) => note_replayed s (blen line) ;;; mreturn (None, closed)
          end
      end
  end.

(** [memchr]: the bytes before the first newline and those after it. *)
Fixpoint break_line (b : bytes) : option (bytes * bytes) :=
  match b with
  | [] => None
  | c :: b' =>
      if Ascii.eqb c nl then Some ([], b')
      else match break_line b' with
           | Some (l, rest) => Some (c :: l, rest)
           | None => None
           end
  end.

Inductive replay_result := ReplayErr (e : string) | ReplayDone (torn : option nat).

(** The line loop; [pos] is the offset of [p] in the buffer.  Every round
    consumes at least one byte, so the length of the buffer is enough fuel. *)
Fixpoint replay (fuel : nat) (p : bytes) (pos : nat) (closed : cidset) : M sys replay_result :=
  match fuel with
  | O => mreturn (ReplayDone None)
  | S fuel' =>
      match p with
      | [] => mreturn (ReplayDone None)
      | _ =>
          match break_line p with
          | None => mreturn (ReplayDone (Some pos))
          | Some (line, rest) =>
              let next := (pos + length line + 1)%nat in
              if (length line =? 0)%nat then replay fuel' rest next closed
              else
                let! res := replay_line line closed in
                match res with
                | (Some e, _) => mreturn (ReplayErr e)
                | (None, closed) => replay fuel' rest next closed
                end
          end
      end
  end.

(** The whole current segment; an absent file is an empty one. *)
Definition slurp_segment (path : string) : M world (bytes + string) :=
  let! r := sys_open_nofollow path in
  match r with
  | OpenEnoent => mreturn (inl [])
  | OpenEloop => mreturn (inr "sink is a symlink")
  | OpenFd ino =>
      let! st := sys_fstat ino in
      match st with
      | None => mreturn (inr "cannot stat sink for reconstruction")
      | Some i =>
          if RAB_MAX_SEGMENT_BYTES <? blen (i_data i)
          then mreturn (inr "sink segment exceeds the reconstruction size limit")
          else if blen (i_data i) =? 0 then mreturn (inl [])
          else
            let! ok := ask e_ok in
            if negb ok then mreturn (inr "out of memory reading sink")
            else
              let! ok := ask e_ok in
              if negb ok then mreturn (inr "read error during reconstruction")
              else mreturn (inl (i_data i))
      end
  | _ => mreturn (inr "cannot read sink for reconstruction")
  end.

Definition cut_data (ino : nat) (len : nat) (f : fsys) : fsys :=
  set_ino f (alter (λ i, Inode (i_kind i) (i_mode i) (i_uid i) (take len (i_data i))
                           (i_durable i)) ino (fs_ino f)).

Definition truncate_to (path : string) (len : nat) : M world bool :=
  let! r := sys_open_nofollow path in
  match r with
  | OpenFd ino =>
      let! cut := ask e_ok in
      if negb cut then mreturn false
      else on_fs (cut_data ino len) ;;; sys_fdatasync ino
  | _ => mreturn false
  end.

Definition reconstruct : M sys (option string) :=
  let! b := getb in
  let! buf := liftW (slurp_segment (b_path b)) in
  match buf with
  | inr err => mreturn (Some err)
  | inl buf =>
      let! ok := alloc in
      match cidset_init ok (blen buf / 128) with
      | None => mreturn (Some "out of memory sizing reconstruction state")
      | Some closed =>
          let! res := replay (length buf) buf 0 closed in
          match res with
          | ReplayErr e => mreturn (Some e)
          | ReplayDone None => mreturn None
          | ReplayDone (Some keep) =>
              let! ok := liftW (truncate_to (b_path b) keep) in
              mreturn (if ok then None
                       else Some "cannot truncate a torn-tail record during reconstruction")
          end
      end
  end.

(** ** Opening the broker *)

Definition broker_init (path : string) (cfg : rab_config) (host : option string) : broker :=
  Broker path 0 cfg (match host with Some h => snprintf_s 256 h | None => "" end)
    (opens_init cfg) rates_init 0 false RAB_FAIL_NONE.

(** From the populated tables on: open the sink for appending and size it. *)
Definition open_sink (path : string) : M sys (option string) :=
  let! fd := liftW (rab_sink_open path) in
  match fd with
  | None => mreturn (Some "cannot open sink for append")
  | Some fd =>
      modb (λ b, set_fd b fd) ;;;
      let! st := liftW (sys_fstat fd) in
      modb (λ b, set_seg b (match st with Some i => blen (i_data i) | None => 0 end)) ;;;
      mreturn None
  end.

Definition rab_broker_open (path : string) (cfg : rab_config) (host : option string)
  : M world (broker + string) :=
  let! ok := ask e_ok in
  if negb ok then mreturn (inr "out of memory")
  else
    let! ok := ask e_ok in
    if negb ok then mreturn (inr "out of memory")
    else match config_error cfg with
    | Some e => mreturn (inr e)
    | None =>
        let! ok := ask e_ok in
        if negb ok then mreturn (inr "out of memory allocating broker tables")
        else
          let pending := path +:+ ".pending" in
          (if strlen pending <? PATH_MAX then sys_unlink pending ;;; mreturn tt
           else mreturn tt) ;;;
          λ w,
            let start :=
              let! err := reconstruct in
              match err with
              | Some e => mreturn (Some e)
              | None => open_sink path
              end in
            let '(err, s) := start (Sys w (broker_init path cfg host)) in
            (match err with Some e => inr e | None => inl (s_b s) end, s_w s)
    end.
End Reconstruct.
