(* ===== verification/Spec.v ===== *)
(** * What recovery promises

    The abstract meaning of a segment: a finite map from correlation id to open
    intent and a set of closed ids, changed by one record at a time
    ([spec_apply]).  No hash tables, pointers or allocations.  [represents]
    relates the broker's hashed open set to the map. *)

From stdpp Require Import base gmap strings list fin_maps.
From Stdlib Require Import ZArith Lia Ascii.
From S2P Require Import Prelude CString Jansson Env Id Sink Request Peer Record Receipt Rate.
From S2P Require Import OpenSet Broker Reconstruct.

Local Open Scope string_scope.
Local Open Scope list_scope.
Local Open Scope Z_scope.

Record spec_state := Spec { sp_open : gmap string intent; sp_closed : gset string }.

Definition spec_init : spec_state := Spec ∅ ∅.

Definition verifier_used (A : gmap string intent) (v : string) : bool :=
  bool_decide (map_Exists (λ _ it, key_rcpt it = Some v) A).

(** The intent a stored opening record stands for. *)
Definition stored_intent (s : rab_stored) : intent :=
  Intent (sr_cid s) (sr_binding s) (sr_actor s) (sr_operation s) (sr_resource s) (sr_scope s)
    (is_checkpoint_rec s) None.

Definition spec_open (st : spec_state) (s : rab_stored) : string + spec_state :=
  if is_empty (sr_binding s) then inl "intent/checkpoint record without a binding"
  else match sp_open st !! sr_cid s with
       | Some it =>
           if is_intent_rec s then inl "inconsistent duplicate intent"
           else if bool_decide (it_binding it = sr_binding s ∧ it_actor it = sr_actor s)
           then inr st
           else inl "inconsistent duplicate checkpoint"
       | None =>
           if bool_decide (sr_cid s ∈ sp_closed st)
           then inl (if is_intent_rec s then "duplicate intent for a closed operation"
                     else "checkpoint of a closed operation")
           else inr (Spec (<[sr_cid s := stored_intent s]> (sp_open st)) (sp_closed st))
       end.

Definition spec_outcome (st : spec_state) (s : rab_stored) : string + spec_state :=
  match sp_open st !! sr_cid s with
  | None => inl (if bool_decide (sr_cid s ∈ sp_closed st) then "double outcome"
                 else "outcome without a matching intent")
  | Some _ => inr (Spec (delete (sr_cid s) (sp_open st)) ({[sr_cid s]} ∪ sp_closed st))
  end.

(** A receipt record against its open intent: the receipt it leaves installed. *)
Definition spec_receipt (A : gmap string intent) (it : intent) (s : rab_stored)
  : string + receipt :=
  let rc := sr_rcpt s in
  if negb (bool_decide (rc_actor_uid rc = a_uid (it_actor it) ∧ rc_verb rc = it_operation it ∧
                        rc_resource rc = it_resource it))
  then inl "receipt bound fields inconsistent with its intent"
  else if sr_rcpt_is_checkpoint s && negb (it_from_checkpoint it)
  then inl "receipt checkpoint beside a non-checkpoint intent"
  else match it_rcpt it with
       | None =>
           if negb (sr_rcpt_is_checkpoint s) && bool_decide (rc_state rc = RAB_RCPT_REDEEMED)
           then inl "redeemed receipt transition without a prior issued"
           else if verifier_used A (rc_verifier rc)
           then inl "receipt verifier collides with another intent"
           else inr rc
       | Some cur =>
           if negb (receipt_bound_eq cur rc) then inl "conflicting duplicate receipt"
           else if bool_decide (rc_state rc = rc_state cur) then
             if bool_decide (rc_accepted_time_us rc = rc_accepted_time_us cur) then inr cur
             else inl "conflicting duplicate receipt"
           else if bool_decide (rc_state rc = RAB_RCPT_REDEEMED)
           then inr (mark_redeemed cur (rc_accepted_time_us rc))
           else inl "inconsistent receipt state transition"
       end.

Definition spec_apply (st : spec_state) (s : rab_stored) : string + spec_state :=
  if is_intent_rec s || is_checkpoint_rec s then spec_open st s
  else if is_outcome_rec s then spec_outcome st s
  else match sr_type s with
       | RAB_REC_RECEIPT =>
           match sp_open st !! sr_cid s with
           | None => inl (if bool_decide (sr_cid s ∈ sp_closed st)
                          then "receipt for a closed operation"
                          else "orphan receipt without a matching intent")
           | Some it =>
               match spec_receipt (sp_open st) it s with
               | inl e => inl e
               | inr rc => inr (Spec (<[sr_cid s := set_rcpt it rc]> (sp_open st)) (sp_closed st))
               end
           end
       | _ => inr st
       end.

(** One line: it must parse; a rate carry opens and closes nothing. *)
Definition spec_line `{Jansson} (st : spec_state) (line : bytes) : string + spec_state :=
  match rab_parse_stored line with
  | None => inl "corrupt audit record during reconstruction"
  | Some s => match sr_type s with RAB_REC_RATE => inr st | _ => spec_apply st s end
  end.

(** A whole sequence of lines; empty lines are skipped, as the code does. *)
Fixpoint spec_replay `{Jansson} (st : spec_state) (lines : list bytes) : string + spec_state :=
  match lines with
  | [] => inr st
  | [] :: rest => spec_replay st rest
  | line :: rest =>
      match spec_line st line with
      | inl e => inl e
      | inr st' => spec_replay st' rest
      end
  end.

(** What a stored record of [len] bytes charges: client operations and receipt
    transitions are charged themselves, a rate record carries earlier charges,
    and carried intents and receipts are not charged again. *)
Definition stored_charges (s : rab_stored) (len : Z) : list (Z * (Z * Z)) :=
  match sr_type s with
  | RAB_REC_AUDIT => [(a_uid (sr_actor s), (sr_time_us s, u64 (len + 1)))]
  | RAB_REC_RATE => map (λ e, (sr_rate_uid s, e)) (sr_rate s)
  | RAB_REC_RECEIPT =>
      if sr_rcpt_is_checkpoint s then []
      else [(rc_actor_uid (sr_rcpt s), (rc_accepted_time_us (sr_rcpt s), u64 (len + 1)))]
  | RAB_REC_CHECKPOINT => []
  end.

Definition line_charges `{Jansson} (line : bytes) : list (Z * (Z * Z)) :=
  match line with
  | [] => []
  | _ => match rab_parse_stored line with
         | Some s => stored_charges s (blen line)
         | None => []
         end
  end.

(** The charges of one uid. *)
Definition charges_to (uid : Z) (cs : list (Z * (Z * Z))) : list (Z * Z) :=
  map snd (List.filter (λ c, fst c =? uid) cs).

Definition log_charges `{Jansson} (lines : list bytes) (uid : Z) : list (Z * Z) :=
  charges_to uid (concat (map line_charges lines)).

(** The open intents of a uid. *)
Definition uid_opens (A : gmap string intent) (uid : Z) : Z :=
  Z.of_nat (size (filter (λ kv, a_uid (it_actor kv.2) = uid) A)).

(** The table counts the open intents of every uid, memory permitting. *)
Definition counted {E : env} (r : rates) (A : gmap string intent) : Prop :=
  roomy → ∀ uid, uid_open_count r uid = uid_opens A uid ∧ uid_opens A uid < 2 ^ 32.

(** The rate table answers for the charges [L] and the open set [A]. *)
Definition books {E : env} (cfg : rab_config) (r : rates) (L : Z → list (Z * Z))
    (A : gmap string intent) : Prop :=
  windows cfg r L ∧ counted r A.

(** A segment: complete lines, then possibly the torn start of one. *)
Definition encode (lines : list bytes) : bytes := concat (map (λ l, (l ++ [nl])%list) lines).

Definition is_segment (data : bytes) (lines : list bytes) (torn : bytes) : Prop :=
  data = (encode lines ++ torn)%list ∧ Forall (λ l, nl ∉ l) lines ∧ nl ∉ torn.

(** ** The concrete set against the abstract one *)

Record represents (o : opens) (A : gmap string intent) : Prop := {
  rp_ok : opens_ok o;
  rp_in : ∀ p it, o_heap o !! p = Some it → A !! it_cid it = Some it;
  rp_out : ∀ c it, A !! c = Some it → it_cid it = c ∧ ∃ p, o_heap o !! p = Some it;
  rp_inj : ∀ p q it it', o_heap o !! p = Some it → o_heap o !! q = Some it' →
    it_cid it = it_cid it' → p = q
}.

Record closed_rep (s : cidset) (C : gset string) : Prop := {
  cr_nbkt : ∃ k, (k ≤ 20)%nat ∧ cs_nbkt s = 2 ^ Z.of_nat k;
  cr_len : length (cs_bkt s) = Z.to_nat (cs_nbkt s);
  cr_has : ∀ c, cidset_has s c = bool_decide (c ∈ C)
}.

(** The bounds a parsed record satisfies: every string fits its buffer. *)
Definition stored_ok (s : rab_stored) : Prop :=
  strlen (sr_cid s) < RAB_CID_MAX ∧ strlen (sr_binding s) < RAB_BINDING_MAX ∧
  strlen (sr_operation s) < RAB_META_MAX ∧ strlen (sr_resource s) < RAB_META_MAX ∧
  strlen (sr_scope s) < RAB_SCOPE_MAX ∧
  in_u32 (a_uid (sr_actor s)) ∧ in_u64 (sr_time_us s) ∧ in_u32 (sr_rate_uid s) ∧
  Forall (λ e, in_u64 (fst e) ∧ in_u64 (snd e)) (sr_rate s) ∧
  in_u32 (rc_actor_uid (sr_rcpt s)) ∧ in_u64 (rc_accepted_time_us (sr_rcpt s)) ∧
  (sr_type s = RAB_REC_RECEIPT →
     is_hex64_lc (rc_verifier (sr_rcpt s)) = true ∧ is_hex64_lc (rc_plan_hash (sr_rcpt s)) = true ∧
     strlen (rc_verb (sr_rcpt s)) < RAB_META_MAX ∧ strlen (rc_resource (sr_rcpt s)) < RAB_META_MAX ∧
     strlen (rc_boot_id (sr_rcpt s)) < RAB_BOOT_ID_MAX).

(** ** Facts: parsed records *)

Lemma get_text_inv o k cap s : get_text o k cap = Some s → s ≠ "" ∧ strlen s < cap.
Proof.
  unfold get_text. intros Hg. inv_guards Hg. apply copy_bounded_Some in Hg as [-> ?].
  bool_hyps. done.
Qed.

Lemma load_opt_str_inv o k cap s : 0 < cap → load_opt_str o k cap = Some s → strlen s < cap.
Proof.
  unfold load_opt_str. intros Hc Hl. inv_guards Hl; simplify_eq; try done.
  apply copy_bounded_Some in Hl as [-> ?]. done.
Qed.

Lemma parse_u64_range s n : parse_u64_strict s = Some n → in_u64 n.
Proof.
  unfold parse_u64_strict, strtoull. intros Hp. destruct s; [done|]. case_hyp Hp; [done|].
  destruct (scan_sign _) as [neg s1]. destruct (scan_digits s1 0 false) as [[v any] rest] eqn:Hsc.
  destruct any; simpl in Hp; [|done]. destruct (ULLONG_MAX <? v) eqn:Hv; simpl in Hp; [done|].
  destruct (is_empty rest); simpl in Hp; [|done]. injection Hp as <-. bool_hyps.
  destruct neg; [apply u64_range|]. unfold ULLONG_MAX, in_u64 in *.
  pose proof (scan_digits_nonneg s1 0 false) as Hn. rewrite Hsc in Hn. simpl in Hn. lia.
Qed.

Lemma get_u64_range o k n : get_u64 o k = Some n → in_u64 n.
Proof. unfold get_u64. intros Hg. inv_guards Hg. by eapply parse_u64_range. Qed.

Lemma load_peer_range o a : load_peer_strict o = Some a → in_u32 (a_uid a).
Proof. unfold load_peer_strict. intros Hl. inv_guards Hl. simplify_eq. apply u32_range. Qed.

Lemma parse_rate_ops_range ts bs ops :
  parse_rate_ops ts bs = Some ops → Forall (λ e, in_u64 (fst e) ∧ in_u64 (snd e)) ops.
Proof.
  revert bs ops. induction ts as [|x ts IH]; intros [|y bs] ops Hp; simpl in Hp; try done.
  - injection Hp as <-. constructor.
  - by destruct x.
  - destruct x, y; try done. inv_guards Hp. simplify_eq. constructor; [|by eapply IH].
    split; by eapply parse_u64_range.
Qed.

Lemma common_inv root c :
  parse_stored_common root = Some c →
  strlen (sc_cid c) < RAB_CID_MAX ∧ in_u32 (a_uid (sc_actor c)) ∧ in_u64 (sc_time c) ∧
  (∀ b, sc_binding c = Some b → b ≠ "" ∧ strlen b < RAB_BINDING_MAX).
Proof.
  unfold parse_stored_common. intros Hp. inv_guards Hp; simplify_eq; simpl;
    repeat match goal with
    | Hg : get_text _ _ _ = Some _ |- _ => apply get_text_inv in Hg as [? ?]
    | Hg : get_u64 _ _ = Some _ |- _ => apply get_u64_range in Hg
    | Hg : load_peer_strict _ = Some _ |- _ => apply load_peer_range in Hg
    end; naive_solver.
Qed.

Lemma binding_text_bound c :
  (∀ b, c = Some b → b ≠ "" ∧ strlen b < RAB_BINDING_MAX) →
  strlen (binding_text c) < RAB_BINDING_MAX.
Proof. destruct c; simpl; [naive_solver|done]. Qed.

(** Turn every successful bounded read into its bound. *)
Ltac read_bounds :=
  repeat match goal with
  | Hc : copy_bounded _ _ = Some _ |- _ => apply copy_bounded_Some in Hc as [-> ?]
  | Hg : get_text _ _ _ = Some _ |- _ => apply get_text_inv in Hg as [? ?]
  | Hl : load_opt_str _ _ _ = Some _ |- _ => apply load_opt_str_inv in Hl; [|done]
  | Hc : parse_stored_common _ = Some _ |- _ => apply common_inv in Hc as (? & ? & ? & ?)
  | Hg : get_u64 _ _ = Some _ |- _ => apply get_u64_range in Hg
  | Hr : parse_rate_ops _ _ = Some _ |- _ => apply parse_rate_ops_range in Hr
  end.

Lemma parse_stored_ok `{Jansson} line s : rab_parse_stored line = Some s → stored_ok s.
Proof.
  unfold rab_parse_stored. intros Hp.
  repeat (case_hyp Hp; try discriminate Hp); unfold parse_stored_audit, parse_stored_checkpoint,
    parse_stored_rate, parse_stored_receipt in Hp; inv_guards Hp; simplify_eq; bool_hyps;
    read_bounds; split_and!; simpl; try done; try apply u32_range; try constructor; naive_solver.
Qed.

(** ** Facts: the representation *)

Lemma rep_find_cid o A c :
  represents o A →
  match open_find_cid o c with
  | Some p => ∃ it, o_heap o !! p = Some it ∧ A !! c = Some it ∧ it_cid it = c
  | None => A !! c = None
  end.
Proof.
  intros [Hok Hin Hout Hinj]. pose proof (find_cid_spec o c Hok) as Hf.
  destruct (open_find_cid o c) as [p|].
  - destruct Hf as (it & Hp & <-). exists it. split_and!; [done|eauto|done].
  - destruct (A !! c) as [it|] eqn:HA; [|done]. destruct (Hout _ _ HA) as (Hc & p & Hp).
    by destruct (Hf p it Hp).
Qed.

Lemma rep_verifier_used o A v :
  represents o A → v ≠ "" →
  verifier_used A v = match open_find_verifier o v with Some _ => true | None => false end.
Proof.
  intros [Hok Hin Hout Hinj] Hv. pose proof (find_verifier_spec o v Hok) as Hf. unfold verifier_used.
  destruct (open_find_verifier o v) as [p|].
  - destruct Hf as (_ & it & Hp & Hk). apply bool_decide_eq_true.
    exists (it_cid it), it. eauto.
  - apply bool_decide_eq_false. intros (c & it & HA & Hk).
    destruct (Hout _ _ HA) as (_ & p & Hp). destruct Hf as [|Hf]; [done|]. by apply (Hf p it).
Qed.

Lemma rep_init cfg : represents (opens_init cfg) ∅.
Proof.
  split.
  - apply opens_init_ok.
  - intros p it. unfold opens_init. cbn [o_heap]. by rewrite lookup_empty.
  - intros c it. by rewrite lookup_empty.
  - intros p q it it'. unfold opens_init. cbn [o_heap]. by rewrite lookup_empty.
Qed.

(** Any change of the heap that is an insertion at a fresh cid. *)
Lemma rep_insert o o' A p it :
  represents o A → opens_ok o' → o_heap o !! p = None → A !! it_cid it = None →
  o_heap o' = <[p := it]> (o_heap o) → represents o' (<[it_cid it := it]> A).
Proof.
  intros [Hok Hin Hout Hinj] Hok' Hp HA Hh.
  assert (Hne : ∀ q it', o_heap o !! q = Some it' → it_cid it' ≠ it_cid it).
  { intros q it' Hq He. apply Hin in Hq. rewrite He in Hq. congruence. }
  split; rewrite ?Hh.
  - done.
  - intros q it' Hq. destruct (decide (q = p)) as [->|Hqp].
    + rewrite lookup_insert_eq in Hq. injection Hq as <-. by rewrite lookup_insert_eq.
    + rewrite lookup_insert_ne in Hq by done. rewrite lookup_insert_ne; [eauto|].
      intros He. by apply (Hne q it').
  - intros c it' Hc. destruct (decide (it_cid it = c)) as [<-|Hne'].
    + rewrite lookup_insert_eq in Hc. injection Hc as <-. split; [done|]. exists p.
      by rewrite lookup_insert_eq.
    + rewrite lookup_insert_ne in Hc by done. destruct (Hout _ _ Hc) as (? & q & Hq).
      split; [done|]. exists q. rewrite lookup_insert_ne; [done|]. congruence.
  - intros q q' i i' Hq Hq' He.
    destruct (decide (q = p)) as [->|Hqp], (decide (q' = p)) as [->|Hqp']; try done.
    + rewrite lookup_insert_eq in Hq. rewrite lookup_insert_ne in Hq' by done. injection Hq as <-.
      by destruct (Hne q' i').
    + rewrite lookup_insert_eq in Hq'. rewrite lookup_insert_ne in Hq by done. injection Hq' as <-.
      by destruct (Hne q i).
    + rewrite lookup_insert_ne in Hq, Hq' by done. eauto.
Qed.

(** Replacing the node of a cid. *)
Lemma rep_replace o o' A p it it' :
  represents o A → opens_ok o' → o_heap o !! p = Some it → it_cid it' = it_cid it →
  o_heap o' = <[p := it']> (o_heap o) → represents o' (<[it_cid it := it']> A).
Proof.
  intros [Hok Hin Hout Hinj] Hok' Hp Hc Hh. split; rewrite ?Hh.
  - done.
  - intros q i Hq. destruct (decide (q = p)) as [->|Hqp].
    + rewrite lookup_insert_eq in Hq. injection Hq as <-. by rewrite Hc, lookup_insert_eq.
    + rewrite lookup_insert_ne in Hq by done. rewrite lookup_insert_ne; [eauto|].
      intros He. by apply Hqp, (Hinj q p i it).
  - intros c i Hi. destruct (decide (it_cid it = c)) as [<-|Hne].
    + rewrite lookup_insert_eq in Hi. injection Hi as <-. split; [done|]. exists p.
      by rewrite lookup_insert_eq.
    + rewrite lookup_insert_ne in Hi by done. destruct (Hout _ _ Hi) as (Hci & q & Hq).
      split; [done|]. exists q. rewrite lookup_insert_ne; [done|]. congruence.
  - intros q q' i i' Hq Hq' He.
    assert (Hx : ∀ r j, <[p := it']> (o_heap o) !! r = Some j →
              ∃ j0, o_heap o !! r = Some j0 ∧ it_cid j0 = it_cid j).
    { intros r j Hr. destruct (decide (r = p)) as [->|Hrp].
      - rewrite lookup_insert_eq in Hr. injection Hr as <-. eauto.
      - rewrite lookup_insert_ne in Hr by done. eauto. }
    destruct (Hx _ _ Hq) as (j & Hj & Hcj), (Hx _ _ Hq') as (j' & Hj' & Hcj').
    apply (Hinj q q' j j'); congruence.
Qed.

Lemma rep_delete o o' A p it :
  represents o A → opens_ok o' → o_heap o !! p = Some it →
  o_heap o' = delete p (o_heap o) → represents o' (delete (it_cid it) A).
Proof.
  intros [Hok Hin Hout Hinj] Hok' Hp Hh. split; rewrite ?Hh.
  - done.
  - intros q i Hq. apply lookup_delete_Some in Hq as [Hqp Hq].
    rewrite lookup_delete_ne; [eauto|]. intros He. by apply Hqp, (Hinj p q it i).
  - intros c i Hi. apply lookup_delete_Some in Hi as [Hne Hi].
    destruct (Hout _ _ Hi) as (? & q & Hq). split; [done|]. exists q.
    rewrite lookup_delete_ne; [done|]. congruence.
  - intros q q' i i' Hq Hq'. apply lookup_delete_Some in Hq as [_ Hq].
    apply lookup_delete_Some in Hq' as [_ Hq']. eauto.
Qed.

(** ** Facts: charges and counts *)

Lemma charges_to_app uid c1 c2 : charges_to uid (c1 ++ c2) = (charges_to uid c1 ++ charges_to uid c2)%list.
Proof. unfold charges_to. by rewrite List.filter_app, map_app. Qed.

Lemma log_charges_app `{Jansson} l1 l2 uid :
  log_charges (l1 ++ l2) uid = (log_charges l1 uid ++ log_charges l2 uid)%list.
Proof. unfold log_charges. by rewrite map_app, concat_app, charges_to_app. Qed.

(** A line with one charge. *)
Lemma log_charges_one `{Jansson} lines line uid e v :
  line_charges line = [(uid, e)] →
  log_charges (lines ++ [line])%list v = charge (log_charges lines) uid e v.
Proof.
  intros Hl. rewrite log_charges_app. unfold log_charges at 2. cbn. rewrite Hl.
  unfold charge, charges_to. cbn. rewrite (Z.eqb_sym uid v).
  destruct (v =? uid); cbn; [done|by rewrite app_nil_r].
Qed.

Lemma log_charges_none `{Jansson} lines line v :
  line_charges line = [] → log_charges (lines ++ [line])%list v = log_charges lines v.
Proof. intros Hl. rewrite log_charges_app. unfold log_charges at 2. cbn. by rewrite Hl, app_nil_r. Qed.

Lemma line_charges_parsed `{Jansson} line s :
  line ≠ [] → rab_parse_stored line = Some s → line_charges line = stored_charges s (blen line).
Proof. intros Hne Hp. unfold line_charges. rewrite Hp. by destruct line. Qed.

Lemma uid_opens_empty uid : uid_opens ∅ uid = 0.
Proof. unfold uid_opens. by rewrite map_filter_empty, map_size_empty. Qed.

Lemma uid_opens_insert A c it uid :
  A !! c = None →
  uid_opens (<[c := it]> A) uid = uid_opens A uid + if a_uid (it_actor it) =? uid then 1 else 0.
Proof.
  intros HA. unfold uid_opens. destruct (Z.eqb_spec (a_uid (it_actor it)) uid) as [He|Hne].
  - rewrite map_filter_insert_True by done. rewrite map_size_insert_None; [lia|].
    apply map_lookup_filter_None. by left.
  - rewrite map_filter_insert_not' by (naive_solver || (intros ? ?; congruence)). lia.
Qed.

Lemma uid_opens_delete A c it uid :
  A !! c = Some it →
  uid_opens A uid = uid_opens (delete c A) uid + if a_uid (it_actor it) =? uid then 1 else 0.
Proof.
  intros HA. rewrite <- (insert_delete_id A c it HA) at 1. apply uid_opens_insert.
  apply lookup_delete_eq.
Qed.

Lemma uid_opens_replace A c it it' uid :
  A !! c = Some it → it_actor it' = it_actor it → uid_opens (<[c := it']> A) uid = uid_opens A uid.
Proof.
  intros HA He. rewrite (uid_opens_delete A c it uid HA), <- He.
  rewrite <- (insert_delete_eq A c it'). apply uid_opens_insert, lookup_delete_eq.
Qed.

Lemma uid_opens_range A uid : 0 ≤ uid_opens A uid ≤ Z.of_nat (size A).
Proof.
  unfold uid_opens. split; [lia|]. apply inj_le. apply map_subseteq_size, map_filter_subseteq.
Qed.

Section Counts.
Context {E : env} (cfg : rab_config) (Hcfg : cfg_ok cfg).

Lemma counted_same r r' A :
  (∀ uid, uid_open_count r' uid = uid_open_count r uid) → counted r A → counted r' A.
Proof. intros He Hc Hr uid. by rewrite He; apply Hc. Qed.

Lemma counted_map r A A' : (∀ uid, uid_opens A' uid = uid_opens A uid) → counted r A → counted r A'.
Proof. intros He Hc Hr uid. by rewrite He; apply Hc. Qed.

Lemma counted_inc alloc c it r A :
  rates_ok cfg r → in_u32 (a_uid (it_actor it)) → counted r A → A !! c = None →
  (roomy → alloc = true) → (roomy → uid_opens A (a_uid (it_actor it)) < 2 ^ 32 - 1) →
  counted (uid_open_inc cfg alloc (a_uid (it_actor it)) r) (<[c := it]> A).
Proof.
  intros Hr Hu Hc HA Hal Hlt Hroom v. destruct (Hc Hroom v) as [Hcv Hbv].
  destruct (uid_open_inc_spec cfg Hcfg alloc (a_uid (it_actor it)) r Hr Hu) as (_ & _ & _ & _ & Ho & Hi).
  rewrite uid_opens_insert by done. destruct (Z.eqb_spec (a_uid (it_actor it)) v) as [<-|Hne].
  - specialize (Hlt Hroom). pose proof (uid_opens_range A (a_uid (it_actor it))).
    rewrite Hi, Hcv, u32_small by (eauto || lia). lia.
  - rewrite Ho by congruence. lia.
Qed.

Lemma counted_dec c it r A :
  rates_ok cfg r → counted r A → A !! c = Some it →
  counted (uid_open_dec (a_uid (it_actor it)) r) (delete c A).
Proof.
  intros Hr Hc HA Hroom v. destruct (Hc Hroom v) as [Hcv Hbv].
  destruct (uid_open_dec_spec cfg (a_uid (it_actor it)) r Hr) as (_ & _ & _ & _ & Ho & Hi).
  pose proof (uid_opens_delete A c it v HA) as Hd. pose proof (uid_opens_range (delete c A) v).
  destruct (Z.eqb_spec (a_uid (it_actor it)) v) as [<-|Hne].
  - rewrite Hi, Hcv. rewrite (proj2 (Z.ltb_lt _ _)), u32_small by lia. lia.
  - rewrite Ho by congruence. lia.
Qed.

Lemma books_shrunk r r' L A : books cfg r L A → shrunk cfg r r' → books cfg r' L A.
Proof.
  intros [Hw Hc] Hs. split; [by eapply windows_shrunk|]. eapply counted_same; [apply Hs|done].
Qed.

Lemma books_replace c it it' r L A :
  books cfg r L A → A !! c = Some it → it_actor it' = it_actor it → books cfg r L (<[c := it']> A).
Proof.
  intros [Hw Hc] HA He. split; [done|]. eapply counted_map; [|done].
  intros v. by eapply uid_opens_replace.
Qed.

Lemma books_noted alloc uid t nb r L A :
  rates_ok cfg r → in_u32 uid → in_u64 t → in_u64 nb → books cfg r L A →
  books cfg (global_bytes_note cfg t nb (rate_note cfg alloc uid t nb r)) (charge L uid (t, nb)) A.
Proof.
  intros Hr Hu Ht Hn [Hw Hc]. split; [by apply windows_noted|].
  eapply counted_same; [|done]. intros v. by apply noted_open.
Qed.
End Counts.

(** ** Facts: closed ids *)

Lemma cidset_init_rep hint s : cidset_init true hint = Some s → closed_rep s ∅.
Proof.
  unfold cidset_init. set (n := pow2_ceil _). intros [= <-].
  split; cbn [cs_nbkt cs_bkt].
  - apply pow2_ceil_pow.
  - by rewrite length_replicate.
  - intros c. unfold cidset_has. cbn [cs_nbkt cs_bkt]. rewrite nth_lookup.
    destruct (replicate _ _ !! slot n c) as [l|] eqn:Hl; [|done].
    by apply lookup_replicate in Hl as [-> _].
Qed.

Lemma cidset_add_rep s C c s' :
  closed_rep s C → strlen c < RAB_CID_MAX → cidset_add true s c = Some s' →
  closed_rep s' ({[c]} ∪ C).
Proof.
  intros [(k & Hk20 & Hk) Hl Hh] Hc. unfold cidset_add. cbn [negb]. intros [= <-].
  rewrite snprintf_s_fits by done. pose proof (slot_lt (cs_nbkt s) k c Hk).
  split; cbn [cs_nbkt cs_bkt].
  - eauto.
  - by rewrite length_insert.
  - intros c'. specialize (Hh c'). unfold cidset_has in *. cbn [cs_nbkt cs_bkt].
    destruct (decide (slot (cs_nbkt s) c' = slot (cs_nbkt s) c)) as [He|Hne].
    + rewrite He in *. rewrite nth_lookup, list_lookup_insert_eq by lia. simpl. rewrite Hh.
      unfold strcmp_eq. destruct (String.eqb_spec c c') as [->|Hcc]; simpl.
      * symmetry. apply bool_decide_eq_true. set_solver.
      * apply bool_decide_ext. set_solver.
    + rewrite nth_lookup, list_lookup_insert_ne by done. rewrite <- nth_lookup, Hh.
      apply bool_decide_ext. assert (c' ≠ c) by congruence. set_solver.
Qed.
