(* ===== verification/Recovery.v ===== *)
(** * Reconstruction implements its specification

    The replay of a segment into hash tables, rings and the closed set refines
    [spec_replay]: it reports the same error, or ends in tables that represent
    the specified map.  Running out of memory is the one further outcome. *)

From stdpp Require Import base gmap strings list fin_maps.
From Stdlib Require Import ZArith Lia Ascii.
From S2P Require Import Prelude CString Jansson Env Id Sink Request Peer Record Receipt Rate.
From S2P Require Import OpenSet Broker Reconstruct Spec.

Local Open Scope string_scope.
Local Open Scope list_scope.
Local Open Scope Z_scope.

Definition OOM : string := "out of memory during reconstruction".

(** ** The tables of a broker under reconstruction *)

(** [L]: what the lines so far charged. *)
Record recovering {E : env} (b : broker) (st : spec_state) (closed : cidset)
    (L : Z → list (Z * Z)) : Prop := {
  rv_open : represents (b_opens b) (sp_open st);
  rv_closed : closed_rep closed (sp_closed st);
  rv_rates : rates_ok (b_cfg b) (b_rates b);
  rv_cfg : cfg_ok (b_cfg b);
  rv_windows : windows (b_cfg b) (b_rates b) L;
  rv_full : roomy → full_windows (b_cfg b) (b_rates b) L;
  rv_counted : counted (b_rates b) (sp_open st)
}.

(** Only the tables of [b] changed in [b']. *)
Definition tables_only (b b' : broker) : Prop := b' = set_rates (set_opens b (b_opens b')) (b_rates b').

Lemma tables_only_refl b : tables_only b b.
Proof. by destruct b. Qed.

Lemma tables_only_trans b1 b2 b3 : tables_only b1 b2 → tables_only b2 b3 → tables_only b1 b3.
Proof. unfold tables_only. destruct b1, b2, b3. simpl. by intros [= -> -> -> -> -> -> ->] [= -> -> -> -> -> -> ->]. Qed.

Lemma tables_only_set b o r : tables_only b (set_rates (set_opens b o) r).
Proof. by destruct b. Qed.

Lemma tables_only_opens b o : tables_only b (set_opens b o).
Proof. by destruct b. Qed.

Lemma tables_only_rates b r : tables_only b (set_rates b r).
Proof. by destruct b. Qed.

(** How one step of the replay relates to the specification. *)
Definition step_post {E : env} (b : broker) (f : fsys) (spec : string + spec_state)
    (L : Z → list (Z * Z)) (res : option string * cidset) (s' : sys) : Prop :=
  w_fs (s_w s') = f ∧ tables_only b (s_b s') ∧
  ((fst res = Some OOM ∧ ¬ healthy) ∨
   match spec with
   | inl e => fst res = Some e
   | inr st' => fst res = None ∧ recovering (s_b s') st' (snd res) L
   end).

Section Steps.
Context `{Jansson} `{Sha256} {E : env}.

(** Nothing happens: the error, or success with the state unchanged. *)
Lemma step_same b f t spec L res :
  (match spec with
   | inl e => fst res = Some e
   | inr st' => fst res = None ∧ recovering b st' (snd res) L
   end) → step_post b f spec L res (Sys (World t f) b).
Proof. intros Hs. split_and!; [done|apply tables_only_refl|by right]. Qed.

Lemma recover_opens b st closed L o r A :
  recovering b st closed L → represents o A → rates_ok (b_cfg b) r →
  (∀ v, uid_queue r v = uid_queue (b_rates b) v) → counted r A →
  recovering (set_rates (set_opens b o) r) (Spec A (sp_closed st)) closed L.
Proof.
  intros [_ Hc _ Hcfg Hw Hf _] Ho Hr Hq Hn. split; try done; cbn.
  - by eapply windows_queue.
  - intros Hx. by eapply full_queue; [|apply Hf].
Qed.

(** The same tables, with another node in the place of one of the same actor. *)
Lemma recover_replace b st closed L o A c it it' :
  recovering b st closed L → represents o (<[c := it']> A) → A !! c = Some it →
  it_actor it' = it_actor it → sp_open st = A →
  recovering (set_opens b o) (Spec (<[c := it']> A) (sp_closed st)) closed L.
Proof.
  intros [_ Hc Hr Hcfg Hw Hf Hn] Ho HA He <-. split; try done; cbn.
  eapply counted_map; [|exact Hn]. intros v. by eapply uid_opens_replace.
Qed.

Lemma set_node_heap o p it : o_heap (set_node o p it) = <[p := it]> (o_heap o).
Proof. done. Qed.

Lemma stored_new_intent s :
  stored_ok s →
  new_intent (sr_cid s) (sr_binding s) (sr_actor s) (sr_operation s) (sr_resource s) (sr_scope s)
  = Intent (sr_cid s) (sr_binding s) (sr_actor s) (sr_operation s) (sr_resource s) (sr_scope s)
      false None.
Proof.
  intros (? & ? & ? & ? & ? & _). unfold new_intent. by rewrite !snprintf_s_fits.
Qed.

(** A duplicate checkpoint is accepted when binding and actor agree. *)
Lemma same_opener (it : intent) (s : rab_stored) :
  negb (strcmp_eq (it_binding it) (sr_binding s)) || negb (rab_actor_eq (it_actor it) (sr_actor s)) =
  negb (bool_decide (it_binding it = sr_binding s ∧ it_actor it = sr_actor s)).
Proof.
  rewrite <- negb_andb. f_equal. apply eq_true_iff_eq.
  rewrite bool_decide_eq_true, andb_true_iff, rab_actor_eq_spec. unfold strcmp_eq.
  by rewrite String.eqb_eq.
Qed.

(** The node just added, marked as carried. *)
Lemma recover_mark b A cl closed L s it p :
  recovering b (Spec (<[sr_cid s := it]> A) cl) closed L → it_cid it = sr_cid s →
  o_heap (b_opens b) !! p = Some it →
  recovering (set_opens b (set_node (b_opens b) p (mark_checkpoint it)))
    (Spec (<[sr_cid s := mark_checkpoint it]> A) cl) closed L.
Proof.
  intros Hrv Hc Hp. rewrite <- (insert_insert_eq A (sr_cid s) (mark_checkpoint it) it).
  apply (recover_replace _ (Spec (<[sr_cid s := it]> A) cl) _ _ _ _ _ it); try done; [|apply lookup_insert_eq].
  rewrite <- Hc at 1. pose proof (rv_open _ _ _ _ Hrv) as Hrep.
  eapply rep_replace; [exact Hrep|by eapply set_node_ok; [apply Hrep|..]|done..].
Qed.

Lemma apply_open_refines s closed b st L t f :
  recovering b st closed L → stored_ok s → is_intent_rec s || is_checkpoint_rec s = true →
  Z.of_nat (size (sp_open st)) < 2 ^ 32 - 1 →
  wp (apply_open s closed) (step_post b f (spec_open st s) L) (Sys (World t f) b).
Proof.
  intros Hrv Hs Hkind Hsize. pose proof Hrv as [Hrep Hcl Hrt Hcfg Hw Hfu Hcn]. unfold apply_open, spec_open.
  destruct (is_empty (sr_binding s)); [by apply wp_ret, step_same|].
  apply wp_bind, wp_getb. cbn [s_b].
  pose proof (rep_find_cid _ _ (sr_cid s) Hrep) as Hf.
  destruct (open_find_cid (b_opens b) (sr_cid s)) as [p|].
  - destruct Hf as (it & Hp & HA & Hcid). rewrite HA, Hp.
    destruct (is_intent_rec s); [by apply wp_ret, step_same|].
    rewrite same_opener. case_bool_decide; by apply wp_ret, step_same.
  - rewrite Hf, (cr_has _ _ Hcl). destruct (bool_decide _); [by apply wp_ret, step_same|].
    apply wp_bind, wp_add_open. intros n a2 ok o r t' _ Ha2 Hadd.
    pose proof Hs as (Hs1 & Hs2 & _ & _ & _ & Huid & _).
    apply open_add_spec in Hadd; [|apply Hrep|done|done].
    destruct ok; cbn [negb].
    2: { apply wp_ret. split_and!; [done|apply tables_only_set|left].
         destruct Hadd as (Hn & _). split; [done|]. intros Hh. destruct (Hh n). congruence. }
    destruct Hadd as (Hok' & Hfresh & Hheap & Hnb & Hr).
    rewrite stored_new_intent in Hheap by done.
    set (it := Intent (sr_cid s) _ _ _ _ _ _ _) in *.
    assert (Hrep' : represents o (<[sr_cid s := it]> (sp_open st))).
    { by eapply (rep_insert _ _ _ _ it). }
    destruct (uid_open_inc_spec (b_cfg b) Hcfg a2 (a_uid (sr_actor s)) (b_rates b) Hrt Huid)
      as (Hr' & Hq' & _). rewrite <- Hr in Hr', Hq'.
    assert (Hcn' : counted r (<[sr_cid s := it]> (sp_open st))).
    { rewrite Hr. apply (counted_inc (b_cfg b) Hcfg a2 (sr_cid s) it); try done. intros _.
      pose proof (uid_opens_range (sp_open st) (a_uid (it_actor it))). lia. }
    pose proof (recover_opens _ _ _ _ _ _ _ Hrv Hrep' Hr' Hq' Hcn') as Hrv'.
    unfold is_intent_rec, is_checkpoint_rec in *.
    destruct (is_checkpoint_rec s) eqn:Hck; unfold is_checkpoint_rec in Hck; rewrite Hck.
    + apply wp_bind, wp_getb. cbn [s_b set_rates set_opens b_opens].
      pose proof (rep_find_cid _ _ (sr_cid s) Hrep') as Hf'.
      destruct (open_find_cid o (sr_cid s)) as [p|]; [|by rewrite lookup_insert_eq in Hf'].
      destruct Hf' as (it' & Hp & HA & Hc'). rewrite lookup_insert_eq in HA. injection HA as <-.
      rewrite Hp. apply wp_bind, wp_modb, wp_ret. split_and!; [done| |right].
      { eapply tables_only_trans; [apply tables_only_set|apply tables_only_opens]. }
      split; [done|]. unfold stored_intent, is_checkpoint_rec. rewrite Hck.
      by apply (recover_mark (set_rates (set_opens b o) r) _ _ _ _ s it p Hrv').
    + apply wp_ret. split_and!; [done|apply tables_only_set|right]. split; [done|].
      assert (Heq : stored_intent s = it) by (unfold stored_intent, is_checkpoint_rec; by rewrite Hck).
      by rewrite Heq.
Qed.

Lemma apply_outcome_refines s closed b st L t f :
  recovering b st closed L → stored_ok s →
  wp (apply_outcome s closed) (step_post b f (spec_outcome st s) L) (Sys (World t f) b).
Proof.
  intros Hrv Hs. pose proof Hrv as [Hrep Hcl Hrt Hcfg Hw Hfu Hcn]. unfold apply_outcome, spec_outcome.
  apply wp_bind, wp_getb. cbn [s_b].
  pose proof (rep_find_cid _ _ (sr_cid s) Hrep) as Hf.
  destruct (open_find_cid (b_opens b) (sr_cid s)) as [p|].
  2: { rewrite Hf, (cr_has _ _ Hcl). by apply wp_ret, step_same. }
  destruct Hf as (it & Hp & HA & Hcid). rewrite HA, Hp.
  unfold remove_open. apply wp_bind, wp_modb.
  destruct (open_remove p it (b_opens b, b_rates b)) as [o r] eqn:Hrm.
  apply open_remove_spec in Hrm as (Hok' & Hheap & _ & Hr); [|apply Hrep|done].
  apply wp_bind, wp_alloc. intros ok t' _ Hhl.
  destruct ok; [|apply wp_ret; split_and!; [done|apply tables_only_set|left; split; [done|]];
    intros Hh; by specialize (Hhl Hh)].
  destruct (cidset_add true closed (sr_cid s)) as [closed'|] eqn:Hadd; [|done].
  destruct (uid_open_dec_spec (b_cfg b) (a_uid (it_actor it)) (b_rates b) Hrt) as (Hr' & Hq' & _).
  apply wp_ret. split_and!; [done|apply tables_only_set|right]. split; [done|].
  split; cbn [b_opens b_rates set_rates set_opens b_cfg sp_open sp_closed]; rewrite ?Hr.
  - rewrite <- Hcid. by eapply rep_delete.
  - destruct Hs as (? & _). by eapply cidset_add_rep.
  - done.
  - done.
  - by eapply windows_queue.
  - intros Hx. by eapply full_queue; [|apply Hfu].
  - by eapply counted_dec.
Qed.

Lemma state_eqb_spec a b : rcpt_state_eqb a b = bool_decide (a = b).
Proof. by destruct a, b. Qed.

Lemma copy_receipt_fits s : stored_ok s → sr_type s = RAB_REC_RECEIPT → copy_receipt (sr_rcpt s) = sr_rcpt s.
Proof.
  intros (_ & _ & _ & _ & _ & _ & _ & _ & _ & _ & _ & Hr) Ht. destruct (Hr Ht) as (Hv & Hph & ? & ? & ?).
  unfold copy_receipt, RAB_HEX64_MAX.
  rewrite !snprintf_hex64, !snprintf_s_fits by done. by destruct (sr_rcpt s).
Qed.

Lemma hex64_nonempty s : is_hex64_lc s = true → s ≠ "".
Proof. intros Hs ->. done. Qed.

(** The receipt rules on the heap are the receipt rules of the specification. *)
Lemma apply_receipt_refines p it s o A :
  represents o A → o_heap o !! p = Some it → stored_ok s → sr_type s = RAB_REC_RECEIPT →
  match spec_receipt A it s with
  | inl e => apply_receipt p it s o = (Some e, o)
  | inr rc => ∃ o', apply_receipt p it s o = (None, o') ∧
                represents o' (<[it_cid it := set_rcpt it rc]> A)
  end.
Proof.
  intros Hrep Hp Hs Ht. unfold spec_receipt, apply_receipt.
  assert (Hbound : negb (rc_actor_uid (sr_rcpt s) =? a_uid (it_actor it))
     || negb (strcmp_eq (rc_verb (sr_rcpt s)) (it_operation it))
     || negb (strcmp_eq (rc_resource (sr_rcpt s)) (it_resource it)) =
     negb (bool_decide (rc_actor_uid (sr_rcpt s) = a_uid (it_actor it) ∧
                        rc_verb (sr_rcpt s) = it_operation it ∧
                        rc_resource (sr_rcpt s) = it_resource it))).
  { rewrite <- !negb_andb. f_equal. apply eq_true_iff_eq.
    rewrite !andb_true_iff, bool_decide_eq_true. unfold strcmp_eq.
    rewrite Z.eqb_eq, !String.eqb_eq. tauto. }
  rewrite Hbound. destruct (bool_decide _); cbn [negb]; [|done].
  destruct (sr_rcpt_is_checkpoint s && negb (it_from_checkpoint it)); [done|].
  assert (Hself : ∀ rc, it_rcpt it = Some rc → represents o (<[it_cid it := set_rcpt it rc]> A)).
  { intros rc Hrc. replace (set_rcpt it rc) with it by (unfold set_rcpt; rewrite <- Hrc; by destruct it).
    rewrite insert_id; [done|]. by apply (rp_in _ _ Hrep p). }
  destruct (it_rcpt it) as [cur|] eqn:Hcur; rewrite ?state_eqb_spec.
  - destruct (receipt_bound_eq cur (sr_rcpt s)); cbn [negb]; [|done].
    destruct (bool_decide (rc_state (sr_rcpt s) = rc_state cur)) eqn:Hst.
    + destruct (Z.eqb_spec (rc_accepted_time_us (sr_rcpt s)) (rc_accepted_time_us cur)); simpl.
      * rewrite bool_decide_eq_true_2 by done. eauto.
      * by rewrite bool_decide_eq_false_2.
    + apply bool_decide_eq_false in Hst.
      destruct (rc_state (sr_rcpt s)) eqn:E1, (rc_state cur) eqn:E2; simpl; try done.
      eexists. split; [done|]. eapply rep_replace; [done| |done..].
      eapply set_node_ok; [apply Hrep|done..|]. unfold key_rcpt. simpl. by rewrite Hcur.
  - destruct (negb (sr_rcpt_is_checkpoint s) && bool_decide _); [done|].
    pose proof Hs as (_ & _ & _ & _ & _ & _ & _ & _ & _ & _ & _ & Hr). destruct (Hr Ht) as (Hv & _).
    rewrite (rep_verifier_used o A) by (done || by apply hex64_nonempty).
    destruct (open_find_verifier o _); [done|].
    rewrite copy_receipt_fits by done.
    eexists. split; [done|]. eapply rep_replace; [done| |done..].
    by apply install_receipt_ok; [apply Hrep|..].
Qed.

Lemma apply_stored_refines s closed b st L t f :
  recovering b st closed L → stored_ok s → Z.of_nat (size (sp_open st)) < 2 ^ 32 - 1 →
  wp (apply_stored s closed) (step_post b f (spec_apply st s) L) (Sys (World t f) b).
Proof.
  intros Hrv Hs Hsize. unfold apply_stored, spec_apply.
  destruct (is_intent_rec s || is_checkpoint_rec s) eqn:Hk; [by apply apply_open_refines|].
  destruct (is_outcome_rec s); [by apply apply_outcome_refines|].
  destruct (sr_type s) eqn:Ht; try by apply wp_ret, step_same.
  pose proof Hrv as [Hrep Hcl Hrt Hcfg _ _ _]. apply wp_bind, wp_getb. cbn [s_b].
  pose proof (rep_find_cid _ _ (sr_cid s) Hrep) as Hf.
  destruct (open_find_cid (b_opens b) (sr_cid s)) as [p|].
  2: { rewrite Hf, (cr_has _ _ Hcl). by apply wp_ret, step_same. }
  destruct Hf as (it & Hp & HA & Hcid). rewrite HA, Hp.
  pose proof (apply_receipt_refines p it s _ _ Hrep Hp Hs Ht) as Hrc.
  destruct (spec_receipt (sp_open st) it s) as [e|rc].
  - rewrite Hrc. apply wp_bind, wp_modb, wp_ret.
    split_and!; [done|apply tables_only_opens|by right].
  - destruct Hrc as (o' & -> & Hrep'). apply wp_bind, wp_modb, wp_ret.
    split_and!; [done|apply tables_only_opens|right]. split; [done|].
    rewrite Hcid in Hrep'. by apply (recover_replace _ _ _ _ _ _ _ it _ Hrv Hrep').
Qed.

Lemma recovering_ext b st closed L L' :
  (∀ v, L' v = L v) → recovering b st closed L → recovering b st closed L'.
Proof.
  intros He []. split; try done; [by eapply windows_ext|]. intros Hx. by eapply full_ext; [|auto].
Qed.

(** Charges move the rings only. *)
Lemma note_rate_keeps uid tm nb b f t st closed L (Q : unit → sys → Prop) :
  recovering b st closed L → in_u32 uid → in_u64 tm → in_u64 nb →
  (∀ b' t', tables_only b b' → recovering b' st closed (charge L uid (tm, nb)) →
     Q tt (Sys (World t' f) b')) →
  wp (note_rate uid tm nb) Q (Sys (World t f) b).
Proof.
  intros [Hrep Hcl Hrt Hcfg Hw Hfu Hcn] Hu Ht Hn HQ. apply wp_bind, wp_alloc_uid. intros a t' _ Ha.
  apply wp_modb, HQ; [apply tables_only_rates|].
  destruct (rate_note_spec (b_cfg b) Hcfg a uid tm nb (b_rates b) Hrt Hu Ht Hn) as (Hr' & Ho & _).
  split; try done; cbn.
  - by apply windows_note.
  - intros Hx. rewrite (Ha Hx). by apply full_note; auto.
  - by eapply counted_same.
Qed.

Lemma note_carry_keeps uid ops b f t st closed L (Q : unit → sys → Prop) :
  recovering b st closed L → in_u32 uid → Forall (λ e, in_u64 (fst e) ∧ in_u64 (snd e)) ops →
  (∀ b' t', tables_only b b' →
     recovering b' st closed (λ v, if v =? uid then L v ++ ops else L v) → Q tt (Sys (World t' f) b')) →
  wp (note_carry uid ops) Q (Sys (World t f) b).
Proof.
  intros Hrv Hu Hops. revert b t L Hrv.
  induction Hops as [|[tm nb] ops [Ht Hn] _ IH]; intros b t L Hrv HQ; cbn [note_carry].
  { apply wp_ret, HQ; [apply tables_only_refl|]. eapply recovering_ext; [|done].
    intros v. cbv beta. by destruct (_ =? _); rewrite ?app_nil_r. }
  apply wp_bind. eapply note_rate_keeps; [done..|]. intros b' t' Hto Hrv'.
  eapply IH; [done|]. intros b2 t2 Hto2 Hrv2. apply HQ; [by eapply tables_only_trans|].
  eapply recovering_ext; [|exact Hrv2]. intros v. unfold charge. cbv beta.
  destruct (_ =? _); [|done]. by rewrite <- app_assoc.
Qed.

(** The charges of one more line. *)
Lemma line_charge_one L line uid e v :
  line_charges line = [(uid, e)] → L v ++ log_charges [line] v = charge L uid e v.
Proof.
  intros Hl. unfold log_charges. cbn. rewrite Hl. unfold charge, charges_to. cbn.
  rewrite (Z.eqb_sym uid v). destruct (v =? uid); cbn; [done|by rewrite app_nil_r].
Qed.

Lemma line_charge_none L line v :
  line_charges line = [] → L v ++ log_charges [line] v = (L v : list (Z * Z)).
Proof. intros Hl. unfold log_charges. cbn. rewrite Hl. apply app_nil_r. Qed.

Lemma line_charge_carry L line uid ops v :
  line_charges line = map (λ e, (uid, e)) ops →
  L v ++ log_charges [line] v = if v =? uid then L v ++ ops else L v.
Proof.
  intros Hl. unfold log_charges. cbn. rewrite Hl, app_nil_r. unfold charges_to. rewrite (Z.eqb_sym v uid).
  destruct (uid =? v) eqn:He; cycle 1.
  - clear Hl. assert (List.filter (λ c : Z * (Z * Z), c.1 =? v) (map (λ e, (uid, e)) ops) = []) as ->.
    { induction ops as [|e ops IH]; [done|]. cbn. by rewrite He. }
    apply app_nil_r.
  - f_equal. clear Hl. induction ops as [|e ops IH]; [done|]. cbn. rewrite He. cbn. by rewrite IH.
Qed.

Lemma replay_line_refines line closed b st L t f :
  recovering b st closed L → line ≠ [] → Z.of_nat (size (sp_open st)) < 2 ^ 32 - 1 →
  wp (replay_line line closed)
     (step_post b f (spec_line st line) (λ v, L v ++ log_charges [line] v)) (Sys (World t f) b).
Proof.
  intros Hrv Hne Hsize. unfold replay_line, spec_line.
  destruct (rab_parse_stored line) as [s|] eqn:Hp; [|by apply wp_ret, step_same].
  pose proof (line_charges_parsed _ _ Hne Hp) as Hch. unfold stored_charges in Hch.
  apply parse_stored_ok in Hp.
  pose proof Hp as (_ & _ & _ & _ & _ & Hau & Htm & Hru & Hops & Hrcu & Hrct & _).
  assert (Hrest : sr_type s ≠ RAB_REC_RATE → wp (let! res := apply_stored s closed in
            match res with
            | (Some e, closed) => mreturn (Some e, closed)
            | (None, closed) => note_replayed s (blen line) ;;; mreturn (None, closed)
            end) (step_post b f (spec_apply st s) (λ v, L v ++ log_charges [line] v))
         (Sys (World t f) b)).
  { intros Hty. apply wp_bind. eapply wp_mono; [by apply apply_stored_refines|].
    intros [err closed'] [[t' f'] b'] (Hf & Hto & Hres). simpl in Hf, Hto. subst f'.
    destruct err as [e|].
    { apply wp_ret. split_and!; [done|done|]. destruct Hres as [Hres|Hres]; [by left|right].
      destruct (spec_apply st s); [done|by destruct Hres]. }
    destruct Hres as [[Hres _]|Hres]; [done|]. destruct (spec_apply st s) as [e|st']; [done|].
    destruct Hres as [_ Hrv']. simpl in Hrv'. apply wp_bind.
    assert (Hpost : ∀ b2 t2 L2, tables_only b' b2 → recovering b2 st' closed' L2 →
              (∀ v, L v ++ log_charges [line] v = L2 v) →
              step_post b f (inr st') (λ v, L v ++ log_charges [line] v) (None, closed')
                (Sys (World t2 f) b2)).
    { intros b2 t2 L2 Ht2 Hr2 He. split_and!; [done|by eapply tables_only_trans|right].
      split; [done|]. by eapply recovering_ext. }
    assert (Hsame : line_charges line = [] →
              wp (mreturn tt) (λ _, wp (mreturn (None, closed')) (step_post b f (inr st')
                    (λ v, L v ++ log_charges [line] v))) (Sys (World t' f) b')).
    { intros He. eapply wp_ret, wp_ret, Hpost; [apply tables_only_refl|done|].
      intros v. by apply line_charge_none. }
    unfold note_replayed. destruct (sr_type s); [|by apply Hsame|done|].
    - eapply note_rate_keeps; [done..|apply u64_range|]. intros. eapply wp_ret, Hpost; [done..|].
      intros v. by apply line_charge_one.
    - destruct (sr_rcpt_is_checkpoint s); [by apply Hsame|].
      eapply note_rate_keeps; [done..|apply u64_range|]. intros. eapply wp_ret, Hpost; [done..|].
      intros v. by apply line_charge_one. }
  destruct (sr_type s) eqn:Hty; try by apply Hrest.
  apply wp_bind. eapply note_carry_keeps; [done..|]. intros b' t' Hto Hrv'. apply wp_ret.
  split_and!; [done|done|right]. split; [done|]. eapply recovering_ext; [|exact Hrv'].
  intros v. by apply line_charge_carry.
Qed.

Lemma break_line_app l rest : nl ∉ l → break_line (l ++ nl :: rest) = Some (l, rest).
Proof.
  induction l as [|c l IH]; simpl; [done|]. intros Hn.
  destruct (Ascii.eqb_spec c nl) as [->|]; [set_solver|]. rewrite IH by set_solver. done.
Qed.

Lemma break_line_None l : nl ∉ l → break_line l = None.
Proof.
  induction l as [|c l IH]; simpl; [done|]. intros Hn.
  destruct (Ascii.eqb_spec c nl) as [->|]; [set_solver|]. by rewrite IH by set_solver.
Qed.

Lemma encode_cons l ls : encode (l :: ls) = l ++ nl :: encode ls.
Proof. unfold encode. simpl. by rewrite <- app_assoc. Qed.

(** How the line loop ends. *)
Definition replay_post (b : broker) (f : fsys) (spec : string + spec_state) (torn : option nat)
    (L : Z → list (Z * Z)) (res : replay_result) (s' : sys) : Prop :=
  w_fs (s_w s') = f ∧ tables_only b (s_b s') ∧
  ((res = ReplayErr OOM ∧ ¬ healthy) ∨
   match spec with
   | inl e => res = ReplayErr e
   | inr st' => res = ReplayDone torn ∧ ∃ closed', recovering (s_b s') st' closed' L
   end).

(** A line opens at most one intent. *)
Lemma spec_line_size st line st' :
  spec_line st line = inr st' → (size (sp_open st') ≤ size (sp_open st) + 1)%nat.
Proof.
  unfold spec_line. intros Hs.
  destruct (rab_parse_stored line) as [s|]; [|done].
  assert (Hgo : spec_apply st s = inr st' → (size (sp_open st') ≤ size (sp_open st) + 1)%nat).
  { clear Hs. unfold spec_apply, spec_open, spec_outcome. intros Hs.
    inv_guards Hs; simplify_eq/=; rewrite ?map_size_insert, ?map_size_delete;
      repeat case_match; simpl; lia. }
  destruct (sr_type s); try exact (Hgo Hs). injection Hs as <-. lia.
Qed.

(** The loop reads the complete lines and stops at the torn tail. *)
Lemma replay_refines lines torn fuel pos closed b st L t f :
  Forall (λ l, nl ∉ l) lines → nl ∉ torn → (length (encode lines ++ torn) ≤ fuel)%nat →
  recovering b st closed L → Z.of_nat (size (sp_open st) + length lines) < 2 ^ 32 - 1 →
  wp (replay fuel (encode lines ++ torn) pos closed)
     (replay_post b f (spec_replay st lines)
        (match torn with [] => None | _ => Some (pos + length (encode lines))%nat end)
        (λ v, L v ++ log_charges lines v))
     (Sys (World t f) b).
Proof.
  intros Hl Ht. revert fuel pos closed b st L t.
  induction Hl as [|l lines Hl _ IH]; intros fuel pos closed b st L t Hf Hrv Hsize.
  - simpl. destruct torn as [|c torn].
    + destruct fuel; apply wp_ret; (split_and!; [done|apply tables_only_refl|right; split; [done|]];
        eexists; eapply recovering_ext; [|done]; intros v; apply app_nil_r).
    + destruct fuel; [simpl in Hf; lia|]. cbn [replay encode concat map app].
      rewrite break_line_None by done. apply wp_ret.
      split_and!; [done|apply tables_only_refl|right]. simpl. rewrite Nat.add_0_r. split; [done|].
      eexists. eapply recovering_ext; [|done]. intros v. apply app_nil_r.
  - rewrite encode_cons in Hf |- *. rewrite <- app_assoc in Hf |- *. simpl app in Hf |- *.
    rewrite length_app in Hf. simpl in Hf.
    destruct fuel as [|fuel]; [lia|]. cbn [replay].
    assert (Hne : l ++ nl :: encode lines ++ torn ≠ []) by (by destruct l).
    destruct (l ++ nl :: encode lines ++ torn) as [|c0 p0] eqn:Hp; [done|]. rewrite <- Hp.
    rewrite break_line_app by done.
    assert (Hpos : (match torn with
                    | [] => None
                    | _ => Some (pos + length (encode (l :: lines)))%nat
                    end) =
                   match torn with
                   | [] => None
                   | _ => Some (pos + length l + 1 + length (encode lines))%nat
                   end).
    { destruct torn; [done|]. rewrite encode_cons, length_app. simpl. f_equal. lia. }
    rewrite encode_cons in Hpos. rewrite Hpos.
    cbn [length] in Hsize. destruct l as [|c l]; [apply IH; [lia|done|lia]|].
    cbn [length Nat.eqb spec_replay]. apply wp_bind.
    eapply wp_mono; [apply replay_line_refines; [done..|lia]|].
    intros [err closed'] [[t' f'] b'] (Hf' & Hto & Hres). simpl in Hf', Hto, Hres. subst f'.
    destruct Hres as [[-> Hh]|Hres].
    { apply wp_ret. split_and!; [done|done|by left]. }
    destruct (spec_line st (c :: l)) as [e|st'] eqn:Hsl.
    { rewrite Hres. apply wp_ret. split_and!; [done|done|by right]. }
    destruct Hres as [-> Hrv']. apply spec_line_size in Hsl.
    eapply wp_mono; [apply IH; [lia|done|lia]|].
    intros res s' (Hf2 & Hto2 & Hres2). split_and!; [done|by eapply tables_only_trans|].
    destruct Hres2 as [Hres2|Hres2]; [by left|right].
    destruct (spec_replay st' lines) as [e|st2]; [done|].
    destruct Hres2 as (-> & closed2 & Hrv2). split; [done|]. exists closed2.
    eapply recovering_ext; [|exact Hrv2]. intros v.
    by rewrite (log_charges_app [c :: l] lines), app_assoc.
Qed.
End Steps.

(** ** The whole segment *)

(** The messages that report a failing system call or allocation. *)
Definition env_failures : list string :=
  [OOM; "out of memory"; "cannot read sink for reconstruction";
   "cannot stat sink for reconstruction"; "out of memory reading sink";
   "read error during reconstruction"; "out of memory sizing reconstruction state";
   "cannot truncate a torn-tail record during reconstruction";
   "out of memory allocating broker tables"; "cannot open sink for append"].

Definition env_failed {E : env} (err : option string) : Prop :=
  ¬ healthy ∧ ∃ e, err = Some e ∧ e ∈ env_failures.

Section Segment.
Context `{Jansson} `{Sha256} {E : env}.

Lemma wp_ask_ok (Q : bool → world → Prop) t f :
  (∀ ok t', (healthy → ok = true) → Q ok (World t' f)) → wp (ask e_ok) Q (World t f).
Proof. intros HQ. apply wp_ask. apply HQ. intros Hh. apply Hh. Qed.

Lemma env_failed_intro e (ok : bool) :
  e ∈ env_failures → (healthy → ok = true) → ok = false → env_failed (Some e).
Proof.
  intros He Hh Hok. split; [|eauto]. intros Hx. specialize (Hh Hx). congruence.
Qed.

(** A regular file at [path]. *)
Definition reg_file (f : fsys) (path : string) (ino : nat) (i : inode) : Prop :=
  fs_dir f !! path = Some ino ∧ fs_ino f !! ino = Some i ∧ i_kind i = KReg.

Lemma open_nofollow_reg path f ino i (Q : open_res → world → Prop) t :
  reg_file f path ino i →
  (∀ r t', (healthy → r = OpenFd ino) → r = OpenFd ino ∨ r = OpenErr → Q r (World t' f)) →
  wp (sys_open_nofollow path) Q (World t f).
Proof.
  intros (Hd & Hi & Hk) HQ. unfold sys_open_nofollow. apply wp_bind, wp_get. simpl.
  rewrite Hd, Hi. destruct i as [kind mode uid data dur]. simpl in Hk. subst kind.
  apply wp_bind, wp_ask_ok. intros ok t' Hok. apply wp_ret, HQ; destruct ok; auto.
  intros Hh. by specialize (Hok Hh).
Qed.

Lemma fstat_file f ino i (Q : option inode → world → Prop) t :
  fs_ino f !! ino = Some i →
  (∀ r t', (healthy → r = Some i) → r = Some i ∨ r = None → Q r (World t' f)) →
  wp (sys_fstat ino) Q (World t f).
Proof.
  intros Hi HQ. apply wp_bind, wp_ask_ok. intros ok t' Hok. apply wp_bind, wp_get, wp_ret, HQ;
    simpl; destruct ok; auto. intros Hh. by specialize (Hok Hh).
Qed.

Lemma slurp_spec path f ino i t :
  reg_file f path ino i → blen (i_data i) ≤ RAB_MAX_SEGMENT_BYTES →
  wp (slurp_segment path)
     (λ r w', w_fs w' = f ∧
        (r = inl (i_data i) ∨ ∃ e, r = inr e ∧ env_failed (Some e))) (World t f).
Proof.
  intros Hf Hlen. pose proof Hf as (Hd & Hi & Hk). unfold slurp_segment.
  apply wp_bind. eapply open_nofollow_reg; [done|]. intros r t1 Hh1 [->| ->].
  2: { apply wp_ret. split; [done|]. right. eexists. split; [done|].
       split; [|eexists; split; [done|set_solver]]. intros Hx. by specialize (Hh1 Hx). }
  apply wp_bind. eapply fstat_file; [done|]. intros st t2 Hh2 [->| ->].
  2: { apply wp_ret. split; [done|]. right. eexists. split; [done|].
       split; [|eexists; split; [done|set_solver]]. intros Hx. by specialize (Hh2 Hx). }
  rewrite (proj2 (Z.ltb_ge _ _)) by done.
  destruct (blen (i_data i) =? 0) eqn:E0; bool_hyps.
  { apply wp_ret. split; [done|]. left. unfold blen in E0. by destruct (i_data i). }
  apply wp_bind, wp_ask_ok. intros ok1 t3 Hok1. destruct ok1; cbn [negb].
  2: { apply wp_ret. split; [done|]. right. eexists. split; [done|].
       eapply env_failed_intro; [set_solver|exact Hok1|done]. }
  apply wp_bind, wp_ask_ok. intros ok2 t4 Hok2. destruct ok2; cbn [negb]; apply wp_ret.
  - auto.
  - split; [done|]. right. eexists. split; [done|].
    eapply env_failed_intro; [set_solver|exact Hok2|done].
Qed.

(** [f'] is [f] with the contents of [ino] replaced by [data], durably. *)
Definition cut_to (f : fsys) (ino : nat) (i : inode) (data : bytes) (f' : fsys) : Prop :=
  fs_dir f' = fs_dir f ∧ fs_ddir f' = fs_ddir f ∧ fs_next f' = fs_next f ∧
  fs_ino f' = <[ino := Inode (i_kind i) (i_mode i) (i_uid i) data data]> (fs_ino f).

Lemma truncate_spec path f ino i len t :
  reg_file f path ino i →
  wp (truncate_to path len)
     (λ ok w', (healthy → ok = true) ∧
               (ok = true → cut_to f ino i (take len (i_data i)) (w_fs w'))) (World t f).
Proof.
  intros Hf. pose proof Hf as (Hd & Hi & Hk). unfold truncate_to.
  apply wp_bind. eapply open_nofollow_reg; [done|]. intros r t1 Hh1 [->| ->].
  2: { apply wp_ret. split; [|done]. intros Hh. by specialize (Hh1 Hh). }
  apply wp_bind, wp_ask_ok. intros ok t2 Hok. destruct ok; cbn [negb].
  2: { apply wp_ret. split; [|done]. done. }
  apply wp_bind, wp_modify. unfold set_fs. cbn [w_tick w_fs]. unfold sys_fdatasync.
  apply wp_bind, wp_ask_ok. intros ok2 t3 Hok2. destruct ok2; [|apply wp_ret; by split].
  apply wp_bind, wp_modify, wp_ret. split; [done|]. intros _.
  unfold cut_to, sync_data, cut_data, set_ino, set_fs. simpl. split_and!; try done.
  apply map_eq. intros j. destruct (decide (j = ino)) as [->|Hne].
  - by rewrite lookup_insert_eq, !lookup_alter_eq, Hi.
  - by rewrite lookup_insert_ne, !lookup_alter_ne.
Qed.

(** The rate table accounts for a list of charges and a set of open intents. *)
Definition accounted (cfg : rab_config) (r : rates) (L : Z → list (Z * Z)) (A : gmap string intent) :
    Prop :=
  books cfg r L A ∧ (roomy → full_windows cfg r L).

Lemma accounted_init cfg : accounted cfg rates_init (λ _, []) ∅.
Proof.
  split; [split|].
  - split; [|intros _]; intros uid; unfold uid_queue; by rewrite uid_find_init.
  - intros _ uid. unfold uid_open_count. by rewrite uid_find_init, uid_opens_empty.
  - intros _ _ uid. unfold uid_queue. by rewrite uid_find_init.
Qed.

(** A line of a segment takes a byte at least. *)
Lemma length_encode lines : (length lines ≤ length (encode lines))%nat.
Proof. induction lines as [|l ls IH]; [done|]. rewrite encode_cons, length_app. simpl. lia. Qed.

(** [reconstruct] on a segment: an environment failure, or exactly the
    specification, with a torn tail cut off durably. *)
Definition reconstruct_post (b : broker) (f : fsys) (ino : nat) (i : inode) (lines : list bytes)
    (torn : bytes) (err : option string) (s' : sys) : Prop :=
  env_failed err ∨
  match spec_replay spec_init lines with
  | inl e => err = Some e ∧ w_fs (s_w s') = f
  | inr st =>
      err = None ∧ tables_only b (s_b s') ∧ represents (b_opens (s_b s')) (sp_open st) ∧
      rates_ok (b_cfg b) (b_rates (s_b s')) ∧
      accounted (b_cfg b) (b_rates (s_b s')) (log_charges lines) (sp_open st) ∧
      (torn = [] ∧ w_fs (s_w s') = f ∨ cut_to f ino i (encode lines) (w_fs (s_w s')))
  end.

Lemma reconstruct_spec b f ino i lines torn t :
  reg_file f (b_path b) ino i → blen (i_data i) ≤ RAB_MAX_SEGMENT_BYTES →
  is_segment (i_data i) lines torn → cfg_ok (b_cfg b) → rates_ok (b_cfg b) (b_rates b) →
  accounted (b_cfg b) (b_rates b) (λ _, []) ∅ → represents (b_opens b) ∅ →
  wp reconstruct (reconstruct_post b f ino i lines torn) (Sys (World t f) b).
Proof.
  intros Hf Hlen (Hdata & Hls & Htorn) Hcfg Hr [[Hw Hcn] Hfu] Hrep. unfold reconstruct.
  apply wp_bind, wp_getb. cbn [s_b]. apply wp_bind, wp_liftW.
  eapply wp_mono; [by eapply slurp_spec|]. intros buf [t1 f1] [Hf1 Hbuf]. simpl in Hf1. subst f1.
  destruct Hbuf as [->|(e & -> & He)]; [|apply wp_ret; by left].
  apply wp_bind, wp_alloc. intros ok t2 _ Hok. destruct ok.
  2: { apply wp_ret. left. eapply env_failed_intro; [set_solver|exact Hok|done]. }
  destruct (cidset_init true _) as [closed|] eqn:Hcs; [|done].
  apply cidset_init_rep in Hcs. apply wp_bind. rewrite Hdata.
  assert (Hsize : Z.of_nat (size (∅ : gmap string intent) + length lines) < 2 ^ 32 - 1).
  { rewrite map_size_empty. pose proof (length_encode lines). unfold blen, RAB_MAX_SEGMENT_BYTES in *.
    rewrite Hdata, length_app in Hlen. lia. }
  eapply wp_mono; [apply (replay_refines lines torn _ 0 closed b spec_init (λ _, [])); [done..|by split|done]|].
  intros res [[t3 f3] b3] (Hf3 & Hto & Hres). cbn [s_w w_fs s_b] in Hf3, Hto, Hres. subst f3.
  unfold reconstruct_post.
  destruct Hres as [[-> Hh]|Hres].
  { apply wp_ret. left. split; [done|]. eexists. split; [done|set_solver]. }
  destruct (spec_replay spec_init lines) as [e|st]; [rewrite Hres; apply wp_ret; by right|].
  destruct Hres as (-> & closed' & [Hrep' _ Hr' _ Hw' Hfu' Hcn']). cbn [s_b] in *.
  assert (Hcfg3 : b_cfg b3 = b_cfg b) by (unfold tables_only in Hto; by rewrite Hto).
  rewrite Hcfg3 in *.
  assert (Hacc : accounted (b_cfg b) (b_rates b3) (log_charges lines) (sp_open st)) by done.
  destruct torn as [|c torn]; [apply wp_ret; right; by auto 10|].
  apply wp_bind, wp_liftW. eapply wp_mono; [by eapply truncate_spec|].
  intros ok4 w4 [Hok4 Hcut]. destruct ok4; apply wp_ret.
  - right. split_and!; try done. right.
    rewrite Hdata in Hcut. rewrite take_app_length' in Hcut by lia. by apply Hcut.
  - left. eapply env_failed_intro; [set_solver|exact Hok4|done].
Qed.
End Segment.

(** ** Opening the broker *)

(** Every entry and inode is below the next free number. *)
Record fs_ok (f : fsys) : Prop := {
  fo_dir : ∀ p j, fs_dir f !! p = Some j → (j < fs_next f)%nat;
  fo_ino : ∀ j i, fs_ino f !! j = Some i → (j < fs_next f)%nat
}.

Section OpenBroker.
Context `{Jansson} `{Sha256} {E : env}.

Lemma pending_neq path : path ≠ path +:+ ".pending".
Proof. intros Hp. apply (f_equal strlen) in Hp. rewrite strlen_app in Hp. change (strlen ".pending") with 8 in Hp. lia. Qed.

Lemma sink_open_existing path f ino i t :
  reg_file f path ino i → Z.land (i_mode i) S_IWOTH = 0 →
  wp (rab_sink_open path)
     (λ r w', w_fs w' = f ∧ (r = Some ino ∨ r = None) ∧ (healthy → r = Some ino)) (World t f).
Proof.
  intros Hf Hm. pose proof Hf as (Hd & Hi & Hk). unfold rab_sink_open, sys_open_excl.
  apply wp_bind, wp_bind, wp_get. cbn [w_fs]. rewrite Hd. apply wp_ret.
  apply wp_bind. eapply open_nofollow_reg; [done|]. intros r t1 Hh1 [->| ->].
  2: { apply wp_ret. split_and!; auto. intros Hh. by specialize (Hh1 Hh). }
  unfold sink_open_finish. apply wp_bind. eapply fstat_file; [done|]. intros st t2 Hh2 [->| ->].
  2: { apply wp_ret. split_and!; auto. intros Hh. by specialize (Hh2 Hh). }
  rewrite Hm. apply wp_ret. auto.
Qed.

(** A removed [.pending] leaves the sink's own entry alone. *)
Lemma unlink_other path other f ino i t (Q : world → Prop) :
  reg_file f path ino i → path ≠ other →
  (∀ t' f', reg_file f' path ino i → fs_ino f' = fs_ino f → fs_ddir f' = fs_ddir f →
     fs_next f' = fs_next f → fs_dir f' = fs_dir f ∨ fs_dir f' = delete other (fs_dir f) →
     Q (World t' f')) →
  wp (sys_unlink other) (λ _, Q) (World t f).
Proof.
  intros Hf Hne HQ. unfold sys_unlink. apply wp_bind, wp_get. cbn [w_fs].
  destruct (fs_dir f !! other) as [j|] eqn:Ho; [|apply wp_ret, HQ; auto].
  assert (Hrest : wp (let! ok := ask e_unlink in
      if ok then on_fs (λ f, set_dir f (delete other (fs_dir f))) ;;; mreturn true
      else mreturn false) (λ _, Q) (World t f)).
  { apply wp_bind, wp_ask. cbn [w_tick w_fs]. destruct (e_unlink t); [|apply wp_ret, HQ; auto].
    apply wp_bind, wp_modify, wp_ret. unfold set_fs. cbn [w_tick w_fs]. apply HQ; simpl; auto.
    destruct Hf as (? & ? & ?). split_and!; simpl; try done. by rewrite lookup_delete_ne. }
  destruct (fs_ino f !! j) as [[[] ? ? ? ?]|]; try done. apply wp_ret, HQ; auto.
Qed.

(** What start-up keeps of the file system beside the sink's contents. *)
Definition startup_keeps (f f' : fsys) : Prop :=
  fs_ddir f' = fs_ddir f ∧ (fs_ok f → fs_ok f').

Lemma unlinked_keeps f f' other :
  fs_ino f' = fs_ino f → fs_ddir f' = fs_ddir f → fs_next f' = fs_next f →
  fs_dir f' = fs_dir f ∨ fs_dir f' = delete other (fs_dir f) → startup_keeps f f'.
Proof.
  intros Hi Hdd Hn Hd. split; [done|]. intros [Ho1 Ho2]. split; rewrite ?Hi, Hn; [|done].
  intros p j. destruct Hd as [->| ->]; [apply Ho1|].
  intros Hj. apply lookup_delete_Some in Hj as [_ Hj]. eauto.
Qed.

Lemma cut_keeps f ino i data f' :
  (∃ i0, fs_ino f !! ino = Some i0) → cut_to f ino i data f' → startup_keeps f f'.
Proof.
  intros [i0 Hi0] (Hd & Hdd & Hn & Hi). split; [done|]. intros [Ho1 Ho2].
  split; rewrite ?Hd, ?Hi, Hn; [done|]. intros j x. destruct (decide (j = ino)) as [->|Hne].
  - intros _. eauto.
  - rewrite lookup_insert_ne by done. eauto.
Qed.

(** The state a successful [rab_broker_open] hands out. *)
Record opened (f : fsys) (path : string) (cfg : rab_config) (ino : nat) (i : inode)
    (lines : list bytes) (st : spec_state) (b : broker) (w : world) : Prop := {
  op_path : b_path b = path;
  op_cfg : b_cfg b = cfg;
  op_fd : b_fd b = ino;
  op_live : b_poisoned b = false;
  op_open : represents (b_opens b) (sp_open st);
  op_rates : rates_ok cfg (b_rates b);
  op_account : accounted cfg (b_rates b) (log_charges lines) (sp_open st);
  op_dir : fs_dir (w_fs w) !! path = Some ino;
  op_data : ∃ dur, fs_ino (w_fs w) !! ino =
              Some (Inode KReg (i_mode i) (i_uid i) (encode lines) dur) ∧
              (i_durable i = i_data i → dur = encode lines);
  op_fs : startup_keeps f (w_fs w);
  op_test : b_test_fail b = RAB_FAIL_NONE;
  op_seg : b_seg_bytes b = blen (encode lines) ∨ ¬ healthy
}.

(** What the replay leaves of the segment: the complete lines, synced if the file was. *)
Lemma repaired_file f f1 path ino i lines torn :
  reg_file f path ino i → is_segment (i_data i) lines torn →
  (torn = [] ∧ f1 = f) ∨ cut_to f ino i (encode lines) f1 →
  ∃ dur, reg_file f1 path ino (Inode KReg (i_mode i) (i_uid i) (encode lines) dur) ∧
         (i_durable i = i_data i → dur = encode lines).
Proof.
  intros (Hd & Hi & Hkd) (Hdata & _) [[-> ->]|(Hd1 & _ & _ & Hi1)]; rewrite ?app_nil_r in Hdata.
  - exists (i_durable i). split; [|congruence]. split_and!; try done. rewrite Hi. f_equal.
    destruct i; simpl in *. by subst.
  - exists (encode lines). split; [|done]. split_and!; [by rewrite Hd1| |done].
    by rewrite Hi1, lookup_insert_eq, Hkd.
Qed.

(** Reconstruction and opening the sink, from the empty tables. *)
Lemma start_spec path cfg host f0 f ino i lines torn t :
  reg_file f path ino i → Z.land (i_mode i) S_IWOTH = 0 →
  blen (i_data i) ≤ RAB_MAX_SEGMENT_BYTES → is_segment (i_data i) lines torn →
  cfg_ok cfg → startup_keeps f0 f →
  wp (let! err := reconstruct in
      match err with Some e => mreturn (Some e) | None => open_sink path end)
     (λ err s, env_failed err ∨
        match spec_replay spec_init lines with
        | inl e => err = Some e
        | inr st => err = None ∧ opened f0 path cfg ino i lines st (s_b s) (s_w s)
        end) (Sys (World t f) (broker_init path cfg host)).
Proof.
  intros Hf Hm Hlen Hseg Hcfg Hsk. set (b0 := broker_init path cfg host).
  apply wp_bind. eapply wp_mono; [apply (reconstruct_spec b0 f ino i lines torn)|]; try done.
  { by apply rates_init_ok. } { apply accounted_init. } { apply rep_init. }
  intros err [[t1 f1] b1] [Henv|Hpost].
  { destruct Henv as [Hh (e & -> & He)]. apply wp_ret. left. split; eauto. }
  destruct (spec_replay spec_init lines) as [e|st].
  { destruct Hpost as [-> _]. apply wp_ret. by right. }
  destruct Hpost as (-> & Hto & Hrep & Hr & Hacc & Hfile). cbn [s_w w_fs s_b] in *.
  assert (Hsk1 : startup_keeps f0 f1).
  { destruct Hfile as [[_ ->]|Hcut]; [done|]. destruct Hf as (_ & Hi & _).
    destruct (cut_keeps _ _ _ _ _ (ex_intro _ _ Hi) Hcut), Hsk. split; [congruence|auto]. }
  destruct (repaired_file _ _ _ _ _ _ _ Hf Hseg Hfile) as [dur [Hf1 Hdur]].
  unfold open_sink. apply wp_bind, wp_liftW.
  eapply wp_mono; [by eapply sink_open_existing|]. cbv beta.
  intros r [t2 f2] (Hf2 & Hr2 & Hh2). cbn [w_fs] in Hf2. subst f2.
  destruct Hr2 as [->| ->].
  2: { apply wp_ret. left. split; [|eexists; split; [done|set_solver]].
       intros Hh. by specialize (Hh2 Hh). }
  apply wp_bind, wp_modb, wp_bind, wp_liftW. destruct Hf1 as (Hd1 & Hi1 & _).
  eapply fstat_file; [done|]. intros st' t3 Hh3 Hst'.
  apply wp_bind, wp_modb, wp_ret. right. split; [done|].
  rewrite Hto. split; cbn; try done.
  - eauto.
  - destruct Hst' as [->| ->]; [by left|]. right. intros Hh. by specialize (Hh3 Hh).
Qed.

(** The stages of [rab_broker_open]: allocations, the left-over pending segment,
    reconstruction and the sink. *)
Lemma wp_broker_open path cfg host (Q : broker + string → world → Prop) t f :
  config_error cfg = None →
  (∀ e w, env_failed (Some e) → Q (inr e) w) →
  (∀ t', wp (if strlen (path +:+ ".pending") <? PATH_MAX
             then sys_unlink (path +:+ ".pending") ;;; mreturn tt else mreturn tt)
            (λ _ w, wp (let! err := reconstruct in
                        match err with Some e => mreturn (Some e) | None => open_sink path end)
                       (λ err s, Q (match err with Some e => inr e | None => inl (s_b s) end) (s_w s))
                       (Sys w (broker_init path cfg host)))
            (World t' f)) →
  wp (rab_broker_open path cfg host) Q (World t f).
Proof.
  intros Hce Hfail HQ. unfold rab_broker_open. rewrite Hce.
  assert (Henv : ∀ (ok : bool) e t' f', e ∈ env_failures → (healthy → ok = true) → ok = false →
                   wp (mreturn (inr e)) Q (World t' f')).
  { intros ok e t' f' He Hh Hok. apply wp_ret, Hfail. by eapply env_failed_intro. }
  apply wp_bind, wp_ask_ok. intros ok1 t1 Hok1.
  destruct ok1; cbn [negb]; [|eapply Henv; [set_solver|exact Hok1|done]].
  apply wp_bind, wp_ask_ok. intros ok2 t2 Hok2.
  destruct ok2; cbn [negb]; [|eapply Henv; [set_solver|exact Hok2|done]].
  apply wp_bind, wp_ask_ok. intros ok3 t3 Hok3.
  destruct ok3; cbn [negb]; [|eapply Henv; [set_solver|exact Hok3|done]].
  apply wp_bind. eapply wp_mono; [apply HQ|]. cbv beta. intros _ w. unfold wp. cbv beta zeta.
  by destruct (mbnd reconstruct _ _).
Qed.

Lemma broker_open_spec path cfg host f ino i lines torn t :
  reg_file f path ino i → Z.land (i_mode i) S_IWOTH = 0 →
  blen (i_data i) ≤ RAB_MAX_SEGMENT_BYTES → is_segment (i_data i) lines torn →
  cfg_ok cfg → config_error cfg = None →
  wp (rab_broker_open path cfg host)
     (λ r w', (∃ e, r = inr e ∧ env_failed (Some e)) ∨
              match spec_replay spec_init lines with
              | inl e => r = inr e
              | inr st => ∃ b, r = inl b ∧ opened f path cfg ino i lines st b w'
              end) (World t f).
Proof.
  intros Hf Hm Hlen Hseg Hcfg Hce. apply wp_broker_open; [done|by left; eauto|]. intros t0.
  set (k := λ _ w, _).
  assert (Hk : ∀ t' f', reg_file f' path ino i → startup_keeps f f' → k tt (World t' f')).
  2: { case_goal; [|apply wp_ret, Hk; [done|by split]].
       apply wp_bind. eapply unlink_other; [done|apply pending_neq|]. intros.
       apply wp_ret, Hk; [done|by eapply unlinked_keeps]. }
  intros t' f' Hf' Hsk. eapply wp_mono; [by apply (start_spec path cfg host f f' ino i lines torn)|].
  intros err s [[Hh (e & -> & He)]|Hwp].
  - left. eexists. split; [done|]. split; eauto.
  - right. destruct (spec_replay spec_init lines); [by rewrite Hwp|].
    destruct Hwp as [-> Hop]. eauto.
Qed.
End OpenBroker.
