(* ===== verification/Live.v ===== *)
(** * The live broker against its log

    The invariant [live]: while the broker is not poisoned, the open set in
    memory is exactly what replaying the current segment would rebuild (up to
    the flag that says whether an intent was opened by a checkpoint).  The
    lemmas here state how each durable step, from one appended line to a whole
    rotation, keeps it. *)

From stdpp Require Import base gmap strings list fin_maps sorting.
From Stdlib Require Import ZArith Lia Ascii.
From S2P Require Import Prelude CString Jansson Env Id Sink Request Peer Record Receipt Rate.
From S2P Require Import OpenSet Broker Reconstruct Spec Recovery.

Local Open Scope string_scope.
Local Open Scope list_scope.
Local Open Scope Z_scope.

(** ** Open intents *)

(** An intent without the checkpoint flag. *)
Definition erase (it : intent) : intent :=
  Intent (it_cid it) (it_binding it) (it_actor it) (it_operation it) (it_resource it)
    (it_scope it) false (it_rcpt it).

Definition agree (A B : gmap string intent) : Prop := erase <$> A = erase <$> B.

(** A receipt bound to its intent. *)
Definition receipt_bound (it : intent) (rc : receipt) : Prop :=
  receipt_ok rc ∧ rc_actor_uid rc = a_uid (it_actor it) ∧ rc_verb rc = it_operation it ∧
  rc_resource rc = it_resource it.

Record intent_ok (it : intent) : Prop := {
  io_cid : it_cid it ≠ "" ∧ strlen (it_cid it) < RAB_CID_MAX;
  io_binding : it_binding it ≠ "" ∧ strlen (it_binding it) < RAB_BINDING_MAX;
  io_actor : actor_ok (it_actor it);
  io_op : strlen (it_operation it) < RAB_META_MAX;
  io_res : strlen (it_resource it) < RAB_META_MAX;
  io_scope : strlen (it_scope it) < RAB_SCOPE_MAX;
  io_rcpt : ∀ rc, it_rcpt it = Some rc → receipt_bound it rc
}.

(** Open intents are well formed, and no two receipts share a verifier. *)
Record set_ok (A : gmap string intent) : Prop := {
  so_intent : ∀ c it, A !! c = Some it → it_cid it = c ∧ intent_ok it;
  so_verifier : ∀ c c' it it' v, A !! c = Some it → A !! c' = Some it' →
    key_rcpt it = Some v → key_rcpt it' = Some v → c = c'
}.

(** ** The sink's file *)

Definition sink_at (f : fsys) (path : string) (fd : nat) (data : bytes) : Prop :=
  fs_dir f !! path = Some fd ∧
  ∃ i, fs_ino f !! fd = Some i ∧ i_kind i = KReg ∧ i_data i = data ∧
       Z.land (i_mode i) S_IWOTH = 0.

(** Nothing of the sink is in flight: entry and contents are on stable storage. *)
Definition settled (f : fsys) (path : string) (fd : nat) : Prop :=
  fs_ddir f !! path = Some fd ∧ file_durable f fd = file_data f fd.

Section Live.
Context `{JanssonLaws} `{Sha256} {E : env}.

(** The correlation ids a log state knows of. *)
Definition sp_ids (st : spec_state) : gset string := dom (sp_open st) ∪ sp_closed st.

(** [K] bounds the ids in the log. *)
Record live (K : gset string) (f : fsys) (b : broker) (lines : list bytes) (st : spec_state)
    (A : gmap string intent) : Prop := {
  lv_rep : represents (b_opens b) A;
  lv_set : set_ok A;
  lv_agree : agree A (sp_open st);
  lv_known : sp_ids st ⊆ K;
  lv_cfg : cfg_ok (b_cfg b);
  lv_rates : rates_ok (b_cfg b) (b_rates b);
  lv_books : books (b_cfg b) (b_rates b) (log_charges lines) A;
  lv_sink : sink_at f (b_path b) (b_fd b) (encode lines);
  lv_settled : settled f (b_path b) (b_fd b);
  lv_lines : Forall (λ l, nl ∉ l) lines;
  lv_replay : spec_replay spec_init lines = inr st;
  lv_fs : fs_ok f;
  lv_test : b_test_fail b = RAB_FAIL_NONE
}.

(** After a write fault: the segment is still complete lines that replay to
    [st], then at most a torn start of one. *)
Definition replays_to (f : fsys) (b : broker) (st : spec_state) : Prop :=
  ∃ lines torn, sink_at f (b_path b) (b_fd b) (encode lines ++ torn) ∧
    Forall (λ l, nl ∉ l) lines ∧ nl ∉ torn ∧ spec_replay spec_init lines = inr st.

Definition recoverable (K : gset string) (f : fsys) (b : broker) (A : gmap string intent) : Prop :=
  ∃ st, replays_to f b st ∧ agree A (sp_open st) ∧ sp_ids st ⊆ K ∧ set_ok A.

(** In memory and in the log, or, once poisoned, in the log: the open set is [A]. *)
Definition good (K : gset string) (s : sys) (A : gmap string intent) : Prop :=
  (b_poisoned (s_b s) = false ∧ ∃ lines st, live K (w_fs (s_w s)) (s_b s) lines st A) ∨
  (b_poisoned (s_b s) = true ∧ recoverable K (w_fs (s_w s)) (s_b s) A).

(** ** Facts: erasure *)

Lemma agree_lookup A B c it :
  agree A B → A !! c = Some it → ∃ it', B !! c = Some it' ∧ erase it' = erase it.
Proof.
  intros Hag HA. assert (Hx : (erase <$> B) !! c = Some (erase it)).
  { rewrite <- Hag, lookup_fmap, HA. done. }
  rewrite lookup_fmap in Hx. apply fmap_Some in Hx as (it' & HB & He). eauto.
Qed.

Lemma agree_None A B c : agree A B → A !! c = None ↔ B !! c = None.
Proof.
  intros Hag. unfold agree in Hag.
  assert (Hx : (erase <$> A) !! c = (erase <$> B) !! c) by (by rewrite Hag).
  rewrite !lookup_fmap in Hx. destruct (A !! c), (B !! c); simpl in Hx; naive_solver.
Qed.

Lemma agree_sym A B : agree A B → agree B A.
Proof. unfold agree. done. Qed.

Lemma agree_insert A B c it it' :
  agree A B → erase it = erase it' → agree (<[c := it]> A) (<[c := it']> B).
Proof. unfold agree. intros Hag He. rewrite !fmap_insert. by rewrite Hag, He. Qed.

Lemma agree_delete A B c : agree A B → agree (delete c A) (delete c B).
Proof. unfold agree. intros Hag. rewrite !fmap_delete. by rewrite Hag. Qed.

Lemma erase_key it it' : erase it = erase it' → key_rcpt it = key_rcpt it'.
Proof. intros He. injection He. unfold key_rcpt. by intros ->. Qed.

Lemma verifier_used_spec A v :
  verifier_used A v = true ↔ ∃ c it, A !! c = Some it ∧ key_rcpt it = Some v.
Proof. unfold verifier_used. rewrite bool_decide_eq_true. done. Qed.

Lemma agree_verifier A B v : agree A B → verifier_used A v = verifier_used B v.
Proof.
  intros Hag. apply eq_true_iff_eq. rewrite !verifier_used_spec.
  assert (Hdir : ∀ X Y, agree X Y → (∃ c it, X !! c = Some it ∧ key_rcpt it = Some v) →
                        ∃ c it, Y !! c = Some it ∧ key_rcpt it = Some v).
  { intros X Y Hxy (c & it & Hc & Hk). destruct (agree_lookup _ _ _ _ Hxy Hc) as (it' & Hc' & He).
    exists c, it'. split; [done|]. rewrite <- Hk. by apply erase_key. }
  split; apply Hdir; [done|by apply agree_sym].
Qed.

(** ** Facts: the specification, one record at a time *)

Lemma spec_replay_app st l1 l2 :
  spec_replay st (l1 ++ l2) = match spec_replay st l1 with
                              | inl e => inl e
                              | inr st' => spec_replay st' l2
                              end.
Proof.
  revert st. induction l1 as [|l l1 IH]; intros st; simpl; [done|].
  destruct l; [apply IH|]. destruct (spec_line st _); [done|apply IH].
Qed.

Lemma spec_replay_snoc lines line st st' :
  line ≠ [] → spec_replay spec_init lines = inr st → spec_line st line = inr st' →
  spec_replay spec_init (lines ++ [line]) = inr st'.
Proof.
  intros Hne Hr Hl. rewrite spec_replay_app, Hr. destruct line; [done|]. simpl. by rewrite Hl.
Qed.

Lemma encode_snoc lines line : encode (lines ++ [line]) = encode lines ++ line ++ [nl].
Proof. unfold encode. rewrite map_app, concat_app. simpl. by rewrite app_nil_r. Qed.

Lemma spec_line_intent st line cid binding a t op res sc :
  rab_parse_stored line =
    Some (Stored RAB_REC_AUDIT RAB_PHASE_INTENT cid binding a t op res sc 0 [] zero_receipt false) →
  binding ≠ "" → sp_open st !! cid = None → cid ∉ sp_closed st →
  spec_line st line =
    inr (Spec (<[cid := Intent cid binding a op res sc false None]> (sp_open st)) (sp_closed st)).
Proof.
  intros Hp Hb Ho Hc. unfold spec_line. rewrite Hp. cbn [sr_type]. unfold spec_apply. simpl.
  unfold spec_open. cbn [sr_binding sr_cid].
  rewrite is_empty_false, Ho, bool_decide_eq_false_2 by done. done.
Qed.

Lemma spec_line_outcome st line cid a t op res sc it :
  rab_parse_stored line =
    Some (Stored RAB_REC_AUDIT RAB_PHASE_OUTCOME cid "" a t op res sc 0 [] zero_receipt false) →
  sp_open st !! cid = Some it →
  spec_line st line = inr (Spec (delete cid (sp_open st)) ({[cid]} ∪ sp_closed st)).
Proof.
  intros Hp Ho. unfold spec_line. rewrite Hp. cbn [sr_type]. unfold spec_apply. simpl.
  unfold spec_outcome. cbn [sr_cid]. by rewrite Ho.
Qed.

Lemma spec_line_emit st line phase cid a t op res sc :
  rab_parse_stored line =
    Some (Stored RAB_REC_AUDIT phase cid "" a t op res sc 0 [] zero_receipt false) →
  phase ≠ RAB_PHASE_INTENT → phase ≠ RAB_PHASE_OUTCOME → spec_line st line = inr st.
Proof.
  intros Hp H1' H2'. unfold spec_line. rewrite Hp. cbn [sr_type]. unfold spec_apply.
  unfold is_intent_rec, is_checkpoint_rec, is_outcome_rec. cbn [sr_type sr_phase].
  unfold strcmp_eq. by rewrite !(proj2 (String.eqb_neq _ _)).
Qed.

Lemma spec_line_receipt st line cid rc ckpt it :
  rab_parse_stored line =
    Some (Stored RAB_REC_RECEIPT "" cid "" zero_actor 0 "" "" "" 0 [] rc ckpt) →
  sp_open st !! cid = Some it →
  spec_line st line =
    match spec_receipt (sp_open st) it
            (Stored RAB_REC_RECEIPT "" cid "" zero_actor 0 "" "" "" 0 [] rc ckpt) with
    | inl e => inl e
    | inr rc' => inr (Spec (<[cid := set_rcpt it rc']> (sp_open st)) (sp_closed st))
    end.
Proof.
  intros Hp Ho. unfold spec_line. rewrite Hp. cbn [sr_type]. unfold spec_apply. simpl.
  cbn [sr_cid]. by rewrite Ho.
Qed.

Lemma spec_line_rate st line uid ops :
  rab_parse_stored line =
    Some (Stored RAB_REC_RATE "" "" "" zero_actor 0 "" "" "" uid ops zero_receipt false) →
  spec_line st line = inr st.
Proof. intros Hp. unfold spec_line. by rewrite Hp. Qed.

(** Installing a first receipt: an issued transition, or a carried checkpoint
    beside a carried intent. *)
Lemma spec_receipt_first B it cid rc (ckpt : bool) :
  receipt_bound it rc → it_rcpt it = None → verifier_used B (rc_verifier rc) = false →
  (if ckpt then it_from_checkpoint it = true else rc_state rc = RAB_RCPT_ISSUED) →
  spec_receipt B it (Stored RAB_REC_RECEIPT "" cid "" zero_actor 0 "" "" "" 0 [] rc ckpt) = inr rc.
Proof.
  intros (_ & Hu & Hv & Hr) Hno Hver Hck. unfold spec_receipt. cbn [sr_rcpt sr_rcpt_is_checkpoint].
  rewrite bool_decide_eq_true_2 by done. simpl. rewrite Hno, Hver.
  destruct ckpt; simpl; [by rewrite Hck|]. by rewrite bool_decide_eq_false_2 by (rewrite Hck; done).
Qed.

Lemma receipt_bound_eq_redeemed rc now : receipt_bound_eq rc (mark_redeemed rc now) = true.
Proof. unfold receipt_bound_eq, strcmp_eq. simpl. by rewrite !Z.eqb_refl, !String.eqb_refl. Qed.

(** The redeemed transition of an issued receipt. *)
Lemma spec_receipt_redeem B it cid rc now :
  receipt_bound it rc → it_rcpt it = Some rc → rc_state rc = RAB_RCPT_ISSUED →
  spec_receipt B it
    (Stored RAB_REC_RECEIPT "" cid "" zero_actor 0 "" "" "" 0 [] (mark_redeemed rc now) false)
  = inr (mark_redeemed rc now).
Proof.
  intros (_ & Hu & Hv & Hr) Hrc Hst. unfold spec_receipt. cbn [sr_rcpt sr_rcpt_is_checkpoint].
  rewrite bool_decide_eq_true_2 by done. simpl negb. cbv iota. simpl andb. cbv iota. rewrite Hrc.
  rewrite receipt_bound_eq_redeemed. simpl negb. cbv iota. rewrite Hst. done.
Qed.

(** ** Appending one line *)

Lemma prefix_cases (l p r : bytes) :
  l ++ [nl] = p ++ r → p = l ++ [nl] ∨ ∃ q, l = p ++ q.
Proof.
  intros He. destruct r as [|x r _] using rev_ind; [left; by rewrite app_nil_r in He|].
  right. rewrite app_assoc in He. apply app_inj_tail in He as [-> _]. eauto.
Qed.

Lemma grew_sink f1 f2 path fd data p w1 w2 :
  w_fs w1 = f1 → w_fs w2 = f2 → grew fd p w1 w2 → sink_at f1 path fd data →
  sink_at f2 path fd (data ++ p).
Proof.
  intros <- <- (Hd & _ & _ & _ & Hg) (Hp & i & Hi & Hk & Hda & Hm).
  destruct (Hg _ Hi) as (i' & Hi' & Hd' & Hk' & Hm' & _). split; [by rewrite Hd|].
  exists i'. split_and!; congruence.
Qed.

Lemma grew_fs_ok fd p w1 w2 :
  grew fd p w1 w2 → fs_ok (w_fs w1) → (∃ i, fs_ino (w_fs w1) !! fd = Some i) → fs_ok (w_fs w2).
Proof.
  intros (Hd & _ & Hn & Ho & Hg) [Hdir Hino] [i Hi]. split.
  - intros q j. rewrite Hd, Hn. apply Hdir.
  - intros j i'. rewrite Hn. destruct (decide (j = fd)) as [->|Hne].
    + intros _. by apply (Hino _ i).
    + rewrite Ho by done. apply Hino.
Qed.

(** The outcome of appending a line that takes the log from [st] to [st']. *)
Definition appended (f : fsys) (b : broker) (lines : list bytes) (line : string)
    (st st' : spec_state) (ok : bool) (s' : sys) : Prop :=
  fs_ok (w_fs (s_w s')) ∧
  if ok then
    s_b s' = set_seg b (u64 (b_seg_bytes b + (strlen line + 1))) ∧
    sink_at (w_fs (s_w s')) (b_path b) (b_fd b) (encode (lines ++ [bs line])) ∧
    (fs_ddir f !! b_path b = Some (b_fd b) → settled (w_fs (s_w s')) (b_path b) (b_fd b))
  else s_b s' = set_poisoned b ∧
    (replays_to (w_fs (s_w s')) (set_poisoned b) st ∨
     replays_to (w_fs (s_w s')) (set_poisoned b) st').

Lemma append_line_spec f b lines line st st' t :
  b_test_fail b = RAB_FAIL_NONE → fs_ok f →
  sink_at f (b_path b) (b_fd b) (encode lines) → Forall (λ l, nl ∉ l) lines →
  spec_replay spec_init lines = inr st → bs line ≠ [] → nl ∉ bs line →
  spec_line st (bs line) = inr st' →
  wp (append_line line) (appended f b lines line st st') (Sys (World t f) b).
Proof.
  intros Htf Hfs Hsink Hl Hr Hne Hnl Hsp. unfold append_line.
  apply wp_bind, wp_getb. cbn [s_b]. rewrite Htf. apply wp_bind, wp_liftW.
  eapply wp_mono; [apply sink_append_spec|]. intros ok w' (p & Hg & (r & Hpr) & Hok).
  pose proof (grew_sink f (w_fs w') _ _ _ _ (World t f) w' eq_refl eq_refl Hg Hsink) as Hs'.
  assert (Hfs' : fs_ok (w_fs w')).
  { eapply grew_fs_ok; [done|done|]. destruct Hsink as (_ & i & Hi & _). by exists i. }
  destruct ok; cbn [negb].
  - apply wp_bind, wp_modb, wp_ret. split; [done|]. destruct (Hok eq_refl) as (-> & _ & Hdur).
    rewrite encode_snoc. split_and!; [done|done|]. intros Hdd. split; [|done].
    destruct Hg as (_ & Hgd & _). cbn [s_w]. rewrite Hgd. done.
  - apply wp_bind, wp_modb, wp_ret. split; [done|]. split; [done|].
    destruct (prefix_cases _ _ _ Hpr) as [->|[q Hq]].
    + right. exists (lines ++ [bs line]), []. rewrite encode_snoc, app_nil_r. split_and!.
      * done.
      * apply Forall_app. split; [done|by constructor].
      * set_solver.
      * by eapply spec_replay_snoc.
    + left. exists lines, p. split_and!; try done. rewrite Hq in Hnl. set_solver.
Qed.

(** ** Keeping the invariant *)

Lemma live_rates K f b lines st A r :
  live K f b lines st A → shrunk (b_cfg b) (b_rates b) r → live K f (set_rates b r) lines st A.
Proof. intros [] Hr. split; try done; [apply Hr|by eapply books_shrunk]. Qed.

Lemma live_known K K' f b lines st A :
  live K f b lines st A → K ⊆ K' → live K' f b lines st A.
Proof. intros [] Hk. split; try done. by etrans. Qed.

(** After an append: the new log, and whatever open set agrees with it. *)
Lemma live_advance K f b lines st A K' f' line st' A' o r n :
  live K f b lines st A → fs_ok f' →
  sink_at f' (b_path b) (b_fd b) (encode (lines ++ [bs line])) →
  settled f' (b_path b) (b_fd b) →
  bs line ≠ [] → nl ∉ bs line → spec_line st (bs line) = inr st' → sp_ids st' ⊆ K' →
  represents o A' → set_ok A' → agree A' (sp_open st') → rates_ok (b_cfg b) r →
  books (b_cfg b) r (log_charges (lines ++ [bs line])) A' →
  live K' f' (set_rates (set_opens (set_seg b n) o) r) (lines ++ [bs line]) st' A'.
Proof.
  intros [? ? ? ? ? ? ? ? ? Hl Hr ? ?] Hfs Hs Hst Hne Hnl Hsp Hk Hrep Hset Hag Hrt Hbk. split; try done.
  - apply Forall_app. split; [done|by constructor].
  - by eapply spec_replay_snoc.
Qed.
End Live.
