(* ===== verification/Windows.v ===== *)
(** * Rotation and the rate windows

    Rotation carries every uid's rate window into the new segment and evicts what
    has left the window on the way.  Here is what that does to the table in
    memory: it only shrinks ([shrunk]), whatever the environment does. *)

From stdpp Require Import base gmap strings list fin_maps sorting.
From Stdlib Require Import ZArith Lia Ascii.
From S2P Require Import Prelude CString Jansson Env Id Sink Request Peer Record Receipt Rate.
From S2P Require Import OpenSet Broker.

Local Open Scope string_scope.
Local Open Scope list_scope.
Local Open Scope Z_scope.

(** ** One charged line *)

(** [after_line uid now nb r r']: from table [r], a line of [nb] bytes was charged to
    [uid] at time [now], and otherwise old entries may have gone. *)
Definition after_line (cfg : rab_config) (uid now nb : Z) (r r' : rates) : Prop :=
  uid_queue r' uid `suffix_of`
    (if rate_max_in_window cfg =? 0 then uid_queue r uid else uid_queue r uid ++ [(now, nb)]) ∧
  g_win_start r' = g_win_start (global_bytes_note cfg now nb r) ∧
  g_win_bytes r' = g_win_bytes (global_bytes_note cfg now nb r).

Lemma global_note_fields cfg now nb r r' :
  g_win_start r' = g_win_start r → g_win_bytes r' = g_win_bytes r →
  g_win_start (global_bytes_note cfg now nb r') = g_win_start (global_bytes_note cfg now nb r) ∧
  g_win_bytes (global_bytes_note cfg now nb r') = g_win_bytes (global_bytes_note cfg now nb r).
Proof.
  intros Hs Hb. unfold global_bytes_note. destruct (_ =? 0); [done|]. cbv zeta. rewrite Hs.
  destruct (_ || _); cbn; by rewrite ?Hb, ?Hs.
Qed.

(** The ring makes room for a new entry by dropping its oldest. *)
Lemma noted_after_line cfg uid now nb r :
  cfg_ok cfg → rates_ok cfg r → in_u32 uid → in_u64 now → in_u64 nb →
  after_line cfg uid now nb r (global_bytes_note cfg now nb (rate_note cfg true uid now nb r)).
Proof.
  intros Hc Hr Hu Hn Hb. destruct (rate_note_spec cfg Hc true uid now nb r Hr Hu Hn Hb)
    as (Hr1 & _ & Hs & Hg & _ & Hzero & Hq).
  split; [|by apply global_note_fields].
  destruct (global_note_spec cfg now nb _ Hr1) as [_ Hfind]. unfold uid_queue at 1. rewrite Hfind.
  fold (uid_queue (rate_note cfg true uid now nb r) uid).
  destruct (Z.eqb_spec (rate_max_in_window cfg) 0) as [Hz|Hz]; [by rewrite Hzero|].
  rewrite Hq by auto. apply suffix_app. case_goal; [|done].
  destruct (uid_queue r uid); [done|by apply suffix_cons_r].
Qed.

Lemma after_line_shrunk cfg uid now nb r0 r r1 r' :
  shrunk cfg r0 r → after_line cfg uid now nb r r1 → shrunk cfg r1 r' →
  after_line cfg uid now nb r0 r'.
Proof.
  intros [_ _ Hs Hg Hq] (Hq1 & Hs1 & Hg1) [_ _ Hs' Hg' Hq'].
  destruct (global_note_fields cfg now nb r0 r Hs Hg) as [Hs2 Hg2]. split; [|split; congruence].
  etrans; [apply Hq'|]. etrans; [apply Hq1|]. destruct (_ =? 0); [done|by apply suffix_app].
Qed.

(** Counting an open intent does not move the windows. *)
Lemma after_line_from cfg uid now nb r0 r r1 :
  uid_queue r uid = uid_queue r0 uid → g_win_start r = g_win_start r0 →
  g_win_bytes r = g_win_bytes r0 → after_line cfg uid now nb r r1 → after_line cfg uid now nb r0 r1.
Proof.
  intros Hq Hs Hg (Hq1 & Hs1 & Hg1). rewrite Hq in Hq1.
  destruct (global_note_fields cfg now nb r0 r Hs Hg) as [Hs2 Hg2]. split; [done|split; congruence].
Qed.

(** ** Computations that only shrink the table *)

Definition shrinks {A} (m : M sys A) : Prop :=
  ∀ s, cfg_ok (b_cfg (s_b s)) → rates_ok (b_cfg (s_b s)) (b_rates (s_b s)) →
    b_cfg (s_b (m s).2) = b_cfg (s_b s) ∧
    shrunk (b_cfg (s_b s)) (b_rates (s_b s)) (b_rates (s_b (m s).2)).

Lemma sh_same {A} (m : M sys A) :
  (∀ s, b_cfg (s_b (m s).2) = b_cfg (s_b s) ∧ b_rates (s_b (m s).2) = b_rates (s_b s)) → shrinks m.
Proof. intros Hm s _ Hr. destruct (Hm s) as [-> ->]. split; [done|by apply shrunk_refl]. Qed.

Lemma sh_ret {A} (a : A) : shrinks (mreturn a).
Proof. by apply sh_same. Qed.

Lemma sh_bind {A B} (m : M sys A) (k : A → M sys B) :
  shrinks m → (∀ a, shrinks (k a)) → shrinks (mbnd m k).
Proof.
  intros Hm Hk s Hc Hr. unfold mbnd. destruct (Hm s Hc Hr) as [Hc1 Hr1]. destruct (m s) as [a s1].
  cbn [snd] in *. destruct (Hk a s1) as [Hc2 Hr2]; [by rewrite Hc1|rewrite Hc1; apply Hr1|].
  rewrite Hc1 in *. split; [done|by eapply shrunk_trans].
Qed.

Lemma sh_lift {A} (m : M world A) : shrinks (liftW m).
Proof. apply sh_same. intros s. unfold liftW, zoom. by destruct (m (s_w s)). Qed.

Lemma sh_modb g : (∀ b, b_cfg (g b) = b_cfg b ∧ b_rates (g b) = b_rates b) → shrinks (modb g).
Proof. intros Hg. apply sh_same. intros [w b]. apply Hg. Qed.

Lemma sh_getb : shrinks getb.
Proof. by apply sh_same. Qed.

Lemma wp_shrinks {A} (m : M sys A) s :
  shrinks m → cfg_ok (b_cfg (s_b s)) → rates_ok (b_cfg (s_b s)) (b_rates (s_b s)) →
  wp m (λ _ s', b_cfg (s_b s') = b_cfg (s_b s) ∧
                shrunk (b_cfg (s_b s)) (b_rates (s_b s)) (b_rates (s_b s'))) s.
Proof. intros Hm. apply Hm. Qed.

Create HintDb shrinks.
#[export] Hint Resolve sh_ret sh_lift sh_getb : shrinks.
#[export] Hint Extern 2 (shrinks (modb _)) => apply sh_modb; by intros ? : shrinks.

Ltac shrinks_tac :=
  intros; repeat first
  [ solve [eauto 2 with shrinks]
  | match goal with |- shrinks (mbnd _ _) => apply sh_bind; [|intros ?] end
  | match goal with |- shrinks (match ?x with _ => _ end) => destruct x end
  | match goal with |- shrinks (let '(_, _) := ?x in _) => destruct x end
  | progress cbv zeta ].

Section Shrinks.
Context `{JanssonLaws} `{Sha256} {E : env}.

Lemma sh_alloc : shrinks alloc.
Proof. unfold alloc. shrinks_tac. Qed.
Lemma sh_clock : shrinks clock.
Proof. unfold clock. shrinks_tac. Qed.
#[local] Hint Resolve sh_alloc sh_clock : shrinks.

Lemma sh_built o : shrinks (built o).
Proof. unfold built. shrinks_tac. Qed.

Lemma sh_collect b ds acc cap : shrinks (collect_archives b ds acc cap).
Proof. revert acc cap. induction ds as [|[p i] ds IH]; intros; cbn [collect_archives]; shrinks_tac. Qed.

Lemma sh_prune cfg es n t p : shrinks (prune_archives cfg es n t p).
Proof. revert n t p. induction es as [|e es IH]; intros; cbn [prune_archives]; shrinks_tac. Qed.
#[local] Hint Resolve sh_built sh_collect sh_prune : shrinks.

Lemma sh_carry_intents fd ps : shrinks (carry_intents fd ps).
Proof. induction ps as [|p ps IH]; cbn [carry_intents]; shrinks_tac. Qed.

Lemma sh_retention : shrinks apply_retention.
Proof. unfold apply_retention. shrinks_tac. Qed.

(** The carry loop: entries [us] of the table [r0] it started with, written back
    evicted; [r] is the table by now. *)
Lemma carry_uids_shrunk us fd th r0 b w :
  cfg_ok (b_cfg b) → rates_ok (b_cfg b) r0 → shrunk (b_cfg b) r0 (b_rates b) →
  (∀ v u, uid_find r0 v = Some u → ∃ u', uid_find (b_rates b) v = Some u') →
  Forall (λ u, uid_find r0 (u_uid u) = Some u) us →
  wp (carry_uids fd th us)
     (λ _ s', b_cfg (s_b s') = b_cfg b ∧ shrunk (b_cfg b) r0 (b_rates (s_b s'))) (Sys w b).
Proof.
  intros Hcfg Hr0. revert b w Hcfg Hr0. induction us as [|u us IH]; intros b w Hcfg Hr0 Hsh Hfind Hus;
    cbn [carry_uids]; [by apply wp_ret|].
  inversion Hus as [|? ? Hu Hus']; subst.
  destruct (uid_find_Some _ _ _ _ Hr0 Hu) as (_ & Hring & Hcap & _ & Hwf).
  destruct (uid_evict_spec u th Hring) as (Hring' & Hq & Hu' & Ho' & Hc').
  pose proof (uid_evict_wf u th Hwf) as Hwf'. destruct (Hfind _ _ Hu) as [v Hv].
  destruct (uid_store_spec (b_cfg b) (b_rates b) (u_uid u) v (uid_evict u th)) as (Hr1 & Hq1 & Ho1 & Hs1 & Hb1);
    [apply Hsh|done|done|done|congruence|done|].
  set (r1 := uid_store (b_rates b) (uid_evict u th)) in *.
  assert (Hsh1 : shrunk (b_cfg b) r0 r1).
  { destruct Hsh as [? Ho0 Hs0 Hb0 Hq0]. split; [done| |congruence..|]; intros x.
    - rewrite Ho1. destruct (Z.eqb_spec (u_uid u) x) as [<-|]; [|done].
      rewrite Ho'. unfold uid_open_count. by rewrite Hu.
    - rewrite Hq1. destruct (Z.eqb_spec (u_uid u) x) as [<-|]; [|done].
      rewrite Hq. unfold uid_queue. rewrite Hu. apply drop_old_suffix. }
  assert (Hfind1 : ∀ x y, uid_find r0 x = Some y → ∃ y', uid_find r1 x = Some y').
  { intros x y Hx. destruct (Hfind _ _ Hx) as [y' Hy']. unfold r1. rewrite (uid_find_store (b_cfg b)).
    - destruct (_ =? _); eauto.
    - apply Hsh.
    - rewrite Hu'. destruct (uid_find_Some _ _ _ _ (sh_ok _ _ _ Hsh) Hv) as (He & _ & _ & Hin & _).
      rewrite <- He at 1. apply list_elem_of_In, in_map, list_elem_of_In. done. }
  apply wp_bind, wp_modb. fold r1.
  assert (Hgo : ∀ w1, wp (carry_uids fd th us)
     (λ _ s', b_cfg (s_b s') = b_cfg b ∧ shrunk (b_cfg b) r0 (b_rates (s_b s')))
     (Sys w1 (set_rates b r1))) by (intros w1; by apply (IH (set_rates b r1) w1)).
  destruct (_ =? 0); [apply Hgo|].
  destruct w as [t f]. apply wp_bind, wp_built. intros line t2 _ _ _.
  destruct line as [line|]; [|by apply wp_ret].
  apply wp_bind, wp_liftW. unfold wp. destruct (rab_sink_append fd _ _) as [ok w2]. cbn [fst snd].
  destruct ok; [apply Hgo|by split].
Qed.

(** Every entry of the table is found under its uid. *)
Lemma table_found cfg r :
  rates_ok cfg r → Forall (λ u, uid_find r (u_uid u) = Some u) (concat (bkt_uid r)).
Proof.
  intros Hr. apply Forall_forall. intros u Hu.
  apply list_elem_of_In, in_concat in Hu as (c & Hc & Hu).
  apply list_elem_of_In, list_elem_of_lookup in Hc as [i Hi]. apply list_elem_of_In in Hu.
  destruct (rk_ring _ _ Hr _ _ _ Hi Hu) as (_ & _ & Hs & _).
  pose proof (chain_lookup cfg r (u_uid u) Hr) as Hlk. rewrite Hs, Hi in Hlk. injection Hlk as Hlk.
  pose proof (rk_nodup _ _ Hr _ _ Hi) as Hnd. unfold uid_find. rewrite <- Hlk. clear -Hu Hnd.
  induction c as [|v c IH]; [by apply elem_of_nil in Hu|]. cbn. inversion Hnd as [|? ? Hv Hnd']; subst.
  apply elem_of_cons in Hu as [->|Hu]; [by rewrite Z.eqb_refl|].
  destruct (Z.eqb_spec (u_uid v) (u_uid u)) as [He|]; [|by apply IH].
  destruct Hv. rewrite He. apply list_elem_of_In, in_map, list_elem_of_In. done.
Qed.

Lemma sh_write_carries fd : shrinks (write_rate_carries fd).
Proof.
  unfold write_rate_carries. apply sh_bind; [shrinks_tac|]. intros b0.
  destruct (_ =? 0); [shrinks_tac|]. apply sh_bind; [shrinks_tac|]. intros now.
  intros [w b] Hc Hr. apply (carry_uids_shrunk _ fd (win_th (b_cfg b) now) (b_rates b) b w); try done.
  - eauto.
  - by eapply table_found.
Qed.
#[local] Hint Resolve sh_carry_intents sh_retention sh_write_carries : shrinks.

(** Rotation, successful or abandoned, takes nothing from a uid's window but its
    oldest entries and leaves the global byte window alone. *)
Lemma sh_maybe_rotate : shrinks maybe_rotate.
Proof. unfold maybe_rotate, rotate, rotate_swap, abandon. shrinks_tac. Qed.
End Shrinks.
