(* ===== verification/Rotation.v ===== *)
(** * Carry-forward rotation keeps the open set

    The new segment holds a checkpoint per open intent, its receipt right after
    it, and the rate carries; replaying it gives back the open set.  Retention
    removes archives only.  A rotation that fails leaves the current segment in
    place. *)

From stdpp Require Import base gmap strings list fin_maps sorting.
From Stdlib Require Import ZArith Lia Ascii.
From S2P Require Import Prelude CString Jansson Env Id Sink Request Peer Record Receipt Rate.
From S2P Require Import OpenSet Broker Windows Reconstruct Spec Recovery Live.

Local Open Scope string_scope.
Local Open Scope list_scope.
Local Open Scope Z_scope.

(** ** Facts: built lines *)

Section BuiltLines.
Context `{JanssonLaws}.

Lemma bs_nonempty s : s ≠ "" → bs s ≠ [].
Proof. by destruct s. Qed.

Lemma dumps_bs k v s : json_dumps k v = Some s → bs s ≠ [] ∧ nl ∉ bs s.
Proof. intros Hd. apply dumps_line in Hd as [Hne Hnl]. split; [by apply bs_nonempty|done]. Qed.

Lemma checkpoint_line cid bd a t op res sc line :
  rab_build_checkpoint cid bd a t op res sc = Some line → bs line ≠ [] ∧ nl ∉ bs line.
Proof. unfold rab_build_checkpoint. intros Hb. inv_guards Hb; by eapply dumps_bs. Qed.

Lemma receipt_line cid ck rc line :
  rab_build_receipt cid ck rc = Some line → bs line ≠ [] ∧ nl ∉ bs line.
Proof. unfold rab_build_receipt. intros Hb. inv_guards Hb; by eapply dumps_bs. Qed.

Lemma rate_line uid ops line : rab_build_rate uid ops = Some line → bs line ≠ [] ∧ nl ∉ bs line.
Proof. unfold rab_build_rate. intros Hb. inv_guards Hb; by eapply dumps_bs. Qed.

Lemma audit_line ph cid bd a h t r line :
  rab_build_audit ph cid bd a h t r = Some line → bs line ≠ [] ∧ nl ∉ bs line.
Proof. unfold rab_build_audit. intros Hb. inv_guards Hb; by eapply dumps_bs. Qed.

Lemma spec_line_checkpoint st line cid binding a t op res sc :
  rab_parse_stored line =
    Some (Stored RAB_REC_CHECKPOINT "" cid binding a t op res sc 0 [] zero_receipt false) →
  binding ≠ "" → sp_open st !! cid = None → cid ∉ sp_closed st →
  spec_line st line =
    inr (Spec (<[cid := Intent cid binding a op res sc true None]> (sp_open st)) (sp_closed st)).
Proof.
  intros Hp Hb Ho Hc. unfold spec_line. rewrite Hp. cbn [sr_type]. unfold spec_apply. simpl.
  unfold spec_open. cbn [sr_binding sr_cid].
  rewrite is_empty_false, Ho, bool_decide_eq_false_2 by done. done.
Qed.
End BuiltLines.

(** ** Carrying the intents *)

Section Carry.
Context `{JanssonLaws} `{Sha256} {E : env}.

(** A file under construction that holds the complete lines [L]. *)
Definition holds (f : fsys) (pfd : nat) (L : list bytes) : Prop :=
  ∃ i, fs_ino f !! pfd = Some i ∧ i_kind i = KReg ∧ i_data i = encode L ∧
       i_durable i = i_data i ∧ Z.land (i_mode i) S_IWOTH = 0.

Definition only_file (pfd : nat) (f f' : fsys) : Prop :=
  fs_dir f' = fs_dir f ∧ fs_ddir f' = fs_ddir f ∧ fs_next f' = fs_next f ∧
  (∀ j, j ≠ pfd → fs_ino f' !! j = fs_ino f !! j) ∧
  (∀ i, fs_ino f !! pfd = Some i → ∃ i', fs_ino f' !! pfd = Some i').

Lemma only_file_refl pfd f : only_file pfd f f.
Proof. split_and!; eauto. Qed.

Lemma only_file_trans pfd f1 f2 f3 :
  only_file pfd f1 f2 → only_file pfd f2 f3 → only_file pfd f1 f3.
Proof.
  intros (D1 & E1 & N1 & O1 & I1) (D2 & E2 & N2 & O2 & I2). split_and!; try congruence.
  - intros j Hj. rewrite O2, O1; done.
  - intros i Hi. destruct (I1 _ Hi) as [i' Hi']. eauto.
Qed.

(** One carried line. *)
Lemma carry_append pfd L line f b t (Q : bool → sys → Prop) :
  holds f pfd L →
  (∀ ok t' f', only_file pfd f f' → (ok = true → holds f' pfd (L ++ [bs line])) →
     Q ok (Sys (World t' f') b)) →
  wp (liftW (rab_sink_append pfd (bs line))) Q (Sys (World t f) b).
Proof.
  intros (i & Hi & Hk & Hd & _ & Hm) HQ. apply wp_liftW. eapply wp_mono; [apply sink_append_spec|].
  intros ok [t' f'] (p & (D & DD & N & O & G) & _ & Hok).
  cbn [w_fs] in *. destruct (G _ Hi) as (i' & Hi' & Hd' & Hk' & Hm' & _). apply HQ.
  - split_and!; eauto.
  - intros ->. destruct (Hok eq_refl) as (-> & _ & Hdur). exists i'.
    unfold file_durable, file_data in Hdur. rewrite Hi' in Hdur.
    rewrite encode_snoc. split_and!; congruence.
Qed.

(** What the carried part of the log says. *)
Record carried (A B : gmap string intent) (L : list bytes) : Prop := {
  cd_lines : Forall (λ l, nl ∉ l) L;
  cd_replay : spec_replay spec_init L = inr (Spec B ∅);
  cd_from : ∀ c it', B !! c = Some it' → ∃ it, A !! c = Some it ∧ it' = mark_checkpoint it
}.

Lemma carried_snoc A B B' L line :
  carried A B L → bs line ≠ [] → nl ∉ bs line →
  spec_line (Spec B ∅) (bs line) = inr (Spec B' ∅) →
  (∀ c it', B' !! c = Some it' → ∃ it, A !! c = Some it ∧ it' = mark_checkpoint it) →
  carried A B' (L ++ [bs line]).
Proof.
  intros [Hl Hr _] Hne Hnl Hs Hf. split; [|by eapply spec_replay_snoc|done].
  apply Forall_app. split; [done|by constructor].
Qed.

(** Lines that charge nobody. *)
Definition quiet (L : list bytes) : Prop := ∀ v, log_charges L v = [].

Lemma quiet_snoc L line : quiet L → line_charges line = [] → quiet (L ++ [line]).
Proof. intros Hq Hl v. by rewrite log_charges_none. Qed.

(** A checkpoint line for an intent not yet carried; a receipt is still to come. *)
Lemma carry_checkpoint A B it now line :
  set_ok A → A !! it_cid it = Some it → B !! it_cid it = None → 0 ≤ now < 2 ^ 64 →
  rab_build_checkpoint (it_cid it) (it_binding it) (it_actor it) now (it_operation it)
    (it_resource it) (it_scope it) = Some line →
  spec_line (Spec B ∅) (bs line) =
    inr (Spec (<[it_cid it := Intent (it_cid it) (it_binding it) (it_actor it) (it_operation it)
                                (it_resource it) (it_scope it) true None]> B) ∅) ∧
  line_charges (bs line) = [].
Proof.
  intros Hset HA HB Hnow Hb. destruct (so_intent _ Hset _ _ HA) as [_ [[? ?] [? ?] ? ? ? ? _]].
  destruct (checkpoint_line _ _ _ _ _ _ _ _ Hb) as [Hne _].
  eapply checkpoint_roundtrip in Hb; [|done..]. split.
  - eapply spec_line_checkpoint; [done..|]. cbn [sp_closed]. set_solver.
  - by rewrite (line_charges_parsed _ _ Hne Hb).
Qed.

Lemma carry_receipt A B it rc line :
  set_ok A → A !! it_cid it = Some it → it_rcpt it = Some rc → B !! it_cid it = None →
  (∀ c it', B !! c = Some it' → ∃ it, A !! c = Some it ∧ it' = mark_checkpoint it) →
  rab_build_receipt (it_cid it) true rc = Some line →
  spec_line (Spec (<[it_cid it := Intent (it_cid it) (it_binding it) (it_actor it)
                       (it_operation it) (it_resource it) (it_scope it) true None]> B) ∅) (bs line) =
    inr (Spec (<[it_cid it := mark_checkpoint it]> B) ∅) ∧
  line_charges (bs line) = [].
Proof.
  intros Hset HA Hrc HB Hfrom Hb. destruct (so_intent _ Hset _ _ HA) as [_ Hio].
  destruct (io_rcpt _ Hio _ Hrc) as (Hrok & Hu & Hv & Hr).
  set (it0 := Intent _ _ _ _ _ _ true None).
  destruct (receipt_line _ _ _ _ Hb) as [Hln _]. apply receipt_roundtrip in Hb; [|done].
  split; [|by rewrite (line_charges_parsed _ _ Hln Hb)].
  rewrite (spec_line_receipt _ _ (it_cid it) rc true it0);
    [|done|cbn [sp_open]; by rewrite lookup_insert_eq].
  rewrite spec_receipt_first; [|done|done| |done].
  - cbn [sp_open sp_closed]. rewrite insert_insert_eq.
    replace (set_rcpt it0 rc) with (mark_checkpoint it); [done|].
    unfold set_rcpt, mark_checkpoint. by rewrite Hrc.
  - cbn [sp_open]. apply not_true_iff_false. rewrite verifier_used_spec. intros (c & it' & Hc & Hk).
    destruct (decide (it_cid it = c)) as [<-|Hne].
    + rewrite lookup_insert_eq in Hc. injection Hc as <-. done.
    + rewrite lookup_insert_ne in Hc by done. destruct (Hfrom _ _ Hc) as (it1 & HA1 & ->).
      apply Hne. eapply (so_verifier _ Hset); [exact HA|exact HA1| |exact Hk].
      unfold key_rcpt. by rewrite Hrc.
Qed.

(** What the loop over [ps] leaves, having carried [B] before. *)
Definition carry_post (b : broker) (pfd : nat) (A B : gmap string intent) (ps : list nat) (f : fsys)
    (ok : bool) (s' : sys) : Prop :=
  s_b s' = b ∧ only_file pfd f (w_fs (s_w s')) ∧
  (ok = true → ∃ B' L', carried A B' L' ∧ quiet L' ∧ holds (w_fs (s_w s')) pfd L' ∧
     (∀ c it', B !! c = Some it' → B' !! c = Some it') ∧
     (∀ p it, p ∈ ps → o_heap (b_opens b) !! p = Some it →
        B' !! it_cid it = Some (mark_checkpoint it))).

(** One node carried before the loop is one node more that it carries. *)
Lemma carry_post_cons b pfd A B p it ps f f1 ok s' :
  o_heap (b_opens b) !! p = Some it → B !! it_cid it = None → only_file pfd f f1 →
  carry_post b pfd A (<[it_cid it := mark_checkpoint it]> B) ps f1 ok s' →
  carry_post b pfd A B (p :: ps) f ok s'.
Proof.
  intros Hp HB Hof (Hsb & Hox & Hres). split_and!; [done|by eapply only_file_trans|].
  intros ->. destruct (Hres eq_refl) as (B' & L' & Hc' & Hq' & Hh' & Hsub & Hall).
  exists B', L'. split_and!; [done..| |].
  - intros c it' Hc. apply Hsub. rewrite lookup_insert_ne; [done|]. congruence.
  - intros q itq Hq Hitq. apply elem_of_cons in Hq as [->|Hq]; [|eauto].
    rewrite Hp in Hitq. injection Hitq as <-. apply Hsub, lookup_insert_eq.
Qed.

(** The nodes still to come are not carried yet. *)
Definition uncarried (b : broker) (B : gmap string intent) (ps : list nat) : Prop :=
  ∀ p, p ∈ ps → ∃ it, o_heap (b_opens b) !! p = Some it ∧ B !! it_cid it = None.

Lemma uncarried_tail b A B p it ps :
  represents (b_opens b) A → o_heap (b_opens b) !! p = Some it → p ∉ ps →
  uncarried b B (p :: ps) → uncarried b (<[it_cid it := mark_checkpoint it]> B) ps.
Proof.
  intros Hrep Hp Hnin Hps q Hq. destruct (Hps q) as (itq & Hq' & HBq); [by right|]. exists itq.
  split; [done|]. rewrite lookup_insert_ne; [done|]. intros He.
  assert (p = q) by (eapply (rp_inj _ _ Hrep); eauto). by subst.
Qed.

Lemma carried_from_insert A B L it :
  carried A B L → A !! it_cid it = Some it →
  ∀ c it', <[it_cid it := mark_checkpoint it]> B !! c = Some it' →
    ∃ it0, A !! c = Some it0 ∧ it' = mark_checkpoint it0.
Proof.
  intros Hcd HA c it' Hc. destruct (decide (it_cid it = c)) as [<-|Hne].
  - rewrite lookup_insert_eq in Hc. injection Hc as <-. eauto.
  - rewrite lookup_insert_ne in Hc by done. by apply (cd_from _ _ _ Hcd).
Qed.

(** The whole loop. *)
Lemma carry_intents_spec ps pfd A B L f b t :
  represents (b_opens b) A → set_ok A → NoDup ps → uncarried b B ps →
  carried A B L → quiet L → holds f pfd L →
  wp (carry_intents pfd ps) (carry_post b pfd A B ps f) (Sys (World t f) b).
Proof.
  intros Hrep Hset. revert B L f t. induction ps as [|p ps IH]; intros B L f t Hnd Hps Hcd Hqt Hh;
    cbn [carry_intents].
  { apply wp_ret. split_and!; [done|apply only_file_refl|]. intros _. exists B, L.
    split_and!; [done..|]. set_solver. }
  inversion Hnd as [|? ? Hnin Hnd']; subst. destruct (Hps p) as (it & Hp & HB); [left|].
  pose proof (rp_in _ _ Hrep _ _ Hp) as HA.
  apply wp_bind, wp_getb. cbn [s_b]. rewrite Hp.
  apply wp_bind, wp_clock. intros now t1 _ Hnow. apply wp_bind, wp_built. intros line t2 _ Hline _.
  destruct line as [line|].
  2: { apply wp_ret. split_and!; [done|apply only_file_refl|done]. }
  destruct Hline as [|Hline]; [done|]. symmetry in Hline.
  destruct (checkpoint_line _ _ _ _ _ _ _ _ Hline) as [Hne Hnl].
  apply wp_bind. eapply carry_append; [done|]. intros ok t3 f3 Hof Hok3.
  destruct ok; cbn [negb]; [|by apply wp_ret].
  specialize (Hok3 eq_refl).
  destruct (carry_checkpoint A B it now line Hset HA HB Hnow Hline) as [Hsl Hch].
  assert (Hnext : ∀ Lx fx tx, carried A (<[it_cid it := mark_checkpoint it]> B) Lx → quiet Lx →
     holds fx pfd Lx → only_file pfd f fx →
     wp (carry_intents pfd ps) (carry_post b pfd A B (p :: ps) f) (Sys (World tx fx) b)).
  { intros Lx fx tx Hcx Hqx Hhx Hox.
    eapply wp_mono; [apply (IH (<[it_cid it := mark_checkpoint it]> B) Lx); try done|].
    - by eapply uncarried_tail.
    - intros ok s'. by apply carry_post_cons. }
  pose proof (carried_from_insert _ _ _ _ Hcd HA) as Hfrom.
  destruct (it_rcpt it) as [rc|] eqn:Hrc.
  - apply wp_bind, wp_built. intros rl t4 _ Hrl _. destruct rl as [rl|].
    2: { apply wp_ret. split_and!; [done|done|done]. }
    destruct Hrl as [|Hrl]; [done|]. symmetry in Hrl.
    destruct (receipt_line _ _ _ _ Hrl) as [Hne2 Hnl2].
    apply wp_bind. eapply carry_append; [done|]. intros ok t5 f5 Hof5 Hok5.
    destruct ok; cbn [negb]; [|apply wp_ret; split_and!; [done|by eapply only_file_trans|done]].
    destruct (carry_receipt A B it rc rl Hset HA Hrc HB (cd_from _ _ _ Hcd) Hrl) as [Hsl2 Hch2].
    apply (Hnext ((L ++ [bs line]) ++ [bs rl]));
      [|by apply quiet_snoc; [apply quiet_snoc|]|by apply Hok5|by eapply only_file_trans].
    destruct Hcd as [Hcl Hcr Hcf]. split; [| |done].
    + rewrite !Forall_app. split_and!; [done|by constructor|by constructor].
    + eapply spec_replay_snoc; [done| |exact Hsl2]. by eapply spec_replay_snoc.
  - apply (Hnext (L ++ [bs line])); [|by apply quiet_snoc|done|done].
    eapply carried_snoc; [done..| |done].
    rewrite Hsl. unfold mark_checkpoint. by rewrite Hrc.
Qed.
End Carry.

(** ** Carrying the rate windows *)

Lemma ring_carry_queue u : ring_ok u → ring_carry u = ring_queue u.
Proof.
  intros [? ? ? ? ? ?]. unfold ring_carry, ring_queue. apply map_ext_in. intros k Hk.
  apply in_seq in Hk. unfold ring_entry. cbv zeta. by rewrite u32_small by lia.
Qed.

Lemma nth_in_u64 l i : Forall in_u64 l → in_u64 (nth i l 0).
Proof.
  intros Hl. rewrite nth_lookup. destruct (l !! i) as [z|] eqn:Hz; simpl.
  - by eapply Forall_lookup_1.
  - unfold in_u64. lia.
Qed.

Lemma ring_queue_range u :
  entry_wf u → Forall (λ e, in_u64 (fst e) ∧ in_u64 (snd e)) (ring_queue u).
Proof.
  intros (_ & Ht & Hb). unfold ring_queue. apply Forall_forall. intros e He.
  apply list_elem_of_In, in_map_iff in He as (k & <- & _).
  split; by apply nth_in_u64.
Qed.

Section CarryRates.
Context `{JanssonLaws} `{Sha256} {E : env}.

(** An entry of the table at the time the carry loop started. *)
Definition carry_entry (cfg : rab_config) (r : rates) (u : uid_state) : Prop :=
  ring_ok u ∧ entry_wf u ∧ u_cap u = cfg_cap cfg ∧ ∃ v, uid_find r (u_uid u) = Some v.

(** What the segment under construction owes: the windows of the uids still to come. *)
Definition covered (us : list uid_state) (r : rates) (L : list bytes) : Prop :=
  ∀ v, v ∈ map u_uid us ∨ uid_queue r v `suffix_of` log_charges L v.

(** A uid's window written back, with or without its carry line. *)
Lemma covered_store cfg u us r v th L L' :
  rates_ok cfg r → carry_entry cfg r u → uid_find r (u_uid u) = Some v → covered (u :: us) r L →
  (∀ x, log_charges L' x =
     if x =? u_uid u then log_charges L x ++ ring_queue (uid_evict u th) else log_charges L x) →
  covered us (uid_store r (uid_evict u th)) L'.
Proof.
  intros Hr (Hring & Hwf & Hcap & _) Hv Hcv HL x.
  destruct (uid_evict_spec u th Hring) as (Hring' & Hq & Hu' & _ & Hc').
  destruct (uid_store_spec cfg r (u_uid u) v (uid_evict u th)) as (_ & Hq1 & _);
    [done..|congruence|by apply uid_evict_wf|].
  rewrite Hq1, HL, (Z.eqb_sym x). destruct (Z.eqb_spec (u_uid u) x) as [<-|Hne].
  - right. by apply suffix_app_r.
  - destruct (Hcv x) as [Hx|Hx]; [left|by right]. cbn in Hx. set_solver.
Qed.

Lemma carry_uids_spec us pfd th A B L f b t :
  cfg_ok (b_cfg b) → rates_ok (b_cfg b) (b_rates b) →
  Forall (carry_entry (b_cfg b) (b_rates b)) us → covered us (b_rates b) L →
  carried A B L → holds f pfd L →
  wp (carry_uids pfd th us)
     (λ ok s', ∃ r', s_b s' = set_rates b r' ∧ rates_ok (b_cfg b) r' ∧
        only_file pfd f (w_fs (s_w s')) ∧
        (ok = true → ∃ L', carried A B L' ∧ covered [] r' L' ∧ holds (w_fs (s_w s')) pfd L'))
     (Sys (World t f) b).
Proof.
  intros Hcfg. revert b L f t Hcfg. induction us as [|u us IH]; intros b L f t Hcfg Hr Hus Hcv Hcd Hh;
    cbn [carry_uids].
  { apply wp_ret. exists (b_rates b). split_and!; [by destruct b|done|apply only_file_refl|eauto]. }
  inversion Hus as [|? ? Hent Hus']; subst. pose proof Hent as (Hring & Hwf & Hcap & v & Hv).
  pose proof (λ L', covered_store _ u us _ v th L L' Hr Hent Hv Hcv) as Hstore.
  destruct (uid_evict_spec u th Hring) as (Hring' & Hq & Hu' & _ & Hc').
  pose proof (uid_evict_wf u th Hwf) as Hwf'. set (u' := uid_evict u th) in *.
  set (r1 := uid_store (b_rates b) u').
  assert (Hin : u_uid u' ∈ map u_uid (uid_chain (b_rates b) (u_uid u'))).
  { rewrite Hu'. destruct (uid_find_Some _ _ _ _ Hr Hv) as (He & _ & _ & Hin & _).
    rewrite <- He at 1. apply list_elem_of_In, in_map, list_elem_of_In. done. }
  assert (Hr1 : rates_ok (b_cfg b) r1) by (apply uid_store_ok; congruence || done).
  assert (Hus1 : Forall (carry_entry (b_cfg b) r1) us).
  { eapply Forall_impl; [done|]. intros x (? & ? & ? & y & Hy). split_and!; try done.
    unfold r1. rewrite (uid_find_store (b_cfg b)) by done. destruct (_ =? _); eauto. }
  apply wp_bind, wp_modb. fold r1.
  assert (Hgo : ∀ L1 f1 t1, covered us r1 L1 → carried A B L1 → holds f1 pfd L1 →
    only_file pfd f f1 →
    wp (carry_uids pfd th us)
     (λ ok s', ∃ r', s_b s' = set_rates b r' ∧ rates_ok (b_cfg b) r' ∧
        only_file pfd f (w_fs (s_w s')) ∧
        (ok = true → ∃ L', carried A B L' ∧ covered [] r' L' ∧ holds (w_fs (s_w s')) pfd L'))
     (Sys (World t1 f1) (set_rates b r1))).
  { intros L1 f1 t1 Hcv1 Hcd1 Hh1 Hof1. eapply wp_mono; [by apply (IH (set_rates b r1) L1)|].
    intros ok s' (r' & Hsb & Hr' & Hof & Hok). exists r'.
    split_and!; [by rewrite Hsb|done|by eapply only_file_trans|done]. }
  destruct (Z.eqb_spec (u_n u') 0) as [Hz|_].
  { apply (Hgo L); [|done..|apply only_file_refl]. apply Hstore. intros x.
    pose proof (ring_queue_length _ Hring') as Hlen. rewrite Hz in Hlen.
    apply Nat2Z.inj with (m := 0%nat), nil_length_inv in Hlen. rewrite Hlen.
    by destruct (_ =? _); rewrite ?app_nil_r. }
  apply wp_bind, wp_built. intros line t2 _ Hline _. destruct line as [line|].
  2: { apply wp_ret. exists r1. split_and!; [done|done|apply only_file_refl|done]. }
  destruct Hline as [|Hline]; [done|]. symmetry in Hline. rewrite ring_carry_queue in Hline by done.
  destruct (rate_line _ _ _ Hline) as [Hne Hnl].
  apply wp_bind. eapply carry_append; [done|]. intros ok t3 f3 Hof3 Hok3.
  destruct ok; cbn [negb]; [|apply wp_ret; exists r1; by split_and!].
  eapply rate_roundtrip in Hline; [|apply Hwf'|by apply ring_queue_range].
  apply (Hgo (L ++ [bs line])); [| |by apply Hok3|done].
  - apply Hstore. intros x. rewrite log_charges_app, <- Hu'. apply line_charge_carry.
    by rewrite (line_charges_parsed _ _ Hne Hline).
  - eapply carried_snoc; [done..| |apply (cd_from _ _ _ Hcd)]. by eapply spec_line_rate.
Qed.

Lemma table_entries cfg r :
  cfg_ok cfg → rates_ok cfg r → Forall (carry_entry cfg r) (concat (bkt_uid r)).
Proof.
  intros Hcfg Hr. apply Forall_forall. intros u Hu.
  apply list_elem_of_In, in_concat in Hu as (c & Hc & Hu).
  apply list_elem_of_In, list_elem_of_lookup in Hc as [i Hi]. apply list_elem_of_In in Hu.
  destruct (rk_ring _ _ Hr _ _ _ Hi Hu) as (? & ? & Hs & ?). split_and!; try done.
  pose proof (chain_lookup cfg r (u_uid u) Hr) as Hlk. rewrite Hs, Hi in Hlk. injection Hlk as ->.
  unfold uid_find. destruct (chain_find _ _) as [v|] eqn:Hf; [eauto|].
  apply chain_find_None in Hf. destruct Hf. apply list_elem_of_In, in_map, list_elem_of_In. done.
Qed.

(** A uid the table does not list has no window. *)
Lemma covered_start cfg r L : rates_ok cfg r → covered (concat (bkt_uid r)) r L.
Proof.
  intros Hr v. unfold uid_queue. destruct (uid_find r v) as [u|] eqn:Hf.
  - left. destruct (uid_find_Some _ _ _ _ Hr Hf) as (<- & _ & _ & Hin & _).
    apply list_elem_of_In, in_map, in_concat. eexists. split; [|apply list_elem_of_In, Hin].
    apply list_elem_of_In. eapply list_elem_of_lookup_2. by apply (chain_lookup cfg).
  - right. apply suffix_nil.
Qed.

Lemma write_carries_spec pfd A B L f b t :
  cfg_ok (b_cfg b) → rates_ok (b_cfg b) (b_rates b) → carried A B L → quiet L → holds f pfd L →
  (rate_max_in_window (b_cfg b) = 0 → ∀ uid, uid_queue (b_rates b) uid = []) →
  wp (write_rate_carries pfd)
     (λ ok s', ∃ r', s_b s' = set_rates b r' ∧ shrunk (b_cfg b) (b_rates b) r' ∧
        only_file pfd f (w_fs (s_w s')) ∧
        (ok = true → ∃ L', carried A B L' ∧ windows (b_cfg b) r' (log_charges L') ∧
                           holds (w_fs (s_w s')) pfd L')) (Sys (World t f) b).
Proof.
  intros Hcfg Hr Hcd Hqt Hh Hoff.
  pose proof (sh_write_carries pfd (Sys (World t f) b) Hcfg Hr) as [_ Hsh]. cbn [s_b] in Hsh.
  assert (Hwp : wp (write_rate_carries pfd)
     (λ ok s', ∃ r', s_b s' = set_rates b r' ∧ rates_ok (b_cfg b) r' ∧
        only_file pfd f (w_fs (s_w s')) ∧
        (ok = true → ∃ L', carried A B L' ∧ covered [] r' L' ∧ holds (w_fs (s_w s')) pfd L'))
     (Sys (World t f) b)).
  { unfold write_rate_carries. apply wp_bind, wp_getb. case_goal.
    { bool_hyps. apply wp_ret. exists (b_rates b).
      split_and!; [by destruct b|done|apply only_file_refl|]. intros _. exists L.
      split_and!; [done| |done]. intros v. right. rewrite Hoff by done. apply suffix_nil. }
    apply wp_bind, wp_clock. intros now t1 _ _. apply wp_bind, wp_getb. cbn [s_b].
    eapply carry_uids_spec; try done; [by apply table_entries|]. by eapply covered_start. }
  unfold wp in *. destruct Hwp as (r' & Hb & _ & Hof & Hok). rewrite Hb in Hsh. cbn in Hsh.
  exists r'. split_and!; [done..|]. intros Ht. destruct (Hok Ht) as (L' & ? & Hcv & ?).
  exists L'. split_and!; [done| |done]. split.
  - intros v. destruct (Hcv v) as [Hv|]; [by apply elem_of_nil in Hv|done].
  - intros Hz v. apply suffix_nil_inv. rewrite <- (Hoff Hz v). apply Hsh.
Qed.
End CarryRates.

(** ** The by-cid table lists every open intent once *)

Lemma NoDup_concat_lookup {X} (t : list (list X)) :
  (∀ i c, t !! i = Some c → NoDup c) →
  (∀ i j c d x, t !! i = Some c → t !! j = Some d → x ∈ c → x ∈ d → i = j) →
  NoDup (concat t).
Proof.
  induction t as [|c t IH]; intros Hnd Hdj; simpl; [constructor|].
  apply NoDup_app. split_and!.
  - by apply (Hnd 0%nat).
  - intros x Hx Hin. apply list_elem_of_In, in_concat in Hin as (d & Hd & Hxd).
    apply list_elem_of_In, list_elem_of_lookup in Hd as [j Hj]. apply list_elem_of_In in Hxd.
    by specialize (Hdj 0%nat (S j) c d x eq_refl Hj Hx Hxd).
  - apply IH.
    + intros i d Hi. by apply (Hnd (S i)).
    + intros i j d e x Hi Hj Hx Hx'. specialize (Hdj (S i) (S j) d e x Hi Hj Hx Hx'). lia.
Qed.

Lemma cid_table_NoDup o : opens_ok o → NoDup (concat (bkt_cid o)).
Proof.
  intros [_ [Hl Hn Hm] _ _ _ _]. apply NoDup_concat_lookup; [done|].
  intros i j c d p Hi Hj Hp Hp'. apply (Hm _ _ _ Hi) in Hp as (it & k & Hit & Hk & <-).
  apply (Hm _ _ _ Hj) in Hp' as (it' & k' & Hit' & Hk' & <-). unfold key_cid in *. congruence.
Qed.

Lemma cid_table_mem o p : opens_ok o → p ∈ concat (bkt_cid o) ↔ ∃ it, o_heap o !! p = Some it.
Proof.
  intros [(k & _ & Hk) Hc _ _ _ _]. pose proof Hc as [Hl Hn Hm]. split.
  - intros Hp. apply list_elem_of_In, in_concat in Hp as (c & Hc' & Hp).
    apply list_elem_of_In, list_elem_of_lookup in Hc' as [i Hi]. apply list_elem_of_In in Hp.
    apply (Hm _ _ _ Hi) in Hp as (it & ? & ? & _). eauto.
  - intros [it Hit]. pose proof (chain_at_lookup _ _ k Hk _ _ (it_cid it) Hc) as Hlk.
    apply list_elem_of_In, in_concat. eexists. split.
    + apply list_elem_of_In. by eapply list_elem_of_lookup_2.
    + apply list_elem_of_In. apply (Hm _ _ _ Hlk). by exists it, (it_cid it).
Qed.

(** ** Frames of the file operations *)

Section Swap.
Context `{JanssonLaws} `{Sha256} {E : env}.

(** The file system stays sane, and the entry [path], durable if it was, and
    the inode [fd] are untouched. *)
Definition keeps (path : string) (fd : nat) (f f' : fsys) : Prop :=
  fs_ok f' ∧ fs_dir f' !! path = fs_dir f !! path ∧ fs_ino f' !! fd = fs_ino f !! fd ∧
  (fs_ddir f !! path = fs_dir f !! path → fs_ddir f' !! path = fs_dir f' !! path).

Lemma keeps_refl path fd f : fs_ok f → keeps path fd f f.
Proof. intros Hf. unfold keeps. done. Qed.

Lemma keeps_trans path fd f1 f2 f3 : keeps path fd f1 f2 → keeps path fd f2 f3 → keeps path fd f1 f3.
Proof. intros (? & ? & ? & ?) (? & ? & ? & ?). split_and!; [done|congruence|congruence|auto]. Qed.

(** A second name for an existing file. *)
Lemma link_keeps path fd f old new cur :
  fs_ok f → fs_dir f !! old = Some cur → path ≠ new →
  keeps path fd f (set_dir f (<[new := cur]> (fs_dir f))).
Proof.
  intros [Hd Hi] Hcur Hne. split_and!; simpl; [|by rewrite lookup_insert_ne|done|by rewrite lookup_insert_ne].
  split; simpl; [|done]. intros p j. destruct (decide (p = new)) as [->|Hp].
  - rewrite lookup_insert_eq. intros [= <-]. eauto.
  - rewrite lookup_insert_ne by done. eauto.
Qed.

Lemma keeps_settled path fd f f' data :
  keeps path fd f f' → sink_at f path fd data → settled f path fd → settled f' path fd.
Proof.
  intros (_ & Hd & Hi & Hdd) (Hp & _) (Hs & Hdur). split; [rewrite Hdd; congruence|].
  unfold file_durable, file_data in *. by rewrite Hi.
Qed.

Lemma keeps_sink path fd f f' data : keeps path fd f f' → sink_at f path fd data → sink_at f' path fd data.
Proof. intros (_ & Hd & Hi & _) (Hp & i & Hi' & Hrest). split; [congruence|]. exists i. split; [congruence|done]. Qed.

Lemma only_file_keeps path fd pfd f f' :
  only_file pfd f f' → pfd ≠ fd → fs_ok f → (∃ i, fs_ino f !! pfd = Some i) → keeps path fd f f'.
Proof.
  intros (Hd & Hdd & Hn & Ho & _) Hne [Hdir Hino] [i Hi]. split_and!.
  - split.
    + intros p j. rewrite Hd, Hn. apply Hdir.
    + intros j i'. rewrite Hn. destruct (decide (j = pfd)) as [->|Hj]; [by intros; eapply Hino|].
      rewrite Ho by done. apply Hino.
  - by rewrite Hd.
  - by apply Ho.
  - by rewrite Hd, Hdd.
Qed.

Lemma unlink_spec path fd other f t (Q : bool → world → Prop) :
  fs_ok f → path ≠ other →
  (∀ ok t' f', keeps path fd f f' → fs_ino f' = fs_ino f → fs_next f' = fs_next f →
     ((∀ n, e_unlink n = true) → fs_dir f' !! other = None ∨
        ∃ j i, fs_dir f' !! other = Some j ∧ fs_ino f' !! j = Some i ∧ i_kind i = KDir) →
     Q ok (World t' f')) →
  wp (sys_unlink other) Q (World t f).
Proof.
  intros Hfs Hne HQ. unfold sys_unlink. apply wp_bind, wp_get. cbn [w_fs].
  destruct (fs_dir f !! other) as [j|] eqn:Ho; [|apply wp_ret, HQ; auto using keeps_refl].
  assert (Hrest : ∀ P : Prop, wp (let! ok := ask e_unlink in
      if ok then on_fs (λ f, set_dir f (delete other (fs_dir f))) ;;; mreturn true
      else mreturn false) Q (World t f)).
  { intros _. apply wp_bind, wp_ask. cbn [w_tick w_fs]. destruct (e_unlink t) eqn:Hu.
    - apply wp_bind, wp_modify, wp_ret. unfold set_fs. cbn [w_tick w_fs]. apply HQ; try done.
      + destruct Hfs as [Hdir Hino]. split_and!; simpl;
          [|by rewrite lookup_delete_ne|done|by rewrite lookup_delete_ne].
        split; [|done]. simpl. intros p k Hp. apply lookup_delete_Some in Hp as [_ Hp]. eauto.
      + intros _. left. simpl. apply lookup_delete_eq.
    - apply wp_ret, HQ; [by apply keeps_refl|done..|]. intros Hall. by rewrite Hall in Hu. }
  destruct (fs_ino f !! j) as [[[] ? ? ? ?]|] eqn:Hj; try by apply (Hrest True).
  apply wp_ret, HQ; [by apply keeps_refl|done..|]. intros _. right. eauto.
Qed.

Lemma fsync_dir_spec p path fd f t (Q : bool → world → Prop) :
  fs_ok f →
  (∀ ok t' f', keeps path fd f f' → fs_dir f' = fs_dir f → fs_ino f' = fs_ino f →
     (healthy → ok = true) → (ok = true → fs_ddir f' = fs_dir f) → Q ok (World t' f')) →
  wp (rab_fsync_parent_dir p) Q (World t f).
Proof.
  intros Hfs HQ. unfold rab_fsync_parent_dir. pose proof (keeps_refl path fd f Hfs).
  apply wp_bind, wp_ask_ok. intros ok1 t1 Hh1. destruct ok1; cbn [negb]; [|by apply wp_ret, HQ].
  apply wp_bind, wp_ask_ok. intros ok2 t2 Hh2. destruct ok2; cbn [negb]; [|by apply wp_ret, HQ].
  apply wp_bind, wp_ask_ok. intros ok3 t3 Hh3. destruct ok3; [|by apply wp_ret, HQ].
  apply wp_bind, wp_modify, wp_ret. unfold set_fs. cbn [w_tick w_fs]. apply HQ; try done.
  destruct Hfs as [Hd Hi]. split_and!; simpl; try done.
Qed.

Lemma create_keeps path fd pending f :
  fs_ok f → path ≠ pending → fd ≠ fs_next f → keeps path fd f (create_file pending e_euid f).
Proof.
  intros [Hd Hi] Hne Hfd. split_and!; unfold create_file; simpl;
    [|by rewrite lookup_insert_ne|by rewrite lookup_insert_ne|by rewrite lookup_insert_ne].
  split; simpl.
  - intros p k Hp. destruct (decide (p = pending)) as [->|Hpp].
    + rewrite lookup_insert_eq in Hp. injection Hp as <-. lia.
    + rewrite lookup_insert_ne in Hp by done. apply Hd in Hp. lia.
  - intros k i Hki. destruct (decide (k = fs_next f)) as [->|Hkp]; [lia|].
    rewrite lookup_insert_ne in Hki by done. apply Hi in Hki. lia.
Qed.

Lemma chmod_keeps path fd ino mode f :
  fs_ok f → fd ≠ ino → (ino < fs_next f)%nat → keeps path fd f (chmod_ino ino mode f).
Proof.
  intros [Hd Hi] Hne Hlt. unfold chmod_ino, set_ino.
  split_and!; simpl; [|done|by rewrite lookup_alter_ne|done]. split; simpl; [done|].
  intros k i. destruct (decide (k = ino)) as [->|Hkp]; [done|]. rewrite lookup_alter_ne by done. apply Hi.
Qed.

(** Opening the pending segment: a fresh, empty file, or failure. *)
Lemma open_pending_spec path fd pending f t (Q : option nat → world → Prop) :
  fs_ok f → path ≠ pending → fd ≠ fs_next f →
  (fs_dir f !! pending = None ∨
     ∃ j i, fs_dir f !! pending = Some j ∧ fs_ino f !! j = Some i ∧ i_kind i = KDir) →
  (∀ r t' f', keeps path fd f f' →
     (∀ pfd, r = Some pfd → pfd ≠ fd ∧ holds f' pfd [] ∧ fs_dir f' !! pending = Some pfd ∧
        fs_ddir f' !! pending = Some pfd) →
     (healthy → fs_dir f !! pending = None → r ≠ None) → Q r (World t' f')) →
  wp (rab_sink_open pending) Q (World t f).
Proof.
  intros Hfs Hne Hfd Hpend HQ. unfold rab_sink_open, sys_open_excl.
  apply wp_bind, wp_bind, wp_get. cbn [w_fs].
  destruct Hpend as [Hno|(j & [kd ? ? ? ?] & Hj & Hi & Hk)].
  2: { rewrite Hj. apply wp_ret. unfold sys_open_nofollow. apply wp_bind, wp_bind, wp_get. cbn [w_fs].
       rewrite Hj, Hi. simpl in Hk. subst kd. apply wp_ret, wp_ret, HQ; [by apply keeps_refl|done|congruence]. }
  assert (Hdead : ∀ (ok : bool) t' f', keeps path fd f f' → (healthy → ok = true) → ok = false →
                    wp (mreturn None) Q (World t' f')).
  { intros ok t' f' Hk Hh Hok. apply wp_ret, HQ; [done|done|]. intros Hx. specialize (Hh Hx). congruence. }
  rewrite Hno. apply wp_bind, wp_ask_ok. intros ok1 t1 Hh1. destruct ok1;
    [|apply wp_ret; eapply Hdead; [by apply keeps_refl|exact Hh1|done]].
  apply wp_bind, wp_modify, wp_ret. cbn [w_fs set_fs w_tick].
  set (pfd := fs_next f). set (f1 := create_file pending e_euid f).
  pose proof (create_keeps path fd pending f Hfs Hne Hfd) as Hk1. fold f1 in Hk1.
  apply wp_bind. unfold sys_fchmod. apply wp_bind, wp_ask_ok. intros ok2 t2 Hh2.
  destruct ok2; [|apply wp_ret; eapply Hdead; [done|exact Hh2|done]].
  apply wp_bind, wp_modify, wp_ret. cbn [negb w_fs set_fs w_tick].
  set (f2 := chmod_ino pfd 416 f1).
  assert (Hi2 : fs_ino f2 !! pfd = Some (Inode KReg 416 e_euid [] [])).
  { unfold f2, chmod_ino, set_ino, f1, create_file. simpl.
    by rewrite lookup_alter_eq, lookup_insert_eq. }
  assert (Hk2 : keeps path fd f f2).
  { eapply keeps_trans; [done|]. apply chmod_keeps; [apply Hk1|unfold pfd; lia|unfold f1; simpl; lia]. }
  unfold sink_open_finish. apply wp_bind. eapply fstat_file; [exact Hi2|]. intros st t3 Hh3 Hst.
  destruct Hst as [->| ->]; cycle 1.
  { apply wp_ret, HQ; [done|done|]. intros Hx _. by specialize (Hh3 Hx). }
  simpl Z.land. cbn [negb Z.eqb].
  assert (Hdir2 : fs_dir f2 !! pending = Some pfd).
  { unfold f2, f1, create_file. simpl. by rewrite lookup_insert_eq. }
  apply wp_bind. eapply (fsync_dir_spec _ path fd); [apply Hk2|].
  intros ok3 t4 f3 Hk3 Hd3 Hi3 Hh4 Hdd3.
  apply wp_ret, HQ; [by eapply keeps_trans| |intros Hx _; by rewrite (Hh4 Hx)].
  intros q Hq. destruct ok3; [|done]. injection Hq as <-. split_and!.
  - unfold pfd. lia.
  - exists (Inode KReg 416 e_euid [] []). rewrite Hi3. by split_and!.
  - by rewrite Hd3.
  - by rewrite Hdd3.
Qed.
End Swap.

(** ** Retention *)

Lemma strip_prefix_length base name rest :
  strip_prefix base name = Some rest →
  String.length name = (String.length base + 1 + String.length rest)%nat.
Proof.
  revert name. induction base as [|x base IH]; intros [|c name] Hs; simpl in Hs; try done.
  - case_hyp Hs; [|done]. injection Hs as <-. done.
  - case_hyp Hs; [|done]. apply IH in Hs. simpl. lia.
Qed.

Section Retention.
Context `{JanssonLaws} `{Sha256} {E : env}.

Lemma candidate_not_sink b f ok path ino e :
  archive_candidate b f ok path ino = Some e → ae_name e ≠ b_path b.
Proof.
  unfold archive_candidate. destruct (split_path (b_path b)) as [dir base] eqn:Hb.
  destruct (split_path path) as [edir name] eqn:Hp. intros Hc.
  case_hyp Hc; [done|]. destruct (strip_prefix base name) as [rest|] eqn:Hs; [|done].
  assert (Hne : path ≠ b_path b).
  { intros ->. rewrite Hp in Hb. injection Hb as -> ->. apply strip_prefix_length in Hs. lia. }
  inv_guards Hc. by simplify_eq.
Qed.

Lemma collect_spec b ents acc cap f t (Q : option (list archive_ent) → sys → Prop) :
  Forall (λ e, ae_name e ≠ b_path b) acc →
  (∀ r t', (∀ l, r = Some l → Forall (λ e, ae_name e ≠ b_path b) l) →
     Q r (Sys (World t' f) b)) →
  wp (collect_archives b ents acc cap) Q (Sys (World t f) b).
Proof.
  intros Hacc HQ. revert acc cap t Hacc.
  induction ents as [|[path ino] ents IH]; intros acc cap t Hacc; cbn [collect_archives].
  { apply wp_ret, HQ. by intros l [= <-]. }
  apply wp_bind, wp_alloc. intros ok t1 _ _. apply wp_bind, wp_get. cbn [s_w w_fs].
  destruct (archive_candidate b f ok path ino) as [e|] eqn:Hc; [|by apply IH].
  apply candidate_not_sink in Hc.
  assert (Hacc' : Forall (λ e, ae_name e ≠ b_path b) (acc ++ [e]))
    by (apply Forall_app; split; [done|by constructor]).
  case_goal; [|by apply IH].
  apply wp_bind, wp_alloc. intros grown t2 _ _. destruct grown; cbn [negb]; [by apply IH|].
  by apply wp_ret, HQ.
Qed.

Lemma prune_spec cfg ents archives total pruned f b t path fd (Q : bool → sys → Prop) :
  fs_ok f → Forall (λ e, ae_name e ≠ path) ents →
  (∀ r t' f', keeps path fd f f' → Q r (Sys (World t' f') b)) →
  wp (prune_archives cfg ents archives total pruned) Q (Sys (World t f) b).
Proof.
  intros Hfs Hents. revert archives total pruned f t Hfs.
  induction Hents as [|e ents He _ IH]; intros archives total pruned f t Hfs HQ; cbn [prune_archives].
  { apply wp_ret, HQ. by apply keeps_refl. }
  case_goal; [apply wp_ret, HQ; by apply keeps_refl|].
  case_goal; [by apply IH|].
  apply wp_bind, wp_liftW. eapply (unlink_spec path fd); [done|congruence|].
  intros ok t1 f1 Hk _ _ _.
  assert (Hnext : ∀ r t' f', keeps path fd f1 f' → Q r (Sys (World t' f') b))
    by (intros; apply HQ; by eapply keeps_trans).
  destruct ok; (apply IH; [apply Hk|done]).
Qed.

Lemma retention_spec f b t (Q : unit → sys → Prop) :
  fs_ok f →
  (∀ t' f', keeps (b_path b) (b_fd b) f f' → Q tt (Sys (World t' f') b)) →
  wp apply_retention Q (Sys (World t f) b).
Proof.
  intros Hfs HQ. pose proof (keeps_refl (b_path b) (b_fd b) f Hfs) as Hrefl.
  unfold apply_retention. apply wp_bind, wp_getb. cbn [s_b].
  case_goal; [by apply wp_ret, HQ|]. case_goal; [by apply wp_ret, HQ|].
  apply wp_bind, wp_alloc. intros opened t1 _ _. destruct opened; cbn [negb]; [|by apply wp_ret, HQ].
  apply wp_bind, wp_get. apply wp_bind. apply collect_spec; [constructor|].
  intros ents t2 Hents. destruct ents as [ents|]; [|by apply wp_ret, HQ].
  case_goal; [by apply wp_ret, HQ|]. apply wp_bind.
  eapply (prune_spec _ _ _ _ _ _ _ _ (b_path b) (b_fd b)); [done| |].
  { rewrite merge_sort_Permutation. by apply Hents. }
  intros pruned t3 f3 Hk3. destruct pruned; [|by apply wp_ret, HQ].
  apply wp_bind, wp_liftW. eapply (fsync_dir_spec _ (b_path b) (b_fd b)); [apply Hk3|].
  intros ok t4 f4 Hk4 _ _ _ _. apply wp_ret, HQ. by eapply keeps_trans.
Qed.
End Retention.

(** ** Rotation *)

Section Rotate.
Context `{JanssonLaws} `{Sha256} {E : env}.
Context (Hunlink : ∀ n, e_unlink n = true) (K : gset string).

(** What rotation never touches. *)
Definition same_static (b b' : broker) : Prop :=
  b_path b' = b_path b ∧ b_cfg b' = b_cfg b ∧ b_host b' = b_host b ∧ b_opens b' = b_opens b ∧
  b_test_fail b' = b_test_fail b.

(** The state between the carry loops and the swap. *)
Record pending_ready (f : fsys) (b : broker) (A : gmap string intent) (pending : string)
    (pfd : nat) (r : rates) (L : list bytes) : Prop := {
  pr_pfd : pfd ≠ b_fd b;
  pr_pending : fs_dir f !! pending = Some pfd;
  pr_holds : holds f pfd L;
  pr_carried : carried A (mark_checkpoint <$> A) L;
  pr_windows : windows (b_cfg b) r (log_charges L)
}.

Lemma carried_agree A : agree A (mark_checkpoint <$> A).
Proof.
  unfold agree. apply map_eq. intros c. rewrite !lookup_fmap. by destruct (A !! c).
Qed.

Lemma live_keeps f f' b lines st A r :
  live K f b lines st A → keeps (b_path b) (b_fd b) f f' → shrunk (b_cfg b) (b_rates b) r →
  live K f' (set_rates b r) lines st A.
Proof.
  intros Hl Hk Hr. apply (live_rates _ _ _ _ _ _ r) in Hl; [|done]. destruct Hl.
  split; try done; [by eapply keeps_sink|by eapply keeps_settled|apply Hk].
Qed.

(** A rotation given up: the live segment is untouched. *)
Lemma abandoned f f' b lines st A r t :
  live K f b lines st A → b_poisoned b = false → keeps (b_path b) (b_fd b) f f' →
  shrunk (b_cfg b) (b_rates b) r →
  good K (Sys (World t f') (set_rates b r)) A ∧ same_static b (set_rates b r).
Proof.
  intros Hl Hp Hk Hr. split; [|done]. left. split; [done|]. exists lines, st.
  by eapply live_keeps.
Qed.

Lemma wp_abandon pending f0 f b lines st A r t :
  live K f0 b lines st A → b_poisoned b = false → keeps (b_path b) (b_fd b) f0 f →
  shrunk (b_cfg b) (b_rates b) r → b_path b ≠ pending →
  wp (abandon pending) (λ _ s', good K s' A ∧ same_static b (s_b s'))
     (Sys (World t f) (set_rates b r)).
Proof.
  intros Hl Hp Hk Hr Hne. apply wp_bind, wp_liftW.
  eapply (unlink_spec (b_path b) (b_fd b)); [apply Hk|done|].
  intros ok t' f' Hk' _ _ _. apply wp_ret. eapply abandoned; eauto. by eapply keeps_trans.
Qed.

(** After the rename: the new segment is the log. *)
Lemma carried_known f b lines st A :
  live K f b lines st A → sp_ids (Spec (mark_checkpoint <$> A) ∅) ⊆ K.
Proof.
  intros [? ? Hag Hkn]. unfold sp_ids in *. cbn [sp_open sp_closed]. rewrite dom_fmap_L.
  assert (Hd' : dom A = dom (sp_open st)).
  { rewrite <- (dom_fmap_L erase A), <- (dom_fmap_L erase (sp_open st)). by rewrite Hag. }
  rewrite Hd'. set_solver.
Qed.

Lemma holds_sink f path pfd L :
  fs_dir f !! path = Some pfd → holds f pfd L → sink_at f path pfd (encode L).
Proof. intros Hd (i & Hi & Hk & Hda & _ & Hm). split; [done|]. by exists i. Qed.

Lemma swapped_live f0 b lines st A r f pfd L n :
  live K f0 b lines st A → shrunk (b_cfg b) (b_rates b) r → windows (b_cfg b) r (log_charges L) →
  fs_ok f → fs_dir f !! b_path b = Some pfd → fs_ddir f !! b_path b = Some pfd →
  holds f pfd L → carried A (mark_checkpoint <$> A) L →
  live K f (set_seg (set_fd (set_rates b r) pfd) n) L (Spec (mark_checkpoint <$> A) ∅) A.
Proof.
  intros Hl Hr Hw Hfs Hd Hdd Hh [Hcl Hcr _]. pose proof (carried_known _ _ _ _ _ Hl).
  destruct Hl as [? ? ? ? ? ? [_ Hc] ? ? ? ? ? ?].
  split; try done; [apply carried_agree|apply Hr| |by apply holds_sink|].
  { split; [done|]. eapply counted_same; [apply Hr|done]. }
  split; [done|]. destruct Hh as (i & Hi & _ & _ & Hdur & _).
  unfold file_durable, file_data. simpl. rewrite Hi. done.
Qed.

Lemma swapped_recoverable f0 b lines st A f pfd L b' :
  live K f0 b lines st A → fs_dir f !! b_path b = Some pfd → holds f pfd L →
  carried A (mark_checkpoint <$> A) L → b_path b' = b_path b → b_fd b' = pfd →
  recoverable K f b' A.
Proof.
  intros Hl Hd Hh [Hcl Hcr _] Hp Hf. exists (Spec (mark_checkpoint <$> A) ∅).
  split_and!; [|apply carried_agree|by eapply carried_known|apply Hl].
  exists L, []. rewrite app_nil_r, Hp, Hf. split_and!; try done; [by apply holds_sink|set_solver].
Qed.

Lemma rename_keeps f pending path pfd i :
  fs_ok f → fs_dir f !! pending = Some pfd → fs_ino f !! pfd = Some i →
  fs_ok (set_dir f (<[path := pfd]> (delete pending (fs_dir f)))).
Proof.
  intros [Hd Hi] Hp Hpi. split; simpl; [|done]. intros p j Hj.
  destruct (decide (p = path)) as [->|Hne].
  - rewrite lookup_insert_eq in Hj. injection Hj as <-. eauto.
  - rewrite lookup_insert_ne in Hj by done. apply lookup_delete_Some in Hj as [_ Hj]. eauto.
Qed.

(** From the rename on: the new segment is in place. *)
Lemma swap_tail_spec f0 b lines st A r pfd L f t :
  live K f0 b lines st A → b_poisoned b = false → shrunk (b_cfg b) (b_rates b) r →
  windows (b_cfg b) r (log_charges L) → fs_ok f → fs_dir f !! b_path b = Some pfd → holds f pfd L →
  carried A (mark_checkpoint <$> A) L →
  wp (let! durable := liftW (rab_fsync_parent_dir (b_path b)) in
      (if durable then mreturn tt else modb set_poisoned) ;;;
      modb (λ b, set_fd b pfd) ;;;
      let! st := liftW (sys_fstat pfd) in
      modb (λ b, set_seg b (match st with Some i => blen (i_data i) | None => 0 end)) ;;;
      let! b := getb in
      (if b_poisoned b then mreturn tt else apply_retention) ;;;
      let! b := getb in
      mreturn (negb (b_poisoned b)))
     (λ _ s', good K s' A ∧ same_static b (s_b s')) (Sys (World t f) (set_rates b r)).
Proof.
  intros Hl Hp Hr Hw Hfs Hd Hh Hc. apply wp_bind, wp_liftW.
  eapply (fsync_dir_spec _ (b_path b) pfd); [done|]. intros durable t1 f1 Hk1 Hd1 Hi1 _ Hdd1.
  assert (Hh1 : holds f1 pfd L) by (destruct Hh as (i & Hi & Hx); exists i; rewrite Hi1; done).
  pose proof Hh1 as (i1 & Hi1' & _).
  destruct durable.
  - specialize (Hdd1 eq_refl).
    assert (Hlive : ∀ n, live K f1 (set_seg (set_fd (set_rates b r) pfd) n) L
                            (Spec (mark_checkpoint <$> A) ∅) A).
    { intros n. eapply swapped_live; eauto; [apply Hk1|by rewrite Hd1|by rewrite Hdd1]. }
    apply wp_bind, wp_ret, wp_bind, wp_modb, wp_bind, wp_liftW.
    eapply fstat_file; [done|]. intros st' t2 _ _.
    set (n := match st' with Some i => blen (i_data i) | None => 0 end).
    apply wp_bind, wp_modb, wp_bind, wp_getb. cbn [s_b set_seg set_fd set_rates b_poisoned].
    rewrite Hp. apply wp_bind. apply retention_spec; [apply Hk1|]. intros t3 f3 Hk3.
    apply wp_bind, wp_getb, wp_ret. split; [|done]. left. split; [done|].
    exists L, (Spec (mark_checkpoint <$> A) ∅).
    pose proof (live_keeps _ _ _ _ _ _ r (Hlive n) Hk3 (shrunk_refl _ _ (sh_ok _ _ _ Hr))) as Hx.
    exact Hx.
  - apply wp_bind, wp_modb, wp_bind, wp_modb, wp_bind, wp_liftW.
    eapply fstat_file; [done|]. intros st' t2 _ _.
    apply wp_bind, wp_modb, wp_bind, wp_getb. cbn [s_b set_seg set_fd set_rates set_poisoned b_poisoned].
    apply wp_bind, wp_ret, wp_bind, wp_getb, wp_ret. split; [|done]. right. split; [done|].
    eapply swapped_recoverable; [exact Hl| |exact Hh1|exact Hc|done|done]. cbn [s_w w_fs]. by rewrite Hd1.
Qed.

Lemma rotate_swap_spec f0 f b lines st A r pending arch pfd L t :
  live K f0 b lines st A → b_poisoned b = false → keeps (b_path b) (b_fd b) f0 f →
  shrunk (b_cfg b) (b_rates b) r → pending_ready f b A pending pfd r L →
  b_path b ≠ pending → b_path b ≠ arch → pending ≠ arch →
  wp (rotate_swap pending pfd arch) (λ _ s', good K s' A ∧ same_static b (s_b s'))
     (Sys (World t f) (set_rates b r)).
Proof.
  intros Hl Hp Hk Hr [Hpfd Hpend Hh Hc Hw] Hn1 Hn2 Hn3. unfold rotate_swap.
  apply wp_bind, wp_getb. cbn [s_b set_rates b_path].
  apply wp_bind, wp_alloc. intros locked t1 _ _. destruct locked; cbn [negb]; [|by eapply wp_abandon].
  pose proof Hk as (Hfs & _).
  (* link *)
  set (fail2 := liftW (sys_unlink pending) ;;; liftW (sys_unlink arch) ;;; mreturn false).
  assert (Hfail : ∀ t' f', keeps (b_path b) (b_fd b) f0 f' →
    wp fail2 (λ _ s', good K s' A ∧ same_static b (s_b s')) (Sys (World t' f') (set_rates b r))).
  { intros t' f' Hk'. apply wp_bind, wp_liftW.
    eapply (unlink_spec (b_path b) (b_fd b)); [apply Hk'|done|]. intros ok1 t2 f2 Hk2 _ _ _.
    apply wp_bind, wp_liftW. eapply (unlink_spec (b_path b) (b_fd b)); [apply Hk2|done|].
    intros ok3 t3 f3 Hk3 _ _ _. apply wp_ret. eapply abandoned; eauto.
    eapply keeps_trans; [exact Hk'|]. by eapply keeps_trans. }
  apply wp_bind, wp_liftW. unfold sys_link. apply wp_bind, wp_get. cbn [w_fs].
  destruct (fs_dir f !! b_path b) as [cur|] eqn:Hcur.
  2: { apply wp_ret. apply wp_bind, wp_ret. cbn [negb]. by apply Hfail. }
  destruct (fs_dir f !! arch) as [?|] eqn:Harch.
  { apply wp_ret. apply wp_bind, wp_ret. cbn [negb]. by apply Hfail. }
  apply wp_bind, wp_ask_ok. intros ok t2 _. destruct ok.
  2: { apply wp_ret. apply wp_bind, wp_ret. cbn [negb]. by apply Hfail. }
  apply wp_bind, wp_modify, wp_ret. cbn [w_fs set_fs w_tick].
  set (f1 := set_dir f (<[arch := cur]> (fs_dir f))).
  pose proof (link_keeps (b_path b) (b_fd b) f _ arch cur Hfs Hcur Hn2) as Hln.
  pose proof (proj1 Hln) as Hfs1. pose proof (keeps_trans _ _ _ _ _ Hk Hln) as Hk1.
  apply wp_bind, wp_liftW. eapply (fsync_dir_spec _ (b_path b) (b_fd b)); [done|].
  intros synced t3 f2 Hk2 Hd2 Hi2 _ _. destruct synced; cbn [negb].
  2: { apply Hfail. by eapply keeps_trans. }
  (* rename *)
  assert (Hpend2 : fs_dir f2 !! pending = Some pfd).
  { rewrite Hd2. unfold f1. simpl. by rewrite lookup_insert_ne. }
  destruct Hh as (i & Hi & Hrest).
  assert (Hi2' : fs_ino f2 !! pfd = Some i) by (rewrite Hi2; done).
  apply wp_bind, wp_liftW. unfold sys_rename. apply wp_bind, wp_get. cbn [w_fs]. rewrite Hpend2.
  apply wp_bind, wp_ask_ok. intros ok t4 _. destruct ok.
  2: { apply wp_ret. cbn [negb]. eapply wp_abandon; eauto. by eapply keeps_trans. }
  apply wp_bind, wp_modify, wp_ret. cbn [w_fs set_fs w_tick negb].
  eapply swap_tail_spec; eauto.
  - eapply rename_keeps; eauto. apply Hk2.
  - simpl. by rewrite lookup_insert_eq.
  - exists i. by split.
Qed.

Lemma arch_neq path ts : path ≠ path +:+ "." +:+ print_u ts.
Proof.
  intros Hp. apply (f_equal strlen) in Hp. rewrite !strlen_app in Hp.
  change (strlen ".") with 1 in Hp. pose proof (strlen_nonneg (print_u ts)). lia.
Qed.

Lemma pending_arch_neq path ts : 0 ≤ ts → path +:+ ".pending" ≠ path +:+ "." +:+ print_u ts.
Proof.
  intros Hts Hp. destruct (print_u_head ts Hts) as (d & r & Hd & Hr).
  assert (Hx : bs ".pending" = bs ("." +:+ print_u ts)).
  { apply (app_inv_head (bs path)). by rewrite <- !bs_app, Hp. }
  rewrite Hd in Hx. simpl in Hx. injection Hx as Hx _.
  apply (f_equal byte_val) in Hx. rewrite digit_char_val in Hx by done.
  change (byte_val "p") with 112 in Hx. lia.
Qed.

(** The carried map covers the whole open set. *)
Lemma carried_all o A B L :
  represents o A → carried A B L →
  (∀ p it, p ∈ concat (bkt_cid o) → o_heap o !! p = Some it →
     B !! it_cid it = Some (mark_checkpoint it)) →
  B = mark_checkpoint <$> A.
Proof.
  intros Hrep Hcd Hall. apply map_eq. intros c. rewrite lookup_fmap.
  destruct (A !! c) as [it|] eqn:HA; simpl.
  - destruct (rp_out _ _ Hrep _ _ HA) as (<- & p & Hp). apply (Hall p); [|done].
    apply cid_table_mem; [apply Hrep|eauto].
  - destruct (B !! c) as [it'|] eqn:HB; [|done].
    destruct (cd_from _ _ _ Hcd _ _ HB) as (it & HA' & _). congruence.
Qed.

(** Whatever fails on the way, the broker ends with its open set logged. *)
Lemma rotate_spec f b lines st A t :
  live K f b lines st A → b_poisoned b = false →
  wp rotate (λ _ s', good K s' A ∧ same_static b (s_b s')) (Sys (World t f) b).
Proof.
  intros Hl Hp. pose proof Hl as [Hrep Hset _ _ Hcfg Hr [[_ Hoff] _] Hsink _ _ _ Hfs _].
  pose proof (shrunk_refl _ _ Hr) as Hsr.
  assert (Hb : b = set_rates b (b_rates b)) by (by destruct b).
  pose proof (keeps_refl (b_path b) (b_fd b) f Hfs) as Hk0.
  pose proof (pending_neq (b_path b)) as Hn1.
  unfold rotate. apply wp_bind, wp_getb. cbn [s_b].
  set (pending := b_path b +:+ ".pending") in *.
  assert (Hstop : ∀ t' f', keeps (b_path b) (b_fd b) f f' →
            wp (mreturn false) (λ _ s', good K s' A ∧ same_static b (s_b s')) (Sys (World t' f') b)).
  { intros t' f' Hk. apply wp_ret. rewrite Hb at 1 3. by eapply abandoned. }
  case_goal; [by apply Hstop|].
  apply wp_bind, wp_liftW. eapply (unlink_spec (b_path b) (b_fd b)); [done|done|].
  intros ok t1 f1 Hk1 _ Hnext1 Hgone. specialize (Hgone Hunlink).
  assert (Hfd : (b_fd b < fs_next f1)%nat).
  { rewrite Hnext1. destruct Hsink as (Hd & _). by apply (fo_dir _ Hfs (b_path b)). }
  apply wp_bind, wp_liftW. eapply (open_pending_spec (b_path b) (b_fd b)); [apply Hk1|done|lia|done|].
  intros pfd t2 f2 Hk2 Hpfd _.
  assert (Hk02 : keeps (b_path b) (b_fd b) f f2) by (by eapply keeps_trans).
  destruct pfd as [pfd|]; [|by apply Hstop].
  destruct (Hpfd pfd eq_refl) as (Hne & Hh2 & Hdir2 & _).
  assert (Hof : ∀ f', only_file pfd f2 f' → keeps (b_path b) (b_fd b) f f' ∧
                      fs_dir f' !! pending = Some pfd).
  { intros f' Hof. split; [|destruct Hof as (-> & _); done].
    eapply keeps_trans; [exact Hk02|]. eapply only_file_keeps; [done|done|apply Hk2|].
    destruct Hh2 as (i & Hi & _). eauto. }
  apply wp_bind. eapply wp_mono.
  { apply (carry_intents_spec _ pfd A ∅ []); try done.
    - by apply cid_table_NoDup, Hrep.
    - intros p Hpm. apply cid_table_mem in Hpm as [it Hit]; [|apply Hrep]. exists it. split; [done|].
      by rewrite lookup_empty. }
  intros ok3 [[t3 f3] b3] (Hb3 & Hof3 & Hok3). cbn [s_b s_w w_fs] in *. subst b3.
  destruct (Hof _ Hof3) as [Hk03 Hdir3].
  destruct ok3; cbn [negb].
  2: { replace (Sys (World t3 f3) b) with (Sys (World t3 f3) (set_rates b (b_rates b)))
         by (by rewrite <- Hb). by eapply wp_abandon. }
  destruct (Hok3 eq_refl) as (B & L & Hcd & Hqt & Hh3 & _ & Hall).
  apply (carried_all _ _ _ _ Hrep Hcd) in Hall. subst B.
  apply wp_bind. eapply wp_mono; [by apply (write_carries_spec pfd A (mark_checkpoint <$> A) L)|].
  intros ok4 [[t4 f4] b4] (r4 & Hb4 & Hr4 & Hof4 & Hok4). cbn [s_b s_w w_fs] in *. subst b4.
  destruct (Hof f4) as [Hk04 Hdir4]; [by eapply only_file_trans|].
  destruct ok4; cbn [negb]; [|by eapply wp_abandon].
  destruct (Hok4 eq_refl) as (L4 & Hcd4 & Hw4 & Hh4).
  apply wp_bind, wp_clock. intros ts t5 _ Hts. case_goal; [by eapply wp_abandon|].
  eapply (rotate_swap_spec f); try done.
  - apply arch_neq.
  - apply pending_arch_neq. lia.
Qed.

Lemma maybe_rotate_spec f b lines st A t (Q : unit → sys → Prop) :
  live K f b lines st A → b_poisoned b = false →
  (∀ s', good K s' A → same_static b (s_b s') → Q tt s') →
  wp maybe_rotate Q (Sys (World t f) b).
Proof.
  intros Hl Hp HQ. unfold maybe_rotate. apply wp_bind, wp_getb. case_goal.
  - apply wp_ret, HQ; [|done]. left. split; [done|]. eauto.
  - apply wp_bind. eapply wp_mono; [by eapply rotate_spec|]. intros _ s' [? ?]. by apply wp_ret, HQ.
Qed.
End Rotate.
