(* ===== verification/Ticks.v ===== *)
(** * Ticks only advance

    Every question to the environment takes the next tick, so no computation of
    the broker goes back to an answer it has already seen.  [forward_tac] walks
    through a computation and proves it. *)

From stdpp Require Import base gmap strings list fin_maps sorting.
From Stdlib Require Import ZArith Lia.
From S2P Require Import Prelude Jansson Env Id Sink Request Peer Record Receipt Rate OpenSet.
From S2P Require Import Broker.

Definition forward {S A} (tick : S → nat) (m : M S A) : Prop :=
  ∀ s, (tick s ≤ tick (m s).2)%nat.

Definition s_tick (s : sys) : nat := w_tick (s_w s).

Section Forward.
Context {S : Type} (tick : S → nat).

Lemma fw_ret {A} (a : A) : forward tick (mreturn a).
Proof. intros s. done. Qed.

Lemma fw_bind {A B} (m : M S A) (k : A → M S B) :
  forward tick m → (∀ a, forward tick (k a)) → forward tick (mbnd m k).
Proof.
  intros Hm Hk s. unfold mbnd. specialize (Hm s). destruct (m s) as [a s']. simpl in Hm.
  etrans; [exact Hm|apply Hk].
Qed.

Lemma fw_get : forward tick mget.
Proof. intros s. done. Qed.
Lemma wp_forward {A} (m : M S A) (Q : A → S → Prop) s :
  forward tick m → wp m Q s → wp m (λ a s', (tick s ≤ tick s')%nat ∧ Q a s') s.
Proof. intros Hf Hw. split; [apply Hf|done]. Qed.
End Forward.

Lemma fw_ask {A} (g : nat → A) : forward w_tick (ask g).
Proof. intros [t f]. simpl. lia. Qed.

Lemma fw_on_fs g : forward w_tick (on_fs g).
Proof. intros [t f]. done. Qed.

Lemma fw_lift {A} (m : M world A) : forward w_tick m → forward s_tick (liftW m).
Proof.
  intros Hm [w b]. unfold liftW, zoom, s_tick. specialize (Hm w). simpl.
  by destruct (m w).
Qed.

Lemma fw_modb g : forward s_tick (modb g).
Proof. intros [w b]. done. Qed.

Lemma fw_getb : forward s_tick getb.
Proof. intros [w b]. done. Qed.

Lemma fw_error code msg : forward s_tick (error code msg).
Proof. apply fw_ret. Qed.

Create HintDb forward.
#[export] Hint Resolve fw_ret fw_get fw_ask fw_on_fs fw_modb fw_getb fw_error fw_lift : forward.

(** Walk through a computation: every branch, every bind. *)
Ltac forward_tac :=
  intros; repeat first
  [ solve [eauto 2 with forward]
  | match goal with |- forward _ (mbnd _ _) => apply fw_bind; [|intros ?] end
  | match goal with |- forward _ (liftW _) => apply fw_lift end
  | match goal with |- forward _ (match ?x with _ => _ end) => destruct x end
  | match goal with |- forward _ (let '(_, _) := ?x in _) => destruct x end
  | progress cbv zeta ].

Section Ticks.
Context `{Jansson} `{Sha256} {E : env}.

Lemma fw_fstat i : forward w_tick (sys_fstat i).
Proof. unfold sys_fstat. forward_tac. Qed.

Lemma fw_unlink p : forward w_tick (sys_unlink p).
Proof. unfold sys_unlink. forward_tac. Qed.

Lemma fw_link p p' : forward w_tick (sys_link p p').
Proof. unfold sys_link. forward_tac. Qed.

Lemma fw_rename p p' : forward w_tick (sys_rename p p').
Proof. unfold sys_rename. forward_tac. Qed.

Lemma fw_fsync_dir p : forward w_tick (rab_fsync_parent_dir p).
Proof. unfold rab_fsync_parent_dir. forward_tac. Qed.

Lemma fw_write_full i b : forward w_tick (sys_write_full i b).
Proof. unfold sys_write_full. forward_tac. Qed.

Lemma fw_fdatasync i : forward w_tick (sys_fdatasync i).
Proof. unfold sys_fdatasync. forward_tac. Qed.

#[local] Hint Resolve fw_fstat fw_unlink fw_link fw_rename fw_fsync_dir fw_write_full
  fw_fdatasync : forward.

Lemma fw_sink_append i l : forward w_tick (rab_sink_append i l).
Proof. unfold rab_sink_append. forward_tac. Qed.

Lemma fw_sink_open p : forward w_tick (rab_sink_open p).
Proof.
  unfold rab_sink_open, sys_open_excl, sys_open_nofollow, sys_fchmod, sink_open_finish. forward_tac.
Qed.

Lemma fw_write_once i b : forward w_tick (write_once i b).
Proof. unfold write_once. forward_tac. Qed.

Lemma fw_alloc : forward s_tick alloc.
Proof. unfold alloc. forward_tac. Qed.

Lemma fw_clock : forward s_tick clock.
Proof. unfold clock. forward_tac. Qed.

#[local] Hint Resolve fw_sink_append fw_sink_open fw_write_once fw_alloc fw_clock : forward.

Lemma fw_built o : forward s_tick (built o).
Proof. unfold built. forward_tac. Qed.

Lemma fw_check_rate u n : forward s_tick (check_rate u n).
Proof. unfold check_rate. forward_tac. Qed.

Lemma fw_check_bytes u n b : forward s_tick (check_bytes u n b).
Proof. unfold check_bytes. forward_tac. Qed.

Lemma fw_note u n b : forward s_tick (note_write u n b).
Proof. unfold note_write. forward_tac. Qed.

Lemma fw_free : forward s_tick enough_free_space.
Proof. unfold enough_free_space. forward_tac. Qed.

Lemma fw_append l : forward s_tick (append_line l).
Proof. unfold append_line. forward_tac. Qed.

Lemma fw_collect b ds acc cap : forward s_tick (collect_archives b ds acc cap).
Proof.
  revert acc cap. induction ds as [|[p i] ds IH]; intros; cbn [collect_archives]; forward_tac.
Qed.

Lemma fw_prune cfg es n t p : forward s_tick (prune_archives cfg es n t p).
Proof. revert n t p. induction es as [|e es IH]; intros; cbn [prune_archives]; forward_tac. Qed.

Lemma fw_carry_uids fd th us : forward s_tick (carry_uids fd th us).
Proof. induction us as [|u us IH]; cbn [carry_uids]; forward_tac. Qed.

Lemma fw_carry_intents fd ps : forward s_tick (carry_intents fd ps).
Proof.
  pose proof fw_built. induction ps as [|p ps IH]; cbn [carry_intents]; forward_tac.
Qed.

#[local] Hint Resolve fw_built fw_check_rate fw_check_bytes fw_note fw_free fw_append fw_collect
  fw_prune fw_carry_uids fw_carry_intents : forward.

Lemma fw_retention : forward s_tick apply_retention.
Proof. unfold apply_retention. forward_tac. Qed.

Lemma fw_carries fd : forward s_tick (write_rate_carries fd).
Proof. unfold write_rate_carries. forward_tac. Qed.

#[local] Hint Resolve fw_retention fw_carries : forward.

Lemma fw_maybe_rotate : forward s_tick maybe_rotate.
Proof. unfold maybe_rotate, rotate, rotate_swap, abandon. forward_tac. Qed.

Lemma fw_mint_token n b : forward s_tick (mint_token n b).
Proof. induction n as [|n IH]; cbn [mint_token]; forward_tac. Qed.

#[local] Hint Resolve fw_maybe_rotate fw_mint_token : forward.

Lemma fw_issue c s h : forward s_tick (rab_broker_issue_receipt c s h).
Proof. unfold rab_broker_issue_receipt, read_bootid, issue_commit. forward_tac. Qed.

Lemma fw_redeem c tk r p v rs s h : forward s_tick (rab_broker_redeem_receipt c tk r p v rs s h).
Proof. unfold rab_broker_redeem_receipt, read_bootid, redeem_commit. forward_tac. Qed.

#[local] Hint Resolve fw_issue fw_redeem : forward.

Lemma fw_open_commit actor q now cid bd : forward s_tick (open_commit actor q now cid bd).
Proof. unfold open_commit, open_effect, add_open. forward_tac. Qed.

Lemma fw_handle actor q : forward s_tick (rab_broker_handle actor q).
Proof.
  unfold rab_broker_handle, handle_open, handle_outcome, handle_emit, handle_capabilities,
    handle_redeem, open_commit, outcome_commit, emit_commit, open_effect, get_uid, mint_cid,
    mint_binding, add_open, remove_open. forward_tac.
Qed.
End Ticks.
