(* ===== verification/Serve.v ===== *)
(** * Handlers against an abstract contract

    [evolves actor q A resp A']: answering request [q] of [actor] with [resp]
    takes the open set from [A] to [A'].  The main lemma is a simulation: from a
    live broker every handled request follows the contract, and the broker ends
    live with [A'] in memory and in the log, or poisoned with a log that still
    replays. *)

From stdpp Require Import base gmap strings list fin_maps sorting.
From Stdlib Require Import ZArith Lia Ascii.
From S2P Require Import Prelude CString Jansson Env Id Sink Request Peer Record Receipt Rate.
From S2P Require Import OpenSet Broker Reconstruct Spec Recovery Live Rotation Ticks.

Local Open Scope string_scope.
Local Open Scope list_scope.
Local Open Scope Z_scope.

(** ** The contract *)

(** The intent an open request creates. *)
Definition opened_intent (actor : rab_actor) (kvs : list (string * json)) (cid binding : string)
  : intent :=
  Intent cid binding actor (record_field kvs "operation") (record_field kvs "resource")
    (record_field kvs "scope") false None.

Section Contract.
Context `{Jansson} `{Sha256} {E : env}.

(** An issued receipt for [it] whose token is [tok]. *)
Definition issued (q : rab_request) (it : intent) (A : gmap string intent) (tok : string)
    (rc : receipt) : Prop :=
  receipt_bound it rc ∧ rc_state rc = RAB_RCPT_ISSUED ∧
  token_verifier tok = Some (rc_verifier rc) ∧ tok ≠ it_binding it ∧
  verifier_used A (rc_verifier rc) = false ∧
  rc_plan_schema rc = rq_effect_plan_schema q ∧ rc_plan_hash rc = rq_effect_plan_hash q.

(** Everything a redemption has to establish. *)
Definition redeemable (actor : rab_actor) (q : rab_request) (it : intent) (rc : receipt) : Prop :=
  a_uid actor = 0 ∧ it_rcpt it = Some rc ∧ rc_state rc = RAB_RCPT_ISSUED ∧
  token_verifier (rq_effect_receipt q) = Some (rc_verifier rc) ∧
  rq_redeem_principal_uid q = rc_actor_uid rc ∧ rq_redeem_verb q = rc_verb rc ∧
  rq_redeem_resource q = rc_resource rc ∧ rq_redeem_plan_schema q = rc_plan_schema rc ∧
  rq_redeem_plan_hash q = rc_plan_hash rc ∧
  ∃ n m now boot, e_boottime n = Some now ∧ e_bootid m = Some boot ∧
    receipt_unexpired rc (u64 now) boot = true.

Definition is_error (r : response) : Prop := ∃ code msg, r = RespError code msg.

Inductive evolves (actor : rab_actor) (q : rab_request) (A : gmap string intent)
  : response → gmap string intent → Prop :=
| ev_refused r : is_error r → evolves actor q A r A
| ev_capabilities : rq_type q = RAB_REQ_CAPABILITIES → evolves actor q A RespCapabilities A
| ev_open kvs cid binding :
    rq_type q = RAB_REQ_OPEN_INTENT → rq_record q = Some (JObject kvs) →
    rq_effect_present q = false → A !! cid = None →
    evolves actor q A (RespOpenOk cid binding "system" None)
      (<[cid := opened_intent actor kvs cid binding]> A)
| ev_open_effect kvs cid binding tok rc :
    rq_type q = RAB_REQ_OPEN_INTENT → rq_record q = Some (JObject kvs) →
    rq_effect_present q = true → A !! cid = None →
    issued q (opened_intent actor kvs cid binding) A tok rc →
    evolves actor q A (RespOpenOk cid binding "system" (Some tok))
      (<[cid := set_rcpt (opened_intent actor kvs cid binding) rc]> A)
| ev_open_unacked r kvs cid binding it :
    is_error r → rq_type q = RAB_REQ_OPEN_INTENT → rq_record q = Some (JObject kvs) →
    A !! cid = None →
    it = opened_intent actor kvs cid binding ∨
      (∃ tok rc, issued q (opened_intent actor kvs cid binding) A tok rc ∧
                 it = set_rcpt (opened_intent actor kvs cid binding) rc) →
    evolves actor q A r (<[cid := it]> A)
| ev_outcome r cid it :
    r = RespOutcomeOk ∨ is_error r → rq_type q = RAB_REQ_WRITE_OUTCOME → A !! cid = Some it →
    it_binding it = rq_binding q → it_actor it = actor →
    effect_gate it (rq_record q) = false → evolves actor q A r (delete cid A)
| ev_emit cid : rq_type q = RAB_REQ_EMIT → evolves actor q A (RespEmitOk cid "system") A
| ev_redeem r cid it rc now :
    r = RespRedeemOk cid ∨ is_error r → rq_type q = RAB_REQ_REDEEM → A !! cid = Some it →
    redeemable actor q it rc →
    evolves actor q A r (<[cid := set_rcpt it (mark_redeemed rc now)]> A).

(** A record the code can store and read back. *)
Definition storable (q : rab_request) : Prop :=
  ∃ kvs, rq_record q = Some (JObject kvs) ∧ domain_record kvs ∧ record_fits kvs.

Definition servable (q : rab_request) : Prop :=
  match rq_type q with
  | RAB_REQ_OPEN_INTENT | RAB_REQ_WRITE_OUTCOME => storable q
  | RAB_REQ_EMIT => storable q ∧ (rq_phase q = "preview" ∨ rq_phase q = "noop")
  | _ => True
  end.

(** The id minted at tick [n]. *)
Definition minted (n : nat) : option string :=
  rab_make_correlation_id (e_realtime n) (e_random (S n)) RAB_CID_MAX.

(** The ids minted from tick [t] on are not among [K]. *)
Definition fresh_mints (t : nat) (K : gset string) : Prop :=
  ∀ n c, (t ≤ n)%nat → minted n = Some c → c ∉ K.

(** What a request leaves alone. *)
Definition statics (b b' : broker) : Prop :=
  b_path b' = b_path b ∧ b_cfg b' = b_cfg b ∧ b_host b' = b_host b.

(** The outcome of a handler, [K] bounding the ids the log may now hold: an
    acknowledgement comes from a broker that is not poisoned. *)
Definition handled (actor : rab_actor) (q : rab_request) (K : gset string)
    (A : gmap string intent) (b : broker) (resp : response) (s' : sys) : Prop :=
  ∃ A', evolves actor q A resp A' ∧ good K s' A' ∧ statics b (s_b s') ∧
    (is_error resp ∨ b_poisoned (s_b s') = false).
End Contract.

(** ** Facts: the open set *)

Lemma set_ok_insert A it :
  set_ok A → A !! it_cid it = None → intent_ok it → it_rcpt it = None →
  set_ok (<[it_cid it := it]> A).
Proof.
  intros [Hi Hv] HA Hok Hno. split.
  - intros c x Hc. destruct (decide (it_cid it = c)) as [<-|Hne].
    + rewrite lookup_insert_eq in Hc. by injection Hc as <-.
    + rewrite lookup_insert_ne in Hc by done. eauto.
  - intros c c' x x' v Hc Hc' Hk Hk'.
    assert (Hold : ∀ d y, <[it_cid it := it]> A !! d = Some y → key_rcpt y = Some v →
                          A !! d = Some y).
    { intros d y Hd Hy. destruct (decide (it_cid it = d)) as [<-|Hne].
      - rewrite lookup_insert_eq in Hd. injection Hd as <-. unfold key_rcpt in Hy. by rewrite Hno in Hy.
      - by rewrite lookup_insert_ne in Hd. }
    eauto.
Qed.

Lemma set_ok_delete A c : set_ok A → set_ok (delete c A).
Proof.
  intros [Hi Hv]. split.
  - intros d it Hd. apply lookup_delete_Some in Hd as [_ Hd]. eauto.
  - intros d d' it it' v Hd Hd'. apply lookup_delete_Some in Hd as [_ Hd].
    apply lookup_delete_Some in Hd' as [_ Hd']. eauto.
Qed.

Lemma set_rcpt_ok it rc : intent_ok it → receipt_bound it rc → intent_ok (set_rcpt it rc).
Proof. intros [] Hb. split; try done. intros rc' Hrc. simpl in Hrc. by injection Hrc as <-. Qed.

Lemma set_ok_receipt A it rc :
  set_ok A → A !! it_cid it = Some it → receipt_bound it rc →
  (verifier_used A (rc_verifier rc) = false ∨ key_rcpt it = Some (rc_verifier rc)) →
  set_ok (<[it_cid it := set_rcpt it rc]> A).
Proof.
  intros [Hi Hv] HA Hb Hver. destruct (Hi _ _ HA) as [_ Hok].
  assert (Hother : ∀ d y, A !! d = Some y → key_rcpt y = Some (rc_verifier rc) → d = it_cid it).
  { intros d y Hd Hy. destruct Hver as [Hno|Hsame].
    - apply not_true_iff_false in Hno. destruct Hno. apply verifier_used_spec. eauto.
    - eauto. }
  split.
  - intros c x Hc. destruct (decide (it_cid it = c)) as [<-|Hne].
    + rewrite lookup_insert_eq in Hc. injection Hc as <-. split; [done|by apply set_rcpt_ok].
    + rewrite lookup_insert_ne in Hc by done. eauto.
  - intros c c' x x' v Hc Hc' Hk Hk'.
    destruct (decide (it_cid it = c)) as [<-|Hne], (decide (it_cid it = c')) as [<-|Hne']; try done.
    + rewrite lookup_insert_eq in Hc. injection Hc as <-. rewrite lookup_insert_ne in Hc' by done.
      unfold key_rcpt in Hk. simpl in Hk. injection Hk as <-. symmetry. eauto.
    + rewrite lookup_insert_eq in Hc'. injection Hc' as <-. rewrite lookup_insert_ne in Hc by done.
      unfold key_rcpt in Hk'. simpl in Hk'. injection Hk' as <-. eauto.
    + rewrite lookup_insert_ne in Hc, Hc' by done. eauto.
Qed.

Lemma rec_str_fits kvs k cap :
  field_fits kvs k cap → rec_str (Some (JObject kvs)) k cap = record_field kvs k.
Proof.
  unfold field_fits, rec_str, record_field, json_object_get. simpl json_members.
  destruct (assoc_get k kvs) as [[]|]; try done. intros. by apply snprintf_s_fits.
Qed.

Lemma record_field_fits kvs k cap :
  0 < cap → field_fits kvs k cap → strlen (record_field kvs k) < cap.
Proof.
  unfold field_fits, record_field. intros Hc. destruct (assoc_get k kvs) as [[]|]; done.
Qed.

(** ** Stages every handler goes through *)

Section Stages.
Context `{JanssonLaws} `{Sha256} {E : env}.
Context (Hunlink : ∀ n, e_unlink n = true).

Lemma statics_refl b : statics b b.
Proof. by split_and!. Qed.

Lemma statics_trans b1 b2 b3 : statics b1 b2 → statics b2 b3 → statics b1 b3.
Proof. intros (? & ? & ?) (? & ? & ?). split_and!; congruence. Qed.

Lemma same_statics b b' : same_static b b' → statics b b'.
Proof. by intros (? & ? & ? & _). Qed.

(** Only the accounting changed. *)
Definition rates_only (b b' : broker) : Prop := b' = set_rates b (b_rates b').

Lemma rates_only_refl b : rates_only b b.
Proof. by destruct b. Qed.

Lemma rates_only_trans b1 b2 b3 : rates_only b1 b2 → rates_only b2 b3 → rates_only b1 b3.
Proof. unfold rates_only. intros H1' H2'. rewrite H2', H1'. done. Qed.

Lemma rates_only_statics b b' : rates_only b b' → statics b b'.
Proof. intros ->. by split_and!. Qed.

Lemma statics_rates b b1 b2 : rates_only b b1 → statics b1 b2 → statics b b2.
Proof. intros Hr Hs. eapply statics_trans; [by apply rates_only_statics|done]. Qed.

Lemma statics_same b b1 b2 : rates_only b b1 → same_static b1 b2 → statics b b2.
Proof. intros Hr Hs. eapply statics_rates; [done|by apply same_statics]. Qed.

Lemma live_check_rate K uid now (Q : bool → sys → Prop) f b lines st A t :
  live K f b lines st A → in_u32 uid →
  (∀ ok b' t', live K f b' lines st A → rates_only b b' → Q ok (Sys (World t' f) b')) →
  wp (check_rate uid now) Q (Sys (World t f) b).
Proof.
  intros Hl Hu HQ. apply wp_check_rate. intros a r ok t' _ Hr.
  apply rate_allowed_spec in Hr as [Ht _]; [|apply Hl..|done].
  apply HQ; [|done]. apply live_rates; [done|by eapply trims_shrunk].
Qed.

Lemma live_check_bytes K uid now nb (Q : bool → sys → Prop) f b lines st A t :
  live K f b lines st A → in_u32 uid →
  (∀ ok b' t', live K f b' lines st A → rates_only b b' → Q ok (Sys (World t' f) b')) →
  wp (check_bytes uid now nb) Q (Sys (World t f) b).
Proof.
  intros Hl Hu HQ. apply wp_check_bytes. intros a r ok t' _ Hr.
  apply bytes_allowed_spec in Hr as [Ht _]; [|apply Hl..|done].
  apply HQ; [|done]. apply live_rates; [done|by eapply trims_shrunk].
Qed.

Lemma live_get_uid K uid (Q : option uid_state → sys → Prop) f b lines st A t :
  live K f b lines st A → in_u32 uid →
  (∀ u b' t', (t < t')%nat → live K f b' lines st A → rates_only b b' →
     uid_find (b_rates b') uid = u → Q u (Sys (World t' f) b')) →
  wp (get_uid uid) Q (Sys (World t f) b).
Proof.
  intros Hl Hu HQ. apply wp_get_uid. intros a u r t' Ht Hr.
  apply uid_get_spec in Hr as (Ho & Hv & Hf & _); [|apply Hl..|done].
  apply HQ; [done| |done|done]. apply live_rates; [done|by apply view_shrunk].
Qed.

(** A line that takes the log from [st] to [st'] and the open set to [A'], charged
    to [uid] at [now]. *)
Record log_step (K' : gset string) (uid now : Z) (st : spec_state) (line : string)
    (st' : spec_state) (A' : gmap string intent) : Prop := {
  ls_ne : bs line ≠ [];
  ls_nl : nl ∉ bs line;
  ls_line : spec_line st (bs line) = inr st';
  ls_ids : sp_ids st' ⊆ K';
  ls_set : set_ok A';
  ls_agree : agree A' (sp_open st');
  ls_charge : line_charges (bs line) = [(uid, (now, u64 (strlen line + 1)))]
}.

Lemma blen_bs s : blen (bs s) = strlen s.
Proof. unfold blen, strlen. by rewrite bs_length. Qed.

Lemma audit_charge line ph cid bd a t op res sc :
  bs line ≠ [] →
  rab_parse_stored (bs line) =
    Some (Stored RAB_REC_AUDIT ph cid bd a t op res sc 0 [] zero_receipt false) →
  line_charges (bs line) = [(a_uid a, (t, u64 (strlen line + 1)))].
Proof. intros Hne Hp. by rewrite (line_charges_parsed _ _ Hne Hp), blen_bs. Qed.

Lemma receipt_charge line cid rc :
  bs line ≠ [] →
  rab_parse_stored (bs line) =
    Some (Stored RAB_REC_RECEIPT "" cid "" zero_actor 0 "" "" "" 0 [] rc false) →
  line_charges (bs line) = [(rc_actor_uid rc, (rc_accepted_time_us rc, u64 (strlen line + 1)))].
Proof. intros Hne Hp. by rewrite (line_charges_parsed _ _ Hne Hp), blen_bs. Qed.

(** One append: the log is at [A] or [A'] after a fault, at [A'] on success, once
    the write is in the books. *)
Lemma live_append K K' uid now line (Q : bool → sys → Prop) f b lines st A st' A' t :
  live K f b lines st A → K ⊆ K' → log_step K' uid now st line st' A' →
  (∀ s' B, B = A ∨ B = A' → good K' s' B → same_static b (s_b s') → Q false s') →
  (∀ t' f' n, (∀ o r, represents o A' → rates_ok (b_cfg b) r →
                 books (b_cfg b) r (charge (log_charges lines) uid (now, u64 (strlen line + 1))) A' →
                 live K' f' (set_rates (set_opens (set_seg b n) o) r) (lines ++ [bs line]) st' A') →
     Q true (Sys (World t' f') (set_seg b n))) →
  wp (append_line line) Q (Sys (World t f) b).
Proof.
  intros Hl Hk [Hne Hnl Hsp Hids Hset Hag Hch] Hbad Hgood.
  eapply wp_mono; [eapply append_line_spec; try apply Hl; done|].
  intros ok [[t' f'] b'] (Hfs & Hok). cbn [s_w s_b w_fs] in *. destruct ok.
  - destruct Hok as (-> & Hsink & Hst). apply Hgood. intros o r Ho Hr [Hw Hc].
    eapply live_advance; eauto; [apply Hst, Hl|]. split; [|done].
    eapply windows_ext; [|exact Hw]. intros v. by apply log_charges_one.
  - destruct Hok as (-> & Hrep).
    assert (Hfin : ∀ B stB, replays_to f' (set_poisoned b) stB → agree B (sp_open stB) →
              sp_ids stB ⊆ K' → set_ok B → good K' (Sys (World t' f') (set_poisoned b)) B).
    { intros B stB ? ? ? ?. right. split; [done|]. by exists stB. }
    destruct Hrep as [Hr|Hr].
    + eapply (Hbad _ A); [by left| |done]. eapply Hfin; [done|apply Hl| |apply Hl]. etrans; [apply Hl|done].
    + eapply (Hbad _ A'); [by right| |done]. by eapply Hfin.
Qed.

(** The tail of every accepted write: account for it, rotate if due. *)
Lemma live_finish {X} K uid now nb (k : M sys X) (Q : X → sys → Prop) f b lines st L A t :
  (∀ r, rates_ok (b_cfg b) r → books (b_cfg b) r (charge L uid (now, nb)) A →
     live K f (set_rates b r) lines st A) →
  cfg_ok (b_cfg b) → rates_ok (b_cfg b) (b_rates b) → books (b_cfg b) (b_rates b) L A →
  b_poisoned b = false → in_u32 uid → in_u64 now → in_u64 nb →
  (∀ s', good K s' A → same_static b (s_b s') → wp k Q s') →
  wp (note_write uid now nb ;;; maybe_rotate ;;; k) Q (Sys (World t f) b).
Proof.
  intros Hl Hcfg Hr Hbk Hp Hu Hn Hb HQ. apply wp_bind, wp_note_write. intros a t' _. apply wp_bind.
  eapply (maybe_rotate_spec Hunlink).
  - apply Hl; [|by apply books_noted].
    apply global_note_spec. by eapply rate_note_spec.
  - done.
  - intros s' Hg Hs. by apply HQ.
Qed.

(** The per-uid cap keeps the count away from the end of its type. *)
Lemma under_cap K f b lines st A uid u :
  live K f b lines st A → uid_find (b_rates b) uid = Some u → u_open u < max_open_per_uid (b_cfg b) →
  roomy → uid_opens A uid < 2 ^ 32 - 1.
Proof.
  intros Hl Hf Hlt Hroom. destruct (lv_books _ _ _ _ _ _ Hl) as [_ Hcn].
  destruct (Hcn Hroom uid) as [Hct _]. unfold uid_open_count in Hct. rewrite Hf in Hct.
  pose proof (ck_open_uid _ (lv_cfg _ _ _ _ _ _ Hl)). lia.
Qed.

(** The books after an intent was added to the open set. *)
Lemma opened_books K f b lines st A a2 cid it r :
  live K f b lines st A → in_u32 (a_uid (it_actor it)) → A !! cid = None → (roomy → a2 = true) →
  (roomy → uid_opens A (a_uid (it_actor it)) < 2 ^ 32 - 1) →
  r = uid_open_inc (b_cfg b) a2 (a_uid (it_actor it)) (b_rates b) →
  rates_ok (b_cfg b) r ∧ books (b_cfg b) r (log_charges lines) (<[cid := it]> A).
Proof.
  intros Hl Hu HA Ha Hcap ->. pose proof (lv_books _ _ _ _ _ _ Hl) as [Hw Hc].
  destruct (uid_open_inc_spec (b_cfg b) (lv_cfg _ _ _ _ _ _ Hl) a2 (a_uid (it_actor it)) (b_rates b))
    as (Hr & Hq & _); [apply Hl|done|].
  split; [done|]. split; [by eapply windows_queue|]. apply counted_inc; try done; apply Hl.
Qed.

Lemma refuse K actor q A b resp s' :
  is_error resp → good K s' A → statics b (s_b s') → handled actor q K A b resp s'.
Proof. intros He Hg Hs. exists A. split_and!; [by constructor|done|done|by left]. Qed.

Lemma is_error_intro code msg : is_error (RespError code msg).
Proof. by exists code, msg. Qed.

Lemma good_live K t f b lines st A :
  live K f b lines st A → b_poisoned b = false → good K (Sys (World t f) b) A.
Proof. intros Hl Hp. left. split; [done|]. eauto. Qed.
End Stages.

Create HintDb serve.
#[export] Hint Resolve statics_refl is_error_intro rates_only_statics same_statics statics_rates
  statics_same : serve.

(** ** Outcome and emit *)

Section OutcomeEmit.
Context `{JanssonLaws} `{Sha256} {E : env}.
Context (Hunlink : ∀ n, e_unlink n = true).
Context (K : gset string) (actor : rab_actor) (q : rab_request) (Hactor : actor_ok actor).

Lemma actor_u32 : in_u32 (a_uid actor).
Proof. apply Hactor. Qed.

Lemma plain_args phase cid now :
  phase ≠ "" → strlen phase < RAB_PHASE_MAX → phase ≠ RAB_PHASE_INTENT →
  cid ≠ "" → strlen cid < RAB_CID_MAX → in_u64 now → audit_args_ok phase cid None actor now.
Proof. unfold audit_args_ok, in_u64. intros. tauto. Qed.

(** A built record line reads back as itself. *)
Lemma storable_line phase cid binding host now line :
  storable q → audit_args_ok phase cid binding actor now →
  rab_build_audit phase cid binding actor host now (rq_record q) = Some line →
  ∃ kvs, rq_record q = Some (JObject kvs) ∧ record_fits kvs ∧ bs line ≠ [] ∧ nl ∉ bs line ∧
    rab_parse_stored (bs line) =
      Some (Stored RAB_REC_AUDIT phase cid (binding_text binding) actor now
              (record_field kvs "operation") (record_field kvs "resource")
              (record_field kvs "scope") 0 [] zero_receipt false).
Proof.
  intros (kvs & Hr & Hdom & Hfits) Hargs Hb. rewrite Hr in Hb. exists kvs.
  destruct (audit_line _ _ _ _ _ _ _ _ Hb). split_and!; try done. by eapply audit_roundtrip.
Qed.

Lemma outcome_step f b lines st A now it line :
  live K f b lines st A → storable q → in_u64 now → A !! it_cid it = Some it →
  rab_build_audit RAB_PHASE_OUTCOME (it_cid it) None actor (b_host b) now (rq_record q)
    = Some line →
  ∃ st', log_step K (a_uid actor) now st line st' (delete (it_cid it) A).
Proof.
  intros Hl Hst Hnow HA Hr.
  destruct (so_intent _ (lv_set _ _ _ _ _ _ Hl) _ _ HA) as [_ [[Hc1 Hc2] _ _ _ _ _ _]].
  destruct (agree_lookup _ _ _ _ (lv_agree _ _ _ _ _ _ Hl) HA) as (it' & Hsp & _).
  destruct (storable_line RAB_PHASE_OUTCOME (it_cid it) None (b_host b) now line Hst)
    as (kvs & Hkv & _ & Hne & Hnl & Hparse); [by apply plain_args|done|].
  pose proof (spec_line_outcome _ _ _ _ _ _ _ _ _ Hparse Hsp) as Hsl.
  eexists. split; [done|done|exact Hsl| |apply set_ok_delete, Hl|apply agree_delete, Hl
                  |by eapply audit_charge].
  pose proof (lv_known _ _ _ _ _ _ Hl) as Hk. apply elem_of_dom_2 in Hsp.
  unfold sp_ids in *. cbn [sp_open sp_closed]. rewrite dom_delete_L. set_solver.
Qed.

Lemma outcome_commit_spec f b lines st A t now p it :
  live K f b lines st A → b_poisoned b = false → storable q → in_u64 now →
  rq_type q = RAB_REQ_WRITE_OUTCOME → o_heap (b_opens b) !! p = Some it →
  it_binding it = rq_binding q → it_actor it = actor → effect_gate it (rq_record q) = false →
  wp (outcome_commit actor q now p it) (handled actor q K A b) (Sys (World t f) b).
Proof.
  intros Hl Hpo Hst Hnow Hty Hp Hbind Hact Hgate.
  pose proof (rp_in _ _ (lv_rep _ _ _ _ _ _ Hl) _ _ Hp) as HA.
  unfold outcome_commit. apply wp_bind, wp_getb. cbn [s_b].
  apply wp_bind, wp_built. intros r t1 _ Hr _. destruct r as [line|]; cycle 1.
  { apply wp_error, refuse; eauto using good_live with serve. }
  destruct Hr as [|Hr]; [done|]. symmetry in Hr.
  destruct (outcome_step _ _ _ _ _ _ _ _ Hl Hst Hnow HA Hr) as [st' Hstep].
  apply wp_bind. eapply live_check_bytes; [done|apply actor_u32|]. intros ok b1 t2 Hl1 Hro.
  assert (Hpo1 : b_poisoned b1 = false) by (by rewrite Hro).
  destruct ok; cbn [negb]; cycle 1.
  { apply wp_error, refuse; eauto using good_live with serve. }
  assert (Hev : ∀ r B, r = RespOutcomeOk ∨ is_error r → B = delete (it_cid it) A →
                       evolves actor q A r B) by (intros r B Hr' ->; by eapply ev_outcome).
  apply wp_bind. eapply live_append; [done|done|exact Hstep|..].
  - intros s' B HB Hg Hss. cbn [negb]. apply wp_error. exists B.
    split_and!; [|done|by eapply statics_same|auto with serve].
    destruct HB as [->| ->]; [constructor|apply Hev]; auto with serve.
  - intros t3 f3 n Hlive. cbn [negb]. apply wp_bind. unfold remove_open. apply wp_modb.
    destruct (open_remove p it (b_opens (set_seg b1 n), b_rates (set_seg b1 n))) as [o r] eqn:Hrm.
    assert (Hp1 : o_heap (b_opens b1) !! p = Some it) by (by rewrite Hro).
    apply open_remove_spec in Hrm as (Ho & Hh & _ & Hr'); [|apply Hl1|done].
    destruct (uid_open_dec_spec (b_cfg b1) (a_uid (it_actor it)) (b_rates b1)) as (Hr2 & Hq2 & _);
      [apply Hl1|]. pose proof (lv_books _ _ _ _ _ _ Hl1) as [Hw1 Hc1].
    eapply (live_finish Hunlink _ _ _ _ _ _ _ _ _ _ (log_charges lines));
      [intros r2 ? ?; apply (Hlive o r2); [eapply rep_delete; [apply Hl1|done..]|done..]
      |apply Hl1|cbn; by rewrite Hr'| |done|apply actor_u32|done|apply u64_range|].
    { cbn. rewrite Hr'. split; [by eapply windows_queue|]. eapply counted_dec; [apply Hl1|done..]. }
    intros s' Hg Hss. apply wp_bind, wp_getb.
    assert (Hfin : statics b (s_b s')).
    { eapply statics_rates; [exact Hro|]. by apply same_statics in Hss. }
    destruct (b_poisoned (s_b s')) eqn:Hpz; [apply wp_error|apply wp_ret];
      (exists (delete (it_cid it) A); split_and!; [apply Hev|done|done|]; auto with serve).
Qed.

Lemma handle_outcome_spec f b lines st A t :
  live K f b lines st A → b_poisoned b = false → storable q →
  rq_type q = RAB_REQ_WRITE_OUTCOME →
  wp (handle_outcome actor q) (handled actor q K A b) (Sys (World t f) b).
Proof.
  intros Hl Hpo Hst Hty. unfold handle_outcome. apply wp_bind, wp_clock. intros now t1 _ Hnow.
  apply wp_bind. eapply live_check_rate; [done|apply actor_u32|]. intros ok b1 t2 Hl1 Hro.
  assert (Hpo1 : b_poisoned b1 = false) by (by rewrite Hro).
  destruct ok; cbn [negb]; cycle 1.
  { apply wp_error, refuse; eauto using good_live with serve. }
  apply wp_bind, wp_getb. cbn [s_b].
  pose proof (find_binding_spec (b_opens b1) (rq_binding q) (rp_ok _ _ (lv_rep _ _ _ _ _ _ Hl1))) as Hf.
  destruct (open_find_binding _ _) as [p|]; cycle 1.
  { apply wp_error, refuse; eauto using good_live with serve. }
  destruct Hf as (_ & it & Hp & Hbind). rewrite Hp.
  destruct (rab_actor_eq (it_actor it) actor) eqn:Hact; cbn [negb]; cycle 1.
  { apply wp_error, refuse; eauto using good_live with serve. }
  apply rab_actor_eq_spec in Hact.
  destruct (effect_gate it (rq_record q)) eqn:Hgate.
  { apply wp_error, refuse; eauto using good_live with serve. }
  apply wp_bind, wp_free. intros free t3 _. destruct free; cbn [negb]; cycle 1.
  { apply wp_error, refuse; eauto using good_live with serve. }
  eapply wp_mono; [by eapply outcome_commit_spec|].
  intros resp s' (A' & He & Hg & Hs & ?). exists A'. split_and!; [done|done| |done].
  by eapply statics_rates.
Qed.

Lemma emit_commit_spec f b lines st A t now cid :
  live K f b lines st A → b_poisoned b = false → storable q → in_u64 now →
  rq_type q = RAB_REQ_EMIT → rq_phase q = "preview" ∨ rq_phase q = "noop" →
  cid ≠ "" → strlen cid < RAB_CID_MAX →
  wp (emit_commit actor q now cid) (handled actor q K A b) (Sys (World t f) b).
Proof.
  intros Hl Hpo Hst Hnow Hty Hph Hc1 Hc2.
  unfold emit_commit. apply wp_bind, wp_getb. cbn [s_b].
  apply wp_bind, wp_built. intros r t1 _ Hr _. destruct r as [line|]; cycle 1.
  { apply wp_error, refuse; eauto using good_live with serve. }
  destruct Hr as [|Hr]; [done|]. symmetry in Hr.
  destruct (storable_line (rq_phase q) cid None (b_host b) now line Hst)
    as (kvs & Hkv & _ & Hne & Hnl & Hparse); [destruct Hph as [->| ->]; by apply plain_args|done|].
  apply wp_bind. eapply live_check_bytes; [done|apply actor_u32|]. intros ok b1 t2 Hl1 Hro.
  assert (Hpo1 : b_poisoned b1 = false) by (by rewrite Hro).
  destruct ok; cbn [negb]; cycle 1.
  { apply wp_error, refuse; eauto using good_live with serve. }
  assert (Hsl : spec_line st (bs line) = inr st)
    by (eapply spec_line_emit; [exact Hparse|destruct Hph as [->| ->]; done..]).
  apply wp_bind. eapply (live_append K K (a_uid actor) now line _ _ _ _ _ A st A);
    [done|done|split; done || apply Hl || by eapply audit_charge|..].
  - intros s' B HB Hg Hss. cbn [negb]. apply wp_error, refuse; auto with serve.
    + by destruct HB as [->| ->].
    + by eapply statics_same.
  - intros t3 f3 n Hlive. cbn [negb].
    eapply (live_finish Hunlink _ _ _ _ _ _ _ (set_seg b1 n) _ _ (log_charges lines));
      [intros r2 ? ?; apply (Hlive (b_opens b1) r2); [apply Hl1|done..]
      |apply Hl1..|done|apply actor_u32|done|apply u64_range|].
    intros s' Hg Hss. apply wp_bind, wp_getb.
    assert (Hfin : statics b (s_b s')).
    { eapply statics_rates; [exact Hro|]. by apply same_statics in Hss. }
    destruct (b_poisoned (s_b s')) eqn:Hpz; [by apply wp_error, refuse; auto with serve|].
    apply wp_ret. exists A. split_and!; [by apply ev_emit|done|done|by right].
Qed.

Lemma minted_cid n c : minted n = Some c → c ≠ "" ∧ strlen c < RAB_CID_MAX.
Proof.
  intros Hm. apply make_cid_Some in Hm as (ts & r & _ & Hr & -> & Hlen). split; [|done].
  intros He. pose proof (cid_text_length _ r (micros_range ts) Hr) as Hl. by rewrite He in Hl.
Qed.

Lemma handle_emit_spec f b lines st A t :
  live K f b lines st A → b_poisoned b = false → storable q →
  rq_type q = RAB_REQ_EMIT → rq_phase q = "preview" ∨ rq_phase q = "noop" →
  wp (handle_emit actor q) (handled actor q K A b) (Sys (World t f) b).
Proof.
  intros Hl Hpo Hst Hty Hph. unfold handle_emit. apply wp_bind, wp_clock. intros now t1 _ Hnow.
  apply wp_bind. eapply live_check_rate; [done|apply actor_u32|]. intros ok b1 t2 Hl1 Hro.
  assert (Hpo1 : b_poisoned b1 = false) by (by rewrite Hro).
  destruct ok; cbn [negb]; cycle 1.
  { apply wp_error, refuse; eauto using good_live with serve. }
  apply wp_bind, wp_free. intros free t3 _. destruct free; cbn [negb]; cycle 1.
  { apply wp_error, refuse; eauto using good_live with serve. }
  apply wp_bind, wp_mint_cid. intros n t4 _. fold (minted n).
  destruct (minted n) as [cid|] eqn:Hm; cycle 1.
  { apply wp_error, refuse; eauto using good_live with serve. }
  apply minted_cid in Hm as [? ?].
  eapply wp_mono; [by eapply emit_commit_spec|].
  intros resp s' (A' & He & Hg & Hs & ?). exists A'. split_and!; [done|done| |done].
  by eapply statics_rates.
Qed.
End OutcomeEmit.

(** ** Redemption *)

Section Redeem.
Context `{JanssonLaws} `{Sha256} {E : env}.
Context (Hunlink : ∀ n, e_unlink n = true).
Context (K : gset string).

Lemma redeemed_bound it rc now :
  receipt_bound it rc → in_u64 now → receipt_bound it (mark_redeemed rc now).
Proof. intros (Hok & ?) Hn. split; [|done]. unfold receipt_ok in *. simpl. unfold in_u64 in Hn. tauto. Qed.

(** What a redemption attempt leaves behind. *)
Definition redeem_post (A : gmap string intent) (b : broker) (cid : string) (it : intent)
    (rc : receipt) (rr : rab_redeem_result) (s' : sys) : Prop :=
  ∃ A', (A' = A ∧ rr ≠ RAB_REDEEM_OK ∨
         ∃ now, A' = <[cid := set_rcpt it (mark_redeemed rc now)]> A ∧
                (rr = RAB_REDEEM_OK ∧ b_poisoned (s_b s') = false ∨ rr = RAB_REDEEM_PERSIST)) ∧
    good K s' A' ∧ statics b (s_b s').

Lemma redeem_refuse A b cid it rc rr s' :
  rr ≠ RAB_REDEEM_OK → good K s' A → statics b (s_b s') → redeem_post A b cid it rc rr s'.
Proof. intros. exists A. split_and!; auto. Qed.

Lemma redeem_step f b lines st A it rc now line :
  live K f b lines st A → A !! it_cid it = Some it → it_rcpt it = Some rc →
  rc_state rc = RAB_RCPT_ISSUED → in_u64 now →
  rab_build_receipt (it_cid it) false (mark_redeemed rc now) = Some line →
  ∃ st', log_step K (rc_actor_uid rc) now st line st'
           (<[it_cid it := set_rcpt it (mark_redeemed rc now)]> A).
Proof.
  intros Hl HA Hrc Hst Hnow Hr.
  destruct (so_intent _ (lv_set _ _ _ _ _ _ Hl) _ _ HA) as [_ Hio].
  pose proof (io_rcpt _ Hio _ Hrc) as Hbound.
  destruct (agree_lookup _ _ _ _ (lv_agree _ _ _ _ _ _ Hl) HA) as (it' & Hsp & Her).
  injection Her as E1 E2 E3 E4 E5 E6 E7.
  assert (Hbound' : receipt_bound it' rc) by (unfold receipt_bound in *; by rewrite E3, E4, E5).
  destruct (receipt_line _ _ _ _ Hr) as [Hne Hnl].
  pose proof (redeemed_bound it rc now Hbound Hnow) as Hrb.
  pose proof (receipt_roundtrip _ _ _ _ (proj1 Hrb) Hr) as Hparse.
  eexists. split; [done|done| | | | |exact (receipt_charge _ _ _ Hne Hparse)].
  - rewrite (spec_line_receipt _ _ _ _ _ _ Hparse Hsp), spec_receipt_redeem by congruence. done.
  - pose proof (lv_known _ _ _ _ _ _ Hl) as Hk. apply elem_of_dom_2 in Hsp.
    unfold sp_ids in *. cbn [sp_open sp_closed]. rewrite dom_insert_L. set_solver.
  - apply set_ok_receipt; [apply Hl|done|done|]. right. unfold key_rcpt. by rewrite Hrc.
  - apply agree_insert; [apply Hl|]. unfold erase. simpl. by rewrite E1, E2, E3, E4, E5, E6.
Qed.

Lemma redeem_commit_spec f b lines st A t p it rc :
  live K f b lines st A → b_poisoned b = false → o_heap (b_opens b) !! p = Some it →
  it_rcpt it = Some rc → rc_state rc = RAB_RCPT_ISSUED →
  wp (redeem_commit p it rc) (redeem_post A b (it_cid it) it rc) (Sys (World t f) b).
Proof.
  intros Hl Hpo Hp Hrc Hst.
  pose proof (rp_in _ _ (lv_rep _ _ _ _ _ _ Hl) _ _ Hp) as HA.
  destruct (so_intent _ (lv_set _ _ _ _ _ _ Hl) _ _ HA) as [_ Hio].
  assert (Huid : in_u32 (rc_actor_uid rc)) by (apply (io_rcpt _ Hio _ Hrc)).
  unfold redeem_commit. apply wp_bind, wp_free. intros free t1 _. destruct free; cbn [negb]; cycle 1.
  { apply wp_ret, redeem_refuse; eauto using good_live with serve. }
  apply wp_bind, wp_clock. intros now t2 _ Hnow.
  apply wp_bind, wp_built. intros r t3 _ Hr _. destruct r as [line|]; cycle 1.
  { apply wp_ret, redeem_refuse; eauto using good_live with serve. }
  destruct Hr as [|Hr]; [done|]. symmetry in Hr.
  destruct (redeem_step _ _ _ _ _ _ _ _ _ Hl HA Hrc Hst Hnow Hr) as [st' Hstep].
  apply wp_bind. eapply live_check_rate; [done|done|]. intros ok b1 t4 Hl1 Hro.
  assert (Hpo1 : b_poisoned b1 = false) by (by rewrite Hro).
  destruct ok; cbn [negb]; cycle 1.
  { apply wp_ret, redeem_refuse; eauto using good_live with serve. }
  apply wp_bind. eapply live_check_bytes; [done|done|]. intros ok b2 t5 Hl2 Hro2.
  assert (Hpo2 : b_poisoned b2 = false) by (by rewrite Hro2).
  pose proof (rates_only_trans _ _ _ Hro Hro2) as Hro'.
  destruct ok; cbn [negb]; cycle 1.
  { apply wp_ret, redeem_refuse; eauto using good_live with serve. }
  set (it1 := set_rcpt it (mark_redeemed rc now)) in *.
  apply wp_bind. eapply live_append; [done|done|exact Hstep|..].
  - intros s' B HB Hg Hss. cbn [negb]. apply wp_ret. exists B.
    split_and!; [|done|by eapply statics_same]. destruct HB as [->| ->]; [by left|right; eauto].
  - intros t6 f6 n Hlive. cbn [negb]. apply wp_bind, wp_modb.
    assert (Hp2 : o_heap (b_opens b2) !! p = Some it) by (by rewrite Hro').
    eapply (live_finish Hunlink _ _ _ _ _ _ _ _ _ _ (log_charges lines));
      [intros r2 ? ?; apply (Hlive (set_node (b_opens b2) p it1) r2); [|done..]
      |apply Hl2|apply Hl2|by eapply books_replace; [apply Hl2|..]|done|done|done|apply u64_range|].
    { eapply rep_replace; [apply Hl2| |done|done|done].
      eapply set_node_ok; [apply Hl2|done..|]. unfold key_rcpt, it1. simpl. by rewrite Hrc. }
    intros s' Hg Hss. apply wp_bind, wp_getb, wp_ret. exists (<[it_cid it := it1]> A).
    split_and!; [right; exists now; split; [done|destruct (b_poisoned (s_b s')) eqn:?; auto]|done|].
    eapply statics_rates; [exact Hro'|]. by apply same_statics in Hss.
Qed.

Lemma token_raw_hex tok v : token_verifier tok = Some v → v ≠ "".
Proof. intros Hv. apply token_verifier_hex, is_hex_lc_n_length in Hv. by intros ->. Qed.

Lemma handle_redeem_spec actor q f b lines st A t :
  live K f b lines st A → b_poisoned b = false → rq_type q = RAB_REQ_REDEEM →
  wp (handle_redeem actor q) (handled actor q K A b) (Sys (World t f) b).
Proof.
  intros Hl Hpo Hty. unfold handle_redeem.
  assert (Hrefuse : ∀ t' code msg, handled actor q K A b (RespError code msg) (Sys (World t' f) b))
    by (intros; apply refuse; eauto using good_live with serve).
  destruct (a_uid actor =? 0) eqn:Hroot; cbn [negb]; [|by apply wp_error].
  destruct (token_verifier _) as [v|] eqn:Hv; [|by apply wp_error].
  apply wp_bind, wp_getb. cbn [s_b].
  pose proof (lv_rep _ _ _ _ _ _ Hl) as Hrep.
  pose proof (find_verifier_spec (b_opens b) v (rp_ok _ _ Hrep)) as Hf.
  destruct (open_find_verifier _ _) as [p|]; [|by apply wp_error].
  destruct Hf as (_ & it & Hp & Hk). rewrite Hp.
  unfold key_rcpt in Hk. destruct (it_rcpt it) as [rc|] eqn:Hrc; [|done]. injection Hk as Hk.
  pose proof (rp_in _ _ Hrep _ _ Hp) as HA.
  assert (Hsimple : ∀ rr t', rr ≠ RAB_REDEEM_OK →
    wp (mreturn (redeem_response rr (it_cid it))) (handled actor q K A b) (Sys (World t' f) b))
    by (intros [] ? ?; done || (apply wp_ret, Hrefuse)).
  apply wp_bind. unfold rab_broker_redeem_receipt. apply wp_bind, wp_getb. cbn [s_b]. rewrite Hpo.
  rewrite Hroot. cbn [negb]. pose proof (rep_find_cid _ _ (it_cid it) Hrep) as Hfc.
  destruct (open_find_cid _ _) as [p'|]; [|by apply wp_ret, Hsimple].
  destruct Hfc as (it2 & Hp' & HA' & _). assert (it2 = it) as -> by congruence. rewrite Hp', Hrc.
  destruct (_ =? rc_actor_uid rc) eqn:Hprin; cbn [negb]; [|by apply wp_ret, Hsimple].
  destruct (token_matches _ _); cbn [negb]; [|by apply wp_ret, Hsimple].
  destruct (_ || _) eqn:Hbind; [by apply wp_ret, Hsimple|].
  destruct (rcpt_state_eqb _ _) eqn:Hstate; [by apply wp_ret, Hsimple|]. bool_hyps.
  apply wp_bind, wp_liftW, wp_ask. cbn [w_tick w_fs].
  destruct (e_boottime t) as [bt|] eqn:Hbt; [|by apply wp_ret, Hsimple].
  apply wp_bind, wp_bootid. intros o t2 _ Hboot. destruct o as [boot|]; [|by apply wp_ret, Hsimple].
  destruct (Hboot _ eq_refl) as [_ Hbid].
  destruct (receipt_unexpired _ _ _) eqn:Hexp; cbn [negb]; [|by apply wp_ret, Hsimple].
  assert (Hissued : rc_state rc = RAB_RCPT_ISSUED) by (by destruct (rc_state rc)).
  assert (Hred : redeemable actor q it rc).
  { split_and!; try done; [congruence|]. exists t, (S t), bt, boot. done. }
  eapply wp_mono; [by eapply redeem_commit_spec|].
  intros rr s' (A' & Hcase & Hg & Hs). apply wp_ret. exists A'.
  destruct Hcase as [[-> Hne]|(now & -> & Hrr)].
  - assert (is_error (redeem_response rr (it_cid it))) by (by destruct rr; eauto with serve).
    split_and!; [by apply ev_refused|done|done|by left].
  - split_and!; [|done|done|destruct Hrr as [[-> ?]| ->]; simpl; auto with serve].
    eapply ev_redeem; [|done|exact HA|done].
    destruct Hrr as [[-> _]| ->]; simpl; eauto with serve.
Qed.
End Redeem.

(** ** Issuance *)

Section Issue.
Context `{JanssonLaws} `{Sha256} {E : env}.
Context (Hunlink : ∀ n, e_unlink n = true).
Context (K : gset string).

(** The builder's own checks are the ones a stored receipt has to pass. *)
Lemma built_receipt_ok cid ckpt rc line :
  rab_build_receipt cid ckpt rc = Some line → 0 ≤ rc_actor_uid rc < 2 ^ 32 →
  rc_plan_schema rc < 2 ^ 63 → in_u64 (rc_issue_boottime_us rc) → in_u64 (rc_ttl_us rc) →
  in_u64 (rc_accepted_time_us rc) → receipt_ok rc.
Proof.
  unfold rab_build_receipt, receipt_ok, in_u64. intros Hb. case_hyp Hb; [done|]. bool_hyps.
  intros. split_and!; done || lia.
Qed.

Lemma issue_step f b lines st A it rc line :
  live K f b lines st A → A !! it_cid it = Some it → it_rcpt it = None →
  receipt_bound it rc → rc_state rc = RAB_RCPT_ISSUED → verifier_used A (rc_verifier rc) = false →
  rab_build_receipt (it_cid it) false rc = Some line →
  ∃ st', log_step K (rc_actor_uid rc) (rc_accepted_time_us rc) st line st'
           (<[it_cid it := set_rcpt it rc]> A).
Proof.
  intros Hl HA Hno Hbound Hst Hver Hr.
  destruct (agree_lookup _ _ _ _ (lv_agree _ _ _ _ _ _ Hl) HA) as (it' & Hsp & Her).
  injection Her as E1 E2 E3 E4 E5 E6 E7.
  assert (Hbound' : receipt_bound it' rc) by (unfold receipt_bound in *; by rewrite E3, E4, E5).
  destruct (receipt_line _ _ _ _ Hr) as [Hne Hnl].
  pose proof (receipt_roundtrip _ _ _ _ (proj1 Hbound) Hr) as Hparse.
  rewrite (agree_verifier _ _ _ (lv_agree _ _ _ _ _ _ Hl)) in Hver.
  eexists. split; [done|done| | | | |exact (receipt_charge _ _ _ Hne Hparse)].
  - rewrite (spec_line_receipt _ _ _ _ _ _ Hparse Hsp), spec_receipt_first by congruence. done.
  - pose proof (lv_known _ _ _ _ _ _ Hl) as Hk. apply elem_of_dom_2 in Hsp.
    unfold sp_ids in *. cbn [sp_open sp_closed]. rewrite dom_insert_L. set_solver.
  - apply set_ok_receipt; [apply Hl|done|done|]. left.
    by rewrite (agree_verifier _ _ _ (lv_agree _ _ _ _ _ _ Hl)).
  - apply agree_insert; [apply Hl|]. unfold erase. simpl. by rewrite E1, E2, E3, E4, E5, E6.
Qed.

(** What an issuance leaves behind: nothing, or a receipt with the properties [P]. *)
Definition issue_post (A : gmap string intent) (b : broker) (it : intent)
    (P : string → receipt → Prop) (ir : issue_result) (s' : sys) : Prop :=
  ∃ A', (A' = A ∧ (∀ tok, ir ≠ ISSUE_OK tok) ∨
         ∃ tok rc, A' = <[it_cid it := set_rcpt it rc]> A ∧ P tok rc ∧
                   (ir = ISSUE_OK tok ∧ b_poisoned (s_b s') = false ∨ ir = ISSUE_FAILED)) ∧
    good K s' A' ∧ statics b (s_b s').

Lemma issue_refuse A b it P ir s' :
  (∀ tok, ir ≠ ISSUE_OK tok) → good K s' A → statics b (s_b s') → issue_post A b it P ir s'.
Proof. intros. exists A. split_and!; auto. Qed.

Lemma issue_commit_spec (P : string → receipt → Prop) f b lines st A t p it tok rc line now :
  live K f b lines st A → b_poisoned b = false → o_heap (b_opens b) !! p = Some it →
  it_rcpt it = None → receipt_bound it rc → rc_state rc = RAB_RCPT_ISSUED →
  verifier_used A (rc_verifier rc) = false → in_u64 now → rc_accepted_time_us rc = now → P tok rc →
  rab_build_receipt (it_cid it) false rc = Some line →
  wp (issue_commit p it tok rc line now) (issue_post A b it P) (Sys (World t f) b).
Proof.
  intros Hl Hpo Hp Hno Hbound Hst Hver Hnow Hacc HP Hr.
  pose proof (rp_in _ _ (lv_rep _ _ _ _ _ _ Hl) _ _ Hp) as HA.
  destruct (issue_step _ _ _ _ _ _ _ _ Hl HA Hno Hbound Hst Hver Hr) as [st' Hstep].
  rewrite Hacc in Hstep. replace (rc_actor_uid rc) with (a_uid (it_actor it)) in Hstep
    by (symmetry; apply Hbound).
  destruct (so_intent _ (lv_set _ _ _ _ _ _ Hl) _ _ HA) as [_ Hio].
  assert (Huid : in_u32 (a_uid (it_actor it))) by (apply (io_actor _ Hio)).
  unfold issue_commit.
  apply wp_bind. eapply live_check_rate; [done|done|]. intros ok b1 t4 Hl1 Hro.
  assert (Hpo1 : b_poisoned b1 = false) by (by rewrite Hro).
  destruct ok; cbn [negb]; cycle 1.
  { apply wp_ret, issue_refuse; eauto using good_live with serve. }
  apply wp_bind. eapply live_check_bytes; [done|done|]. intros ok b2 t5 Hl2 Hro2.
  assert (Hpo2 : b_poisoned b2 = false) by (by rewrite Hro2).
  pose proof (rates_only_trans _ _ _ Hro Hro2) as Hro'.
  destruct ok; cbn [negb]; cycle 1.
  { apply wp_ret, issue_refuse; eauto using good_live with serve. }
  apply wp_bind. eapply live_append; [done|done|exact Hstep|..].
  - intros s' B HB Hg Hss. cbn [negb]. apply wp_ret. exists B.
    split_and!; [|done|by eapply statics_same].
    destruct HB as [->| ->]; [by left|right; exists tok, rc; auto].
  - intros t6 f6 n Hlive. cbn [negb]. apply wp_bind, wp_modb.
    assert (Hp2 : o_heap (b_opens b2) !! p = Some it) by (by rewrite Hro').
    eapply (live_finish Hunlink _ _ _ _ _ _ _ _ _ _ (log_charges lines));
      [intros r2 ? ?; apply (Hlive (install_receipt (b_opens b2) p it rc) r2); [|done..]
      |apply Hl2|apply Hl2|by eapply books_replace; [apply Hl2|..]|done|done|done|apply u64_range|].
    { eapply rep_replace; [apply Hl2| |done|done|done].
      apply install_receipt_ok; [apply Hl2|done|done]. }
    intros s' Hg Hss. apply wp_bind, wp_getb, wp_ret. exists (<[it_cid it := set_rcpt it rc]> A).
    split_and!; [right; exists tok, rc; destruct (b_poisoned (s_b s')) eqn:?; auto|done|].
    eapply statics_rates; [exact Hro'|]. by apply same_statics in Hss.
Qed.

Lemma issue_spec q f b lines st A t it :
  live K f b lines st A → b_poisoned b = false → A !! it_cid it = Some it →
  wp (rab_broker_issue_receipt (it_cid it) (rq_effect_plan_schema q) (rq_effect_plan_hash q))
     (issue_post A b it (issued q it A)) (Sys (World t f) b).
Proof.
  intros Hl Hpo HA. unfold rab_broker_issue_receipt. apply wp_bind, wp_getb. cbn [s_b]. rewrite Hpo.
  assert (Hrefuse : ∀ t', issue_post A b it (issued q it A) ISSUE_FAILED (Sys (World t' f) b))
    by (intros; apply issue_refuse; eauto using good_live with serve).
  destruct (_ =? RAB_PLAN_SCHEMA_V1) eqn:Hps; cbn [negb]; [|by apply wp_ret].
  pose proof (lv_rep _ _ _ _ _ _ Hl) as Hrep. pose proof (rep_find_cid _ _ (it_cid it) Hrep) as Hf.
  destruct (open_find_cid _ _) as [p|]; [|by apply wp_ret].
  destruct Hf as (it2 & Hp & HA' & _). assert (it2 = it) as -> by congruence. rewrite Hp.
  unfold has_receipt. destruct (it_rcpt it) as [|] eqn:Hno; [by apply wp_ret|].
  apply wp_bind, wp_free. intros free t1 _. destruct free; cbn [negb]; [|by apply wp_ret].
  apply wp_bind, wp_ask_any. intros bt t2 _. destruct bt as [bt|]; [|by apply wp_ret].
  apply wp_bind, wp_bootid. intros o t3 _ Hboot. destruct o as [boot|]; [|by apply wp_ret].
  apply wp_bind, wp_mint_token. intros m t4 Hm. destruct m as [[tok v]|]; [|by apply wp_ret].
  destruct (Hm _ _ eq_refl) as (_ & Htv & Htb & Hfv).
  apply wp_bind, wp_clock. intros now t5 _ Hnow.
  apply wp_bind, wp_built. intros r t6 _ Hr _. destruct r as [line|]; [|by apply wp_ret].
  destruct Hr as [|Hr]; [done|]. symmetry in Hr. bool_hyps.
  destruct (so_intent _ (lv_set _ _ _ _ _ _ Hl) _ _ HA) as [_ Hio].
  pose proof (built_receipt_ok _ _ _ _ Hr) as Hok. cbn in Hok.
  specialize (Hok (proj1 (io_actor _ Hio))). rewrite Hps in *.
  specialize (Hok eq_refl (u64_range _) (u64_range _) Hnow).
  assert (Hhex : is_hex64_lc (rq_effect_plan_hash q) = true) by apply Hok.
  assert (Hv64 : is_hex64_lc v = true) by apply Hok.
  rewrite !snprintf_hex64 by done.
  eapply issue_commit_spec; try done.
  - cbn [rc_verifier]. rewrite (rep_verifier_used _ _ _ Hrep); [by rewrite Hfv|].
    by apply hex64_nonempty.
  - split_and!; try done; cbn [rc_verifier]; try congruence.
    rewrite (rep_verifier_used _ _ _ Hrep); [by rewrite Hfv|]. by apply hex64_nonempty.
Qed.
End Issue.

(** ** Opening *)

Section OpenIntent.
Context `{JanssonLaws} `{Sha256} {E : env}.
Context (Hunlink : ∀ n, e_unlink n = true) (Hnode : ∀ n, e_node n = true).
Context (actor : rab_actor) (q : rab_request) (Hactor : actor_ok actor).

Lemma intent_args cid binding now :
  cid ≠ "" → strlen cid < RAB_CID_MAX → binding ≠ "" → strlen binding < RAB_BINDING_MAX →
  in_u64 now → audit_args_ok RAB_PHASE_INTENT cid (Some binding) actor now.
Proof. unfold audit_args_ok, in_u64. intros. split_and!; try done; tauto. Qed.

Lemma opened_intent_ok kvs cid binding :
  record_fits kvs → cid ≠ "" → strlen cid < RAB_CID_MAX → binding ≠ "" →
  strlen binding < RAB_BINDING_MAX → intent_ok (opened_intent actor kvs cid binding).
Proof.
  intros (Ho & Hr & Hs) ? ? ? ?. split; simpl; try done; by apply record_field_fits.
Qed.

Lemma opened_new_intent kvs cid binding :
  record_fits kvs →
  new_intent cid binding actor (record_field kvs "operation") (record_field kvs "resource")
    (record_field kvs "scope") = opened_intent actor kvs cid binding.
Proof.
  intros (Ho & Hr & Hs). unfold new_intent.
  by rewrite !snprintf_s_fits by (apply record_field_fits; done).
Qed.

Lemma open_step K f b lines st A kvs cid binding now line :
  live K f b lines st A → cid ∉ K → rq_record q = Some (JObject kvs) → domain_record kvs →
  record_fits kvs → in_u64 now → cid ≠ "" → strlen cid < RAB_CID_MAX → binding ≠ "" →
  strlen binding < RAB_BINDING_MAX →
  rab_build_audit RAB_PHASE_INTENT cid (Some binding) actor (b_host b) now (rq_record q)
    = Some line →
  A !! cid = None ∧ ∃ st', log_step ({[cid]} ∪ K) (a_uid actor) now st line st'
                             (<[cid := opened_intent actor kvs cid binding]> A).
Proof.
  intros Hl HK Hkv Hdom Hfits Hnow Hc1 Hc2 Hb1 Hb2 Hr.
  pose proof (lv_known _ _ _ _ _ _ Hl) as Hk. unfold sp_ids in Hk.
  assert (Hsp : sp_open st !! cid = None) by (apply not_elem_of_dom; set_solver).
  assert (Hcl : cid ∉ sp_closed st) by set_solver.
  assert (HA : A !! cid = None) by (by apply (agree_None _ _ _ (lv_agree _ _ _ _ _ _ Hl))).
  split; [done|]. destruct (audit_line _ _ _ _ _ _ _ _ Hr) as [Hne Hnl]. rewrite Hkv in Hr.
  pose proof (audit_roundtrip _ _ _ _ _ _ _ _ (intent_args cid binding now Hc1 Hc2 Hb1 Hb2 Hnow)
                Hdom Hfits Hr) as Hparse.
  eexists. split; [done|done|exact (spec_line_intent _ _ _ _ _ _ _ _ _ Hparse Hb1 Hsp Hcl)| | |
                  |exact (audit_charge _ _ _ _ _ _ _ _ _ Hne Hparse)].
  - unfold sp_ids. cbn [sp_open sp_closed]. rewrite dom_insert_L. set_solver.
  - change cid with (it_cid (opened_intent actor kvs cid binding)) at 1.
    apply set_ok_insert; [apply Hl|done| |done]. by apply opened_intent_ok.
  - apply agree_insert; [apply Hl|done].
Qed.

(** The receipt step of an effect open: the contract, from the opened intent on. *)
Lemma open_effect_spec K f b lines st A t kvs cid binding :
  live K f b lines st (<[cid := opened_intent actor kvs cid binding]> A) → b_poisoned b = false →
  A !! cid = None → rq_type q = RAB_REQ_OPEN_INTENT → rq_record q = Some (JObject kvs) →
  rq_effect_present q = true →
  wp (open_effect q cid binding) (handled actor q K A b) (Sys (World t f) b).
Proof.
  intros Hl Hpo HA Hty Hkv Hpres. set (it := opened_intent actor kvs cid binding) in *.
  unfold open_effect. apply wp_bind.
  eapply wp_mono; [apply (issue_spec Hunlink K q f b lines st _ t it Hl Hpo); apply lookup_insert_eq|].
  intros ir s' (A' & Hcase & Hg & Hs). cbn [it_cid it opened_intent] in Hcase.
  assert (Hiss : ∀ tok rc, issued q it (<[cid := it]> A) tok rc → issued q it A tok rc).
  { intros tok rc (? & ? & ? & ? & Hver & ?). split_and!; try done; try tauto.
    apply not_true_iff_false. intros Hu. apply not_true_iff_false in Hver. apply Hver.
    apply verifier_used_spec in Hu as (c & x & Hc & Hx). apply verifier_used_spec.
    exists c, x. rewrite lookup_insert_ne; [done|congruence]. }
  destruct Hcase as [[-> Hne]|(tok & rc & -> & Hi & Hir)].
  - assert (Hev : ∀ r, is_error r → evolves actor q A r (<[cid := it]> A))
      by (intros r Hr; eapply ev_open_unacked; eauto).
    destruct ir as [tok| |]; [by destruct (Hne tok)|..];
      (apply wp_error; eexists; split_and!; [apply Hev| done|done|]; auto with serve).
  - rewrite insert_insert_eq in Hg. apply Hiss in Hi.
    destruct Hir as [[-> ?]| ->]; [apply wp_ret|apply wp_error]; eexists; split_and!;
      [by eapply ev_open_effect|done|done|by right
      |eapply ev_open_unacked; eauto with serve|done|done|auto with serve].
Qed.

Lemma open_commit_spec K f b lines st A t now cid binding :
  live K f b lines st A → b_poisoned b = false → cid ∉ K → storable q → in_u64 now →
  rq_type q = RAB_REQ_OPEN_INTENT → cid ≠ "" → strlen cid < RAB_CID_MAX → binding ≠ "" →
  strlen binding < RAB_BINDING_MAX → (roomy → uid_opens A (a_uid actor) < 2 ^ 32 - 1) →
  wp (open_commit actor q now cid binding) (handled actor q ({[cid]} ∪ K) A b)
     (Sys (World t f) b).
Proof.
  intros Hl Hpo HK (kvs & Hkv & Hdom & Hfits) Hnow Hty Hc1 Hc2 Hb1 Hb2 Hcap.
  assert (Hsub : K ⊆ {[cid]} ∪ K) by set_solver.
  assert (Hrefuse : ∀ t' b' code msg, live K f b' lines st A → rates_only b b' →
    handled actor q ({[cid]} ∪ K) A b (RespError code msg) (Sys (World t' f) b')).
  { intros t' b' code msg Hl' Hro. apply refuse; eauto with serve.
    eapply good_live; [by eapply live_known|by rewrite Hro]. }
  unfold open_commit. apply wp_bind, wp_getb. cbn [s_b].
  apply wp_bind, wp_built. intros r t1 _ Hr _. destruct r as [line|]; cycle 1.
  { apply wp_error, Hrefuse; [done|apply rates_only_refl]. }
  destruct Hr as [|Hr]; [done|]. symmetry in Hr.
  destruct (open_step _ _ _ _ _ _ _ _ _ _ _ Hl HK Hkv Hdom Hfits Hnow Hc1 Hc2 Hb1 Hb2 Hr)
    as (HA & st' & Hstep).
  apply wp_bind. eapply live_check_bytes; [done|apply Hactor|]. intros ok b1 t2 Hl1 Hro.
  destruct ok; cbn [negb]; [|by apply wp_error, Hrefuse].
  set (it := opened_intent actor kvs cid binding) in *.
  apply wp_bind. eapply live_append; [exact Hl1|exact Hsub|exact Hstep|..].
  { intros s' B HB Hg Hss. cbn [negb]. apply wp_error. exists B.
    split_and!; [|done|by eapply statics_same|auto with serve].
    destruct HB as [->| ->]; [constructor|eapply ev_open_unacked]; eauto with serve. }
  intros t3 f3 n Hlive. cbn [negb]. apply wp_bind, wp_add_open. intros m a2 ok o r t4 _ Ha2 Hadd.
  destruct Hfits as (Ho & Hres & Hsc). rewrite Hkv, !rec_str_fits, Hnode in Hadd by done.
  apply open_add_spec in Hadd; [|apply Hl1|done|done]. destruct ok; [|by destruct Hadd].
  destruct Hadd as (Hok & Hfresh & Hheap & _ & Hr'). cbn [negb].
  rewrite opened_new_intent in Hheap by (by split_and!).
  assert (Hrep : represents o (<[cid := it]> A)).
  { change cid with (it_cid it) at 1. eapply rep_insert; [apply Hl1|done|done|done|exact Hheap]. }
  destruct (opened_books _ _ _ _ _ _ a2 cid it r Hl1) as [Hr2 Hbk]; [apply Hactor|done..|].
  eapply (live_finish Hunlink _ _ _ _ _ _ _ _ _ _ (log_charges lines));
    [intros r2 ? ?; by apply (Hlive o r2)|apply Hl1|done|done|by rewrite Hro|apply Hactor|done
    |apply u64_range|].
  intros s' Hg Hss. apply wp_bind, wp_getb.
  assert (Hfin : statics b (s_b s')).
  { eapply statics_rates; [exact Hro|]. by apply same_statics in Hss. }
  destruct (b_poisoned (s_b s')) eqn:Hpo'.
  { apply wp_error. exists (<[cid := it]> A).
    split_and!; [eapply ev_open_unacked; eauto with serve|done|done|auto with serve]. }
  destruct Hg as [[_ (lines' & st2 & Hl3)]|[Hx _]]; [|congruence].
  destruct (rq_effect_present q) eqn:Hpres.
  - destruct s' as [[t5 f5] b5]. cbn [s_b s_w w_fs] in *.
    eapply wp_mono; [by eapply open_effect_spec|]. intros resp s' (A' & ? & ? & ? & ?).
    exists A'. split_and!; [done|done|by eapply statics_trans|done].
  - apply wp_ret. exists (<[cid := it]> A). split_and!; [by apply ev_open|left; eauto|done|by right].
Qed.

Lemma minted_binding rnd bd :
  rab_make_binding rnd RAB_BINDING_MAX = Some bd → bd ≠ "" ∧ strlen bd < RAB_BINDING_MAX.
Proof.
  intros Hb. apply make_binding_Some, is_hex_lc_n_length in Hb. split; [by intros ->|].
  unfold strlen. rewrite Hb. done.
Qed.

(** The ids of the log grow by at most the one minted here. *)
Lemma handle_open_spec K f b lines st A t :
  live K f b lines st A → b_poisoned b = false → fresh_mints t K → storable q →
  rq_type q = RAB_REQ_OPEN_INTENT →
  wp (handle_open actor q)
     (λ resp s', handled actor q K A b resp s' ∨
        ∃ n c, (t ≤ n < s_tick s')%nat ∧ minted n = Some c ∧ handled actor q ({[c]} ∪ K) A b resp s')
     (Sys (World t f) b).
Proof.
  intros Hl Hpo Hfresh Hst Hty. unfold handle_open.
  assert (Hrefuse : ∀ t' b' code msg, live K f b' lines st A → rates_only b b' →
    handled actor q K A b (RespError code msg) (Sys (World t' f) b')).
  { intros t' b' code msg Hl' Hro. apply refuse; eauto with serve.
    eapply good_live; [done|by rewrite Hro]. }
  case_goal; [apply wp_error; left; apply Hrefuse; [done|apply rates_only_refl]|].
  apply wp_bind, wp_clock. intros now t1 Ht1 Hnow.
  apply wp_bind. eapply wp_check_rate. intros a r ok t2 Ht2 Hr.
  apply rate_allowed_spec in Hr as [Htr _]; [|apply Hl..|apply Hactor].
  assert (Hl1 : live K f (set_rates b r) lines st A) by (apply live_rates; [done|by eapply trims_shrunk]).
  destruct ok; cbn [negb]; [|apply wp_error; left; by apply Hrefuse].
  apply wp_bind, wp_getb. case_goal; [apply wp_error; left; by apply Hrefuse|].
  apply wp_bind. eapply live_get_uid; [done|apply Hactor|]. intros u b2 t3 Ht3 Hl2 Hro2 Hfu.
  assert (Hro : rates_only b b2) by (by eapply rates_only_trans; [|exact Hro2]).
  destruct u as [u|]; [|apply wp_error; left; by apply Hrefuse].
  case_goal; [apply wp_error; left; by apply Hrefuse|].
  assert (Hcap : roomy → uid_opens A (a_uid actor) < 2 ^ 32 - 1).
  { eapply under_cap; [exact Hl2|exact Hfu|]. bool_hyps. by rewrite Hro2. }
  apply wp_bind, wp_free. intros free t4 Ht4. destruct free; cbn [negb];
    [|apply wp_error; left; by apply Hrefuse].
  apply wp_bind, wp_mint_cid. intros n t5 Hn. fold (minted n).
  destruct (minted n) as [cid|] eqn:Hm; [|apply wp_error; left; by apply Hrefuse].
  apply wp_bind, wp_mint_binding. intros rnd t6 Ht6.
  destruct (rab_make_binding _ _) as [bd|] eqn:Hbd; [|apply wp_error; left; by apply Hrefuse].
  apply minted_binding in Hbd as [? ?]. pose proof (minted_cid _ _ Hm) as [? ?].
  eapply wp_mono; [apply wp_forward; [apply fw_open_commit|]|].
  - eapply (open_commit_spec K f b2); eauto; [by rewrite Hro|]. eapply Hfresh; [|done]. lia.
  - intros resp s' (Htick & A' & ? & ? & Hs & ?). right. exists n, cid.
    unfold s_tick in Htick. cbn [s_w w_tick] in Htick. split; [unfold s_tick; lia|]. split; [done|].
    exists A'. split_and!; [done|done|by eapply statics_rates|done].
Qed.

(** ** Every request *)

Lemma handle_spec K f b lines st A t :
  live K f b lines st A → b_poisoned b = false → fresh_mints t K → servable q →
  wp (rab_broker_handle actor q)
     (λ resp s', handled actor q K A b resp s' ∨
        ∃ n c, (t ≤ n < s_tick s')%nat ∧ minted n = Some c ∧ handled actor q ({[c]} ∪ K) A b resp s')
     (Sys (World t f) b).
Proof.
  intros Hl Hpo Hfresh Hsv. unfold rab_broker_handle, servable in *. apply wp_bind, wp_getb.
  cbn [s_b]. rewrite Hpo. destruct (rq_type q) eqn:Hty.
  - by eapply handle_open_spec.
  - eapply wp_mono; [by eapply handle_outcome_spec|]. by left.
  - destruct Hsv. eapply wp_mono; [by eapply handle_emit_spec|]. by left.
  - apply wp_ret. left. exists A. split_and!; [by apply ev_capabilities|by eapply good_live|done|by right].
  - eapply wp_mono; [by eapply handle_redeem_spec|]. by left.
Qed.
End OpenIntent.
