(* ===== verification/Calm.v ===== *)
(** * A cooperative environment

    [calm]: no allocation, system call, clock, random source or library call
    fails.  In such an environment the builders of record.c always give a line,
    an append always succeeds, identifiers are always minted and nothing poisons
    the broker.  These are the facts behind Refusal.v: with the environment out
    of the way, a refusal has a cause in the request or in the broker's state. *)

From stdpp Require Import base gmap strings list fin_maps sorting.
From Stdlib Require Import ZArith Lia Ascii.
From S2P Require Import Prelude CString Jansson Env Id Sink Request Peer Record Receipt Rate.
From S2P Require Import OpenSet Broker Reconstruct Spec Recovery Live Rotation Ticks Serve.

Local Open Scope string_scope.
Local Open Scope list_scope.
Local Open Scope Z_scope.

(** ** Text that is printable ASCII *)

Lemma digit_print c : is_digit c = true → is_print c = true.
Proof. unfold is_digit, is_print. intros. bool_hyps. apply andb_true_iff. lia. Qed.

Lemma hex_print c : is_hex_lc c = true → is_print c = true.
Proof. unfold is_hex_lc, is_digit, is_print. intros. apply andb_true_iff. bool_hyps. lia. Qed.

Section Text.
Context `{JanssonLaws}.

Lemma utf8_digits s : string_forallb is_digit s = true → utf8_valid s = true.
Proof. intros Hs. apply utf8_ascii. by eapply string_forallb_impl; [exact digit_print|]. Qed.

Lemma utf8_hex s n : is_hex_lc_n s n = true → utf8_valid s = true.
Proof.
  intros Hs%is_hex_lc_n_chars. apply utf8_ascii. by eapply string_forallb_impl; [exact hex_print|].
Qed.

Lemma utf8_print_u n : 0 ≤ n → utf8_valid (print_u n) = true.
Proof. intros. by apply utf8_digits, print_u_digits. Qed.

Lemma utf8_actor_text uid : 0 ≤ uid → utf8_valid (actor_text uid) = true.
Proof.
  intros Hu. apply utf8_ascii. unfold actor_text, print_d. rewrite (proj2 (Z.ltb_ge _ _)) by done.
  rewrite string_forallb_app. apply andb_true_iff. split; [done|].
  by eapply string_forallb_impl; [exact digit_print|apply print_u_digits].
Qed.

Lemma utf8_cid micros rnd : 0 ≤ micros → utf8_valid (cid_text micros rnd) = true.
Proof.
  intros Hm. apply utf8_ascii. unfold cid_text. rewrite !string_forallb_app.
  rewrite (string_forallb_impl is_digit is_print); [|exact digit_print|by apply print_u_pad_digits].
  rewrite (string_forallb_impl is_hex_lc is_print (to_hex rnd)); [done|exact hex_print|].
  eapply is_hex_lc_n_chars, to_hex_grammar.
Qed.

Lemma format_total t : 0 ≤ t < 2 ^ 64 → ∃ ts, format_rfc3339 t 32 = Some ts ∧ utf8_valid ts = true.
Proof.
  intros Ht. destruct (strftime_bounds is_print t Ht digit_print) as [Hl Hp]; [done..|].
  unfold format_rfc3339. rewrite (proj2 (Z.ltb_lt _ _)) by done. eexists. split; [done|].
  by apply utf8_ascii.
Qed.
End Text.

(** ** Builders that cannot fail *)

Section Totality.
Context `{JanssonLaws}.
Context (dumps_total : ∀ v, json_wf v = true → is_Some (json_dumps false v)).

Lemma set_new_total o k v : is_Some o → is_Some v → is_Some (set_new o k v).
Proof. intros [? ->] [? ->]. by eexists. Qed.

Lemma set_opt_total o k v :
  is_Some o → (∀ s, v = Some s → utf8_valid s = true) → is_Some (set_opt o k v).
Proof.
  intros Ho Hv. destruct v as [s|]; [|done]. apply set_new_total; [done|].
  unfold json_string. by rewrite Hv.
Qed.

Lemma json_string_total s : utf8_valid s = true → is_Some (json_string s).
Proof. unfold json_string. intros ->. by eexists. Qed.

Lemma json_integer_total z : is_Some (json_integer z).
Proof. by eexists. Qed.

Lemma merge_total o kvs : is_Some o → is_Some (merge_members o kvs).
Proof.
  unfold merge_members. revert o. induction kvs as [|[k v] kvs IH]; intros o Ho; simpl; [done|].
  apply IH, set_new_total; [done|by eexists].
Qed.

Lemma object_total o : is_Some o → is_Some (JObject <$> o).
Proof. intros [? ->]. by eexists. Qed.

Lemma dump_total d o :
  obj_wf d o → is_Some o → is_Some (let? kvs := o in json_dumps false (JObject kvs)).
Proof. intros Hwf [kvs ->]. by apply dumps_total, Hwf. Qed.

#[local] Hint Resolve set_new_total json_string_total json_integer_total object_total : total.

Lemma broker_object_total a binding t :
  actor_ok a → 0 ≤ t → utf8_valid (a_boot_id a) = true →
  (∀ b, binding = Some b → utf8_valid b = true) →
  is_Some (broker_object a binding t None None None).
Proof.
  intros (_ & _ & _ & _ & _ & _ & _ & Hst) Ht Hboot Hb. unfold broker_object, peer_object.
  cbn [set_opt]. apply set_new_total; [|by apply json_string_total, utf8_print_u].
  apply set_opt_total; [|done]. pose proof (utf8_digits _ Hst). auto 20 with total.
Qed.

(** An audit line is always built when its texts are valid UTF-8. *)
Lemma build_audit_total phase cid binding a host t kvs :
  actor_ok a → domain_record kvs → 0 ≤ t < 2 ^ 64 → utf8_valid phase = true →
  utf8_valid cid = true → utf8_valid host = true → utf8_valid (a_boot_id a) = true →
  (∀ b, binding = Some b → utf8_valid b = true) →
  is_Some (rab_build_audit phase cid binding a host t (Some (JObject kvs))).
Proof.
  intros Ha Hdom Ht Hph Hc Hh Hb Hbind. unfold rab_build_audit.
  destruct (format_total t Ht) as (ts & -> & Hts).
  apply (dump_total 9); [by apply audit_object_wf|]. unfold audit_object.
  pose proof (broker_object_total a binding t Ha (proj1 Ht) Hb Hbind).
  pose proof (utf8_actor_text (a_uid a) (proj1 (proj1 Ha))).
  assert (utf8_valid "audit" = true) by (by apply utf8_ascii).
  apply set_new_total; [|by apply object_total]. apply set_new_total; [|by apply json_string_total].
  apply merge_total. auto 20 with total.
Qed.

(** So is a receipt line, for a receipt that can be stored. *)
Lemma build_receipt_total cid ckpt r :
  cid ≠ "" → strlen cid < RAB_CID_MAX → receipt_ok r → utf8_valid cid = true →
  utf8_valid (rc_verb r) = true → utf8_valid (rc_resource r) = true →
  utf8_valid (rc_boot_id r) = true → is_Some (rab_build_receipt cid ckpt r).
Proof.
  intros Hc1 Hc2 (Hv & ? & ? & ? & ? & ? & Hph & ? & ? & ? & ? & ?) Hc Hve Hre Hbo.
  unfold rab_build_receipt. rewrite !is_empty_false, Hv, Hph by done.
  rewrite !(proj2 (Z.leb_gt _ _)), (proj2 (Z.ltb_ge _ _)) by lia. cbn [orb negb].
  apply (dump_total 2); [auto 40 with jwf|].
  pose proof (utf8_hex _ _ Hv). pose proof (utf8_hex _ _ Hph).
  assert (utf8_valid "broker_receipt" = true) by (by apply utf8_ascii).
  assert (utf8_valid (match rc_state r with RAB_RCPT_REDEEMED => "redeemed"
                      | RAB_RCPT_ISSUED => "issued" end) = true)
    by (by destruct (rc_state r); apply utf8_ascii).
  assert (is_Some (json_bool ckpt)) by (by eexists).
  assert (Hu : ∀ n, 0 ≤ n < 2 ^ 64 → is_Some (json_string (print_u n)))
    by (intros n [? _]; by apply json_string_total, utf8_print_u).
  repeat apply set_new_total; auto using json_string_total, json_integer_total.
Qed.
End Totality.

(** ** The environment *)

Section Calm.
Context `{JanssonLaws} `{Sha256} {E : env}.

Record calm : Prop := {
  ca_ok : ∀ n, e_ok n = true;
  ca_uid : ∀ n, e_uid n = true;
  ca_node : ∀ n, e_node n = true;
  ca_unlink : ∀ n, e_unlink n = true;
  ca_write : ∀ n d, (rab_write_full (e_write n) d).2 = true;
  ca_realtime : ∀ n, is_Some (e_realtime n);
  ca_random : ∀ n k, (k ≤ 16)%nat → is_Some (fill_random (e_random n) k);
  ca_boottime : ∀ n, is_Some (e_boottime n);
  ca_bootid : ∀ n, ∃ id, e_bootid n = Some id ∧ id ≠ "" ∧ strlen id < RAB_BOOT_ID_MAX ∧
                         utf8_valid id = true;
  ca_digest : ∀ d, is_Some (rab_sha256 d);
  ca_dumps : ∀ v, json_wf v = true → is_Some (json_dumps false v)
}.

Context (Hcalm : calm).

Lemma calm_healthy : healthy.
Proof. intros n. split; apply Hcalm. Qed.

(** Two facts about one run. *)
Lemma wp_given {S A} (m : M S A) (P Q : A → S → Prop) s :
  wp m P s → wp m (λ a s', P a s' → Q a s') s → wp m Q s.
Proof. unfold wp. destruct (m s). auto. Qed.

Lemma calm_sink_append ino rec w : nl ∉ rec → wp (rab_sink_append ino rec) (λ ok _, ok = true) w.
Proof.
  intros Hnl. unfold rab_sink_append, sys_write_full, sys_fdatasync.
  rewrite (proj2 (has_nl_false _) Hnl). apply wp_bind, wp_ask. rewrite (ca_ok Hcalm). cbn [negb].
  apply wp_bind, wp_bind, wp_ask.
  pose proof (ca_write Hcalm (w_tick (World (S (w_tick w)) (w_fs w))) rec) as Hw.
  destruct (rab_write_full _ rec) as [out ok]. cbn [snd] in Hw. subst ok.
  apply wp_bind, wp_modify, wp_ret. cbn [negb]. apply wp_bind, wp_bind, wp_ask.
  match goal with |- context [rab_write_full (e_write ?n) [nl]] =>
    pose proof (ca_write Hcalm n [nl]) as Hw; destruct (rab_write_full (e_write n) [nl]) as [o2 ok2] end.
  cbn [snd] in Hw. subst ok2. apply wp_bind, wp_modify, wp_ret. cbn [negb].
  apply wp_bind, wp_ask. rewrite (ca_ok Hcalm). by apply wp_bind, wp_modify, wp_ret.
Qed.

Lemma calm_append line s :
  b_test_fail (s_b s) = RAB_FAIL_NONE → nl ∉ bs line →
  wp (append_line line) (λ ok s', ok = true ∧ ∃ w n, s' = Sys w (set_seg (s_b s) n)) s.
Proof.
  intros Htf Hnl. destruct s as [w b]. unfold append_line. apply wp_bind, wp_getb. cbn [s_b] in *.
  rewrite Htf. apply wp_bind, wp_liftW. eapply wp_mono; [by apply calm_sink_append|].
  intros ok w' ->. cbn [negb]. apply wp_bind, wp_modb, wp_ret. eauto.
Qed.

Lemma calm_built o (Q : option string → sys → Prop) t f b :
  (∀ t', (t < t')%nat → Q o (Sys (World t' f) b)) → wp (built o) Q (Sys (World t f) b).
Proof. intros HQ. apply wp_built. intros r t' Ht _ Hh. rewrite (Hh calm_healthy). auto. Qed.

Lemma calm_mint n : ∃ c, minted n = Some c ∧ utf8_valid c = true.
Proof.
  destruct (ca_realtime Hcalm n) as [ts Hts]. destruct (ca_random Hcalm (S n) 8 ltac:(lia)) as [r Hr].
  unfold minted, rab_make_correlation_id. rewrite Hts, Hr.
  rewrite cid_text_length by (apply micros_range || by eapply fill_random_length).
  eexists. split; [done|]. apply utf8_cid, micros_range.
Qed.

Lemma calm_binding n : ∃ bd, rab_make_binding (e_random n) RAB_BINDING_MAX = Some bd.
Proof.
  destruct (ca_random Hcalm n 16 ltac:(lia)) as [r Hr]. unfold rab_make_binding. rewrite Hr.
  by eexists.
Qed.

Lemma calm_token n : ∃ tok, rab_make_receipt (e_random n) RAB_RECEIPT_MAX = Some tok.
Proof.
  destruct (ca_random Hcalm n 16 ltac:(lia)) as [r Hr]. unfold rab_make_receipt. rewrite Hr.
  by eexists.
Qed.

Lemma calm_verifier tok : ∃ v, token_verifier tok = Some v.
Proof. unfold token_verifier. destruct (ca_digest Hcalm (bs tok)) as [d ->]. by eexists. Qed.

(** The token a verifier was made from passes the raw comparison. *)
Lemma verifier_matches tok v : token_verifier tok = Some v → token_matches tok v = true.
Proof.
  intros Hv. pose proof (token_verifier_hex _ _ Hv) as Hhex. apply is_hex_lc_n_length in Hhex.
  unfold token_verifier in Hv. unfold token_matches.
  destruct (rab_sha256 (bs tok)) as [d|] eqn:Hd; [|done]. injection Hv as <-.
  apply rab_sha256_length in Hd. unfold strlen. rewrite Hhex. simpl Z.eqb.
  change RAB_SHA256_LEN with 32%nat. rewrite <- Hd, hex_decode_to_hex. by apply bytes_eqb_spec.
Qed.

(** ** Nothing poisons *)

Definition clean {A} (m : M sys A) : Prop :=
  ∀ s, b_poisoned (s_b s) = false → b_poisoned (s_b (m s).2) = false.

Lemma cl_ret {A} (a : A) : clean (mreturn a).
Proof. by intros s. Qed.

Lemma cl_bind {A B} (m : M sys A) (k : A → M sys B) :
  clean m → (∀ a, clean (k a)) → clean (mbnd m k).
Proof.
  intros Hm Hk s Hs. unfold mbnd. specialize (Hm s Hs). destruct (m s) as [a s']. by apply Hk.
Qed.

Lemma cl_lift {A} (m : M world A) : clean (liftW m).
Proof. intros s Hs. unfold liftW, zoom. by destruct (m (s_w s)). Qed.

Lemma cl_modb g : (∀ b, b_poisoned (g b) = b_poisoned b) → clean (modb g).
Proof. intros Hg [w b] Hs. unfold modb, mmodify. cbn. by rewrite Hg. Qed.

Lemma cl_getb : clean getb.
Proof. by intros s. Qed.

Lemma cl_get : clean mget.
Proof. by intros s. Qed.

Lemma calm_fsync p w : wp (rab_fsync_parent_dir p) (λ ok _, ok = true) w.
Proof.
  unfold rab_fsync_parent_dir. do 3 (apply wp_bind, wp_ask; rewrite (ca_ok Hcalm); cbn [negb]).
  by apply wp_bind, wp_modify, wp_ret.
Qed.

Lemma cl_fsync {B} p (k : bool → M sys B) :
  clean (k true) → clean (mbnd (liftW (rab_fsync_parent_dir p)) k).
Proof.
  intros Hk [w b] Hs. unfold mbnd, liftW, zoom. cbn [s_w s_b].
  pose proof (calm_fsync p w) as Hf. unfold wp in Hf. destruct (rab_fsync_parent_dir p w) as [ok w'].
  cbn in Hf. subst ok. by apply Hk.
Qed.

Lemma wp_clean {A} (m : M sys A) (Q : A → sys → Prop) s :
  clean m → b_poisoned (s_b s) = false → wp m (λ a s', b_poisoned (s_b s') = false → Q a s') s →
  wp m Q s.
Proof. intros Hm Hs. unfold wp. specialize (Hm s Hs). destruct (m s). auto. Qed.

(** A step whose only effect that matters is that it does not poison. *)
Lemma cl_then {A} (m : M sys unit) (k : M sys A) (Q : A → sys → Prop) s :
  clean m → b_poisoned (s_b s) = false → (∀ s', b_poisoned (s_b s') = false → wp k Q s') →
  wp (m ;;; k) Q s.
Proof. intros Hm Hs Hk. apply wp_bind, wp_clean; [done..|]. unfold wp. destruct (m s) as [a s']. intros Hp. by apply (Hk s'). Qed.
End Calm.

Create HintDb clean.
#[export] Hint Resolve cl_ret cl_lift cl_getb cl_get : clean.
#[export] Hint Extern 2 (clean (modb _)) => apply cl_modb; intros ?; repeat case_match; reflexivity : clean.

Ltac clean_tac :=
  intros; repeat first
  [ solve [eauto 2 with clean]
  | match goal with |- clean (mbnd (liftW (rab_fsync_parent_dir _)) _) => apply cl_fsync; [assumption|] end
  | match goal with |- clean (mbnd _ _) => apply cl_bind; [|intros ?] end
  | match goal with |- clean (match ?x with _ => _ end) => destruct x end
  | match goal with |- clean (let '(_, _) := ?x in _) => destruct x end
  | progress cbv zeta ].

Section Clean.
Context `{JanssonLaws} `{Sha256} {E : env} (Hcalm : calm).

Lemma cl_alloc : clean alloc.
Proof. unfold alloc. clean_tac. Qed.
Lemma cl_clock : clean clock.
Proof. unfold clock. clean_tac. Qed.
Lemma cl_alloc_uid : clean alloc_uid.
Proof. unfold alloc_uid. clean_tac. Qed.
#[local] Hint Resolve cl_alloc cl_alloc_uid cl_clock : clean.

Lemma cl_built o : clean (built o).
Proof. unfold built. clean_tac. Qed.
Lemma cl_note u n b : clean (note_write u n b).
Proof. unfold note_write. clean_tac. Qed.
Lemma cl_remove p it : clean (remove_open p it).
Proof. unfold remove_open. clean_tac. Qed.

Lemma cl_collect b ds acc cap : clean (collect_archives b ds acc cap).
Proof. revert acc cap. induction ds as [|[p i] ds IH]; intros; cbn [collect_archives]; clean_tac. Qed.

Lemma cl_prune cfg es n t p : clean (prune_archives cfg es n t p).
Proof. revert n t p. induction es as [|e es IH]; intros; cbn [prune_archives]; clean_tac. Qed.

#[local] Hint Resolve cl_built cl_collect cl_prune : clean.

Lemma cl_carry_uids fd th us : clean (carry_uids fd th us).
Proof. induction us as [|u us IH]; cbn [carry_uids]; clean_tac. Qed.

Lemma cl_carry_intents fd ps : clean (carry_intents fd ps).
Proof. induction ps as [|p ps IH]; cbn [carry_intents]; clean_tac. Qed.

#[local] Hint Resolve cl_carry_uids cl_carry_intents : clean.

Lemma cl_retention : clean apply_retention.
Proof. unfold apply_retention. clean_tac. Qed.
#[local] Hint Resolve cl_retention : clean.

(** The last directory sync of a rotation is the only step that could poison. *)
Lemma cl_maybe_rotate : clean maybe_rotate.
Proof. unfold maybe_rotate, rotate, rotate_swap, abandon, write_rate_carries. clean_tac. Qed.
End Clean.

#[export] Hint Resolve cl_note cl_remove cl_maybe_rotate : clean.
