(* ===== verification/Session.v ===== *)
(** * Sessions: many requests, faults, restarts

    [serve] feeds requests to the broker one after another, as the event loop
    does.  From a booted broker a whole session follows the contract of Serve.v
    step by step, and whatever state it ends in, restarting the broker on the
    log rebuilds the open set the contract says.  A power failure
    ([power_loss]) takes nothing from a broker that is not poisoned. *)

From stdpp Require Import base gmap strings list fin_maps sorting.
From Stdlib Require Import ZArith Lia Ascii.
From S2P Require Import Prelude CString Jansson Env Id Sink Request Peer Record Receipt Rate.
From S2P Require Import OpenSet Broker Reconstruct Spec Recovery Live Rotation Ticks Serve.

Local Open Scope string_scope.
Local Open Scope list_scope.
Local Open Scope Z_scope.

(** ** Requests in sequence *)

Section Sessions.
Context `{JanssonLaws} `{Sha256} {E : env}.

(** The event loop hands complete requests to the broker one at a time. *)
Fixpoint serve (reqs : list (rab_actor * rab_request)) : M sys (list response) :=
  match reqs with
  | [] => mreturn []
  | (actor, q) :: rest =>
      let! r := rab_broker_handle actor q in
      let! rs := serve rest in
      mreturn (r :: rs)
  end.

(** The contract, request by request. *)
Inductive evolves_all :
  gmap string intent → list (rab_actor * rab_request) → list response → gmap string intent → Prop :=
| ea_nil A : evolves_all A [] [] A
| ea_cons A actor q resp A1 reqs rs A2 :
    evolves actor q A resp A1 → evolves_all A1 reqs rs A2 →
    evolves_all A ((actor, q) :: reqs) (resp :: rs) A2.

(** Minted ids never repeat. *)
Definition distinct_mints : Prop :=
  ∀ n m c, minted n = Some c → minted m = Some c → n = m.

(** The open set is [A], and no id still to be minted is in the log. *)
Definition in_session (s : sys) (A : gmap string intent) : Prop :=
  ∃ K, good K s A ∧ fresh_mints (s_tick s) K.

Definition request_fits (r : rab_actor * rab_request) : Prop := actor_ok r.1 ∧ servable r.2.

(** Removing a file and adding an open-set node never fail. *)
Definition steady : Prop := (∀ n, e_unlink n = true) ∧ (∀ n, e_node n = true).

Lemma fresh_later t t' K : fresh_mints t K → (t ≤ t')%nat → fresh_mints t' K.
Proof. intros Hf Ht n c Hn. apply Hf. lia. Qed.

Lemma fresh_minted t t' n c K :
  distinct_mints → fresh_mints t K → (t ≤ n < t')%nat → minted n = Some c →
  fresh_mints t' ({[c]} ∪ K).
Proof.
  intros Hd Hf Hn Hc m c' Hm Hc' [->%elem_of_singleton|Hin]%elem_of_union.
  - pose proof (Hd _ _ _ Hc Hc'). lia.
  - apply (Hf m c'); [lia|done|done].
Qed.

Lemma handle_in_session s A actor q :
  steady → distinct_mints → in_session s A → request_fits (actor, q) →
  wp (rab_broker_handle actor q)
     (λ resp s', ∃ A', evolves actor q A resp A' ∧ in_session s' A' ∧ statics (s_b s) (s_b s') ∧
        (is_error resp ∨ b_poisoned (s_b s') = false)) s.
Proof.
  intros [Hu Hn] Hd (K & Hg & Hf) [Ha Hs]. destruct s as [[t f] b].
  destruct Hg as [[Hpo (lines & st & Hl)]|[Hpo Hrec]]; cbn [s_b s_w w_fs] in *.
  - eapply wp_mono.
    + apply wp_forward; [apply fw_handle|]. by eapply handle_spec.
    + intros resp s' (Ht & [(A' & ? & ? & ?)|(n & c & Htn & Hm & A' & ? & ? & ?)]);
        exists A'; split_and!; try done; try tauto.
      * exists K. split; [done|]. by eapply fresh_later.
      * exists ({[c]} ∪ K). split; [done|]. by eapply fresh_minted.
  - unfold rab_broker_handle. apply wp_bind, wp_getb. cbn [s_b]. rewrite Hpo. apply wp_error.
    exists A. split_and!; auto with serve; [by apply ev_refused; auto with serve|].
    exists K. split; [by right|done].
Qed.

Lemma serve_in_session reqs s A :
  steady → distinct_mints → in_session s A → Forall request_fits reqs →
  wp (serve reqs)
     (λ rs s', ∃ A', evolves_all A reqs rs A' ∧ in_session s' A' ∧ statics (s_b s) (s_b s')) s.
Proof.
  intros Hst Hd Hs Hr. revert s A Hs.
  induction Hr as [|[actor q] reqs Hfit _ IH]; intros s A Hs; cbn [serve].
  { apply wp_ret. exists A. split_and!; [constructor|done|apply statics_refl]. }
  apply wp_bind. eapply wp_mono; [by apply handle_in_session|].
  intros resp s1 (A1 & Hev & Hs1 & Hst1 & _). apply wp_bind.
  eapply wp_mono; [by apply IH|]. intros rs s2 (A2 & Hev2 & Hs2 & Hst2).
  apply wp_ret. exists A2. split_and!; [by econstructor|done|by eapply statics_trans].
Qed.

(** ** Restart *)

(** The segment fits the reconstruction limit. *)
Definition segment_fits (f : fsys) (fd : nat) : Prop :=
  blen (file_data f fd) ≤ RAB_MAX_SEGMENT_BYTES.

(** What reopening hands out: the open set [A], or a report that the
    environment failed. *)
Definition reopened (path : string) (A : gmap string intent) (r : broker + string) : Prop :=
  (∃ e, r = inr e ∧ env_failed (Some e)) ∨
  (∃ b A', r = inl b ∧ b_path b = path ∧ b_poisoned b = false ∧
           represents (b_opens b) A' ∧ agree A A').

Lemma replays_reopen path cfg host f fd lines torn st A t :
  sink_at f path fd (encode lines ++ torn) → Forall (λ l, nl ∉ l) lines → nl ∉ torn →
  spec_replay spec_init lines = inr st → agree A (sp_open st) → segment_fits f fd →
  cfg_ok cfg → config_error cfg = None →
  wp (rab_broker_open path cfg host) (λ r _, reopened path A r) (World t f).
Proof.
  intros (Hd & i & Hi & Hk & Hda & Hm) Hl Ht Hr Hag Hfit Hc Hce.
  eapply wp_mono.
  - eapply (broker_open_spec path cfg host f fd i lines torn); try done.
    unfold segment_fits, file_data in Hfit. by rewrite Hi in Hfit.
  - intros r w' [Henv|Hok]; [by left|]. rewrite Hr in Hok. destruct Hok as (b & -> & Hop).
    right. exists b, (sp_open st). destruct Hop. by split_and!.
Qed.

Lemma good_reopen K s A cfg host t :
  good K s A → segment_fits (w_fs (s_w s)) (b_fd (s_b s)) → cfg_ok cfg → config_error cfg = None →
  wp (rab_broker_open (b_path (s_b s)) cfg host) (λ r _, reopened (b_path (s_b s)) A r)
     (World t (w_fs (s_w s))).
Proof.
  intros Hg Hfit Hc Hce. destruct Hg as [[_ (lines & st & Hl)]|[_ (st & Hrep & Hag & _)]].
  - destruct Hl. eapply (replays_reopen _ _ _ _ _ lines []); eauto; [by rewrite app_nil_r|set_solver].
  - destruct Hrep as (lines & torn & Hs & Hl & Ht & Hr). by eapply replays_reopen.
Qed.

(** ** Power failure *)

(** Each directory entry is the current or the durable one, each file holds its
    durable contents and possibly more of what was written. *)
Definition power_loss (f f' : fsys) : Prop :=
  (∀ p, fs_dir f' !! p = fs_dir f !! p ∨ fs_dir f' !! p = fs_ddir f !! p) ∧
  (∀ j i, fs_ino f !! j = Some i → ∃ i', fs_ino f' !! j = Some i' ∧ i_kind i' = i_kind i ∧
     i_mode i' = i_mode i ∧ i_durable i `prefix_of` i_data i' ∧ i_data i' `prefix_of` i_data i).

Lemma power_loss_sink f f' path fd data :
  power_loss f f' → sink_at f path fd data → settled f path fd → sink_at f' path fd data.
Proof.
  intros [Hd Hi] (Hp & i & Hino & Hk & Hda & Hm) [Hdd Hdur]. split.
  { destruct (Hd path) as [->| ->]; done. }
  destruct (Hi _ _ Hino) as (i' & Hi' & Hk' & Hm' & Hpre1 & Hpre2). exists i'.
  unfold file_durable, file_data in Hdur. rewrite Hino in Hdur. rewrite Hdur in Hpre1.
  assert (i_data i' = i_data i) by (by apply (anti_symm prefix)).
  split_and!; congruence.
Qed.

Lemma power_loss_fits f f' fd i :
  power_loss f f' → fs_ino f !! fd = Some i → segment_fits f fd → segment_fits f' fd.
Proof.
  intros [_ Hi] Hino Hf. destruct (Hi _ _ Hino) as (i' & Hi' & _ & _ & _ & Hpre).
  unfold segment_fits, file_data, blen in *. rewrite Hi'. rewrite Hino in Hf.
  apply prefix_length in Hpre. lia.
Qed.

Lemma live_power_loss K s A f' cfg host t :
  good K s A → b_poisoned (s_b s) = false → power_loss (w_fs (s_w s)) f' →
  segment_fits (w_fs (s_w s)) (b_fd (s_b s)) → cfg_ok cfg → config_error cfg = None →
  wp (rab_broker_open (b_path (s_b s)) cfg host) (λ r _, reopened (b_path (s_b s)) A r)
     (World t f').
Proof.
  intros [[_ (lines & st & Hl)]|[Hx _]] Hpo Hpl Hfit Hc Hce; [|congruence]. destruct Hl.
  assert (∃ i, fs_ino (w_fs (s_w s)) !! b_fd (s_b s) = Some i) as [i Hi]
    by (destruct lv_sink as (_ & i & ? & _); eauto).
  eapply (replays_reopen _ _ _ _ (b_fd (s_b s)) lines []); eauto.
  - rewrite app_nil_r. by eapply power_loss_sink.
  - set_solver.
  - by eapply power_loss_fits.
Qed.
(** ** Boot *)

#[local] Hint Resolve fw_fstat fw_unlink fw_sink_open fw_alloc fw_fdatasync : forward.

Lemma fw_note_rate u n b : forward s_tick (note_rate u n b).
Proof. unfold note_rate. forward_tac. Qed.

Lemma fw_note_carry u ops : forward s_tick (note_carry u ops).
Proof.
  pose proof fw_note_rate. induction ops as [|[? ?] ops IH]; cbn [note_carry]; forward_tac.
Qed.

Lemma fw_apply_stored s c : forward s_tick (apply_stored s c).
Proof. unfold apply_stored, apply_open, apply_outcome, add_open, remove_open. forward_tac. Qed.

#[local] Hint Resolve fw_note_rate fw_note_carry fw_apply_stored : forward.

Lemma fw_replay_line l c : forward s_tick (replay_line l c).
Proof. unfold replay_line, note_replayed. forward_tac. Qed.

Lemma fw_replay fuel p pos c : forward s_tick (replay fuel p pos c).
Proof.
  pose proof fw_replay_line. revert p pos c.
  induction fuel as [|fuel IH]; intros; cbn [replay]; forward_tac.
Qed.

#[local] Hint Resolve fw_replay : forward.

Lemma fw_startup path :
  forward s_tick (let! err := reconstruct in
                  match err with Some e => mreturn (Some e) | None => open_sink path end).
Proof.
  unfold reconstruct, open_sink, slurp_segment, truncate_to, sys_open_nofollow. forward_tac.
Qed.

Lemma fw_broker_open path cfg host : forward w_tick (rab_broker_open path cfg host).
Proof.
  unfold rab_broker_open. forward_tac. intros w.
  match goal with |- context [mbnd reconstruct ?k] => set (m := mbnd reconstruct k) end.
  pose proof (fw_startup path (Sys w (broker_init path cfg host))) as Hf. fold m in Hf.
  unfold s_tick in Hf. cbn [s_w] in Hf. by destruct (m _).
Qed.

(** A sink on stable storage with the complete lines [lines]. *)
Record bootable (f : fsys) (path : string) (ino : nat) (i : inode) (lines : list bytes)
    (torn : bytes) (st : spec_state) : Prop := {
  bo_file : reg_file f path ino i;
  bo_entry : fs_ddir f !! path = Some ino;
  bo_durable : i_durable i = i_data i;
  bo_mode : Z.land (i_mode i) S_IWOTH = 0;
  bo_size : blen (i_data i) ≤ RAB_MAX_SEGMENT_BYTES;
  bo_segment : is_segment (i_data i) lines torn;
  bo_fs : fs_ok f;
  bo_replay : spec_replay spec_init lines = inr st;
  bo_set : set_ok (sp_open st)
}.

Lemma boot_in_session f path ino i lines torn st cfg host t :
  bootable f path ino i lines torn st → cfg_ok cfg → config_error cfg = None →
  fresh_mints t (sp_ids st) →
  wp (rab_broker_open path cfg host)
     (λ r w', (∃ e, r = inr e ∧ env_failed (Some e)) ∨
        ∃ b, r = inl b ∧ b_path b = path ∧ in_session (Sys w' b) (sp_open st)) (World t f).
Proof.
  intros [] Hc Hce Hf. eapply wp_mono.
  { apply wp_forward; [apply fw_broker_open|]. by eapply broker_open_spec. }
  intros r w' (Ht & [Henv|Hok]); [by left|]. right. rewrite bo_replay0 in Hok.
  destruct Hok as (b & -> & []). exists b. split_and!; try done. exists (sp_ids st).
  split; [|by eapply fresh_later]. left. split; [done|]. exists lines, st.
  destruct op_data as (dur & Hino & Hdur). destruct op_fs as [Hdd Hfs].
  split; try done; cbn [s_w s_b]; rewrite ?op_path, ?op_cfg, ?op_fd; try done.
  - apply op_account.
  - split; [done|]. eexists. split; [done|]. by split_and!.
  - split; [by rewrite Hdd|]. unfold file_durable, file_data. rewrite Hino. cbn. by apply Hdur.
  - apply bo_segment0.
  - by apply Hfs.
Qed.

Lemma set_ok_empty : set_ok ∅.
Proof. split; [intros c it|intros c c' it it' v]; by rewrite lookup_empty. Qed.

(** Reconstruction of an absent sink: nothing to replay. *)
Lemma reconstruct_absent b f t (Q : option string → sys → Prop) :
  fs_dir f !! b_path b = None →
  (∀ e t', env_failed (Some e) → Q (Some e) (Sys (World t' f) b)) →
  (∀ t', Q None (Sys (World t' f) b)) →
  wp reconstruct Q (Sys (World t f) b).
Proof.
  intros Hno Hbad Hok. unfold reconstruct, slurp_segment, sys_open_nofollow.
  apply wp_bind, wp_getb. cbn [s_b]. apply wp_bind, wp_liftW, wp_bind, wp_bind, wp_get.
  cbn [w_fs]. rewrite Hno. apply wp_ret, wp_ret.
  apply wp_bind, wp_alloc. intros ok t1 _ Hh. unfold cidset_init. destruct ok; cbn [negb].
  - apply wp_bind, wp_ret, wp_ret, Hok.
  - apply wp_ret, Hbad. eapply env_failed_intro; [set_solver|exact Hh|done].
Qed.

(** Starting with no segment: an empty sink is created. *)
Lemma start_absent_spec path cfg host f t :
  fs_ok f → fs_dir f !! path = None → cfg_ok cfg →
  wp (let! err := reconstruct in
      match err with Some e => mreturn (Some e) | None => open_sink path end)
     (λ err s, env_failed err ∨ err = None ∧ b_path (s_b s) = path ∧ in_session s ∅)
     (Sys (World t f) (broker_init path cfg host)).
Proof.
  intros Hfs Hno Hc. apply wp_bind. apply reconstruct_absent; [done| |].
  { intros e t' He. apply wp_ret. by left. }
  intros t1. unfold open_sink. apply wp_bind, wp_liftW.
  eapply (open_pending_spec (path +:+ ".pending") (S (fs_next f)) path);
    [done|by apply not_eq_sym, pending_neq|lia|by left|].
  intros r t2 f2 Hkp Hr Hh2. destruct r as [fd|]; cycle 1.
  { apply wp_ret. left. split; [|eexists; split; [done|set_solver]].
    intros Hx. by apply (Hh2 Hx Hno). }
  destruct (Hr _ eq_refl) as (_ & Hh & Hd & Hdd). pose proof Hh as (i & Hi & _ & _ & Hdur & _).
  apply wp_bind, wp_modb, wp_bind, wp_liftW. eapply fstat_file; [done|]. intros st' t3 _ _.
  apply wp_bind, wp_modb, wp_ret. right. split_and!; [done|done|]. exists ∅.
  split; [|intros n c _ _; set_solver]. left. split; [done|]. exists [], spec_init.
  split; try done; cbn.
  - apply rep_init.
  - by apply rates_init_ok.
  - apply accounted_init.
  - by apply (holds_sink f2 path fd []).
  - split; [done|]. unfold file_durable, file_data. rewrite Hi. exact Hdur.
  - apply Hkp.
Qed.

(** First start: the sink is created, durably, and the open set is empty. *)
Lemma first_boot_in_session f path cfg host t :
  fs_ok f → fs_dir f !! path = None → cfg_ok cfg → config_error cfg = None →
  wp (rab_broker_open path cfg host)
     (λ r w', (∃ e, r = inr e ∧ env_failed (Some e)) ∨
        ∃ b, r = inl b ∧ b_path b = path ∧ in_session (Sys w' b) ∅) (World t f).
Proof.
  intros Hfs Hno Hc Hce. apply wp_broker_open; [done|by left; eauto|]. intros t0.
  set (k := λ _ w, _).
  assert (Hk : ∀ t' f', fs_ok f' → fs_dir f' !! path = None → k tt (World t' f')).
  2: { case_goal; [|by apply wp_ret, Hk]. apply wp_bind.
       eapply (unlink_spec path 0); [done|apply pending_neq|]. intros ok t' f' Hkp _ _ _.
       apply wp_ret, Hk; [apply Hkp|]. destruct Hkp as (_ & -> & _). done. }
  intros t' f' Hfs' Hno'. eapply wp_mono; [by apply start_absent_spec|].
  intros err s [[Hh (e & -> & He)]|(-> & Hp & Hs)].
  - left. eexists. split; [done|]. split; eauto.
  - right. exists (s_b s). split_and!; [done|done|]. by destruct s.
Qed.
End Sessions.
