(* ===== verification/Demo.v ===== *)
(** * A concrete run

    One environment in which nothing fails, two peers and the requests of a
    receipted operation.  The witnesses of the broker's properties evaluate the
    handlers on it. *)

From stdpp Require Import base gmap strings list fin_maps.
From Stdlib Require Import ZArith Lia Ascii.
From S2P Require Import Prelude CString Jansson Env Id Sink Request Peer Record Receipt Rate.
From S2P Require Import OpenSet Broker Reconstruct Spec Recovery Live Rotation Ticks Serve.
From S2P Require Import Session.

Local Open Scope string_scope.
Local Open Scope list_scope.
Local Open Scope Z_scope.

(** The clock answers for the first thousand ticks; every tick has its own
    random bytes. *)
Definition demo_env : env :=
  Env (λ n, 1000000 + Z.of_nat n)
      (λ n, if (n <? 1000)%nat then Some (Timespec (1 + Z.of_nat n) 0) else None)
      (λ n, [RndBytes (replicate 16 (byte_of (Z.of_nat n)))])
      (λ n, Some (5 + Z.of_nat n)) (λ _, Some "boot") (λ _, Some (100000, 4096))
      (λ _, []) (λ _, true) (λ _, true) (λ _, true) (λ _, true) 0.

Definition demo_cfg : rab_config :=
  Config 4 8 10 100 0 0 0 0 0 0 300.

Definition demo_fs : fsys := Fs ∅ ∅ ∅ 0.
Definition demo_path : string := "/a".

Definition alice : rab_actor := Actor 1000 1000 77 "boot" "123".
Definition root_peer : rab_actor := Actor 0 0 42 "boot" "9".

Definition demo_record (effect : bool) : list (string * json) :=
  [("operation", JString "restart"); ("outcome", JString "ok"); ("resource", JString "svc");
   ("effect_issued", JBool effect)].

Definition zeros64 : string :=
  "0000000000000000000000000000000000000000000000000000000000000000".

Definition demo_open : rab_request :=
  Request RAB_REQ_OPEN_INTENT "" "" true 1 zeros64 "" 0 "" "" 0 "" (Some (JObject (demo_record false))).

Definition demo_redeem (tok : string) : rab_request :=
  Request RAB_REQ_REDEEM "" "" false 0 "" tok 1000 "restart" "svc" 1 zeros64 None.

Definition demo_outcome (binding : string) (effect : bool) : rab_request :=
  plain_request RAB_REQ_WRITE_OUTCOME binding "" (Some (JObject (demo_record effect))).

Definition demo_emit : rab_request :=
  plain_request RAB_REQ_EMIT "" "preview" (Some (JObject (demo_record false))).

(** Start the broker on an empty directory. *)
Definition run_boot : (broker + string) * world :=
  @rab_broker_open BitJansson demo_env demo_path demo_cfg None (World 0 demo_fs).

Definition booted (r : (broker + string) * world) : option sys :=
  match r with (inl b, w) => Some (Sys w b) | _ => None end.

(** A broker to fall back on, so that the state below is a [sys]. *)
Definition demo_s0 : sys :=
  match booted run_boot with
  | Some s => s
  | None => Sys (World 0 demo_fs) (broker_init demo_path demo_cfg None)
  end.

Definition demo_serve (reqs : list (rab_actor * rab_request)) (s : sys) : list response * sys :=
  @serve BitJansson pad_sha demo_env reqs s.

(** ** Facts *)

Lemma demo_steady : @steady demo_env.
Proof. by split. Qed.

Lemma micros_small n : 0 ≤ n < 1000 → micros_of (Timespec (1 + n) 0) = (1 + n) * 1000000.
Proof.
  intros Hn. unfold micros_of. cbn [tv_sec tv_nsec]. change (Z.quot 0 1000) with 0.
  rewrite (u64_small (1 + n)), (u64_small 0), Z.add_0_r by lia.
  rewrite (u64_small ((1 + n) * 1000000)) by lia. apply u64_small. lia.
Qed.

Lemma string_compare_refl s : String.compare s s = Eq.
Proof.
  induction s as [|c s IH]; simpl; [done|]. unfold Ascii.compare. by rewrite N.compare_refl.
Qed.

(** A clock that advances gives ids that never repeat. *)
Lemma advancing_mints {E : env} :
  (∀ n m ts ts', (n < m)%nat → e_realtime n = Some ts → e_realtime m = Some ts' →
     micros_of ts < micros_of ts') → distinct_mints.
Proof.
  intros Hadv.
  assert (Hlt : ∀ n m c, (n < m)%nat → minted n = Some c → minted m = Some c → False).
  { unfold minted. intros n m c Hnm Hn Hm.
    destruct (e_realtime n) as [ts|] eqn:E1; [|done]. destruct (e_realtime m) as [ts'|] eqn:E2; [|done].
    pose proof (make_cid_order _ _ _ _ _ _ _ Hn Hm (Hadv _ _ _ _ Hnm E1 E2)) as Hc.
    rewrite string_compare_refl in Hc. done. }
  intros n m c Hn Hm. destruct (Nat.lt_total n m) as [Hx|[Hx|Hx]]; [|done|]; exfalso; eauto.
Qed.

Lemma demo_mints : @distinct_mints demo_env.
Proof.
  apply advancing_mints. intros n m ts ts' Hnm. cbn [e_realtime demo_env].
  destruct (n <? 1000)%nat eqn:En; [|done]. destruct (m <? 1000)%nat eqn:Em; [|done].
  apply Nat.ltb_lt in En, Em. intros [= <-] [= <-]. rewrite !micros_small by lia. lia.
Qed.

Lemma demo_cfg_ok : cfg_ok demo_cfg.
Proof. split; cbn; lia. Qed.

Lemma demo_fs_ok : fs_ok demo_fs.
Proof. split; intros p j; cbn; by rewrite lookup_empty. Qed.

Lemma actor_ok_alice : actor_ok alice.
Proof. unfold actor_ok. cbn. split_and!; try done; lia. Qed.

Lemma actor_ok_root : actor_ok root_peer.
Proof. unfold actor_ok. cbn. split_and!; try done; lia. Qed.

Lemma demo_domain effect : @domain_record BitJansson (demo_record effect).
Proof.
  split; [|split].
  - intros k Hk. unfold demo_record in Hk. cbn in Hk. unfold domain_keys. cbn. set_solver.
  - by destruct effect.
  - by destruct effect.
Qed.

Lemma demo_fits effect : record_fits (demo_record effect).
Proof. by destruct effect. Qed.

Lemma demo_storable q effect :
  rq_record q = Some (JObject (demo_record effect)) → @storable BitJansson q.
Proof. intros Hq. eexists. split_and!; [exact Hq|apply demo_domain|apply demo_fits]. Qed.

(** The broker starts, with an empty open set. *)
Lemma demo_in_session : @in_session BitJansson demo_env demo_s0 ∅.
Proof.
  pose proof (@first_boot_in_session BitJansson _ demo_env demo_fs demo_path demo_cfg None 0
                demo_fs_ok ltac:(done) demo_cfg_ok ltac:(done)) as Hb.
  unfold wp in Hb. change (@rab_broker_open _ _ _ _ _ _) with run_boot in Hb.
  destruct Hb as [(e & He & _)|(b & Hb & _ & Hs)].
  - exfalso. revert He. vm_compute. done.
  - unfold demo_s0. destruct run_boot as [r w]. cbn in Hb, Hs. subst r. exact Hs.
Qed.

(** The open set a hashed set stands for. *)
Definition opens_map (o : opens) : gmap string intent :=
  list_to_map ((λ pi, (it_cid (snd pi), snd pi)) <$> map_to_list (o_heap o)).

Lemma opens_map_represents o A : represents o A → A = opens_map o.
Proof.
  intros [Hok Hin Hout Hinj]. apply map_eq. intros c.
  assert (Hnd : NoDup ((λ pi, (it_cid (snd pi), snd pi)) <$> map_to_list (o_heap o)).*1).
  { rewrite <- list_fmap_compose. apply NoDup_fmap_2_strong; [|apply NoDup_map_to_list].
    intros [p it] [p' it'] Hp Hp' He. simpl in *. apply elem_of_map_to_list in Hp, Hp'.
    assert (p = p') as <- by eauto. congruence. }
  destruct (A !! c) as [it|] eqn:HA.
  - destruct (Hout _ _ HA) as (<- & p & Hp). symmetry. apply elem_of_list_to_map; [done|].
    apply list_elem_of_fmap. exists (p, it). split; [done|]. by apply elem_of_map_to_list.
  - symmetry. apply not_elem_of_list_to_map. intros Hx.
    apply list_elem_of_fmap in Hx as ([c' it] & -> & Hx). apply list_elem_of_fmap in Hx as ([p it'] & [= -> ->] & Hp).
    apply elem_of_map_to_list, Hin in Hp. simpl in HA. congruence.
Qed.

(** The state after a session of requests that all fit. *)
Definition demo_after (reqs : list (rab_actor * rab_request)) : sys := (demo_serve reqs demo_s0).2.

Lemma demo_after_session reqs :
  Forall (@request_fits BitJansson) reqs → b_poisoned (s_b (demo_after reqs)) = false →
  @in_session BitJansson demo_env (demo_after reqs) (opens_map (b_opens (s_b (demo_after reqs)))).
Proof.
  intros Hr Hpo.
  pose proof (@serve_in_session BitJansson _ pad_sha demo_env reqs demo_s0 ∅ demo_steady demo_mints
                demo_in_session Hr) as Hs.
  destruct Hs as (A' & _ & Hs & _). change (@in_session BitJansson demo_env (demo_after reqs) A') in Hs.
  enough (A' = opens_map (b_opens (s_b (demo_after reqs)))) as <- by done.
  destruct Hs as (K & [[_ (lines & st & Hl)]|[Hx _]] & _); [|congruence].
  apply opens_map_represents, Hl.
Qed.

(** An opened operation: its id, binding and token. *)
Definition demo_opened : string * string * string :=
  match (demo_serve [(alice, demo_open)] demo_s0).1 with
  | [RespOpenOk cid binding _ (Some tok)] => (cid, binding, tok)
  | _ => ("", "", "")
  end.
Definition demo_cid : string := demo_opened.1.1.
Definition demo_binding : string := demo_opened.1.2.
Definition demo_token : string := demo_opened.2.

Definition demo_reqs : list (rab_actor * rab_request) :=
  [(alice, demo_open); (root_peer, demo_redeem demo_token);
   (alice, demo_outcome demo_binding true); (alice, demo_emit)].

Lemma alice_fits q effect :
  rq_record q = Some (JObject (demo_record effect)) →
  rq_type q ≠ RAB_REQ_EMIT ∨ rq_phase q = "preview" → @request_fits BitJansson (alice, q).
Proof.
  intros Hq Hp. split; [apply actor_ok_alice|]. cbn [snd]. unfold servable. pose proof (demo_storable q effect Hq).
  destruct (rq_type q) eqn:Hty; try done. split; [done|]. destruct Hp as [Hne|Hp]; [by destruct Hne|by left].
Qed.

Lemma root_fits tok : @request_fits BitJansson (root_peer, demo_redeem tok).
Proof. split; [apply actor_ok_root|done]. Qed.

Lemma demo_reqs_fit : Forall (@request_fits BitJansson) demo_reqs.
Proof.
  unfold demo_reqs. constructor; [by apply (alice_fits _ false); [|left]|].
  constructor; [apply root_fits|]. constructor; [by apply (alice_fits _ true); [|left]|].
  constructor; [|constructor]. by apply (alice_fits _ false); [|right].
Qed.
