(* ===== verification/Retention.v ===== *)
(** * What retention keeps

    [apply_retention] against a reference: of the archives of the sink, sorted by
    the time in their names, the oldest go, and exactly as many as the bounds
    require.  That it never touches the sink itself is part of Rotation.v. *)

From stdpp Require Import base gmap strings list fin_maps sorting.
From Stdlib Require Import ZArith Lia Ascii.
From S2P Require Import Prelude CString Jansson Env Id Sink Request Peer Record Receipt Rate.
From S2P Require Import OpenSet Broker Windows Reconstruct Spec Recovery Live Rotation Session Demo.

Local Open Scope string_scope.
Local Open Scope list_scope.
Local Open Scope Z_scope.

(** ** The reference *)

(** The archives of the sink: regular files of the broker named "<sink>.<digits>". *)
Definition archives {E : env} (b : broker) (f : fsys) : list archive_ent :=
  omap (λ d, archive_candidate b f true d.1 d.2) (map_to_list (fs_dir f)).

Definition total_size (es : list archive_ent) : Z := fold_right (λ e t, ae_size e + t) 0 es.

(** Few enough archives, and few enough bytes together with the active segment. *)
Definition within_bounds (cfg : rab_config) (active : Z) (es : list archive_ent) : Prop :=
  (retain_segments cfg = 0 ∨ Z.of_nat (length es) ≤ retain_segments cfg) ∧
  (retain_bytes cfg = 0 ∨ active + total_size es ≤ retain_bytes cfg).

(** [old] goes and [kept] stays: the bounds hold then, or nothing is left to go, and
    they did not hold one archive earlier. *)
Definition just_enough (cfg : rab_config) (active : Z) (old kept : list archive_ent) : Prop :=
  (within_bounds cfg active kept ∨ kept = []) ∧
  ∀ old' e, old = old' ++ [e] → ¬ within_bounds cfg active (e :: kept).

(** No archive that goes is newer than one that stays. *)
Definition oldest_first (old kept : list archive_ent) : Prop :=
  ∀ x y, x ∈ old → y ∈ kept → ae_suffix x ≤ ae_suffix y.

(** ** Facts *)

#[export] Instance archive_le_total : Total archive_le.
Proof. intros a b. unfold archive_le. lia. Qed.

#[export] Instance archive_le_trans : Transitive archive_le.
Proof. intros a b c. unfold archive_le. lia. Qed.

(** A split of the sorted archives has the oldest in front. *)
Lemma sorted_oldest_first es old kept : merge_sort archive_le es = old ++ kept → oldest_first old kept.
Proof.
  intros Hs x y Hx Hy. pose proof (StronglySorted_merge_sort archive_le es) as Hss. rewrite Hs in Hss.
  exact (StronglySorted_app_1_elem_of archive_le old kept x y Hss Hx Hy).
Qed.

Lemma total_size_cons e es : total_size (e :: es) = ae_size e + total_size es.
Proof. done. Qed.

Lemma total_size_nonneg es : Forall (λ e, 0 ≤ ae_size e) es → 0 ≤ total_size es.
Proof. induction 1; [done|]. rewrite total_size_cons. lia. Qed.

Lemma total_size_perm es es' : es ≡ₚ es' → total_size es = total_size es'.
Proof. induction 1; rewrite ?total_size_cons; lia. Qed.

Lemma sum_sizes_total es start :
  Forall (λ e, 0 ≤ ae_size e) es → 0 ≤ start → start + total_size es < 2 ^ 64 →
  sum_sizes es start = start + total_size es.
Proof.
  intros Hes. revert start. induction Hes as [|e es He Hes IH]; intros start Hs Hlt; [cbn; lia|].
  rewrite total_size_cons in *. pose proof (total_size_nonneg es Hes). unfold sum_sizes in *. cbn.
  rewrite u64_small, IH by lia. lia.
Qed.

(** Removing names from a directory. *)
Definition without (names : list string) (d : gmap string nat) : gmap string nat :=
  foldr delete d names.

Lemma without_lookup names d p : p ∉ names → without names d !! p = d !! p.
Proof.
  induction names as [|n names IH]; intros Hp; cbn; [done|].
  rewrite lookup_delete_ne by set_solver. apply IH. set_solver.
Qed.

Lemma without_delete names d n : without names (delete n d) = delete n (without names d).
Proof. unfold without. induction names as [|m names IH]; cbn; [done|]. by rewrite IH, delete_delete. Qed.

Section Retention.
Context `{JanssonLaws} `{Sha256} {E : env}.
Context (Hhealthy : healthy) (Hunlink : ∀ n, e_unlink n = true).

Lemma wp_alloc_ok (Q : bool → sys → Prop) t f b :
  (∀ t', Q true (Sys (World t' f) b)) → wp alloc Q (Sys (World t f) b).
Proof. intros HQ. apply wp_alloc. intros ok t' _ Hok. rewrite (Hok Hhealthy). apply HQ. Qed.

(** The [readdir] loop collects every archive. *)
Lemma collect_all b ds acc cap f t (Q : option (list archive_ent) → sys → Prop) :
  (∀ t', Q (Some (acc ++ omap (λ d, archive_candidate b f true d.1 d.2) ds)) (Sys (World t' f) b)) →
  wp (collect_archives b ds acc cap) Q (Sys (World t f) b).
Proof.
  revert acc cap t. induction ds as [|[path ino] ds IH]; intros acc cap t HQ; cbn [collect_archives].
  { apply wp_ret. cbn in HQ. by rewrite app_nil_r in HQ. }
  apply wp_bind, wp_alloc_ok. intros t1. apply wp_bind, wp_get. cbn [s_w w_fs].
  cbn [omap list_omap fst snd] in HQ.
  destruct (archive_candidate b f true path ino) as [e|] eqn:Hc; [|by apply IH].
  assert (HQ' : ∀ t', Q (Some ((acc ++ [e]) ++ omap (λ d, archive_candidate b f true d.1 d.2) ds))
                       (Sys (World t' f) b)) by (intros t'; rewrite <- app_assoc; apply HQ).
  case_goal; [|by apply IH]. apply wp_bind, wp_alloc_ok. intros t2. by apply IH.
Qed.

(** An archive as the directory has it. *)
Definition present (f : fsys) (e : archive_ent) : Prop :=
  full_len (ae_name e) < PATH_MAX ∧ 0 ≤ ae_size e ∧
  ∃ ino i, fs_dir f !! ae_name e = Some ino ∧ fs_ino f !! ino = Some i ∧ i_kind i = KReg.

Lemma candidate_present b f path ino e :
  fs_dir f !! path = Some ino → archive_candidate b f true path ino = Some e →
  ae_name e = path ∧ present f e.
Proof.
  intros Hd. unfold archive_candidate. destruct (split_path (b_path b)) as [dir base].
  destruct (split_path path) as [edir name] eqn:Hp. intros Hc. inv_guards Hc; simplify_eq. bool_hyps.
  split; [done|]. split_and!; cbn; [done|unfold blen; lia|]. eexists _, _. split_and!; [done..|]. done.
Qed.

Lemma archives_present b f : Forall (present f) (archives b f).
Proof.
  apply Forall_forall. intros e He. apply list_elem_of_omap in He as ([p i] & Hin & Hc).
  apply elem_of_map_to_list in Hin. by eapply candidate_present.
Qed.

Lemma archives_NoDup b f : NoDup (ae_name <$> archives b f).
Proof.
  unfold archives. pose proof (NoDup_fst_map_to_list (fs_dir f)) as Hnd.
  assert (Hin : ∀ d, d ∈ map_to_list (fs_dir f) → fs_dir f !! d.1 = Some d.2)
    by (intros [p i] Hd; by apply elem_of_map_to_list in Hd).
  induction (map_to_list (fs_dir f)) as [|[p i] ds IH]; cbn; [constructor|].
  cbn in Hnd. inversion Hnd as [|? ? Hp Hnd']; subst.
  specialize (IH Hnd' (λ d Hd, Hin d (list_elem_of_further _ _ _ Hd))).
  destruct (archive_candidate b f true p i) as [e|] eqn:Hc; [|done].
  cbn. constructor; [|done]. destruct (candidate_present _ _ _ _ _ (Hin (p, i) (list_elem_of_here _ _)) Hc) as [-> _].
  intros Hx. apply list_elem_of_fmap in Hx as (e' & He & Hx).
  apply list_elem_of_omap in Hx as ([p' i'] & Hd & Hc').
  destruct (candidate_present _ _ _ _ _ (Hin (p', i') (list_elem_of_further _ _ _ Hd)) Hc') as [He' _].
  apply Hp, list_elem_of_fmap. exists (p', i'). split; [|done]. cbn in *. congruence.
Qed.

(** The pruning loop. *)
Lemma prune_all cfg es active pruned f b t (Q : bool → sys → Prop) :
  Forall (present f) es → NoDup (ae_name <$> es) → 0 ≤ active → active + total_size es < 2 ^ 64 →
  (∀ old kept r t' f', es = old ++ kept → just_enough cfg active old kept →
     f' = set_dir f (without (ae_name <$> old) (fs_dir f)) → Q r (Sys (World t' f') b)) →
  wp (prune_archives cfg es (Z.of_nat (length es)) (active + total_size es) pruned) Q
     (Sys (World t f) b).
Proof.
  intros Hes. revert f t pruned Hes. induction es as [|e es IH]; intros f t pruned Hes Hnd Ha Hlt HQ;
    cbn [prune_archives].
  { apply wp_ret, (HQ [] []); [done| |by destruct f]. split; [by right|]. by intros [|? ?] ? ?. }
  inversion Hes as [|? ? (Hlen & Hsz & ino & i & Hd & Hi & Hk) Hes']; subst.
  inversion Hnd as [|? ? Hne Hnd']; subst.
  assert (Hnn : 0 ≤ total_size es) by (apply total_size_nonneg; eapply Forall_impl; [exact Hes'|]; by intros ? (_ & ? & _)).
  destruct (negb _ && negb _) eqn:Hb.
  { apply wp_ret, (HQ [] (e :: es)); [done| |by destruct f]. split; [left|by intros [|? ?] ? ?].
    split; bool_hyps; destruct_or?; bool_hyps; lia. }
  rewrite (proj2 (Z.leb_gt _ _)) by done. apply wp_bind, wp_liftW.
  unfold sys_unlink. apply wp_bind, wp_get. cbn [w_fs]. rewrite Hd, Hi.
  destruct i as [kind mode uid data dur]. cbn in Hk. subst kind.
  apply wp_bind, wp_ask. cbn [w_tick w_fs]. rewrite Hunlink. apply wp_bind, wp_modify, wp_ret.
  unfold set_fs. cbn [w_tick w_fs]. set (f1 := set_dir f (delete (ae_name e) (fs_dir f))).
  rewrite total_size_cons in Hlt |- *.
  replace (Z.of_nat (length (e :: es)) - 1) with (Z.of_nat (length es)) by (cbn [length]; lia).
  replace (u64 (active + (ae_size e + total_size es) - ae_size e)) with (active + total_size es)
    by (rewrite u64_small by lia; lia).
  apply IH; [|done|done|lia|].
  { eapply Forall_impl; [apply Forall_and; split; [exact Hes'|]|].
    - apply Forall_forall. intros x Hx. instantiate (1 := λ x, ae_name x ≠ ae_name e). cbv beta.
      intros He. apply Hne. rewrite <- He. by apply list_elem_of_fmap_2.
    - intros x [(? & ? & ino' & i' & Hd' & ? & ?) Hx]. split_and!; try done. exists ino', i'.
      split_and!; try done. cbn. by rewrite lookup_delete_ne. }
  intros old kept r t' f' -> Hj ->. eapply (HQ (e :: old) kept); [done| |].
  - destruct Hj as [Hj1 Hj2]. split; [done|]. intros old' x Ho.
    destruct old as [|y old]; [|destruct old' as [|z old']; [by destruct old|]; injection Ho as _ Ho; by eapply Hj2].
    destruct old' as [|z old']; [|by destruct old']. injection Ho as <-. cbn [app] in *.
    intros [Hc Ht]. rewrite total_size_cons in *. cbn [length] in *.
    apply andb_false_iff in Hb as [Hb|Hb]; bool_hyps; destruct Hc, Ht; lia.
  - unfold f1. cbn. by rewrite without_delete.
Qed.

(** C15. Retention prunes the oldest archives and no more than it has to: when the
    system calls succeed, the archives of the sink split into those that go and
    those that stay, none that goes newer (by the time in its name) than one that
    stays; the ones that stay meet the segment and byte bounds together with the
    active segment, or there are none, and before the last one went a bound was
    exceeded.  Nothing else in the
    directory changes, and no file's contents. *)
Theorem retention_prunes_oldest b f t :
  strlen (split_path (b_path b)).1 ≤ PATH_MAX → fs_ok f → 0 ≤ b_seg_bytes b →
  b_seg_bytes b + total_size (archives b f) < 2 ^ 64 →
  wp apply_retention
     (λ _ s', ∃ old kept, old ++ kept ≡ₚ archives b f ∧ oldest_first old kept ∧
        just_enough (b_cfg b) (b_seg_bytes b) old kept ∧
        fs_dir (w_fs (s_w s')) = without (ae_name <$> old) (fs_dir f) ∧
        fs_ino (w_fs (s_w s')) = fs_ino f ∧ s_b s' = b) (Sys (World t f) b).
Proof.
  intros Hp Hfs Ha Hlt. set (Q := λ _ _, _).
  pose proof (merge_sort_Permutation archive_le (archives b f)) as Hperm.
  assert (Hnone : ∀ t', within_bounds (b_cfg b) (b_seg_bytes b) (merge_sort archive_le (archives b f)) ∨
                        merge_sort archive_le (archives b f) = [] → Q tt (Sys (World t' f) b)).
  { intros t' Hw. exists [], (merge_sort archive_le (archives b f)). split_and!; try done;
      [by intros ? ? ?%not_elem_of_nil|].
    split; [done|]. by intros [|? ?] ? ?. }
  unfold apply_retention. apply wp_bind, wp_getb. cbn [s_b].
  case_goal; [bool_hyps; apply wp_ret, Hnone; left; by split; left|].
  rewrite (proj2 (Z.ltb_ge _ _)) by done.
  apply wp_bind, wp_alloc_ok. intros t1. cbn [negb]. apply wp_bind, wp_get. cbn [s_w w_fs].
  apply wp_bind, collect_all. intros t2. cbn [app]. fold (archives b f).
  case_goal.
  { bool_hyps. apply wp_ret, Hnone. right. apply Permutation_nil_r. rewrite Hperm.
    by destruct (archives b f). }
  pose proof (archives_present b f) as Hpr.
  rewrite sum_sizes_total; [|eapply Forall_impl; [exact Hpr|]; by intros ? (_ & ? & _)|done|done].
  rewrite <- (Permutation_length Hperm), <- (total_size_perm _ _ Hperm).
  apply wp_bind, prune_all; [by rewrite Hperm|by rewrite Hperm; apply archives_NoDup|done
                            |by rewrite (total_size_perm _ _ Hperm)|].
  intros old kept r t3 f3 He Hj ->. pose proof (sorted_oldest_first _ _ _ He) as Hof. rewrite He in Hperm.
  destruct r; [|apply wp_ret; exists old, kept; by split_and!].
  apply wp_bind, wp_liftW. eapply (fsync_dir_spec _ "" 0).
  { destruct Hfs as [Hd Hi]. split; cbn; [|done]. intros p j Hj'. apply (Hd p).
    clear -Hj'. induction (ae_name <$> old) as [|n ns IH]; [done|]. cbn in Hj'.
    apply lookup_delete_Some in Hj' as [_ Hj']. by apply IH. }
  intros ok t4 f4 _ Hd4 Hi4 _ _. apply wp_ret. exists old, kept. cbn [s_w s_b w_fs].
  rewrite Hd4, Hi4. by split_and!.
Qed.
End Retention.

(** ** A directory with three archives, of which one is to stay *)

Definition arch_dir : gmap string nat :=
  list_to_map [("/a", 0%nat); ("/a.300", 1%nat); ("/a.20", 2%nat); ("/a.1000", 3%nat)].

Definition arch_file (s : string) : inode := Inode KReg 416 0 (bs s) (bs s).

Definition arch_fs : fsys :=
  Fs arch_dir arch_dir
     (list_to_map [(0%nat, arch_file "x"); (1%nat, arch_file "yy"); (2%nat, arch_file "zzz");
                   (3%nat, arch_file "")]) 4.

Definition arch_broker : broker := broker_init demo_path (Config 4 8 10 100 0 0 0 0 1 0 300) None.

Lemma arch_fs_ok : fs_ok arch_fs.
Proof.
  assert (Hd : map_Forall (λ _ j, (j < 4)%nat) arch_dir) by (by apply (bool_decide_eq_true_1 _); vm_compute).
  assert (Hi : map_Forall (λ j _, (j < 4)%nat) (fs_ino arch_fs)) by (by apply (bool_decide_eq_true_1 _); vm_compute).
  split; intros p j Hp; [by apply (Hd p)|by apply (Hi p j)].
Qed.

Lemma retention_prunes_oldest_witness :
  wp (@apply_retention demo_env)
     (λ _ s', fs_dir (w_fs (s_w s')) !! "/a" = Some 0%nat ∧ fs_dir (w_fs (s_w s')) !! "/a.1000" = Some 3%nat ∧
        fs_dir (w_fs (s_w s')) !! "/a.20" = None ∧ ∃ old kept, old ++ kept ≡ₚ @archives demo_env arch_broker arch_fs ∧
          oldest_first old kept ∧ just_enough (b_cfg arch_broker) (b_seg_bytes arch_broker) old kept)
     (Sys (World 0 arch_fs) arch_broker).
Proof.
  destruct (@retention_prunes_oldest demo_env (λ _, conj eq_refl eq_refl) (λ _, eq_refl)
              arch_broker arch_fs 0) as (old & kept & Hp & Ho & Hj & _);
    [by vm_compute|apply arch_fs_ok|by vm_compute|by vm_compute|].
  split_and!; [by vm_compute..|]. by exists old, kept.
Defined.
