(* ===== verification/Refusal.v ===== *)
(** * Refusals have causes

    The contract of Serve.v allows a refusal at any time.  Here, in a cooperative
    environment (Calm.v), every error response is traced to a cause in the
    request or in the state the request found: [cause] lists them, one
    constructor per reason, with the error code each one gives.  A request with
    no cause against it is therefore served. *)

From stdpp Require Import base gmap strings list fin_maps sorting.
From Stdlib Require Import ZArith Lia Ascii.
From S2P Require Import Prelude CString Jansson Env Id Sink Request Peer Record Receipt Rate.
From S2P Require Import OpenSet Broker Reconstruct Spec Recovery Live Rotation Windows Ticks Serve.
From S2P Require Import Calm Session Demo.

Local Open Scope string_scope.
Local Open Scope list_scope.
Local Open Scope Z_scope.

(** ** Causes *)

Section Causes.
Context `{Jansson} `{Sha256} {E : env}.

(** The uid whose quota a request is charged to. *)
Definition charged_uid (actor : rab_actor) (q : rab_request) : Z :=
  match rq_type q with RAB_REQ_REDEEM => rq_redeem_principal_uid q | _ => a_uid actor end.

(** A line the request would append first. *)
Definition request_line (b : broker) (A : gmap string intent) (actor : rab_actor) (q : rab_request)
    (line : string) : Prop :=
  match rq_type q with
  | RAB_REQ_OPEN_INTENT => ∃ cid bd now,
      rab_build_audit RAB_PHASE_INTENT cid (Some bd) actor (b_host b) now (rq_record q) = Some line
  | RAB_REQ_WRITE_OUTCOME => ∃ cid now,
      rab_build_audit RAB_PHASE_OUTCOME cid None actor (b_host b) now (rq_record q) = Some line
  | RAB_REQ_EMIT => ∃ cid now,
      rab_build_audit (rq_phase q) cid None actor (b_host b) now (rq_record q) = Some line
  | RAB_REQ_REDEEM => ∃ cid it rc now, A !! cid = Some it ∧ it_rcpt it = Some rc ∧
      rab_build_receipt cid false (mark_redeemed rc now) = Some line
  | RAB_REQ_CAPABILITIES => False
  end.

(** The receipt of an open intent whose token the request presents. *)
Definition presents (A : gmap string intent) (q : rab_request) (rc : receipt) : Prop :=
  ∃ c it, A !! c = Some it ∧ it_rcpt it = Some rc ∧
    token_verifier (rq_effect_receipt q) = Some (rc_verifier rc).

(** Too little free space, at tick [n]. *)
Definition space_low (cfg : rab_config) (n : nat) : Prop :=
  min_free_bytes cfg ≠ 0 ∧
  match e_statvfs n with
  | None => True
  | Some (bavail, frsize) => u64 (bavail * frsize) < min_free_bytes cfg
  end.

(** [cause t t' b A actor q code]: why request [q] of [actor], which found broker
    [b] with open set [A], may be refused with [code]; [t] and [t'] delimit the
    answers of the environment the request has seen. *)
Inductive cause (t t' : nat) (b : broker) (A : gmap string intent) (actor : rab_actor)
    (q : rab_request) : string → Prop :=
| cause_rate n : (t ≤ n < t')%nat →
    over_rate (b_cfg b) (charged_uid actor q) (u64 (e_clock n)) (b_rates b) →
    cause t t' b A actor q "rate_limited"
| cause_bytes n line : (t ≤ n < t')%nat → request_line b A actor q line →
    over_bytes (b_cfg b) (charged_uid actor q) (u64 (e_clock n)) (u64 (strlen line + 1)) (b_rates b) →
    cause t t' b A actor q "rate_limited"
| cause_space n : (t ≤ n < t')%nat → space_low (b_cfg b) n →
    cause t t' b A actor q "persist_failed"
| cause_open_global : rq_type q = RAB_REQ_OPEN_INTENT →
    max_open_global (b_cfg b) ≤ open_count (b_opens b) → cause t t' b A actor q "rate_limited"
| cause_open_uid : rq_type q = RAB_REQ_OPEN_INTENT →
    max_open_per_uid (b_cfg b) ≤ uid_open_count (b_rates b) (a_uid actor) →
    cause t t' b A actor q "rate_limited"
| cause_receipt_quota n n' line cid rc rline r : rq_type q = RAB_REQ_OPEN_INTENT →
    rq_effect_present q = true → (t ≤ n < n')%nat → (n' < t')%nat → request_line b A actor q line →
    after_line (b_cfg b) (a_uid actor) (u64 (e_clock n)) (u64 (strlen line + 1)) (b_rates b) r →
    rab_build_receipt cid false rc = Some rline → rc_actor_uid rc = a_uid actor →
    over_rate (b_cfg b) (a_uid actor) (u64 (e_clock n')) r ∨
      over_bytes (b_cfg b) (a_uid actor) (u64 (e_clock n')) (u64 (strlen rline + 1)) r →
    cause t t' b A actor q "rate_limited"
| cause_receipt_verb : rq_type q = RAB_REQ_OPEN_INTENT → rq_effect_present q = true →
    record_field (json_members (rq_record q)) "operation" = "" →
    cause t t' b A actor q "persist_failed"
| cause_token_clash n tok v : rq_type q = RAB_REQ_OPEN_INTENT → rq_effect_present q = true →
    (t ≤ n < t')%nat → rab_make_receipt (e_random n) RAB_RECEIPT_MAX = Some tok →
    token_verifier tok = Some v →
    verifier_used A v = true ∨
      (∃ m, (t ≤ m < n)%nat ∧ rab_make_binding (e_random m) RAB_BINDING_MAX = Some tok) →
    cause t t' b A actor q "persist_failed"
| cause_unknown : rq_type q = RAB_REQ_WRITE_OUTCOME →
    (∀ c it, A !! c = Some it → it_binding it ≠ rq_binding q) →
    cause t t' b A actor q "unknown_intent"
| cause_actor c it : rq_type q = RAB_REQ_WRITE_OUTCOME → A !! c = Some it →
    it_binding it = rq_binding q → it_actor it ≠ actor → cause t t' b A actor q "actor_mismatch"
| cause_gate c it : rq_type q = RAB_REQ_WRITE_OUTCOME → A !! c = Some it →
    it_binding it = rq_binding q → effect_gate it (rq_record q) = true →
    cause t t' b A actor q "effect_without_receipt"
| cause_not_root : rq_type q = RAB_REQ_REDEEM → a_uid actor ≠ 0 →
    cause t t' b A actor q "receipt_unauthorized"
| cause_no_receipt : rq_type q = RAB_REQ_REDEEM → (∀ rc, ¬ presents A q rc) →
    cause t t' b A actor q "receipt_invalid"
| cause_principal rc : rq_type q = RAB_REQ_REDEEM → presents A q rc →
    rq_redeem_principal_uid q ≠ rc_actor_uid rc → cause t t' b A actor q "receipt_actor_mismatch"
| cause_terms rc : rq_type q = RAB_REQ_REDEEM → presents A q rc →
    (rq_redeem_plan_schema q, rq_redeem_verb q, rq_redeem_resource q, rq_redeem_plan_hash q) ≠
    (rc_plan_schema rc, rc_verb rc, rc_resource rc, rc_plan_hash rc) →
    cause t t' b A actor q "receipt_mismatch"
| cause_redeemed rc : rq_type q = RAB_REQ_REDEEM → presents A q rc →
    rc_state rc = RAB_RCPT_REDEEMED → cause t t' b A actor q "receipt_redeemed"
| cause_expired rc n now boot : rq_type q = RAB_REQ_REDEEM → presents A q rc →
    (t ≤ n)%nat → (S n < t')%nat → e_boottime n = Some now → e_bootid (S n) = Some boot →
    receipt_unexpired rc (u64 now) boot = false → cause t t' b A actor q "receipt_expired".

(** Every error response has a cause with its code. *)
Definition excused (t : nat) (b : broker) (A : gmap string intent) (actor : rab_actor)
    (q : rab_request) (resp : response) (s' : sys) : Prop :=
  ∀ code msg, resp = RespError code msg → cause t (s_tick s') b A actor q code.

(** The texts the broker copies into its lines are valid UTF-8. *)
Definition texts_valid (b : broker) (A : gmap string intent) (actor : rab_actor) : Prop :=
  utf8_valid (b_host b) = true ∧ utf8_valid (a_boot_id actor) = true ∧
  ∀ c it, A !! c = Some it → utf8_valid c = true ∧
    ∀ rc, it_rcpt it = Some rc → utf8_valid (rc_verb rc) = true ∧
      utf8_valid (rc_resource rc) = true ∧ utf8_valid (rc_boot_id rc) = true.
End Causes.

(** ** Stages *)

Section Stages.
Context `{JanssonLaws} `{Sha256} {E : env} (Hcalm : calm).
Context (K : gset string).

Lemma clock_at (Q : Z → sys → Prop) t f b :
  Q (u64 (e_clock t)) (Sys (World (S t) f) b) → wp clock Q (Sys (World t f) b).
Proof. intros HQ. apply wp_bind, wp_liftW, wp_ask, wp_ret. done. Qed.

Lemma alloc_calm (Q : bool → sys → Prop) t f b :
  Q true (Sys (World (S t) f) b) → wp alloc Q (Sys (World t f) b).
Proof. intros HQ. apply wp_liftW, wp_ask. by rewrite (ca_ok Hcalm). Qed.

Lemma alloc_uid_calm (Q : bool → sys → Prop) t f b :
  Q true (Sys (World (S t) f) b) → wp alloc_uid Q (Sys (World t f) b).
Proof. intros HQ. apply wp_liftW, wp_ask. by rewrite (ca_uid Hcalm). Qed.

Lemma calm_check_rate uid now (Q : bool → sys → Prop) f b lines st A t :
  live K f b lines st A → in_u32 uid →
  (∀ b', over_rate (b_cfg b) uid now (b_rates b) → Q false (Sys (World (S t) f) b')) →
  (∀ r, trims (b_cfg b) uid now (b_rates b) r → Q true (Sys (World (S t) f) (set_rates b r))) →
  wp (check_rate uid now) Q (Sys (World t f) b).
Proof.
  intros Hl Hu Hbad Hok. apply wp_bind, alloc_uid_calm, wp_bind, wp_getb. cbn [s_b].
  destruct (rate_allowed _ _ _ _ _) as [ok r] eqn:Hr. apply wp_bind, wp_modb, wp_ret. destruct ok.
  - apply Hok. eapply rate_allowed_spec; [apply Hl..|done|exact Hr].
  - apply Hbad. eapply rate_refused; [apply Hl..|done|exact Hr].
Qed.

Lemma calm_check_bytes uid now nb r0 (Q : bool → sys → Prop) f b lines st A t :
  live K f b lines st A → in_u32 uid → trims (b_cfg b) uid now r0 (b_rates b) →
  (∀ b', over_bytes (b_cfg b) uid now nb r0 → Q false (Sys (World (S t) f) b')) →
  (∀ r, trims (b_cfg b) uid now (b_rates b) r → Q true (Sys (World (S t) f) (set_rates b r))) →
  wp (check_bytes uid now nb) Q (Sys (World t f) b).
Proof.
  intros Hl Hu Htr Hbad Hok. apply wp_bind, alloc_uid_calm, wp_bind, wp_getb. cbn [s_b].
  destruct (bytes_allowed _ _ _ _ _ _) as [ok r] eqn:Hr. apply wp_bind, wp_modb, wp_ret. destruct ok.
  - apply Hok. by apply bytes_allowed_spec in Hr as [Ht _]; [|apply Hl..|].
  - apply Hbad. eapply over_bytes_trims; [exact Htr|]. eapply bytes_refused; [apply Hl..|done|exact Hr].
Qed.

Lemma calm_note uid now nb (Q : unit → sys → Prop) t f b :
  Q tt (Sys (World (S t) f) (set_rates b (global_bytes_note (b_cfg b) now nb
          (rate_note (b_cfg b) true uid now nb (b_rates b))))) →
  wp (note_write uid now nb) Q (Sys (World t f) b).
Proof. intros HQ. by apply wp_bind, alloc_uid_calm, wp_modb. Qed.

Lemma free_at (Q : bool → sys → Prop) t f b :
  (space_low (b_cfg b) t → Q false (Sys (World (S t) f) b)) →
  (∀ t', (t ≤ t')%nat → Q true (Sys (World t' f) b)) →
  wp enough_free_space Q (Sys (World t f) b).
Proof.
  intros Hbad Hok. apply wp_bind, wp_getb. cbn [s_b].
  destruct (_ =? 0) eqn:Hz; [apply wp_ret, Hok; lia|]. bool_hyps.
  apply wp_bind, wp_liftW, wp_ask, wp_ret. cbn [w_tick w_fs]. unfold space_low in Hbad.
  destruct (e_statvfs t) as [[ba fr]|]; [|by apply Hbad].
  destruct (_ <=? _) eqn:Hc; bool_hyps; [apply Hok; lia|by apply Hbad].
Qed.

(** The common end of a write: append, settle, answer. *)
Lemma calm_commit {X} line (mid : M sys X) (Q : X → sys → Prop) f b t :
  b_test_fail b = RAB_FAIL_NONE → b_poisoned b = false → nl ∉ bs line →
  (∀ w n, wp mid Q (Sys w (set_seg b n))) → ∀ bad,
  wp (let! ok := append_line line in if negb ok then bad else mid) Q (Sys (World t f) b).
Proof.
  intros Htf Hpo Hnl Hmid bad. apply wp_bind. eapply wp_mono; [by apply calm_append|].
  intros ok s' (-> & w & n & ->). apply Hmid.
Qed.

Lemma calm_answer {X} (bad good : X) (Q : X → sys → Prop) s :
  b_poisoned (s_b s) = false → Q good s →
  wp (let! b := getb in if b_poisoned b then mreturn bad else mreturn good) Q s.
Proof. intros Hp HQ. apply wp_bind, wp_getb. rewrite Hp. by apply wp_ret. Qed.
End Stages.

(** ** Issuance *)

Section Issue.
Context `{JanssonLaws} `{Sha256} {E : env} (Hcalm : calm).
Context (K : gset string).

(** Minting a token fails only if a fresh token collides. *)
Lemma mint_token_calm tries binding (Q : option (string * string) → sys → Prop) t f b :
  (∀ n t' tok v, (t ≤ n < t')%nat → rab_make_receipt (e_random n) RAB_RECEIPT_MAX = Some tok →
     token_verifier tok = Some v → is_Some (open_find_verifier (b_opens b) v) ∨ tok = binding →
     Q None (Sys (World t' f) b)) →
  (∀ tok v t', (t ≤ t')%nat → token_verifier tok = Some v → Q (Some (tok, v)) (Sys (World t' f) b)) →
  wp (mint_token (S tries) binding) Q (Sys (World t f) b).
Proof.
  revert t. induction tries as [|k IH]; intros t Hbad Hok.
  all: destruct (calm_token Hcalm t) as [tok Htok], (calm_verifier Hcalm tok) as [v Hv].
  all: assert (Hclash : ∀ t', (t < t')%nat → is_Some (open_find_verifier (b_opens b) v) ∨ tok = binding →
         Q None (Sys (World t' f) b)) by (intros t' Ht'; eapply (Hbad t t'); [lia|done|done]).
  all: remember (S k) as k' eqn:Hk' || remember 0%nat as k' eqn:Hk'.
  all: cbn [mint_token]; apply wp_bind, wp_liftW, wp_ask; cbn [w_tick w_fs]; rewrite Htok, Hv;
    apply wp_bind, wp_getb; cbn [s_b].
  all: assert (Hnext : is_Some (open_find_verifier (b_opens b) v) ∨ tok = binding →
         wp (mint_token k' binding) Q (Sys (World (S t) f) b)).
  1: { intros Hc. subst k'. apply wp_ret, Hclash; [lia|done]. }
  2: { intros _. subst k'. apply IH; [intros n t' ? ? ?; apply (Hbad n); lia|intros ? ? ? ?; apply Hok; lia]. }
  all: destruct (open_find_verifier _ _) as [p|]; [by apply Hnext; left|].
  all: destruct (strcmp_eq tok binding) eqn:Hs; bool_hyps;
    [by apply Hnext; right|apply wp_ret, Hok; [lia|done]].
Qed.

(** A rotation that leaves the broker live, at a later tick. *)
Lemma calm_rotate (Q : unit → sys → Prop) f b lines st A t :
  live K f b lines st A → b_poisoned b = false →
  (∀ t' f' b' lines' st', (t ≤ t')%nat → live K f' b' lines' st' A → b_poisoned b' = false →
     same_static b b' → shrunk (b_cfg b) (b_rates b) (b_rates b') → Q tt (Sys (World t' f') b')) →
  wp maybe_rotate Q (Sys (World t f) b).
Proof.
  intros Hl Hpo HQ. apply wp_clean; [by apply cl_maybe_rotate|done|].
  eapply wp_given; [apply (wp_forward s_tick maybe_rotate (λ _ _, True)); [apply fw_maybe_rotate|done]|].
  eapply wp_given; [apply (wp_shrinks maybe_rotate); [apply sh_maybe_rotate|apply Hl..]|].
  eapply maybe_rotate_spec; [apply Hcalm|exact Hl|done|].
  intros [[t' f'] b'] Hg Hss [_ Hsh] [Ht _] Hpo'. cbn [s_b s_w w_fs] in *.
  destruct Hg as [[_ (lines' & st' & Hl')]|[Hx _]]; [|cbn in Hx; congruence]. by eapply HQ.
Qed.

(** A receipt is issued unless its line would exceed a quota or [Bad] holds: low
    space, a colliding token, or an operation that cannot be a verb. *)
Lemma issue_commit_calm f b lines st A t p it tok rc line now (Q : issue_result → sys → Prop) :
  live K f b lines st A → b_poisoned b = false → in_u32 (a_uid (it_actor it)) → nl ∉ bs line →
  (∀ s', (t ≤ s_tick s')%nat → over_rate (b_cfg b) (a_uid (it_actor it)) now (b_rates b) ∨
     over_bytes (b_cfg b) (a_uid (it_actor it)) now (u64 (strlen line + 1)) (b_rates b) →
     Q ISSUE_RATE_LIMITED s') →
  (∀ s', Q (ISSUE_OK tok) s') →
  wp (issue_commit p it tok rc line now) Q (Sys (World t f) b).
Proof.
  intros Hl Hpo Hu Hnl Hrate Hok. unfold issue_commit. apply wp_bind.
  eapply (calm_check_rate Hcalm); [exact Hl|done|..].
  { intros b' Hover. apply wp_ret, Hrate; [unfold s_tick; cbn; lia|by left]. }
  intros r Htr. cbn [negb]. apply wp_bind.
  eapply (calm_check_bytes Hcalm); [apply live_rates; [exact Hl|by eapply trims_shrunk]|done|exact Htr|..].
  { intros b' Hover. apply wp_ret, Hrate; [unfold s_tick; cbn; lia|by right]. }
  intros r' _. cbn [negb]. eapply (calm_commit Hcalm); [apply Hl|done|done|].
  intros w k. apply cl_then; [by apply cl_modb|done|]. intros s1 Hs1.
  apply cl_then; [apply cl_note|done|]. intros s2 Hs2.
  apply cl_then; [by apply cl_maybe_rotate|done|]. intros s3 Hs3.
  apply wp_bind, wp_getb. rewrite Hs3. by apply wp_ret.
Qed.

Lemma issue_calm f b lines st A t it schema hash (Q : issue_result → sys → Prop) :
  live K f b lines st A → b_poisoned b = false → A !! it_cid it = Some it → it_rcpt it = None →
  schema = RAB_PLAN_SCHEMA_V1 → is_hex64_lc hash = true → utf8_valid (it_cid it) = true →
  utf8_valid (it_operation it) = true → utf8_valid (it_resource it) = true →
  (∀ s', it_operation it = "" → Q ISSUE_FAILED s') →
  (∀ n s', (t ≤ n < s_tick s')%nat → space_low (b_cfg b) n → Q ISSUE_FAILED s') →
  (∀ n tok v s', (t ≤ n < s_tick s')%nat → rab_make_receipt (e_random n) RAB_RECEIPT_MAX = Some tok →
     token_verifier tok = Some v → verifier_used A v = true ∨ tok = it_binding it → Q ISSUE_FAILED s') →
  (∀ n rc line s', (t ≤ n < s_tick s')%nat → rab_build_receipt (it_cid it) false rc = Some line →
     rc_actor_uid rc = a_uid (it_actor it) →
     over_rate (b_cfg b) (a_uid (it_actor it)) (u64 (e_clock n)) (b_rates b) ∨
       over_bytes (b_cfg b) (a_uid (it_actor it)) (u64 (e_clock n)) (u64 (strlen line + 1)) (b_rates b) →
     Q ISSUE_RATE_LIMITED s') →
  (∀ tok s', Q (ISSUE_OK tok) s') →
  wp (rab_broker_issue_receipt (it_cid it) schema hash) Q (Sys (World t f) b).
Proof.
  intros Hl Hpo HA Hno -> Hhash Hcid Hop Hres Hempty Hspace Hclash Hrate Hok.
  unfold rab_broker_issue_receipt. apply wp_bind, wp_getb. cbn [s_b]. rewrite Hpo, Z.eqb_refl. cbn [negb].
  pose proof (lv_rep _ _ _ _ _ _ Hl) as Hrep. pose proof (rep_find_cid _ _ (it_cid it) Hrep) as Hf.
  destruct (open_find_cid _ _) as [p|]; [|congruence].
  destruct Hf as (it2 & Hp & HA' & _). assert (it2 = it) as -> by congruence. rewrite Hp.
  unfold has_receipt. rewrite Hno.
  apply wp_bind, free_at; [intros Hlow; apply wp_ret, (Hspace t); [unfold s_tick; cbn; lia|done]|].
  intros t1 Ht1. cbn [negb]. apply wp_bind, wp_liftW, wp_ask. cbn [w_tick w_fs].
  destruct (ca_boottime Hcalm t1) as [bt ->].
  apply wp_bind, wp_bind, wp_liftW, wp_ask, wp_ret. cbn [w_tick w_fs].
  destruct (ca_bootid Hcalm (S t1)) as (boot & -> & Hbne & Hbl & Hbu). rewrite (proj2 (Z.ltb_lt _ _) Hbl).
  apply wp_bind, mint_token_calm.
  { intros n t' tok v Hn Htok Hv Hc. apply wp_ret. eapply (Hclash n); [unfold s_tick; cbn; lia|done..|].
    destruct Hc as [[p' Hp']|Hc]; [left|by right].
    rewrite (rep_verifier_used _ _ _ Hrep) by (by eapply token_raw_hex). by rewrite Hp'. }
  intros tok v t2 Ht2 Hv. apply wp_bind, clock_at. apply wp_bind, (calm_built Hcalm). intros t3 Ht3.
  destruct (so_intent _ (lv_set _ _ _ _ _ _ Hl) _ _ HA) as [_ Hio].
  assert (Hv64 : is_hex64_lc v = true) by (by eapply token_verifier_hex).
  destruct (decide (it_operation it = "")) as [He|Hne].
  { unfold rab_build_receipt. cbn [rc_verb]. rewrite He. cbn [is_empty String.eqb].
    rewrite !orb_true_r. by apply wp_ret, Hempty. }
  match goal with |- context [rab_build_receipt ?c false ?r] =>
    destruct (build_receipt_total (ca_dumps Hcalm) c false r) as [line Hb] end;
    [apply Hio..| |done|done|done|done|].
  { unfold receipt_ok. cbn. pose proof (u64_range bt). pose proof (u64_range (e_clock t2)).
    pose proof (u64_range (receipt_ttl_sec (b_cfg b) * 1000000)).
    split_and!; try done; try apply Hio; lia. }
  rewrite Hb. eapply issue_commit_calm; [exact Hl|done|apply Hio|by apply (receipt_line _ _ _ _ Hb)|..].
  - intros s' Ht' Hover. eapply (Hrate t2 _ line); [|exact Hb|done|done]. lia.
  - intros s'. apply Hok.
Qed.
End Issue.

(** ** Handlers *)

Section Handlers.
Context `{JanssonLaws} `{Sha256} {E : env} (Hcalm : calm).
Context (K : gset string) (actor : rab_actor) (q : rab_request) (Hactor : actor_ok actor).

Lemma excused_ok t b A resp s' : (∀ code msg, resp ≠ RespError code msg) → excused t b A actor q resp s'.
Proof. intros Hne code msg He. by destruct (Hne code msg). Qed.

Lemma excused_err t b A code msg s' :
  cause t (s_tick s') b A actor q code → excused t b A actor q (RespError code msg) s'.
Proof. intros Hc ? ? [= <- <-]. done. Qed.

(** The first half of storing an audit record: the line is built and charged. *)
Lemma audit_charged phase cid binding now n t0 bad (k : string → M sys response) f b b0 lines st A t :
  live K f b lines st A → b_cfg b = b_cfg b0 → b_host b = b_host b0 →
  texts_valid b0 A actor → storable q → utf8_valid phase = true → utf8_valid cid = true →
  (∀ bd, binding = Some bd → utf8_valid bd = true) →
  (t0 ≤ n < t)%nat → now = u64 (e_clock n) → charged_uid actor q = a_uid actor →
  trims (b_cfg b) (a_uid actor) now (b_rates b0) (b_rates b) →
  (∀ line, rab_build_audit phase cid binding actor (b_host b0) now (rq_record q) = Some line →
           request_line b0 A actor q line) →
  (∀ line r t', (t < t')%nat → trims (b_cfg b) (a_uid actor) now (b_rates b) r → nl ∉ bs line →
     rab_build_audit phase cid binding actor (b_host b) now (rq_record q) = Some line →
     wp (k line) (excused t0 b0 A actor q)
        (Sys (World t' f) (set_rates b r))) →
  wp (let! line := built (rab_build_audit phase cid binding actor (b_host b) now (rq_record q)) in
      match line with
      | None => bad
      | Some line =>
          let! ok := check_bytes (a_uid actor) now (u64 (strlen line + 1)) in
          if negb ok then error "rate_limited" "write-byte quota exceeded" else k line
      end) (excused t0 b0 A actor q) (Sys (World t f) b).
Proof.
  intros Hl Hcfg Hhost (Hh & Hboot & _) (kvs & Hkv & Hdom & _) Hph Hcid Hbd Hn -> Huid Htr Hline Hk.
  destruct (build_audit_total (ca_dumps Hcalm) phase cid binding actor (b_host b0) (u64 (e_clock n))
              kvs Hactor Hdom (u64_range _)) as [line Hb]; [done..|]. rewrite <- Hkv in Hb.
  apply wp_bind, (calm_built Hcalm). intros t1 Ht1. rewrite Hhost in *. rewrite Hb.
  apply wp_bind. eapply (calm_check_bytes Hcalm); [exact Hl|apply Hactor|exact Htr|..].
  - intros b' Hover. cbn [negb]. apply wp_error, excused_err. rewrite Hcfg in Hover.
    eapply (cause_bytes _ _ _ _ _ _ n line); [unfold s_tick; cbn; lia|by apply Hline|by rewrite Huid].
  - intros r Hr. cbn [negb]. apply Hk; [lia|done| |done]. by apply (audit_line _ _ _ _ _ _ _ _ Hb).
Qed.

(** The second half, for a write after which nothing can go wrong. *)
Lemma settled_answer uid now nb resp t0 b0 A bad s :
  b_poisoned (s_b s) = false → (∀ code msg, resp ≠ RespError code msg) →
  wp (note_write uid now nb ;;; maybe_rotate ;;;
      let! b := getb in if b_poisoned b then bad else mreturn resp)
     (excused t0 b0 A actor q) s.
Proof.
  intros Hs Hresp. apply cl_then; [apply cl_note|done|]. intros s1 Hs1.
  apply cl_then; [by apply cl_maybe_rotate|done|]. intros s2 Hs2.
  apply wp_bind, wp_getb. rewrite Hs2. by apply wp_ret, excused_ok.
Qed.

(** What the first check of a handler leaves behind. *)
Lemma live_trimmed f b lines st A now r :
  live K f b lines st A → trims (b_cfg b) (a_uid actor) now (b_rates b) r →
  live K f (set_rates b r) lines st A.
Proof. intros Hl Htr. apply live_rates; [done|by eapply trims_shrunk]. Qed.

Lemma emit_excused f b lines st A t :
  live K f b lines st A → b_poisoned b = false → storable q → texts_valid b A actor →
  rq_type q = RAB_REQ_EMIT → rq_phase q = "preview" ∨ rq_phase q = "noop" →
  wp (handle_emit actor q) (excused t b A actor q) (Sys (World t f) b).
Proof.
  intros Hl Hpo Hst Htx Hty Hph.
  assert (Huid : charged_uid actor q = a_uid actor) by (unfold charged_uid; by rewrite Hty).
  assert (Hphase : utf8_valid (rq_phase q) = true)
    by (apply utf8_ascii; destruct Hph as [->| ->]; done).
  unfold handle_emit. apply wp_bind, clock_at, wp_bind.
  eapply (calm_check_rate Hcalm); [exact Hl|apply Hactor|..].
  { intros b' Hover. apply wp_error, excused_err. apply (cause_rate _ _ _ _ _ _ t); [cbn; lia|by rewrite Huid]. }
  intros r Htr. pose proof (live_trimmed _ _ _ _ _ _ _ Hl Htr) as Hl1. cbn [negb].
  apply wp_bind, free_at.
  { intros Hlow. apply wp_error, excused_err. eapply cause_space; [|exact Hlow]. cbn. lia. }
  intros t1 Ht1. cbn [negb]. apply wp_bind, wp_mint_cid. intros n t2 Hn. fold (minted n).
  destruct (calm_mint Hcalm n) as (cid & -> & Hcid). unfold emit_commit.
  apply wp_bind, wp_getb. cbn [s_b].
  eapply (audit_charged (rq_phase q) cid None _ t); try done; [lia| |].
  { intros line Hb. unfold request_line. rewrite Hty. eauto. }
  intros line r' t' Ht' Hr' Hnl _. eapply (calm_commit Hcalm); [apply Hl|done|done|].
  intros w k. by apply settled_answer.
Qed.

Lemma outcome_excused f b lines st A t :
  live K f b lines st A → b_poisoned b = false → storable q → texts_valid b A actor →
  rq_type q = RAB_REQ_WRITE_OUTCOME →
  wp (handle_outcome actor q) (excused t b A actor q) (Sys (World t f) b).
Proof.
  intros Hl Hpo Hst Htx Hty.
  assert (Huid : charged_uid actor q = a_uid actor) by (unfold charged_uid; by rewrite Hty).
  unfold handle_outcome. apply wp_bind, clock_at, wp_bind.
  eapply (calm_check_rate Hcalm); [exact Hl|apply Hactor|..].
  { intros b' Hover. apply wp_error, excused_err. apply (cause_rate _ _ _ _ _ _ t); [cbn; lia|by rewrite Huid]. }
  intros r Htr. pose proof (live_trimmed _ _ _ _ _ _ _ Hl Htr) as Hl1. cbn [negb].
  apply wp_bind, wp_getb. cbn [s_b b_opens set_rates].
  pose proof (lv_rep _ _ _ _ _ _ Hl) as Hrep.
  pose proof (find_binding_spec (b_opens b) (rq_binding q) (rp_ok _ _ Hrep)) as Hf.
  destruct (open_find_binding _ _) as [p|]; cycle 1.
  { apply wp_error, excused_err, cause_unknown; [done|]. intros c it HA Hb.
    destruct (so_intent _ (lv_set _ _ _ _ _ _ Hl) _ _ HA) as [_ Hio].
    destruct (rp_out _ _ Hrep _ _ HA) as (_ & p & Hp).
    destruct Hf as [He|Hf]; [|by apply (Hf p it)]. destruct (io_binding _ Hio). congruence. }
  destruct Hf as (_ & it & Hp & Hbind). rewrite Hp. pose proof (rp_in _ _ Hrep _ _ Hp) as HA.
  destruct (rab_actor_eq (it_actor it) actor) eqn:Hact; cbn [negb]; cycle 1.
  { apply wp_error, excused_err. eapply (cause_actor _ _ _ _ _ _ (it_cid it) it); try done.
    intros He. rewrite (proj2 (rab_actor_eq_spec _ _) He) in Hact. done. }
  destruct (effect_gate it (rq_record q)) eqn:Hgate.
  { apply wp_error, excused_err. by eapply (cause_gate _ _ _ _ _ _ (it_cid it) it). }
  apply wp_bind, free_at.
  { intros Hlow. apply wp_error, excused_err. eapply cause_space; [|exact Hlow]. cbn. lia. }
  intros t1 Ht1. cbn [negb]. unfold outcome_commit. apply wp_bind, wp_getb. cbn [s_b].
  eapply (audit_charged RAB_PHASE_OUTCOME (it_cid it) None _ t); try done; [by apply utf8_ascii| |lia| |].
  { apply (proj2 (proj2 Htx) _ _ HA). }
  { intros line Hb. unfold request_line. rewrite Hty. eauto. }
  intros line r' t' Ht' Hr' Hnl _. eapply (calm_commit Hcalm); [apply Hl|done|done|].
  intros w k. apply cl_then; [apply cl_remove|done|]. intros s1 Hs1. by apply settled_answer.
Qed.

(** Redemption, from the expiry check on: it can only lack quota or space. *)
Lemma redeem_commit_excused f b lines st A t0 t p it rc :
  live K f b lines st A → b_poisoned b = false → texts_valid b A actor → (t0 ≤ t)%nat →
  rq_type q = RAB_REQ_REDEEM → rq_redeem_principal_uid q = rc_actor_uid rc →
  A !! it_cid it = Some it → it_rcpt it = Some rc →
  wp (redeem_commit p it rc)
     (λ rr s', excused t0 b A actor q (redeem_response rr (it_cid it)) s') (Sys (World t f) b).
Proof.
  intros Hl Hpo (_ & _ & Htx) Ht0 Hty Hprin HA Hrc.
  destruct (so_intent _ (lv_set _ _ _ _ _ _ Hl) _ _ HA) as [_ Hio].
  pose proof (io_rcpt _ Hio _ Hrc) as Hbound.
  assert (Huid : in_u32 (rc_actor_uid rc)) by apply Hbound.
  assert (Hch : charged_uid actor q = rc_actor_uid rc) by (unfold charged_uid; by rewrite Hty).
  destruct (Htx _ _ HA) as (Hcid & Hr). destruct (Hr _ Hrc) as (Hv & Hrs & Hbt).
  unfold redeem_commit. apply wp_bind, free_at.
  { intros Hlow. apply wp_ret, excused_err. eapply cause_space; [|exact Hlow]. cbn. lia. }
  intros t1 Ht1. cbn [negb]. apply wp_bind, clock_at.
  set (now := u64 (e_clock t1)).
  destruct (redeemed_bound it rc now Hbound (u64_range _)) as [Hok _].
  destruct (build_receipt_total (ca_dumps Hcalm) (it_cid it) false (mark_redeemed rc now))
    as [line Hb]; [apply Hio..|done|done|done|done|done|].
  apply wp_bind, (calm_built Hcalm). intros t2 Ht2. rewrite Hb. apply wp_bind.
  eapply (calm_check_rate Hcalm); [exact Hl|done|..].
  { intros b' Hover. apply wp_ret, excused_err.
    apply (cause_rate _ _ _ _ _ _ t1); [cbn; lia|by rewrite Hch]. }
  intros r Htr. cbn [negb]. apply wp_bind.
  eapply (calm_check_bytes Hcalm); [apply live_rates; [exact Hl|by eapply trims_shrunk]|done|exact Htr|..].
  { intros b' Hover. apply wp_ret, excused_err.
    apply (cause_bytes _ _ _ _ _ _ t1 line); [cbn; lia| |by rewrite Hch].
    unfold request_line. rewrite Hty. by exists (it_cid it), it, rc, now. }
  intros r' _. cbn [negb].
  eapply (calm_commit Hcalm); [apply Hl|done|by apply (receipt_line _ _ _ _ Hb)|].
  intros w k. apply cl_then; [by apply cl_modb|done|]. intros s1 Hs1.
  apply cl_then; [apply cl_note|done|]. intros s2 Hs2.
  apply cl_then; [by apply cl_maybe_rotate|done|]. intros s3 Hs3.
  apply wp_bind, wp_getb. rewrite Hs3. by apply wp_ret, excused_ok.
Qed.

Lemma redeem_excused f b lines st A t :
  live K f b lines st A → b_poisoned b = false → texts_valid b A actor →
  rq_type q = RAB_REQ_REDEEM →
  wp (handle_redeem actor q) (excused t b A actor q) (Sys (World t f) b).
Proof.
  intros Hl Hpo Htx Hty. unfold handle_redeem.
  destruct (a_uid actor =? 0) eqn:Hroot; cbn [negb]; bool_hyps; cycle 1.
  { by apply wp_error, excused_err, cause_not_root. }
  destruct (calm_verifier Hcalm (rq_effect_receipt q)) as [v Hv]. rewrite Hv.
  apply wp_bind, wp_getb. cbn [s_b]. pose proof (lv_rep _ _ _ _ _ _ Hl) as Hrep.
  pose proof (find_verifier_spec (b_opens b) v (rp_ok _ _ Hrep)) as Hf.
  destruct (open_find_verifier _ _) as [p|]; cycle 1.
  { apply wp_error, excused_err, cause_no_receipt; [done|]. intros rc (c & it & HA & Hrc & Htv).
    destruct (rp_out _ _ Hrep _ _ HA) as (_ & p & Hp). destruct Hf as [He|Hf].
    - by apply (token_raw_hex _ _ Hv).
    - apply (Hf p it Hp). unfold key_rcpt. rewrite Hrc. congruence. }
  destruct Hf as (_ & it & Hp & Hk). rewrite Hp.
  unfold key_rcpt in Hk. destruct (it_rcpt it) as [rc|] eqn:Hrc; [|done]. injection Hk as <-.
  pose proof (rp_in _ _ Hrep _ _ Hp) as HA.
  assert (Hpres : presents A q rc) by (exists (it_cid it), it; done).
  apply wp_bind. unfold rab_broker_redeem_receipt. apply wp_bind, wp_getb. cbn [s_b].
  rewrite Hpo, Hroot. cbn [Z.eqb negb]. pose proof (rep_find_cid _ _ (it_cid it) Hrep) as Hfc.
  destruct (open_find_cid _ _) as [p'|]; [|congruence].
  destruct Hfc as (it2 & Hp' & HA' & _). assert (it2 = it) as -> by congruence. rewrite Hp', Hrc.
  destruct (_ =? rc_actor_uid rc) eqn:Hprin; cbn [negb]; bool_hyps; cycle 1.
  { by apply wp_ret, wp_ret, excused_err, (cause_principal _ _ _ _ _ _ rc). }
  rewrite (verifier_matches _ _ Hv). cbn [negb].
  destruct (_ || _) eqn:Hterms.
  { apply wp_ret, wp_ret, excused_err, (cause_terms _ _ _ _ _ _ rc); [done..|]. intros [= E1 E2 E3 E4].
    rewrite E1, E2, E3, E4, Z.eqb_refl in Hterms. unfold strcmp_eq in Hterms.
    by rewrite !String.eqb_refl in Hterms. }
  destruct (rcpt_state_eqb _ _) eqn:Hstate.
  { apply wp_ret, wp_ret, excused_err, (cause_redeemed _ _ _ _ _ _ rc); [done..|]. by destruct (rc_state rc). }
  apply wp_bind, wp_liftW, wp_ask. cbn [w_tick w_fs].
  destruct (ca_boottime Hcalm t) as [bt Hbt]. rewrite Hbt.
  apply wp_bind, wp_bind, wp_liftW, wp_ask, wp_ret. cbn [w_tick w_fs].
  destruct (ca_bootid Hcalm (S t)) as (boot & Hboot & _ & Hbl & _). rewrite Hboot.
  rewrite (proj2 (Z.ltb_lt _ _) Hbl).
  destruct (receipt_unexpired _ _ _) eqn:Hexp; cbn [negb]; cycle 1.
  { apply wp_ret, wp_ret, excused_err. eapply (cause_expired _ _ _ _ _ _ rc t bt boot); try done.
    unfold s_tick. cbn. lia. }
  eapply wp_mono; [eapply (redeem_commit_excused _ _ _ _ _ t); try done; lia|].
  intros rr s' He. by apply wp_ret.
Qed.

(** What the parser guarantees of the effect section of an open request. *)
Definition effect_fits : Prop :=
  rq_effect_present q = true →
  rq_effect_plan_schema q = RAB_PLAN_SCHEMA_V1 ∧ is_hex64 (rq_effect_plan_hash q) = true.

Lemma record_field_utf8 kvs k : domain_record kvs → utf8_valid (record_field kvs k) = true.
Proof.
  intros (_ & Hwf & _). unfold record_field. destruct (assoc_get k kvs) as [v|] eqn:Hg;
    [|by apply utf8_ascii]. pose proof (json_wf_get _ _ _ Hwf Hg). destruct v; done || by apply utf8_ascii.
Qed.

(** The receipt step of an effect open. *)
Lemma open_effect_excused K' f b lines st A t0 b0 t n m kvs cid binding line :
  let it := opened_intent actor kvs cid binding in
  live K' f b lines st (<[cid := it]> A) → b_poisoned b = false → b_cfg b = b_cfg b0 →
  rq_type q = RAB_REQ_OPEN_INTENT → rq_effect_present q = true → effect_fits →
  rq_record q = Some (JObject kvs) → domain_record kvs → utf8_valid cid = true →
  (t0 ≤ m < t)%nat → rab_make_binding (e_random m) RAB_BINDING_MAX = Some binding →
  A !! cid = None → (t0 ≤ n < t)%nat → request_line b0 A actor q line →
  after_line (b_cfg b0) (a_uid actor) (u64 (e_clock n)) (u64 (strlen line + 1)) (b_rates b0) (b_rates b) →
  wp (open_effect q cid binding) (excused t0 b0 A actor q) (Sys (World t f) b).
Proof.
  intros it Hl Hpo Hcfg Hty Hpres Hfits Hkv Hdom Hcid Hm Hbd HA Hn Hline Hafter. destruct (Hfits Hpres) as [Hps Hph].
  unfold open_effect.
  apply wp_bind.
  eapply (issue_calm Hcalm K' _ _ _ _ _ _ it); try done.
  - apply lookup_insert_eq.
  - by apply record_field_utf8.
  - by apply record_field_utf8.
  - intros s' He. apply wp_error, excused_err, cause_receipt_verb; [done..|]. by rewrite Hkv.
  - intros k s' Hk Hlow. apply wp_error, excused_err. eapply (cause_space _ _ _ _ _ _ k); [lia|by rewrite <- Hcfg].
  - intros k tok v s' Hk Htok Hv Hc. apply wp_error, excused_err.
    eapply (cause_token_clash _ _ _ _ _ _ k tok v); try done; [lia|].
    destruct Hc as [Hu| ->]; [left|right; exists m; split; [lia|done]].
    apply verifier_used_spec in Hu as (c & x & Hc & Hx). apply verifier_used_spec. exists c, x.
    destruct (decide (cid = c)) as [<-|]; [|by rewrite lookup_insert_ne in Hc].
    rewrite lookup_insert_eq in Hc. by injection Hc as <-.
  - intros k rc rline s' Hk Hb Hrc Hover. apply wp_error, excused_err. rewrite Hcfg in Hover.
    eapply (cause_receipt_quota _ _ _ _ _ _ n k line cid rc rline); try done; lia.
Qed.

(** From the minted ids on. *)
Lemma open_commit_excused f b lines st A t0 b0 t n m cid binding :
  live K f b lines st A → b_poisoned b = false → rates_only b0 b → cid ∉ K → storable q →
  texts_valid b0 A actor → rq_type q = RAB_REQ_OPEN_INTENT → effect_fits → (t0 ≤ n < t)%nat →
  (t0 ≤ m < t)%nat → rab_make_binding (e_random m) RAB_BINDING_MAX = Some binding →
  cid ≠ "" → strlen cid < RAB_CID_MAX → utf8_valid cid = true →
  trims (b_cfg b) (a_uid actor) (u64 (e_clock n)) (b_rates b0) (b_rates b) →
  (roomy → uid_opens A (a_uid actor) < 2 ^ 32 - 1) →
  wp (open_commit actor q (u64 (e_clock n)) cid binding) (excused t0 b0 A actor q)
     (Sys (World t f) b).
Proof.
  intros Hl Hpo Hro HK Hst Htx Hty Hef Hn Hm Hbd Hc1 Hc2 Hcid Htr Hcap.
  assert (Hcfg : b_cfg b = b_cfg b0) by (by rewrite Hro).
  assert (Hhost : b_host b = b_host b0) by (by rewrite Hro).
  pose proof (minted_binding _ _ Hbd) as [Hb1 Hb2].
  unfold open_commit. apply wp_bind, wp_getb. cbn [s_b].
  eapply (audit_charged RAB_PHASE_INTENT cid (Some binding) _ n); try done.
  { by apply utf8_ascii. }
  { intros bd [= <-]. eapply utf8_hex, make_binding_Some, Hbd. }
  { unfold charged_uid. by rewrite Hty. }
  { intros line Hb. unfold request_line. rewrite Hty. eauto. }
  intros line r t1 Ht1 Htr1 Hnl Hb. pose proof (tr_ok _ _ _ _ _ Htr1) as Hr. destruct Hst as (kvs & Hkv & Hdom & Hfits).
  destruct (open_step (ca_unlink Hcalm) (ca_node Hcalm) actor q Hactor _ _ _ _ _ _ _ _ _ _ _ Hl HK Hkv Hdom Hfits (u64_range _)
              Hc1 Hc2 Hb1 Hb2 Hb) as (HA & st' & Hstep).
  pose proof (live_trimmed _ _ _ _ _ _ _ Hl Htr1) as Hl1. set (it := opened_intent actor kvs cid binding) in *.
  apply wp_bind. eapply wp_given.
  { apply (wp_forward s_tick); [apply fw_append|]. apply (calm_append Hcalm); [apply Hl1|done]. }
  eapply live_append; [exact Hl1| |exact Hstep|by intros ? ? ? ? ? (_ & ? & _)|]; [set_solver|].
  intros t2 f2 k Hlive [Ht2 _]. unfold s_tick in Ht2. cbn [s_w w_tick negb] in Ht2 |- *.
  apply wp_bind, wp_add_open. intros d a2 ok o r' t3 Ht3 Ha2 Hadd.
  pose proof Hfits as (Ho & Hres & Hsc). rewrite Hkv, !rec_str_fits, (ca_node Hcalm) in Hadd by done.
  apply open_add_spec in Hadd; [|apply Hl|done|done]. destruct ok; [|by destruct Hadd].
  destruct Hadd as (Hok & Hfresh & Hheap & _ & Hr'). cbn [negb].
  rewrite opened_new_intent in Hheap by done.
  destruct (uid_open_inc_spec (b_cfg b) (lv_cfg _ _ _ _ _ _ Hl) a2 (a_uid actor) r Hr (proj1 Hactor))
    as (Hr2 & Hq2 & Hs2 & Hg2 & _). cbn in Hr'. rewrite <- Hr' in Hr2, Hq2, Hs2, Hg2.
  pose proof (noted_after_line (b_cfg b) (a_uid actor) (u64 (e_clock n)) (u64 (strlen line + 1)) r'
                (lv_cfg _ _ _ _ _ _ Hl) Hr2 (proj1 Hactor) (u64_range _) (u64_range _)) as Hnote.
  apply wp_bind, (calm_note Hcalm), wp_bind. eapply (calm_rotate Hcalm ({[cid]} ∪ K)); [|done|].
  { destruct (opened_books _ _ _ _ _ _ a2 cid it r' Hl1) as [_ Hbk]; [apply Hactor|done..|].
    apply (Hlive o (global_bytes_note _ _ _ _)).
    - change cid with (it_cid it) at 1. eapply rep_insert; [apply Hl|done|done|done|exact Hheap].
    - apply global_note_spec. eapply rate_note_spec; [apply Hl|done|apply Hactor|apply u64_range..].
    - apply books_noted; [apply Hl|done|apply Hactor|apply u64_range..|done]. }
  intros t5 f5 b5 lines5 st5 Ht5 Hl5 Hpo5 Hss Hsh. apply wp_bind, wp_getb. cbn [s_b]. rewrite Hpo5.
  destruct (rq_effect_present q) eqn:Hpres; [|by apply wp_ret, excused_ok].
  eapply (open_effect_excused _ _ _ _ _ _ _ _ _ n m kvs cid binding line); try done; try lia.
  - destruct Hss as (_ & Hss & _). rewrite Hss. exact Hcfg.
  - unfold request_line. rewrite Hty, <- Hhost. eauto.
  - rewrite <- Hcfg. eapply after_line_shrunk; [|by eapply (after_line_from _ _ _ _ r r')|exact Hsh].
    eapply shrunk_trans; by eapply trims_shrunk.
Qed.

Lemma trims_view cfg uid now r r1 r2 :
  trims cfg uid now r r1 → rates_ok cfg r2 → same_view r1 r2 → trims cfg uid now r r2.
Proof.
  intros [] Hok (Hv & Hs & Hb & Hf). split; try congruence.
  - intros v. destruct (Hv v) as [_ ->]. done.
  - intros v Hne. destruct (Hv v) as [-> _]. by apply tr_other.
  - destruct (Hv uid) as [-> _]. done.
  - intros v u Hu. destruct (tr_find _ _ Hu) as [u' Hu']. eauto.
Qed.

Lemma open_excused f b lines st A t :
  live K f b lines st A → b_poisoned b = false → fresh_mints t K → storable q →
  texts_valid b A actor → rq_type q = RAB_REQ_OPEN_INTENT → effect_fits →
  wp (handle_open actor q) (excused t b A actor q) (Sys (World t f) b).
Proof.
  intros Hl Hpo Hfresh Hst Htx Hty Hef. pose proof Hst as (kvs & Hkv & _ & Ho & Hres & _).
  assert (Huid : charged_uid actor q = a_uid actor) by (unfold charged_uid; by rewrite Hty).
  assert (Hlen : ∀ k, field_fits kvs k RAB_META_MAX →
            (RAB_META_MAX <=? strlen (json_string_value (json_object_get (rq_record q) k))) = false).
  { intros k Hk. apply Z.leb_gt. unfold field_fits in Hk. rewrite Hkv. unfold json_object_get.
    cbn [json_members]. by destruct (assoc_get k kvs) as [[]|]. }
  unfold handle_open. rewrite !Hlen, andb_false_r by done. apply wp_bind, clock_at, wp_bind.
  eapply (calm_check_rate Hcalm); [exact Hl|apply Hactor|..].
  { intros b' Hover. apply wp_error, excused_err. apply (cause_rate _ _ _ _ _ _ t); [cbn; lia|by rewrite Huid]. }
  intros r Htr. pose proof (live_trimmed _ _ _ _ _ _ _ Hl Htr) as Hl1. cbn [negb].
  apply wp_bind, wp_getb. cbn [s_b b_cfg b_opens set_rates].
  destruct (max_open_global _ <=? _) eqn:Hg; bool_hyps.
  { by apply wp_error, excused_err, cause_open_global. }
  apply wp_bind, wp_bind, (alloc_uid_calm Hcalm), wp_bind, wp_getb. cbn [s_b b_cfg b_rates set_rates].
  destruct (uid_get _ _ _ _) as [u r2] eqn:Hget. apply wp_bind, wp_modb, wp_ret.
  apply uid_get_spec in Hget as (Hr2 & Hview & Hfind & Hu & _); [|apply Hl|apply Htr|apply Hactor].
  destruct u as [u|]; [|by destruct Hu].
  assert (Htr2 : trims (b_cfg b) (a_uid actor) (u64 (e_clock t)) (b_rates b) r2)
    by (by eapply trims_view).
  destruct (max_open_per_uid _ <=? _) eqn:Hcap; bool_hyps.
  { apply wp_error, excused_err, cause_open_uid; [done|]. rewrite <- (tr_open _ _ _ _ _ Htr2).
    unfold uid_open_count. by rewrite Hfind. }
  pose proof (live_trimmed _ _ _ _ _ _ _ Hl Htr2) as Hl2.
  apply wp_bind, free_at.
  { intros Hlow. apply wp_error, excused_err. eapply cause_space; [|exact Hlow]. cbn. lia. }
  intros t1 Ht1. cbn [negb]. apply wp_bind, wp_mint_cid. intros n t2 Hn. fold (minted n).
  destruct (calm_mint Hcalm n) as (cid & Hmint & Hcid). rewrite Hmint.
  apply wp_bind, wp_bind, wp_liftW, wp_ask, wp_ret. cbn [w_tick w_fs].
  destruct (calm_binding Hcalm t2) as [bd Hbd]. rewrite Hbd.
  pose proof (minted_cid _ _ Hmint) as [? ?].
  eapply (open_commit_excused _ _ _ _ _ _ _ _ t t2); try done; try lia.
  - eapply Hfresh; [|done]. lia.
  - by eapply under_cap; [exact Hl2|exact Hfind|].
Qed.

Lemma handle_excused f b lines st A t :
  live K f b lines st A → b_poisoned b = false → fresh_mints t K → servable q →
  texts_valid b A actor → (rq_type q = RAB_REQ_OPEN_INTENT → effect_fits) →
  wp (rab_broker_handle actor q) (excused t b A actor q) (Sys (World t f) b).
Proof.
  intros Hl Hpo Hfresh Hsv Htx Hef. unfold rab_broker_handle, servable in *. apply wp_bind, wp_getb.
  cbn [s_b]. rewrite Hpo. destruct (rq_type q) eqn:Hty.
  - by eapply open_excused; eauto.
  - by eapply outcome_excused.
  - destruct Hsv. by eapply emit_excused.
  - by apply wp_ret, excused_ok.
  - by eapply redeem_excused.
Qed.
End Handlers.

(** ** Properties *)

Section Property.
Context `{JanssonLaws} `{Sha256} {E : env}.

End Property.

(** ** A run *)

#[local] Existing Instance BitJansson.
#[local] Existing Instance pad_sha.

(** Nothing fails, and the clock stands still. *)
#[local] Instance still_env : env :=
  Env (λ _, 1000000) (λ _, Some (Timespec 1 0))
      (λ n, [RndBytes (replicate 16 (byte_of (Z.of_nat n)))])
      (λ _, Some 5) (λ _, Some "boot") (λ _, Some (100000, 4096))
      (λ _, []) (λ _, true) (λ _, true) (λ _, true) (λ _, true) 0.

Lemma still_calm : calm.
Proof.
  split; try done.
  - intros n d. by destruct d.
  - intros n k Hk. do 17 (destruct k as [|k]; [by eexists|]). lia.
  - intros n. by exists "boot".
  - intros d. unfold rab_sha256, evp_sha256, pad_sha.
    rewrite length_take, length_app, length_replicate, Nat.min_l by lia. by eexists.
Qed.

Definition still_boot : (broker + string) * world :=
  rab_broker_open demo_path demo_cfg None (World 0 demo_fs).

Definition still_s0 : sys :=
  match booted still_boot with
  | Some s => s
  | None => Sys (World 0 demo_fs) (broker_init demo_path demo_cfg None)
  end.

Lemma still_session : in_session still_s0 ∅.
Proof.
  pose proof (first_boot_in_session demo_fs demo_path demo_cfg None 0 demo_fs_ok ltac:(done)
                demo_cfg_ok ltac:(done)) as Hb.
  unfold wp in Hb. change (rab_broker_open _ _ _ _) with still_boot in Hb.
  destruct Hb as [(e & He & _)|(b & Hb & _ & Hs)].
  - exfalso. revert He. vm_compute. done.
  - unfold still_s0. destruct still_boot as [r w]. cbn in Hb, Hs. subst r. exact Hs.
Qed.

