(* ===== verification/Limits.v ===== *)
(** * Limits across requests and restarts

    The rate table answers for the log ([books], part of [live]): every uid's
    window is the recent end of what the log charges to it, and, as long as the
    table's entries can be allocated ([roomy]), every uid is counted with exactly
    its open intents.  Hence the open caps are never exceeded, and a restart
    forgets no charge that still limits a uid. *)

From stdpp Require Import base gmap strings list fin_maps sorting.
From Stdlib Require Import ZArith Lia Ascii.
From S2P Require Import Prelude CString Jansson Env Id Sink Request Peer Record Receipt Rate.
From S2P Require Import OpenSet Broker Reconstruct Spec Recovery Live Rotation Ticks Serve.
From S2P Require Import Session Demo.

Local Open Scope string_scope.
Local Open Scope list_scope.
Local Open Scope Z_scope.

(** ** Facts: one open set, one size *)

Lemma represents_unique o A A' : represents o A → represents o A' → A = A'.
Proof.
  assert (Hsub : ∀ B B' c it, represents o B → represents o B' → B !! c = Some it → B' !! c = Some it).
  { intros B B' c it HB HB' Hc. destruct (rp_out _ _ HB _ _ Hc) as (<- & p & Hp).
    by apply (rp_in _ _ HB' p). }
  intros H1 H2. apply map_eq. intros c. destruct (A !! c) as [it|] eqn:HA.
  - symmetry. by eapply (Hsub A A').
  - destruct (A' !! c) as [it|] eqn:HA'; [|done]. apply (Hsub A' A) in HA'; [|done..]. congruence.
Qed.

Lemma represents_size o A : represents o A → size (o_heap o) = size A.
Proof.
  intros Hrep. rewrite <- !length_map_to_list.
  rewrite <- (length_fmap (λ pi, it_cid (snd pi)) (map_to_list (o_heap o))),
    <- (length_fmap fst (map_to_list A)).
  apply Permutation_length, NoDup_Permutation.
  - apply NoDup_fmap_2_strong; [|apply NoDup_map_to_list].
    intros [p it] [q it'] Hp Hq He. apply elem_of_map_to_list in Hp, Hq. cbn in He.
    assert (p = q) as -> by (by eapply (rp_inj _ _ Hrep)). congruence.
  - apply NoDup_fst_map_to_list.
  - intros c. rewrite !list_elem_of_fmap. split.
    + intros ([p it] & -> & Hp). apply elem_of_map_to_list in Hp. exists (it_cid it, it).
      split; [done|]. apply elem_of_map_to_list. by apply (rp_in _ _ Hrep _ _ Hp).
    + intros ([c' it] & -> & Hc). apply elem_of_map_to_list in Hc.
      destruct (rp_out _ _ Hrep _ _ Hc) as (Hci & p & Hp). exists (p, it).
      split; [done|]. by apply elem_of_map_to_list.
Qed.

Lemma agree_opens A B uid : agree A B → uid_opens A uid = uid_opens B uid.
Proof.
  intros Hag. assert (He : ∀ X, uid_opens (erase <$> X) uid = uid_opens X uid).
  { intros X. unfold uid_opens. by rewrite map_filter_fmap, map_size_fmap. }
  by rewrite <- He, Hag, He.
Qed.

(** ** Windows *)

Lemma total_bytes_suffix q q' :
  Forall (λ e, in_u64 (fst e) ∧ in_u64 (snd e)) q' → q `suffix_of` q' → total_bytes q ≤ total_bytes q'.
Proof.
  intros Hq [k ->]. induction k as [|e k IH]; [done|].
  inversion Hq as [|? ? [_ He] Hq']; subst. specialize (IH Hq'). unfold in_u64 in He.
  unfold total_bytes in *. cbn. lia.
Qed.

Lemma drop_old_range th q :
  Forall (λ e, in_u64 (fst e) ∧ in_u64 (snd e)) q →
  Forall (λ e, in_u64 (fst e) ∧ in_u64 (snd e)) (drop_old th q).
Proof. induction 1 as [|e q He Hq IH]; cbn; [done|]. case_goal; [done|by constructor]. Qed.

Section Queues.
Context (cfg : rab_config) (r : rates) (Hr : rates_ok cfg r).

Lemma uid_queue_length uid : (length (uid_queue r uid) ≤ Z.to_nat (cfg_cap cfg))%nat.
Proof.
  unfold uid_queue. destruct (uid_find r uid) as [u|] eqn:Hf; [|cbn; lia].
  destruct (uid_find_Some _ _ _ _ Hr Hf) as (_ & Hring & Hcap & _).
  pose proof (ring_queue_length _ Hring). pose proof (ro_n _ Hring). lia.
Qed.

Lemma uid_queue_range uid : Forall (λ e, in_u64 (fst e) ∧ in_u64 (snd e)) (uid_queue r uid).
Proof.
  unfold uid_queue. destruct (uid_find r uid) as [u|] eqn:Hf; [|done].
  destruct (uid_find_Some _ _ _ _ Hr Hf) as (_ & _ & _ & _ & Hwf). by apply ring_queue_range.
Qed.
End Queues.

(** ** Restart *)

Section Restart.
Context `{JanssonLaws} `{Sha256} {E : env}.

(** [r'] limits every uid at least as much as [r], and counts the same opens. *)
Definition limits_kept (cfg : rab_config) (r r' : rates) : Prop :=
  ∀ uid, uid_queue r uid `suffix_of` uid_queue r' uid ∧
    uid_open_count r' uid = uid_open_count r uid ∧
    ∀ now, (over_rate cfg uid now r → over_rate cfg uid now r') ∧
      total_bytes (drop_old (win_th cfg now) (uid_queue r uid)) ≤
      total_bytes (drop_old (win_th cfg now) (uid_queue r' uid)).

Lemma suffix_limits cfg r r' :
  rates_ok cfg r' → (∀ uid, uid_queue r uid `suffix_of` uid_queue r' uid) →
  (∀ uid, uid_open_count r' uid = uid_open_count r uid) → limits_kept cfg r r'.
Proof.
  intros Hr Hq Ho uid. split_and!; [done..|]. intros now.
  pose proof (drop_old_suffixes (win_th cfg now) _ _ (Hq uid)) as Hs. split.
  - intros [Hm Hle]. split; [done|]. apply suffix_length in Hs. lia.
  - apply total_bytes_suffix; [|done]. by eapply drop_old_range, uid_queue_range.
Qed.

(** Reopening the same log with the same limits. *)
Lemma reopened_limits K f f' b lines st A cfg ino i st' b' w' :
  roomy → live K f b lines st A → b_cfg b = cfg → spec_replay spec_init lines = inr st' →
  opened f' (b_path b) cfg ino i lines st' b' w' → limits_kept cfg (b_rates b) (b_rates b').
Proof.
  intros Hroom Hl Hcfg Hrp [_ _ _ _ _ Hr' [[_ Hc'] Hfull] _ _ _ _ _].
  destruct (lv_books _ _ _ _ _ _ Hl) as [[Hq Hoff] Hc].
  assert (st' = st) as -> by (pose proof (lv_replay _ _ _ _ _ _ Hl); congruence).
  apply suffix_limits; [done| |].
  - intros uid. destruct (decide (rate_max_in_window cfg = 0)) as [Hz|Hz].
    { rewrite Hoff by congruence. apply suffix_nil. }
    rewrite (Hfull Hroom Hz uid). apply last_n_short; [apply Hq|].
    rewrite <- Hcfg. apply uid_queue_length, Hl.
  - intros uid. destruct (Hc Hroom uid) as [-> _], (Hc' Hroom uid) as [-> _].
    symmetry. apply agree_opens, Hl.
Qed.

(** What a machine finds when it comes back: the files as they are, or what a power
    failure left of them. *)
Definition comes_back (f f' : fsys) : Prop := f' = f ∨ power_loss f f'.

Lemma comes_back_sink f f' path fd data :
  comes_back f f' → sink_at f path fd data → settled f path fd → segment_fits f fd →
  sink_at f' path fd data ∧ segment_fits f' fd.
Proof.
  intros [->|Hp] Hs Hst Hf; [done|]. pose proof Hs as (_ & i & Hi & _).
  split; [by eapply power_loss_sink|by eapply power_loss_fits].
Qed.

(** C8. The limits survive a restart: after any session that leaves the broker
    unpoisoned, reopening the sink with the same limits, after a power failure or
    not, gives a broker in which every uid has at least the window it had, so that a
    uid over its rate limit is still over it and has no fewer bytes charged in its
    window, and is counted with the same number of open intents; or it reports that
    an allocation or system call failed. *)
Theorem limits_survive_restart s A reqs host t :
  steady → distinct_mints → roomy → in_session s A → Forall request_fits reqs →
  config_error (b_cfg (s_b s)) = None →
  wp (serve reqs)
     (λ rs s', b_poisoned (s_b s') = false → segment_fits (w_fs (s_w s')) (b_fd (s_b s')) →
        ∀ f', comes_back (w_fs (s_w s')) f' →
        wp (rab_broker_open (b_path (s_b s)) (b_cfg (s_b s)) host)
           (λ r _, (∃ e, r = inr e ∧ env_failed (Some e)) ∨
              ∃ b, r = inl b ∧ limits_kept (b_cfg (s_b s)) (b_rates (s_b s')) (b_rates b))
           (World t f')) s.
Proof.
  intros Hst Hd Hroom Hs Hr Hce. eapply wp_mono; [by eapply serve_in_session|].
  intros rs s' (A' & _ & (K & Hg & _) & (Hpath & Hcfg & _)) Hpo Hfit f' Hback.
  destruct Hg as [[_ (lines & st & Hl)]|[Hx _]]; [|congruence].
  destruct (comes_back_sink _ _ _ _ _ Hback (lv_sink _ _ _ _ _ _ Hl) (lv_settled _ _ _ _ _ _ Hl) Hfit)
    as [(Hdir & i & Hi & Hk & Hda & Hm) Hfit']. unfold segment_fits, file_data in Hfit'.
  rewrite Hi in Hfit'. rewrite <- Hpath, <- Hcfg in *. eapply wp_mono.
  - eapply (broker_open_spec _ _ host f' (b_fd (s_b s')) i lines []); try done; [|apply Hl].
    split_and!; [by rewrite app_nil_r|apply Hl|set_solver].
  - intros r w' [Henv|Hok]; [by left|right]. rewrite (lv_replay _ _ _ _ _ _ Hl) in Hok.
    destruct Hok as (b & -> & Hop). exists b. split; [done|].
    eapply (reopened_limits _ _ _ _ _ _ _ _ _ _ _ _ _ Hroom Hl); [done|apply Hl|done].
Qed.
End Restart.

(** ** Open caps *)

Section Caps.
Context `{JanssonLaws} `{Sha256} {E : env}.

Definition within_caps (cfg : rab_config) (A : gmap string intent) : Prop :=
  Z.of_nat (size A) ≤ max_open_global cfg ∧ ∀ uid, uid_opens A uid ≤ max_open_per_uid cfg.

(** An open_intent that finds a cap reached changes nothing but the accounting. *)
Lemma capped_open K f b lines st A t actor q :
  live K f b lines st A → actor_ok actor →
  max_open_global (b_cfg b) ≤ open_count (b_opens b) ∨
  max_open_per_uid (b_cfg b) ≤ uid_open_count (b_rates b) (a_uid actor) →
  wp (handle_open actor q)
     (λ resp s', is_error resp ∧ w_fs (s_w s') = f ∧ rates_only b (s_b s')) (Sys (World t f) b).
Proof.
  intros Hl Ha Hcap. unfold handle_open.
  assert (Herr : ∀ code msg t' b', rates_only b b' →
    wp (error code msg) (λ resp s', is_error resp ∧ w_fs (s_w s') = f ∧ rates_only b (s_b s'))
       (Sys (World t' f) b')) by (intros; apply wp_error; split_and!; eauto with serve).
  case_goal; [apply Herr, rates_only_refl|].
  apply wp_bind, wp_clock. intros now t1 _ _. apply wp_bind, wp_check_rate. intros a r ok t2 _ Hr.
  apply rate_allowed_spec in Hr as [Htr _]; [|apply Hl..|apply Ha].
  destruct ok; cbn [negb]; [|by apply Herr].
  apply wp_bind, wp_getb. cbn [s_b]. case_goal; [by apply Herr|].
  apply wp_bind, wp_get_uid. intros a' u r' t3 _ Hg.
  apply uid_get_spec in Hg as (_ & (Hv & _) & Hf & _); [|apply Hl|apply Htr|apply Ha].
  destruct u as [u|]; [|by apply Herr].
  assert (Hu : u_open u = uid_open_count (b_rates b) (a_uid actor)).
  { destruct (Hv (a_uid actor)) as [_ Ho]. cbn [b_rates set_rates] in Ho.
    rewrite <- (tr_open _ _ _ _ _ Htr), <- Ho. unfold uid_open_count. by rewrite Hf. }
  case_goal; [by apply Herr|]. exfalso. cbn in *. bool_hyps. lia.
Qed.

Definition is_open (q : rab_request) : bool :=
  match rq_type q with RAB_REQ_OPEN_INTENT => true | _ => false end.

(** The contract opens at most one intent, of the requesting uid, and only for an
    open_intent. *)
Lemma evolves_opens actor q A resp A' :
  evolves actor q A resp A' →
  (∀ uid, uid_opens A' uid ≤ uid_opens A uid +
     (if is_open q && (a_uid actor =? uid) then 1 else 0)) ∧
  (size A' ≤ size A + (if is_open q then 1 else 0))%nat.
Proof.
  assert (Hnone : ∀ X (b : bool), (∀ uid, uid_opens X uid ≤ uid_opens X uid + (if b && (a_uid actor =? uid) then 1 else 0)) ∧
            (size X ≤ size X + (if b then 1 else 0))%nat).
  { intros X b. split; [intros uid|]; destruct b; cbn; try case_goal; lia. }
  assert (Hone : ∀ c it, A !! c = None → it_actor it = actor → rq_type q = RAB_REQ_OPEN_INTENT →
    (∀ uid, uid_opens (<[c := it]> A) uid ≤ uid_opens A uid +
     (if is_open q && (a_uid actor =? uid) then 1 else 0)) ∧
    (size (<[c := it]> A) ≤ size A + (if is_open q then 1 else 0))%nat).
  { intros c it HA <- Hty. unfold is_open. rewrite Hty. cbn [andb]. split.
    - intros uid. by rewrite uid_opens_insert.
    - rewrite map_size_insert_None by done. lia. }
  destruct 1 as [| |? ? ? ? ? ? HA|? ? ? ? rc ? ? ? HA|? ? cid ? it ? ? ? HA Hit
                |r cid it ? ? HA| |r cid it rc now ? ? HA]; try apply Hnone; try by apply Hone.
  - apply Hone; [done| |done]. by destruct Hit as [->|(? & ? & _ & ->)].
  - split; [intros uid|].
    + pose proof (uid_opens_delete A cid it uid HA).
      destruct (is_open q), (a_uid actor =? uid), (a_uid (it_actor it) =? uid); cbn; lia.
    + rewrite map_size_delete_Some by eauto. lia.
  - rewrite map_size_insert_Some by eauto. split; [|apply Hnone]. intros uid.
    rewrite (uid_opens_replace A cid it) by done. by apply (Hnone A (is_open q)).
Qed.

(** A step of the contract that finds room stays within the caps. *)
Lemma evolves_within cfg actor q A resp A' :
  within_caps cfg A → evolves actor q A resp A' →
  (rq_type q = RAB_REQ_OPEN_INTENT → Z.of_nat (size A) < max_open_global cfg ∧
     uid_opens A (a_uid actor) < max_open_per_uid cfg) → within_caps cfg A'.
Proof.
  intros [Hsz Huid] Hev Hroom. destruct (evolves_opens _ _ _ _ _ Hev) as [Hu Hs].
  unfold is_open in *. destruct (rq_type q) eqn:Hty;
    [|split; [lia|]; intros uid; specialize (Hu uid); specialize (Huid uid); cbn [andb] in Hu; lia..].
  destruct (Hroom eq_refl) as [? ?]. split; [lia|].
  intros uid. specialize (Hu uid). specialize (Huid uid). cbn [andb] in Hu.
  destruct (Z.eqb_spec (a_uid actor) uid) as [<-|]; lia.
Qed.

Lemma handle_capped s A actor q :
  steady → distinct_mints → roomy → in_session s A → within_caps (b_cfg (s_b s)) A →
  request_fits (actor, q) →
  wp (rab_broker_handle actor q)
     (λ resp s', ∃ A', evolves actor q A resp A' ∧ in_session s' A' ∧ statics (s_b s) (s_b s') ∧
        within_caps (b_cfg (s_b s)) A') s.
Proof.
  intros Hst Hd Hroom Hs Hcaps Hfit. pose proof Hcaps as [Hsz _]. pose proof Hs as (K & Hg & Hf). destruct s as [[t f] b].
  destruct Hg as [[Hpo (lines & st & Hl)]|[Hpo Hrec]]; cbn [s_b s_w w_fs] in *; cycle 1.
  { unfold rab_broker_handle. apply wp_bind, wp_getb. cbn [s_b]. rewrite Hpo. apply wp_error.
    exists A. split_and!; auto with serve; by apply ev_refused; auto with serve. }
  assert (Hcount : open_count (b_opens b) = Z.of_nat (size A)).
  { pose proof (lv_rep _ _ _ _ _ _ Hl) as Hrep. rewrite (ok_count _ (rp_ok _ _ Hrep)).
    rewrite (represents_size _ _ Hrep), u64_small; [done|].
    pose proof (ck_open _ (lv_cfg _ _ _ _ _ _ Hl)). lia. }
  assert (Hopen : uid_open_count (b_rates b) (a_uid actor) = uid_opens A (a_uid actor))
    by (by apply (proj2 (lv_books _ _ _ _ _ _ Hl))).
  assert (Hcase : (rq_type q = RAB_REQ_OPEN_INTENT ∧
      (max_open_global (b_cfg b) ≤ open_count (b_opens b) ∨
       max_open_per_uid (b_cfg b) ≤ uid_open_count (b_rates b) (a_uid actor))) ∨
    (rq_type q = RAB_REQ_OPEN_INTENT → Z.of_nat (size A) < max_open_global (b_cfg b) ∧
       uid_opens A (a_uid actor) < max_open_per_uid (b_cfg b))).
  { rewrite Hcount, Hopen. destruct (rq_type q); try by right.
    destruct (decide (Z.of_nat (size A) < max_open_global (b_cfg b) ∧
                      uid_opens A (a_uid actor) < max_open_per_uid (b_cfg b))); [by right|left]. split; [done|lia]. }
  pose proof (handle_in_session _ _ _ _ Hst Hd Hs Hfit) as Hh.
  destruct Hcase as [[Hty Hcap]|Hfree].
  - assert (Hr : wp (rab_broker_handle actor q) (λ _ s', rates_only b (s_b s')) (Sys (World t f) b)).
    { unfold rab_broker_handle. apply wp_bind, wp_getb. cbn [s_b]. rewrite Hpo, Hty.
      eapply wp_mono; [eapply capped_open; [exact Hl|apply Hfit|exact Hcap]|]. tauto. }
    unfold wp in *. destruct (rab_broker_handle _ _ _) as [resp s']. cbn in *.
    destruct Hh as (A' & Hev & Hs' & Hsta & _). exists A'. split_and!; try done.
    destruct Hs' as (K' & [[_ (lines' & st' & Hl')]|[Hx _]] & _); [|rewrite Hr in Hx; cbn in Hx; congruence].
    rewrite (represents_unique (b_opens b) A' A); [done| |apply Hl].
    pose proof (lv_rep _ _ _ _ _ _ Hl') as Hrep'. by rewrite Hr in Hrep'.
  - eapply wp_mono; [exact Hh|]. intros resp s' (A' & Hev & Hs' & Hsta & _). exists A'.
    split_and!; try done. by eapply evolves_within.
Qed.

(** C9. The open caps hold: from a session state within the caps, whatever requests
    follow, the broker, in memory and in its log, never has more than
    [max_open_global] open intents, nor more than [max_open_per_uid] of one uid; this
    rests on the table counting exactly the open intents of every uid. *)
Theorem open_caps_hold s A reqs :
  steady → distinct_mints → roomy → in_session s A → within_caps (b_cfg (s_b s)) A →
  Forall request_fits reqs →
  wp (serve reqs)
     (λ rs s', ∃ A', evolves_all A reqs rs A' ∧ in_session s' A' ∧
        within_caps (b_cfg (s_b s)) A') s.
Proof.
  intros Hst Hd Hroom Hs Hc Hr. revert s A Hs Hc.
  induction Hr as [|[actor q] reqs Hfit _ IH]; intros s A Hs Hc; cbn [serve].
  { apply wp_ret. exists A. split_and!; [constructor|done..]. }
  apply wp_bind. eapply wp_mono; [by apply handle_capped|].
  intros resp s1 (A1 & Hev & Hs1 & (_ & Hcfg & _) & Hc1). apply wp_bind. rewrite <- Hcfg in Hc1 |- *.
  eapply wp_mono; [by apply IH|]. intros rs s2 (A2 & Hev2 & Hs2 & Hc2).
  apply wp_ret. exists A2. split_and!; [by econstructor|done|done].
Qed.
End Caps.

(** ** Runs that satisfy the hypotheses *)

#[local] Existing Instance BitJansson.
#[local] Existing Instance pad_sha.
#[local] Existing Instance demo_env.

Lemma demo_roomy : roomy.
Proof. done. Qed.

(** Four intents of one uid: its cap. *)
Definition demo_full : sys := demo_after (replicate 4 (alice, demo_open)).
Definition demo_full_set : gmap string intent := opens_map (b_opens (s_b demo_full)).

Lemma demo_open_fits : request_fits (alice, demo_open).
Proof. by apply (alice_fits _ false); [|left]. Qed.

Lemma demo_full_session : in_session demo_full demo_full_set.
Proof. apply demo_after_session; [|by vm_compute]. apply Forall_replicate, demo_open_fits. Qed.

Lemma demo_full_within : within_caps (b_cfg (s_b demo_full)) demo_full_set.
Proof.
  assert (Hsize : size demo_full_set = 4%nat) by (by vm_compute).
  split; [rewrite Hsize; by vm_compute|]. intros uid.
  pose proof (uid_opens_range demo_full_set uid) as Hr. rewrite Hsize in Hr.
  replace (max_open_per_uid (b_cfg (s_b demo_full))) with 4 by (by vm_compute). lia.
Qed.

Lemma limits_survive_restart_witness :
  b_poisoned (s_b (demo_serve demo_reqs demo_s0).2) = false ∧
  wp (serve demo_reqs)
     (λ rs s', b_poisoned (s_b s') = false → segment_fits (w_fs (s_w s')) (b_fd (s_b s')) →
        ∀ f', comes_back (w_fs (s_w s')) f' →
        wp (rab_broker_open (b_path (s_b demo_s0)) (b_cfg (s_b demo_s0)) None)
           (λ r _, (∃ e, r = inr e ∧ env_failed (Some e)) ∨
              ∃ b, r = inl b ∧ limits_kept (b_cfg (s_b demo_s0)) (b_rates (s_b s')) (b_rates b))
           (World 0 f')) demo_s0.
Proof.
  split; [by vm_compute|].
  apply (limits_survive_restart demo_s0 ∅ demo_reqs None 0).
  - apply demo_steady.
  - apply demo_mints.
  - apply demo_roomy.
  - apply demo_in_session.
  - apply demo_reqs_fit.
  - by vm_compute.
Defined.

(** A fifth open of the same uid. *)
Lemma open_caps_hold_witness :
  wp (serve [(alice, demo_open)])
     (λ rs s', ∃ A', evolves_all demo_full_set [(alice, demo_open)] rs A' ∧ in_session s' A' ∧
        within_caps (b_cfg (s_b demo_full)) A') demo_full.
Proof.
  apply (open_caps_hold demo_full demo_full_set [(alice, demo_open)]).
  - apply demo_steady.
  - apply demo_mints.
  - apply demo_roomy.
  - apply demo_full_session.
  - apply demo_full_within.
  - constructor; [apply demo_open_fits|constructor].
Defined.
