(* ===== verification/Loops.v ===== *)
(** * The while loops end

    Three loops of broker.c have no counter of their own: the replay of the
    segment ([reconstruct]), the eviction of old entries ([uid_evict]) and the
    sizing of the tables ([pow2_ceil]).  Here each is given as the code has it, a
    relation with one rule per turn and no bound on the turns ([runs] for the
    loops over a state, [replay_runs] for the line loop); the relations are
    deterministic, and every start has a run, whose result is the one the fuelled
    definitions compute. *)

From stdpp Require Import base gmap strings list fin_maps.
From Stdlib Require Import ZArith Lia Ascii.
From S2P Require Import Prelude CString Jansson Env Id Sink Request Peer Record Receipt Rate.
From S2P Require Import OpenSet Broker Reconstruct Spec Recovery Demo.

Local Open Scope string_scope.
Local Open Scope list_scope.
Local Open Scope Z_scope.

(** ** Loops over a state *)

(** [while (cond(s)) s = body(s);] *)
Inductive runs {S} (cond : S → bool) (body : S → S) : S → S → Prop :=
| runs_stop s : cond s = false → runs cond body s s
| runs_turn s s' : cond s = true → runs cond body (body s) s' → runs cond body s s'.

Lemma runs_functional {S} (cond : S → bool) body s s1 s2 :
  runs cond body s s1 → runs cond body s s2 → s1 = s2.
Proof.
  intros H1. revert s2. induction H1 as [s Hc|s s' Hc _ IH]; intros s2 H2.
  - inversion H2; congruence.
  - inversion H2; [congruence|auto].
Qed.

(** The loop of [uid_evict]. *)
Definition evict_cond (th : Z) (u : uid_state) : bool :=
  (0 <? u_n u) && (ring_ts u (u_head u) <? th).

Lemma evict_loop_runs fuel u th :
  0 ≤ u_n u < 2 ^ 32 → (Z.to_nat (u_n u) ≤ fuel)%nat →
  runs (evict_cond th) ring_pop u (uid_evict_loop fuel u th).
Proof.
  revert u. induction fuel as [|fuel IH]; intros u Hn Hf.
  - cbn [uid_evict_loop]. apply runs_stop. unfold evict_cond. by rewrite (proj2 (Z.ltb_ge 0 (u_n u))) by lia.
  - cbn [uid_evict_loop]. fold (evict_cond th u). destruct (evict_cond th u) eqn:Hc; [|by apply runs_stop].
    apply runs_turn; [done|]. unfold evict_cond in Hc. bool_hyps.
    apply IH; cbn [u_n ring_pop]; rewrite u32_small by lia; lia.
Qed.

(** The loop of [pow2_ceil]. *)
Definition pow2_cond (x p : Z) : bool := (p <? x) && (p <? RAB_MAX_BUCKETS).

Lemma pow2_loop_runs fuel j x :
  (j ≤ 20)%nat → (20 ≤ j + fuel)%nat →
  runs (pow2_cond x) (λ p, Z.shiftl p 1) (2 ^ Z.of_nat j) (pow2_loop fuel (2 ^ Z.of_nat j) x).
Proof.
  revert j. induction fuel as [|fuel IH]; intros j Hj Hf.
  - assert (j = 20)%nat as -> by lia. apply runs_stop. unfold pow2_cond.
    change (2 ^ Z.of_nat 20 <? RAB_MAX_BUCKETS) with false. by rewrite andb_false_r.
  - cbn [pow2_loop]. fold (pow2_cond x (2 ^ Z.of_nat j)).
    destruct (pow2_cond x (2 ^ Z.of_nat j)) eqn:Hc; [|by apply runs_stop].
    apply runs_turn; [done|]. unfold pow2_cond in Hc. bool_hyps.
    change RAB_MAX_BUCKETS with (2 ^ 20) in *.
    assert (Z.of_nat j < 20) by (apply (Z.pow_lt_mono_r_iff 2); lia).
    replace (Z.shiftl (2 ^ Z.of_nat j) 1) with (2 ^ Z.of_nat (S j)); [apply IH; lia|].
    rewrite Z.shiftl_mul_pow2, Nat2Z.inj_succ, Z.pow_succ_r by lia. lia.
Qed.

(** ** The line loop *)

Section Replay.
Context `{Jansson} `{Sha256} {E : env}.

(** The loop over the rest [p] of the buffer, at offset [pos]. *)
Inductive replay_runs : bytes → nat → cidset → sys → replay_result * sys → Prop :=
| rr_end pos c s : replay_runs [] pos c s (ReplayDone None, s)
| rr_torn p pos c s :
    p ≠ [] → break_line p = None → replay_runs p pos c s (ReplayDone (Some pos), s)
| rr_blank p rest pos c s r :
    break_line p = Some ([], rest) → replay_runs rest (pos + 1) c s r → replay_runs p pos c s r
| rr_bad p line rest pos c s e c' s' :
    break_line p = Some (line, rest) → line ≠ [] → replay_line line c s = ((Some e, c'), s') →
    replay_runs p pos c s (ReplayErr e, s')
| rr_line p line rest pos c s c' s' r :
    break_line p = Some (line, rest) → line ≠ [] → replay_line line c s = ((None, c'), s') →
    replay_runs rest (pos + length line + 1) c' s' r → replay_runs p pos c s r.

Lemma replay_runs_functional p pos c s r1 r2 :
  replay_runs p pos c s r1 → replay_runs p pos c s r2 → r1 = r2.
Proof.
  intros Hx. revert r2. induction Hx; intros r2 Hy; inversion Hy; subst; try done; try congruence;
    simplify_eq; [by auto|]. apply IHHx. congruence.
Qed.

Lemma break_line_shorter p line rest :
  break_line p = Some (line, rest) → length p = (length line + 1 + length rest)%nat.
Proof.
  revert line rest. induction p as [|c p IH]; intros line rest Hb; cbn in Hb; [done|].
  case_hyp Hb; [by simplify_eq|]. destruct (break_line p) as [[l r]|]; [|done]. simplify_eq. cbn.
  by rewrite (IH _ _ eq_refl).
Qed.

Lemma replay_run fuel p pos c s :
  (length p ≤ fuel)%nat → replay_runs p pos c s (replay fuel p pos c s).
Proof.
  revert p pos c s. induction fuel as [|fuel IH]; intros p pos c s Hf.
  { destruct p; [|cbn in Hf; lia]. apply rr_end. }
  cbn [replay]. destruct p as [|x p]; [apply rr_end|].
  destruct (break_line (x :: p)) as [[line rest]|] eqn:Hb; [|by apply rr_torn].
  pose proof (break_line_shorter _ _ _ Hb) as Hlen.
  destruct line as [|y line].
  { cbn. eapply rr_blank; [done|]. rewrite Nat.add_0_r. apply IH. cbn in Hlen, Hf. lia. }
  cbn [length Nat.eqb]. unfold mbnd. destruct (replay_line (y :: line) c s) as [[err c'] s'] eqn:Hl.
  destruct err as [e|]; [by eapply rr_bad|].
  eapply rr_line; [done|done|exact Hl|]. apply IH. cbn in Hlen, Hf. lia.
Qed.
End Replay.

(** ** Property *)

Section Property.
Context `{Jansson} `{Sha256} {E : env}.

(** C33. The loops end: from every buffer, offset, set of closed ids and broker the
    line loop of the reconstruction has a run, it has exactly one, and it ends as
    [replay] with the buffer's length as fuel does; so do the eviction loop on every
    ring whose count fits its type, and the doubling loop that sizes the tables, for
    every requested size. *)
Theorem loops_terminate :
  (∀ p pos c s r, replay_runs p pos c s r ↔ r = replay (length p) p pos c s) ∧
  (∀ u th u', in_u32 (u_n u) → runs (evict_cond th) ring_pop u u' ↔ u' = uid_evict u th) ∧
  (∀ x p, runs (pow2_cond x) (λ p, Z.shiftl p 1) 16 p ↔ p = pow2_ceil x).
Proof.
  split_and!.
  - intros p pos c s r. split; [|intros ->; by apply replay_run].
    intros Hr. eapply replay_runs_functional; [done|by apply replay_run].
  - intros u th u' Hu. split; [|intros ->; by apply evict_loop_runs].
    intros Hr. eapply runs_functional; [done|by apply evict_loop_runs].
  - intros x p. split; [|intros ->; apply (pow2_loop_runs 16 4); lia].
    intros Hr. eapply runs_functional; [done|]. apply (pow2_loop_runs 16 4); lia.
Qed.
End Property.

#[local] Existing Instance BitJansson.
#[local] Existing Instance pad_sha.
#[local] Existing Instance demo_env.

(** A ring with an entry at time 3 and one at time 9. *)
Definition two_entries : uid_state := UidState 1000 0 [3; 9] [40; 50] 2 2 0 90.

Lemma loops_terminate_witness :
  in_u32 (u_n two_entries) ∧
  runs (evict_cond 7) ring_pop two_entries (UidState 1000 0 [3; 9] [40; 50] 2 1 1 50).
Proof.
  assert (Hn : in_u32 (u_n two_entries)) by (unfold in_u32, two_entries; cbn; lia).
  split; [exact Hn|].
  apply (proj1 (proj2 (loops_terminate (H := BitJansson) (E := demo_env))) two_entries 7); [exact Hn|].
  by vm_compute.
Defined.
