(* ===== verification/Tables.v ===== *)
(** * The tables stay well formed

    [tables_ok]: the open-intent indexes, their count, the rate table and its
    rings are well formed and every uid fits its C type.  Start-up establishes it
    and every request keeps it, whatever the log holds, whatever the request says
    and whatever fails on the way, poisoned or not: nothing here assumes more of
    the environment than its type. *)

From stdpp Require Import base gmap strings list fin_maps.
From Stdlib Require Import ZArith Lia Ascii.
From S2P Require Import Prelude CString Jansson Env Id Sink Request Peer Record Receipt Rate.
From S2P Require Import OpenSet Broker Windows Reconstruct Spec Recovery Live Rotation Ticks Serve.
From S2P Require Import Session Demo.

Local Open Scope string_scope.
Local Open Scope list_scope.
Local Open Scope Z_scope.

(** The uids of an intent and of its receipt are 32-bit. *)
Definition intent_typed (it : intent) : Prop :=
  in_u32 (a_uid (it_actor it)) ∧ ∀ rc, it_rcpt it = Some rc → in_u32 (rc_actor_uid rc).

Record tables_ok (b : broker) : Prop := {
  tk_cfg : cfg_ok (b_cfg b);
  tk_rates : rates_ok (b_cfg b) (b_rates b);
  tk_opens : opens_ok (b_opens b);
  tk_typed : ∀ p it, o_heap (b_opens b) !! p = Some it → intent_typed it
}.

Lemma tables_rates b r : tables_ok b → rates_ok (b_cfg b) r → tables_ok (set_rates b r).
Proof. intros [] Hr. by split. Qed.

Lemma tables_init path cfg host : cfg_ok cfg → tables_ok (broker_init path cfg host).
Proof.
  intros Hc. split; cbn; [done|by apply rates_init_ok|apply opens_init_ok|].
  intros p it. by rewrite lookup_empty.
Qed.

(** ** Computations that leave the open set alone *)

Definition quiet_tables {A} (m : M sys A) : Prop :=
  ∀ s, tables_ok (s_b s) → tables_ok (s_b (m s).2) ∧ b_opens (s_b (m s).2) = b_opens (s_b s).

Lemma wp_quiet {A} (m : M sys A) (Q : A → sys → Prop) s :
  quiet_tables m → tables_ok (s_b s) →
  (∀ a s', tables_ok (s_b s') → b_opens (s_b s') = b_opens (s_b s) → Q a s') → wp m Q s.
Proof. intros Hm Hs HQ. unfold wp. destruct (Hm s Hs) as [? ?]. by apply HQ. Qed.

Lemma qt_wp {A} (m : M sys A) :
  (∀ t f b, tables_ok b →
     wp m (λ _ s', tables_ok (s_b s') ∧ b_opens (s_b s') = b_opens b) (Sys (World t f) b)) →
  quiet_tables m.
Proof. intros Hm [[t f] b] Hs. by apply Hm. Qed.

Lemma qt_same {A} (m : M sys A) :
  (∀ s, b_cfg (s_b (m s).2) = b_cfg (s_b s) ∧ b_rates (s_b (m s).2) = b_rates (s_b s) ∧
        b_opens (s_b (m s).2) = b_opens (s_b s)) → quiet_tables m.
Proof.
  intros Hm s [Hc Hr Ho Ht]. destruct (Hm s) as (Hc' & Hr' & Ho'). split; [|done].
  split; by rewrite ?Hc', ?Hr', ?Ho'.
Qed.

Lemma qt_ret {A} (a : A) : quiet_tables (mreturn a).
Proof. by apply qt_same. Qed.

Lemma qt_bind {A B} (m : M sys A) (k : A → M sys B) :
  quiet_tables m → (∀ a, quiet_tables (k a)) → quiet_tables (mbnd m k).
Proof.
  intros Hm Hk s Hs. unfold mbnd. destruct (Hm s Hs) as [Hs1 Ho1]. destruct (m s) as [a s1].
  destruct (Hk a s1 Hs1) as [Hs2 Ho2]. split; [done|]. by rewrite Ho2.
Qed.

Lemma qt_lift {A} (m : M world A) : quiet_tables (liftW m).
Proof. apply qt_same. intros s. unfold liftW, zoom. by destruct (m (s_w s)). Qed.

Lemma qt_modb g :
  (∀ b, b_cfg (g b) = b_cfg b ∧ b_rates (g b) = b_rates b ∧ b_opens (g b) = b_opens b) →
  quiet_tables (modb g).
Proof. intros Hg. apply qt_same. intros [w b]. apply Hg. Qed.

Lemma qt_getb : quiet_tables getb.
Proof. by apply qt_same. Qed.

Create HintDb quiet.
#[export] Hint Resolve qt_ret qt_lift qt_getb : quiet.
#[export] Hint Extern 2 (quiet_tables (modb _)) => apply qt_modb; by intros ? : quiet.

Ltac quiet_tac :=
  intros; repeat first
  [ solve [eauto 2 with quiet]
  | match goal with |- quiet_tables (mbnd _ _) => apply qt_bind; [|intros ?] end
  | match goal with |- quiet_tables (match ?x with _ => _ end) => destruct x end
  | match goal with |- quiet_tables (let '(_, _) := ?x in _) => destruct x end
  | progress cbv zeta ].

Section Quiet.
Context `{JanssonLaws} `{Sha256} {E : env}.

Lemma qt_alloc : quiet_tables alloc.
Proof. unfold alloc. quiet_tac. Qed.
Lemma qt_clock : quiet_tables clock.
Proof. unfold clock. quiet_tac. Qed.
Lemma qt_free : quiet_tables enough_free_space.
Proof. unfold enough_free_space. quiet_tac. Qed.
#[local] Hint Resolve qt_alloc qt_clock : quiet.

Lemma qt_built o : quiet_tables (built o).
Proof. unfold built. quiet_tac. Qed.

Lemma qt_append line : quiet_tables (append_line line).
Proof. unfold append_line. quiet_tac. Qed.

Lemma qt_check_rate uid now : in_u32 uid → quiet_tables (check_rate uid now).
Proof.
  intros Hu. apply qt_wp. intros t f b Hb. apply wp_check_rate. intros a r ok t' _ Hr.
  apply rate_allowed_spec in Hr as [Ht _]; [|apply Hb..|done]. split; [|done].
  apply tables_rates; [done|apply Ht].
Qed.

Lemma qt_check_bytes uid now nb : in_u32 uid → quiet_tables (check_bytes uid now nb).
Proof.
  intros Hu. apply qt_wp. intros t f b Hb. apply wp_check_bytes. intros a r ok t' _ Hr.
  apply bytes_allowed_spec in Hr as [Ht _]; [|apply Hb..|done]. split; [|done].
  apply tables_rates; [done|apply Ht].
Qed.

Lemma qt_get_uid uid : in_u32 uid → quiet_tables (get_uid uid).
Proof.
  intros Hu. apply qt_wp. intros t f b Hb. apply wp_get_uid. intros a u r t' _ Hr.
  apply uid_get_spec in Hr as [Ho _]; [|apply Hb..|done]. split; [|done]. by apply tables_rates.
Qed.

Lemma qt_note_write uid now nb :
  in_u32 uid → in_u64 now → in_u64 nb → quiet_tables (note_write uid now nb).
Proof.
  intros Hu Hn Hb. apply qt_wp. intros t f b Hk. apply wp_note_write. intros a t' _.
  split; [|done]. apply tables_rates; [done|]. apply global_note_spec.
  eapply rate_note_spec; [apply Hk..|done|done|done].
Qed.

Lemma qt_collect b ds acc cap : quiet_tables (collect_archives b ds acc cap).
Proof. revert acc cap. induction ds as [|[p i] ds IH]; intros; cbn [collect_archives]; quiet_tac. Qed.

Lemma qt_prune cfg es n t p : quiet_tables (prune_archives cfg es n t p).
Proof. revert n t p. induction es as [|e es IH]; intros; cbn [prune_archives]; quiet_tac. Qed.
#[local] Hint Resolve qt_built qt_collect qt_prune : quiet.

Lemma qt_carry_intents fd ps : quiet_tables (carry_intents fd ps).
Proof. induction ps as [|p ps IH]; cbn [carry_intents]; quiet_tac. Qed.

Lemma carry_uids_opens fd th us s : b_opens (s_b (carry_uids fd th us s).2) = b_opens (s_b s).
Proof.
  revert s. induction us as [|u us IH]; intros [[t f] b]; cbn [carry_uids]; [done|].
  pose (Q := λ (_ : bool) (s' : sys), b_opens (s_b s') = b_opens b).
  change (wp (modb (λ b, set_rates b (uid_store (b_rates b) (uid_evict u th))) ;;;
    if u_n (uid_evict u th) =? 0 then carry_uids fd th us
    else let! line := built (rab_build_rate (u_uid (uid_evict u th)) (ring_carry (uid_evict u th))) in
         match line with
         | None => mreturn false
         | Some line => let! ok := liftW (rab_sink_append fd (bs line)) in
                        if negb ok then mreturn false else carry_uids fd th us
         end) Q (Sys (World t f) b)).
  apply wp_bind, wp_modb. case_goal; [apply IH|].
  apply wp_bind, wp_built. intros line t' _ _ _. destruct line as [line|]; [|by apply wp_ret].
  apply wp_bind, wp_liftW. unfold wp. destruct (rab_sink_append fd _ _) as [ok w]. cbn.
  destruct ok; [apply IH|done].
Qed.

Lemma qt_write_carries fd : quiet_tables (write_rate_carries fd).
Proof.
  intros s Hs. destruct (sh_write_carries fd s (tk_cfg _ Hs) (tk_rates _ Hs)) as [Hc Hsh].
  assert (Ho : b_opens (s_b (write_rate_carries fd s).2) = b_opens (s_b s)).
  { unfold write_rate_carries, mbnd, getb, mgets. cbn. case_goal; [done|].
    pose proof (qt_clock s Hs) as [_ Hck]. destruct (clock s) as [now s1]. cbn in *.
    by rewrite carry_uids_opens. }
  split; [|done]. destruct Hs. split; rewrite ?Hc, ?Ho; [done|apply Hsh|done|done].
Qed.

Lemma qt_retention : quiet_tables apply_retention.
Proof. unfold apply_retention. quiet_tac. Qed.
#[local] Hint Resolve qt_carry_intents qt_write_carries qt_retention : quiet.

Lemma qt_maybe_rotate : quiet_tables maybe_rotate.
Proof. unfold maybe_rotate, rotate, rotate_swap, abandon. quiet_tac. Qed.

Lemma qt_mint_cid : quiet_tables mint_cid.
Proof. unfold mint_cid. quiet_tac. Qed.
Lemma qt_mint_binding : quiet_tables mint_binding.
Proof. unfold mint_binding. quiet_tac. Qed.
Lemma qt_mint_token n binding : quiet_tables (mint_token n binding).
Proof. induction n as [|n IH]; cbn [mint_token]; quiet_tac. Qed.
End Quiet.

(** ** Changes of the open set *)

Section Changes.
Context `{JanssonLaws} `{Sha256} {E : env}.

Lemma tables_opens b o :
  tables_ok b → opens_ok o → (∀ p it, o_heap o !! p = Some it → intent_typed it) →
  tables_ok (set_opens b o).
Proof. intros [] Ho Ht. by split. Qed.

Lemma tables_insert b o p it :
  tables_ok b → opens_ok o → o_heap o = <[p := it]> (o_heap (b_opens b)) → intent_typed it →
  tables_ok (set_opens b o).
Proof.
  intros Hb Ho Hh Hit. apply tables_opens; [done..|]. rewrite Hh. intros q x Hq.
  apply lookup_insert_Some in Hq as [[_ <-]|[_ Hq]]; [done|by eapply (tk_typed _ Hb)].
Qed.

Lemma tables_install b p it rc :
  tables_ok b → o_heap (b_opens b) !! p = Some it → it_rcpt it = None → in_u32 (rc_actor_uid rc) →
  tables_ok (set_opens b (install_receipt (b_opens b) p it rc)).
Proof.
  intros Hb Hp Hno Hu. eapply tables_insert; [done|by apply install_receipt_ok; [apply Hb|..]|done|].
  split; [by apply (tk_typed _ Hb _ _ Hp)|]. cbn. by intros rc' [= <-].
Qed.

Lemma tables_redeem b p it rc now :
  tables_ok b → o_heap (b_opens b) !! p = Some it → it_rcpt it = Some rc →
  tables_ok (set_opens b (set_node (b_opens b) p (set_rcpt it (mark_redeemed rc now)))).
Proof.
  intros Hb Hp Hrc. destruct (tk_typed _ Hb _ _ Hp) as [Hu Hr].
  eapply tables_insert; [done| |done|].
  - eapply set_node_ok; [apply Hb|done..|]. unfold key_rcpt. cbn. by rewrite Hrc.
  - split; [done|]. cbn. intros rc' [= <-]. cbn. auto.
Qed.

Lemma tables_checkpoint b p it :
  tables_ok b → o_heap (b_opens b) !! p = Some it →
  tables_ok (set_opens b (set_node (b_opens b) p (mark_checkpoint it))).
Proof.
  intros Hb Hp. eapply tables_insert; [done|by eapply set_node_ok; [apply Hb|..]|done|].
  by apply (tk_typed _ Hb _ _ Hp).
Qed.

Lemma add_tables cid binding actor op res sc s :
  tables_ok (s_b s) → strlen cid < RAB_CID_MAX → strlen binding < RAB_BINDING_MAX →
  in_u32 (a_uid actor) →
  wp (add_open cid binding actor op res sc) (λ _ s', tables_ok (s_b s')) s.
Proof.
  destruct s as [[t f] b]. cbn [s_b]. intros Hb Hc Hbd Hu. apply wp_add_open.
  intros n a2 ok o r t' _ _ Hadd. apply open_add_spec in Hadd; [|apply Hb|done..]. destruct ok.
  - destruct Hadd as (Ho & _ & Hh & _ & ->). cbn. eapply tables_rates.
    + eapply tables_insert; [done|done|exact Hh|]. by split.
    + apply uid_open_inc_spec; [apply Hb..|done].
  - destruct Hadd as (_ & -> & ->). destruct Hb. by split.
Qed.

Lemma remove_tables p it s :
  tables_ok (s_b s) → o_heap (b_opens (s_b s)) !! p = Some it →
  wp (remove_open p it) (λ _ s', tables_ok (s_b s')) s.
Proof.
  destruct s as [w b]. cbn [s_b]. intros Hb Hp. apply wp_modb.
  destruct (open_remove p it _) as [o r] eqn:Hrm.
  apply open_remove_spec in Hrm as (Ho & Hh & _ & ->); [|apply Hb|done]. eapply tables_rates.
  - apply tables_opens; [done..|]. rewrite Hh. intros q x Hq.
    apply lookup_delete_Some in Hq as [_ Hq]. by eapply (tk_typed _ Hb).
  - apply uid_open_dec_spec, Hb.
Qed.
End Changes.

(** ** Requests *)

Section Requests.
Context `{JanssonLaws} `{Sha256} {E : env}.
#[local] Hint Resolve qt_alloc qt_clock qt_free qt_built qt_append qt_check_rate qt_check_bytes
  qt_get_uid qt_maybe_rotate qt_mint_cid qt_mint_binding qt_mint_token : quiet.

(** Any answer, the tables well formed. *)
Definition keeps_tables {A} (_ : A) (s' : sys) : Prop := tables_ok (s_b s').

Lemma kt_ret {A} (a : A) s : tables_ok (s_b s) → wp (mreturn a) keeps_tables s.
Proof. intros Hs. by apply wp_ret. Qed.

Lemma kt_error code msg s : tables_ok (s_b s) → wp (error code msg) keeps_tables s.
Proof. intros Hs. by apply wp_error. Qed.
#[local] Hint Resolve kt_ret kt_error : quiet.

(** The next step leaves the open set alone. *)
Ltac quiet_step :=
  apply wp_bind, wp_quiet; [solve [eauto with quiet]|done|].

Lemma kt_finish {A} uid now nb (k : M sys A) s :
  tables_ok (s_b s) → in_u32 uid → in_u64 now → in_u64 nb →
  (∀ s', tables_ok (s_b s') → wp k keeps_tables s') →
  wp (note_write uid now nb ;;; maybe_rotate ;;; k) keeps_tables s.
Proof.
  intros Hs Hu Hn Hb Hk. apply wp_bind, wp_quiet; [by apply qt_note_write|done|].
  intros _ s1 Hs1 _. quiet_step. intros _ s2 Hs2 _. by apply Hk.
Qed.

Lemma clock_range (Q : Z → sys → Prop) s :
  tables_ok (s_b s) →
  (∀ now s', tables_ok (s_b s') → b_opens (s_b s') = b_opens (s_b s) → in_u64 now → Q now s') →
  wp clock Q s.
Proof.
  destruct s as [[t f] b]. cbn. intros Hs HQ. apply wp_clock. intros now t' _ Hn. by apply HQ.
Qed.

Lemma kt_issue_commit p it tok rc line now s :
  tables_ok (s_b s) → o_heap (b_opens (s_b s)) !! p = Some it → it_rcpt it = None →
  in_u32 (rc_actor_uid rc) → in_u64 now →
  wp (issue_commit p it tok rc line now) keeps_tables s.
Proof.
  intros Hs Hp Hno Hu Hn. pose proof (proj1 (tk_typed _ Hs _ _ Hp)) as Hu'. unfold issue_commit.
  quiet_step. intros ok s1 Hs1 Ho1. destruct ok; cbn [negb]; [|by apply kt_ret].
  quiet_step. intros ok s2 Hs2 Ho2. destruct ok; cbn [negb]; [|by apply kt_ret].
  quiet_step. intros ok s3 Hs3 Ho3. destruct ok; cbn [negb]; [|by apply kt_ret].
  destruct s3 as [w3 b3]. cbn [s_b] in *. apply wp_bind, wp_modb.
  apply kt_finish; [|done|done|apply u64_range|].
  { apply tables_install; [done|congruence|done|done]. }
  intros s' Hs'. apply wp_bind, wp_getb. by apply kt_ret.
Qed.

Lemma kt_issue cid schema hash s :
  tables_ok (s_b s) → wp (rab_broker_issue_receipt cid schema hash) keeps_tables s.
Proof.
  intros Hs. unfold rab_broker_issue_receipt. apply wp_bind, wp_getb.
  case_goal; [by apply kt_ret|]. case_goal; [by apply kt_ret|].
  destruct (open_find_cid _ _) as [p|]; [|by apply kt_ret].
  destruct (o_heap (b_opens (s_b s)) !! p) as [it|] eqn:Hp; [|by apply kt_ret].
  unfold has_receipt. destruct (it_rcpt it) as [|] eqn:Hno; [by apply kt_ret|].
  quiet_step. intros free s1 Hs1 Ho1. destruct free; cbn [negb]; [|by apply kt_ret].
  quiet_step. intros bt s2 Hs2 Ho2. destruct bt as [bt|]; [|by apply kt_ret].
  apply wp_bind, wp_quiet; [unfold read_bootid; quiet_tac|done|]. intros o s3 Hs3 Ho3.
  destruct o as [boot|]; [|by apply kt_ret].
  quiet_step. intros m s4 Hs4 Ho4. destruct m as [[tok v]|]; [|by apply kt_ret].
  apply wp_bind, clock_range; [done|]. intros now s5 Hs5 Ho5 Hn.
  quiet_step. intros line s6 Hs6 Ho6. destruct line as [line|]; [|by apply kt_ret].
  apply kt_issue_commit; [done|congruence|done| |done]. cbn. by apply (tk_typed _ Hs _ _ Hp).
Qed.

Lemma kt_redeem_commit p it rc s :
  tables_ok (s_b s) → o_heap (b_opens (s_b s)) !! p = Some it → it_rcpt it = Some rc →
  wp (redeem_commit p it rc) keeps_tables s.
Proof.
  intros Hs Hp Hrc. pose proof (proj2 (tk_typed _ Hs _ _ Hp) _ Hrc) as Hu. unfold redeem_commit.
  quiet_step. intros free s1 Hs1 Ho1. destruct free; cbn [negb]; [|by apply kt_ret].
  apply wp_bind, clock_range; [done|]. intros now s2 Hs2 Ho2 Hn.
  quiet_step. intros line s3 Hs3 Ho3. destruct line as [line|]; [|by apply kt_ret].
  quiet_step. intros ok s4 Hs4 Ho4. destruct ok; cbn [negb]; [|by apply kt_ret].
  quiet_step. intros ok s5 Hs5 Ho5. destruct ok; cbn [negb]; [|by apply kt_ret].
  quiet_step. intros ok s6 Hs6 Ho6. destruct ok; cbn [negb]; [|by apply kt_ret].
  destruct s6 as [w6 b6]. cbn [s_b] in *. apply wp_bind, wp_modb.
  apply kt_finish; [|done|done|apply u64_range|].
  { apply tables_redeem; [done|congruence|done]. }
  intros s' Hs'. apply wp_bind, wp_getb. by apply kt_ret.
Qed.

Lemma kt_redeem actor q s : tables_ok (s_b s) → wp (handle_redeem actor q) keeps_tables s.
Proof.
  intros Hs. unfold handle_redeem. case_goal; [by apply kt_error|].
  destruct (token_verifier _) as [v|]; [|by apply kt_error].
  apply wp_bind, wp_getb. destruct (open_find_verifier _ _) as [p|]; [|by apply kt_error].
  destruct (o_heap (b_opens (s_b s)) !! p) as [it|]; [|by apply kt_error].
  apply wp_bind. eapply (wp_mono _ keeps_tables); [|intros; by apply kt_ret].
  unfold rab_broker_redeem_receipt. apply wp_bind, wp_getb.
  case_goal; [by apply kt_ret|]. case_goal; [by apply kt_ret|].
  destruct (open_find_cid _ _) as [p'|]; [|by apply kt_ret].
  destruct (o_heap (b_opens (s_b s)) !! p') as [it'|] eqn:Hp; [|by apply kt_ret].
  destruct (it_rcpt it') as [rc|] eqn:Hrc; [|by apply kt_ret].
  do 4 (case_goal; [by apply kt_ret|]).
  quiet_step. intros bt s1 Hs1 Ho1. destruct bt as [bt|]; [|by apply kt_ret].
  apply wp_bind, wp_quiet; [unfold read_bootid; quiet_tac|done|]. intros o s2 Hs2 Ho2.
  destruct o as [boot|]; [|by apply kt_ret]. case_goal; [by apply kt_ret|].
  eapply kt_redeem_commit; [done|congruence|done].
Qed.

Lemma kt_outcome actor q s :
  tables_ok (s_b s) → in_u32 (a_uid actor) → wp (handle_outcome actor q) keeps_tables s.
Proof.
  intros Hs Hu. unfold handle_outcome, outcome_commit.
  apply wp_bind, clock_range; [done|]. intros now s1 Hs1 Ho1 Hn.
  quiet_step. intros ok s2 Hs2 Ho2. destruct ok; cbn [negb]; [|by apply kt_error].
  apply wp_bind, wp_getb. destruct (open_find_binding _ _) as [p|]; [|by apply kt_error].
  destruct (o_heap (b_opens (s_b s2)) !! p) as [it|] eqn:Hp; [|by apply kt_error].
  do 2 (case_goal; [by apply kt_error|]).
  quiet_step. intros free s3 Hs3 Ho3. destruct free; cbn [negb]; [|by apply kt_error].
  apply wp_bind, wp_getb. quiet_step. intros line s4 Hs4 Ho4. destruct line as [line|]; [|by apply kt_error].
  quiet_step. intros ok s5 Hs5 Ho5. destruct ok; cbn [negb]; [|by apply kt_error].
  quiet_step. intros ok s6 Hs6 Ho6. destruct ok; cbn [negb]; [|by apply kt_error].
  apply wp_bind. eapply wp_mono; [apply remove_tables; [done|congruence]|]. intros ? s7 Hs7.
  apply kt_finish; [done|done|done|apply u64_range|]. intros s' Hs'. apply wp_bind, wp_getb.
  case_goal; [by apply kt_error|by apply kt_ret].
Qed.

Lemma kt_emit actor q s :
  tables_ok (s_b s) → in_u32 (a_uid actor) → wp (handle_emit actor q) keeps_tables s.
Proof.
  intros Hs Hu. unfold handle_emit, emit_commit.
  apply wp_bind, clock_range; [done|]. intros now s1 Hs1 Ho1 Hn.
  quiet_step. intros ok s2 Hs2 Ho2. destruct ok; cbn [negb]; [|by apply kt_error].
  quiet_step. intros free s3 Hs3 Ho3. destruct free; cbn [negb]; [|by apply kt_error].
  quiet_step. intros cid s4 Hs4 Ho4. destruct cid as [cid|]; [|by apply kt_error].
  apply wp_bind, wp_getb. quiet_step. intros line s5 Hs5 Ho5. destruct line as [line|]; [|by apply kt_error].
  quiet_step. intros ok s6 Hs6 Ho6. destruct ok; cbn [negb]; [|by apply kt_error].
  quiet_step. intros ok s7 Hs7 Ho7. destruct ok; cbn [negb]; [|by apply kt_error].
  apply kt_finish; [done|done|done|apply u64_range|]. intros s' Hs'. apply wp_bind, wp_getb.
  case_goal; [by apply kt_error|by apply kt_ret].
Qed.

Lemma kt_open_commit actor q now cid binding s :
  tables_ok (s_b s) → in_u32 (a_uid actor) → in_u64 now → strlen cid < RAB_CID_MAX →
  strlen binding < RAB_BINDING_MAX → wp (open_commit actor q now cid binding) keeps_tables s.
Proof.
  intros Hs Hu Hn Hc Hb. unfold open_commit. apply wp_bind, wp_getb.
  quiet_step. intros line s1 Hs1 Ho1. destruct line as [line|]; [|by apply kt_error].
  quiet_step. intros ok s2 Hs2 Ho2. destruct ok; cbn [negb]; [|by apply kt_error].
  quiet_step. intros ok s3 Hs3 Ho3. destruct ok; cbn [negb]; [|by apply kt_error].
  apply wp_bind. eapply wp_mono; [by apply add_tables|]. intros ok s4 Hs4.
  destruct ok; cbn [negb]; [|by apply kt_error].
  apply kt_finish; [done|done|done|apply u64_range|]. intros s5 Hs5. apply wp_bind, wp_getb.
  case_goal; [by apply kt_error|]. case_goal; [|by apply kt_ret]. unfold open_effect. apply wp_bind.
  eapply wp_mono; [by apply kt_issue|]. intros ir s6 Hs6.
  destruct ir; [by apply kt_ret|by apply kt_error|by apply kt_error].
Qed.

Lemma kt_open actor q s :
  tables_ok (s_b s) → in_u32 (a_uid actor) → wp (handle_open actor q) keeps_tables s.
Proof.
  intros Hs Hu. unfold handle_open. case_goal; [by apply kt_error|].
  apply wp_bind, clock_range; [done|]. intros now s1 Hs1 Ho1 Hn.
  quiet_step. intros ok s2 Hs2 Ho2. destruct ok; cbn [negb]; [|by apply kt_error].
  apply wp_bind, wp_getb. case_goal; [by apply kt_error|].
  quiet_step. intros u s3 Hs3 Ho3. destruct u as [u|]; [|by apply kt_error].
  case_goal; [by apply kt_error|].
  quiet_step. intros free s4 Hs4 Ho4. destruct free; cbn [negb]; [|by apply kt_error].
  destruct s4 as [[t f] b]. apply wp_bind, wp_mint_cid. intros n t5 _. fold (minted n).
  destruct (minted n) as [cid|] eqn:Hm; [|by apply kt_error].
  apply wp_bind, wp_mint_binding. intros rnd t6 _.
  destruct (rab_make_binding _ _) as [bd|] eqn:Hbd; [|by apply kt_error].
  apply minted_binding in Hbd as [_ ?]. apply minted_cid in Hm as [_ ?]. by apply kt_open_commit.
Qed.

Lemma kt_handle actor q s :
  tables_ok (s_b s) → in_u32 (a_uid actor) → wp (rab_broker_handle actor q) keeps_tables s.
Proof.
  intros Hs Hu. unfold rab_broker_handle. apply wp_bind, wp_getb. case_goal; [by apply kt_error|].
  destruct (rq_type q); [by apply kt_open|by apply kt_outcome|by apply kt_emit|by apply kt_ret
                        |by apply kt_redeem].
Qed.

Lemma kt_serve reqs s :
  tables_ok (s_b s) → Forall (λ r, in_u32 (a_uid r.1)) reqs → wp (serve reqs) keeps_tables s.
Proof.
  intros Hs Hr. revert s Hs. induction Hr as [|[actor q] reqs Hu _ IH]; intros s Hs; cbn [serve].
  { by apply kt_ret. }
  apply wp_bind. eapply wp_mono; [by apply kt_handle|]. intros resp s1 Hs1. apply wp_bind.
  eapply wp_mono; [by apply IH|]. intros rs s2 Hs2. by apply kt_ret.
Qed.
End Requests.

(** ** Start-up *)

Section Startup.
Context `{JanssonLaws} `{Sha256} {E : env}.
#[local] Hint Resolve qt_alloc : quiet.

Lemma kt_note_rate uid tm nb s :
  tables_ok (s_b s) → in_u32 uid → in_u64 tm → in_u64 nb → wp (note_rate uid tm nb) keeps_tables s.
Proof.
  destruct s as [[t f] b]. cbn. intros Hs Hu Ht Hn. apply wp_bind, wp_alloc_uid. intros a t' _ _.
  apply wp_modb, tables_rates; [done|]. eapply rate_note_spec; [apply Hs..|done|done|done].
Qed.

Lemma kt_note_carry uid ops s :
  tables_ok (s_b s) → in_u32 uid → Forall (λ e, in_u64 (fst e) ∧ in_u64 (snd e)) ops →
  wp (note_carry uid ops) keeps_tables s.
Proof.
  intros Hs Hu Hops. revert s Hs. induction Hops as [|[tm nb] ops [Ht Hn] _ IH]; intros s Hs;
    cbn [note_carry]; [by apply wp_ret|].
  apply wp_bind. eapply wp_mono; [by apply kt_note_rate|]. intros ? s1 Hs1. by apply IH.
Qed.

Lemma apply_receipt_tables p it s b :
  tables_ok b → o_heap (b_opens b) !! p = Some it → in_u32 (rc_actor_uid (sr_rcpt s)) →
  tables_ok (set_opens b (apply_receipt p it s (b_opens b)).2).
Proof.
  intros Hb Hp Hu. assert (Hsame : tables_ok (set_opens b (b_opens b))) by (destruct Hb; by split).
  unfold apply_receipt. case_goal; [done|]. case_goal; [done|].
  destruct (it_rcpt it) as [cur|] eqn:Hcur.
  - case_goal; [done|]. case_goal; [by case_goal|]. case_goal; [|done]. by apply tables_redeem.
  - case_goal; [done|]. destruct (open_find_verifier _ _); [done|]. by apply tables_install.
Qed.

Lemma kt_apply_stored r closed s :
  tables_ok (s_b s) → stored_ok r → wp (apply_stored r closed) keeps_tables s.
Proof.
  intros Hs (Hc & Hb & _ & _ & _ & Hu & _ & _ & _ & Hru & _). unfold apply_stored.
  case_goal; [|case_goal].
  - unfold apply_open. case_goal; [by apply wp_ret|]. apply wp_bind, wp_getb.
    destruct (open_find_cid _ _) as [p|].
    + destruct (o_heap _ !! p); repeat case_goal; by apply wp_ret.
    + case_goal; [by apply wp_ret|]. apply wp_bind. eapply wp_mono; [by apply add_tables|].
      intros ok [w b] Hb1. case_goal; [by apply wp_ret|]. case_goal; [|by apply wp_ret].
      apply wp_bind, wp_getb. cbn [s_b]. destruct (open_find_cid _ _) as [p|]; [|by apply wp_ret].
      destruct (o_heap _ !! p) as [it|] eqn:Hp; [|by apply wp_ret].
      apply wp_bind, wp_modb, wp_ret. by apply tables_checkpoint.
  - unfold apply_outcome. apply wp_bind, wp_getb.
    destruct (open_find_cid _ _) as [p|]; [|by apply wp_ret].
    destruct (o_heap _ !! p) as [it|] eqn:Hp; [|by apply wp_ret].
    apply wp_bind. eapply wp_mono; [by apply remove_tables|]. intros ? s1 Hs1.
    apply wp_bind, wp_quiet; [eauto with quiet|done|]. intros ok s2 Hs2 _.
    destruct (cidset_add _ _ _); by apply wp_ret.
  - destruct (sr_type r); try by apply wp_ret. destruct s as [w b].
    apply wp_bind, wp_getb. cbn [s_b] in *.
    destruct (open_find_cid _ _) as [p|]; [|by apply wp_ret].
    destruct (o_heap _ !! p) as [it|] eqn:Hp; [|by apply wp_ret].
    pose proof (apply_receipt_tables p it r b Hs Hp Hru) as Hx.
    destruct (apply_receipt p it r (b_opens b)) as [err o]. apply wp_bind, wp_modb. by apply wp_ret.
Qed.

Lemma kt_replay_line line closed s :
  tables_ok (s_b s) → wp (replay_line line closed) keeps_tables s.
Proof.
  intros Hs. unfold replay_line. destruct (rab_parse_stored line) as [r|] eqn:Hp; [|by apply wp_ret].
  apply parse_stored_ok in Hp. pose proof Hp as (_ & _ & _ & _ & _ & Hau & Htm & Hru & Hops & Hrcu & Hrct & _).
  assert (Hrest : wp (let! res := apply_stored r closed in
            match res with
            | (Some e, closed) => mreturn (Some e, closed)
            | (None, closed) => note_replayed r (blen line) ;;; mreturn (None, closed)
            end) keeps_tables s).
  { apply wp_bind. eapply wp_mono; [by apply kt_apply_stored|]. intros [err closed'] s1 Hs1.
    destruct err; [by apply wp_ret|]. apply wp_bind. unfold note_replayed.
    destruct (sr_type r); try case_goal; try (by apply wp_ret, wp_ret);
      (eapply wp_mono; [apply kt_note_rate; try done; apply u64_range|]; intros; by apply wp_ret). }
  destruct (sr_type r); try done. apply wp_bind.
  eapply wp_mono; [by apply kt_note_carry|]. intros ? s1 Hs1. by apply wp_ret.
Qed.

Lemma kt_replay fuel p pos closed s :
  tables_ok (s_b s) → wp (replay fuel p pos closed) keeps_tables s.
Proof.
  revert p pos closed s. induction fuel as [|fuel IH]; intros p pos closed s Hs; cbn [replay];
    [by apply wp_ret|].
  destruct p as [|c p]; [by apply wp_ret|]. destruct (break_line _) as [[line rest]|]; [|by apply wp_ret].
  case_goal; [by apply IH|]. apply wp_bind. eapply wp_mono; [by apply kt_replay_line|].
  intros [err closed'] s1 Hs1. destruct err; [by apply wp_ret|by apply IH].
Qed.

Lemma kt_startup path s :
  tables_ok (s_b s) →
  wp (let! err := reconstruct in
      match err with Some e => mreturn (Some e) | None => open_sink path end) keeps_tables s.
Proof.
  intros Hs. apply wp_bind. eapply (wp_mono _ keeps_tables).
  - unfold reconstruct. apply wp_bind, wp_getb. apply wp_bind, wp_quiet; [apply qt_lift|done|].
    intros [buf|e] s1 Hs1 _; [|by apply wp_ret].
    apply wp_bind, wp_quiet; [eauto with quiet|done|]. intros ok s2 Hs2 _.
    destruct (cidset_init _ _) as [closed|]; [|by apply wp_ret].
    apply wp_bind. eapply wp_mono; [by apply kt_replay|]. intros res s3 Hs3.
    destruct res as [e|[keep|]]; [by apply wp_ret| |by apply wp_ret].
    apply wp_bind, wp_quiet; [apply qt_lift|done|]. intros. by apply wp_ret.
  - intros err s1 Hs1. destruct err; [by apply wp_ret|].
    apply (wp_quiet _ _ _); [|done|done]. unfold open_sink. quiet_tac.
Qed.

Lemma open_tables path cfg host w :
  cfg_ok cfg → wp (rab_broker_open path cfg host) (λ r _, ∀ b, r = inl b → tables_ok b) w.
Proof.
  intros Hc. unfold rab_broker_open. destruct w as [t f].
  apply wp_bind, wp_ask. case_goal; [by apply wp_ret|]. apply wp_bind, wp_ask.
  case_goal; [by apply wp_ret|]. destruct (config_error cfg); [by apply wp_ret|].
  apply wp_bind, wp_ask. case_goal; [by apply wp_ret|]. apply wp_bind.
  match goal with |- wp ?m _ ?w => generalize w; intros w1; unfold wp at 1; destruct (m w1) as [u w2] end.
  pose proof (kt_startup path (Sys w2 (broker_init path cfg host)) (tables_init path cfg host Hc)) as Hk.
  unfold wp, keeps_tables in *. cbv zeta beta. cbn [fst snd].
  destruct (mbnd reconstruct _ _) as [err s]. cbn in *. destruct err; intros b Hb; [done|].
  by injection Hb as <-.
Qed.
End Startup.

(** ** Properties *)

Section Property.
Context `{JanssonLaws} `{Sha256} {E : env}.

(** C16. The tables are always well formed: whatever the sink holds when the broker
    starts, whatever requests it then gets, and whatever allocation, write, sync or
    rename fails on the way, all three open-intent indexes list exactly the
    allocated intents, each once and in its bucket, the count is theirs, every uid
    has one rate entry in its bucket, whose ring indexes and totals are in range,
    and every uid fits 32 bits; poisoned or not. *)
Theorem tables_always_well_formed path cfg host w reqs :
  cfg_ok cfg → Forall (λ r, in_u32 (a_uid r.1)) reqs →
  wp (rab_broker_open path cfg host)
     (λ r w', ∀ b, r = inl b → tables_ok b ∧
        wp (serve reqs) (λ _ s', tables_ok (s_b s')) (Sys w' b)) w.
Proof.
  intros Hc Hr. eapply wp_mono; [by apply open_tables|]. intros r w' Hop b Hb.
  specialize (Hop b Hb). split; [done|]. by apply kt_serve.
Qed.
End Property.

#[local] Existing Instance BitJansson.
#[local] Existing Instance pad_sha.
#[local] Existing Instance demo_env.

Lemma tables_always_well_formed_witness :
  wp (rab_broker_open demo_path demo_cfg None)
     (λ r w', ∀ b, r = inl b → tables_ok b ∧
        wp (serve demo_reqs) (λ _ s', tables_ok (s_b s')) (Sys w' b)) (World 0 demo_fs).
Proof.
  apply (tables_always_well_formed demo_path demo_cfg None (World 0 demo_fs) demo_reqs).
  - apply demo_cfg_ok.
  - eapply Forall_impl; [apply demo_reqs_fit|]. intros [a q] [Ha _]. apply Ha.
Defined.
