(* ===== verification/Release.v ===== *)
(** * Release of resources (broker.c, record.c, json.c, main.c)

    What the broker allocates are [block]s; a [memory] is the set of those that
    are live.  Freeing, or reading through, a block that is not live is an error
    ([None]): a double free or a use after free.  The close functions walk their
    chains as the code does, reading a node's next pointer before freeing it. *)

From stdpp Require Import base gmap strings list fin_maps sorting countable.
From Stdlib Require Import ZArith Lia Ascii.
From S2P Require Import Prelude CString Jansson Env Id Sink Request Peer Record Receipt Rate.
From S2P Require Import OpenSet Broker Windows Reconstruct Spec Recovery Live Rotation Ticks Serve.
From S2P Require Import Session Demo Tables.

Local Open Scope string_scope.
Local Open Scope list_scope.
Local Open Scope Z_scope.

(** ** Blocks *)

Inductive table := TCid | TBind | TRcpt | TUid | TClosed.

Inductive block :=
| BIntent (p : nat)               (* the node of an open intent *)
| BUid (uid : Z)                  (* a uid's rate entry *)
| BTimes (uid : Z)                (* its ring of times *)
| BBytes (uid : Z)                (* its ring of sizes *)
| BClosed (slot n : nat)          (* the n-th node put into a bucket of closed ids *)
| BConn (uid : Z)                 (* a uid's entry of the connection limiter *)
| BTable (t : table)
| BPath                           (* the broker's copy of its path *)
| BBroker                         (* the broker itself *)
| BRateTimes | BRateBytes         (* the arrays of a parsed rate record *)
| BRoot                           (* the JSON tree of a parsed request *)
| BFd (fd : nat).                 (* an open descriptor *)

#[export] Instance table_eq_dec : EqDecision table.
Proof. solve_decision. Defined.
#[export] Instance block_eq_dec : EqDecision block.
Proof. solve_decision. Defined.

Definition block_code (x : block) : nat * Z * nat :=
  match x with
  | BIntent p => (0%nat, 0, p)
  | BUid u => (1%nat, u, 0%nat)
  | BTimes u => (2%nat, u, 0%nat)
  | BBytes u => (3%nat, u, 0%nat)
  | BClosed i n => (4%nat, Z.of_nat i, n)
  | BConn u => (5%nat, u, 0%nat)
  | BTable t => (6%nat, 0, match t with TCid => 0 | TBind => 1 | TRcpt => 2 | TUid => 3 | TClosed => 4 end%nat)
  | BPath => (7%nat, 0, 0%nat)
  | BBroker => (8%nat, 0, 0%nat)
  | BRateTimes => (9%nat, 0, 0%nat)
  | BRateBytes => (10%nat, 0, 0%nat)
  | BRoot => (11%nat, 0, 0%nat)
  | BFd fd => (12%nat, 0, fd)
  end.

Definition block_decode (c : nat * Z * nat) : option block :=
  let '(k, z, n) := c in
  match k with
  | 0%nat => Some (BIntent n)
  | 1%nat => Some (BUid z)
  | 2%nat => Some (BTimes z)
  | 3%nat => Some (BBytes z)
  | 4%nat => Some (BClosed (Z.to_nat z) n)
  | 5%nat => Some (BConn z)
  | 6%nat => Some (BTable (match n with 0 => TCid | 1 => TBind | 2 => TRcpt | 3 => TUid | _ => TClosed end%nat))
  | 7%nat => Some BPath
  | 8%nat => Some BBroker
  | 9%nat => Some BRateTimes
  | 10%nat => Some BRateBytes
  | 11%nat => Some BRoot
  | _ => Some (BFd n)
  end.

#[export] Instance block_countable : Countable block.
Proof.
  apply (inj_countable block_code block_decode).
  intros [| | | | | |[]| | | | | |]; simpl; by rewrite ?Nat2Z.id.
Defined.

(** The live blocks. *)
Definition memory := gset block.

(** [free] of a live pointer, and of any other. *)
Definition free_block (x : block) (m : memory) : option memory :=
  if decide (x ∈ m) then Some (m ∖ {[x]}) else None.

(** [free] of a pointer that may be NULL. *)
Definition free_opt (x : option block) (m : memory) : option memory :=
  match x with Some x => free_block x m | None => Some m end.

(** Reading a node's fields. *)
Definition read_block (x : block) (m : memory) : option memory :=
  if decide (x ∈ m) then Some m else None.

(** Several [free]s in a row. *)
Fixpoint free_all (xs : list block) (m : memory) : option memory :=
  match xs with
  | [] => Some m
  | x :: rest => let? m := free_block x m in free_all rest m
  end.

(** Walk a chain: the next pointer is read, then the node's blocks are freed. *)
Fixpoint free_chain {X} (node : X → block) (parts : X → list block) (chain : list X) (m : memory)
  : option memory :=
  match chain with
  | [] => Some m
  | x :: rest =>
      let? m := read_block (node x) m in
      let? m := free_all (parts x ++ [node x]) m in
      free_chain node parts rest m
  end.

(** Every bucket of a table. *)
Fixpoint free_buckets {X} (node : X → block) (parts : X → list block) (t : list (list X))
    (m : memory) : option memory :=
  match t with
  | [] => Some m
  | c :: rest => let? m := free_chain node parts c m in free_buckets node parts rest m
  end.

(** ** The broker *)

(** The pointers of a broker, of which start-up may not have got all: the by-cid
    chains, the other two indexes, the uid chains, the sink's descriptor. *)
Record handle := Handle {
  h_cid : option (list (list nat));
  h_bind : bool;
  h_rcpt : bool;
  h_uid : option (list (list Z));
  h_fd : option nat
}.

Definition table_ptr (present : bool) (t : table) : option block :=
  if present then Some (BTable t) else None.

Definition uid_parts (uid : Z) : list block := [BTimes uid; BBytes uid].

Definition rab_broker_close (h : handle) (m : memory) : option memory :=
  let? m := match h_cid h with
            | Some t => free_buckets BIntent (λ _, []) t m
            | None => Some m
            end in
  let? m := match h_uid h with
            | Some t => free_buckets BUid uid_parts t m
            | None => Some m
            end in
  let? m := free_opt (table_ptr (match h_cid h with Some _ => true | None => false end) TCid) m in
  let? m := free_opt (table_ptr (h_bind h) TBind) m in
  let? m := free_opt (table_ptr (h_rcpt h) TRcpt) m in
  let? m := free_opt (table_ptr (match h_uid h with Some _ => true | None => false end) TUid) m in
  let? m := free_opt (BFd <$> h_fd h) m in
  let? m := free_block BPath m in
  free_block BBroker m.

(** The pointers of a broker that is up. *)
Definition handle_of (b : broker) : handle :=
  Handle (Some (bkt_cid (b_opens b))) true true (Some (map (map u_uid) (bkt_uid (b_rates b))))
    (Some (b_fd b)).

(** ** The other owners *)

(** The closed-id set: the nodes of a bucket, the latest first. *)
Definition closed_nodes (i : nat) (c : list string) : list (nat * nat) :=
  map (λ n, (i, n)) (rev (seq 0 (length c))).

Definition cidset_free (bkt : option (list (list string))) (m : memory) : option memory :=
  match bkt with
  | None => Some m
  | Some t =>
      let? m := free_buckets (λ n, BClosed n.1 n.2) (λ _, []) (imap closed_nodes t) m in
      free_block (BTable TClosed) m
  end.

Definition conn_limiter_free (uids : list Z) (m : memory) : option memory :=
  free_chain BConn (λ _, []) uids m.

(** A parsed record or request, whose pointers are cleared when it is freed. *)
Record parsed := Parsed { pd_times : bool; pd_bytes : bool; pd_root : bool }.

Definition rab_stored_free (s : parsed) (m : memory) : option (parsed * memory) :=
  let? m := free_opt (if pd_times s then Some BRateTimes else None) m in
  let? m := free_opt (if pd_bytes s then Some BRateBytes else None) m in
  Some (Parsed false false (pd_root s), m).

Definition rab_request_free (s : parsed) (m : memory) : option (parsed * memory) :=
  if pd_root s then
    let? m := free_block BRoot m in Some (Parsed (pd_times s) (pd_bytes s) false, m)
  else Some (s, m).

(** ** Facts *)

Lemma free_all_spec xs m :
  NoDup xs → (∀ x, x ∈ xs → x ∈ m) → free_all xs m = Some (m ∖ list_to_set xs).
Proof.
  intros Hnd. revert m. induction Hnd as [|x xs Hx _ IH]; intros m Hin; cbn [free_all].
  - f_equal. set_solver.
  - unfold free_block. rewrite decide_True by (apply Hin; left). cbn. rewrite IH; [f_equal; set_solver|].
    intros y Hy. assert (y ≠ x) by (by intros ->). set_solver.
Qed.

(** The blocks of a table, in the order of the walk. *)
Definition chain_blocks {X} (node : X → block) (parts : X → list block) (c : list X) : list block :=
  concat (map (λ x, parts x ++ [node x]) c).

Lemma free_chain_spec {X} (node : X → block) parts (c : list X) m :
  NoDup (chain_blocks node parts c) → (∀ x, x ∈ chain_blocks node parts c → x ∈ m) →
  free_chain node parts c m = Some (m ∖ list_to_set (chain_blocks node parts c)).
Proof.
  revert m. induction c as [|x c IH]; intros m Hnd Hin.
  { cbn. f_equal. set_solver. }
  unfold chain_blocks in *. cbn [map concat free_chain] in *. apply list_relations.list.NoDup_app in Hnd as (Hnd1 & Hdj & Hnd2).
  unfold read_block. rewrite decide_True by (apply Hin; set_solver). cbn [mbind option_bind].
  rewrite free_all_spec; [|done|set_solver]. cbn. rewrite IH; [f_equal; set_solver|done|].
  intros y Hy. assert (y ∈ m) by (apply Hin; set_solver).
  assert (y ∉ parts x ++ [node x]) by (intros Hy'; by apply (Hdj y)). set_solver.
Qed.

Lemma free_buckets_spec {X} (node : X → block) parts (t : list (list X)) m :
  NoDup (chain_blocks node parts (concat t)) →
  (∀ x, x ∈ chain_blocks node parts (concat t) → x ∈ m) →
  free_buckets node parts t m = Some (m ∖ list_to_set (chain_blocks node parts (concat t))).
Proof.
  revert m. induction t as [|c t IH]; intros m Hnd Hin.
  { cbn. f_equal. set_solver. }
  unfold chain_blocks in *. cbn [concat free_buckets] in *. rewrite map_app, concat_app in *.
  apply list_relations.list.NoDup_app in Hnd as (Hnd1 & Hdj & Hnd2).
  rewrite free_chain_spec; [|done|intros y Hy; apply Hin, elem_of_app; by left]. cbn.
  rewrite IH; [unfold chain_blocks; f_equal; set_solver|done|]. unfold chain_blocks.
  intros y Hy. apply elem_of_difference. split; [apply Hin, elem_of_app; by right|].
  rewrite elem_of_list_to_set. intros Hy'. by apply (Hdj y).
Qed.

(** [g] frees exactly [X]. *)
Definition frees (g : memory → option memory) (X : memory) : Prop :=
  ∀ m, X ⊆ m → g m = Some (m ∖ X).

Lemma frees_ext g X Y : X = Y → frees g X → frees g Y.
Proof. by intros ->. Qed.

Lemma frees_none : frees Some ∅.
Proof. intros m _. f_equal. set_solver. Qed.

Lemma frees_block x : frees (free_block x) {[x]}.
Proof. intros m Hm. unfold free_block. rewrite decide_True; [done|set_solver]. Qed.

Lemma frees_opt o : frees (free_opt o) (match o with Some x => {[x]} | None => ∅ end).
Proof. destruct o as [x|]; [apply frees_block|apply frees_none]. Qed.

Lemma frees_seq (g h : memory → option memory) X Y :
  frees g X → frees h Y → X ## Y → frees (λ m, let? m := g m in h m) (X ∪ Y).
Proof.
  intros Hg Hh Hd m Hm. rewrite Hg by set_solver. cbn. rewrite Hh by set_solver. f_equal. set_solver.
Qed.

Lemma frees_buckets {X} (node : X → block) parts (t : list (list X)) :
  NoDup (chain_blocks node parts (concat t)) →
  frees (free_buckets node parts t) (list_to_set (chain_blocks node parts (concat t))).
Proof. intros Hnd m Hm. apply free_buckets_spec; [done|]. set_solver. Qed.

Lemma intent_blocks (ps : list nat) : chain_blocks BIntent (λ _, []) ps = map BIntent ps.
Proof. induction ps as [|p ps IH]; [done|]. cbn. f_equal. exact IH. Qed.

Lemma elem_of_uid_blocks us x :
  x ∈ chain_blocks BUid uid_parts us ↔ ∃ u, u ∈ us ∧ (x = BTimes u ∨ x = BBytes u ∨ x = BUid u).
Proof.
  unfold chain_blocks. induction us as [|u us IH]; cbn; [set_solver|].
  rewrite !elem_of_cons, IH. setoid_rewrite elem_of_cons. naive_solver.
Qed.

Lemma NoDup_uid_blocks us : NoDup us → NoDup (chain_blocks BUid uid_parts us).
Proof.
  induction 1 as [|u us Hu _ IH]; [constructor|]. unfold chain_blocks in *. cbn [map concat uid_parts app].
  assert (Hn : ∀ x, x ∈ concat (map (λ x, uid_parts x ++ [BUid x]) us) →
            x ≠ BTimes u ∧ x ≠ BBytes u ∧ x ≠ BUid u).
  { intros x Hx. apply elem_of_uid_blocks in Hx as (v & Hv & Hx). naive_solver. }
  repeat (constructor; [rewrite ?elem_of_cons; intros Hx;
    repeat (destruct Hx as [Hx|Hx]; [discriminate Hx|]); by apply Hn in Hx as (? & ? & ?)|]). done.
Qed.

(** Every uid has one entry. *)
Lemma uid_table_NoDup cfg r : rates_ok cfg r → NoDup (concat (map (map u_uid) (bkt_uid r))).
Proof.
  intros Hr. apply NoDup_concat_lookup.
  - intros i c Hc. rewrite list_lookup_fmap in Hc. apply fmap_Some in Hc as (c' & Hc' & ->).
    by apply (rk_nodup _ _ Hr i).
  - intros i j c d u Hc Hd Hu Hv. rewrite list_lookup_fmap in Hc, Hd.
    apply fmap_Some in Hc as (c' & Hc' & ->), Hd as (d' & Hd' & ->).
    apply list_elem_of_In, in_map_iff in Hu as (x & <- & Hx).
    apply list_elem_of_In, in_map_iff in Hv as (y & Hy & Hyd).
    apply list_elem_of_In in Hx, Hyd.
    destruct (rk_ring _ _ Hr _ _ _ Hc' Hx) as (_ & _ & Hsx & _).
    destruct (rk_ring _ _ Hr _ _ _ Hd' Hyd) as (_ & _ & Hsy & _). by rewrite <- Hsx, <- Hsy, Hy.
Qed.

(** ** Properties *)

(** What a broker that is up has allocated: an intent node per open intent, three
    blocks per rate entry, its tables, its path, itself, and the sink's descriptor. *)
Definition uid_blocks (us : list Z) : memory := list_to_set (chain_blocks BUid uid_parts us).

Definition fixed_blocks (fd : nat) : memory :=
  {[BTable TCid]} ∪ ({[BTable TBind]} ∪ ({[BTable TRcpt]} ∪ ({[BTable TUid]} ∪
    ({[BFd fd]} ∪ ({[BPath]} ∪ {[BBroker]}))))).

Definition broker_blocks (b : broker) : memory :=
  set_map BIntent (dom (o_heap (b_opens b))) ∪
  (uid_blocks (concat (map (map u_uid) (bkt_uid (b_rates b)))) ∪ fixed_blocks (b_fd b)).

(** C32. Closing frees everything once: [rab_broker_close] on a broker with well
    formed tables (every broker that ever runs, [tables_always_well_formed]) frees
    exactly what the broker has allocated, intents, rate rings, tables, path,
    descriptor and itself, each once, reads no freed node, and leaves all other
    memory alone. *)
Theorem close_frees_everything b m :
  tables_ok b → m ## broker_blocks b →
  rab_broker_close (handle_of b) (broker_blocks b ∪ m) = Some m.
Proof.
  intros [_ Hr Ho _] Hm. pose proof (uid_table_NoDup _ _ Hr) as Hnu.
  assert (Hci : list_to_set (chain_blocks BIntent (λ _, []) (concat (bkt_cid (b_opens b)))) =
                (set_map BIntent (dom (o_heap (b_opens b))) : memory)).
  { rewrite intent_blocks. apply set_eq. intros x. rewrite elem_of_list_to_set, elem_of_map.
    rewrite list_elem_of_In, in_map_iff. setoid_rewrite <- list_elem_of_In.
    setoid_rewrite cid_table_mem; [|done]. setoid_rewrite elem_of_dom. naive_solver. }
  assert (Hclose : frees (rab_broker_close (handle_of b)) (broker_blocks b)).
  { unfold rab_broker_close, handle_of, broker_blocks, fixed_blocks. cbn [h_cid h_bind h_rcpt h_uid h_fd].
    rewrite <- Hci. set (us := concat (map (map u_uid) (bkt_uid (b_rates b)))) in *.
    assert (Hu : ∀ x, x ∈ uid_blocks us → ∃ u, x = BTimes u ∨ x = BBytes u ∨ x = BUid u).
    { intros x Hx. apply elem_of_list_to_set, elem_of_uid_blocks in Hx as (u & _ & Hx). eauto. }
    apply (frees_seq (free_buckets BIntent (λ _, []) _)).
    { apply frees_buckets. rewrite intent_blocks. apply NoDup_fmap_2; [by intros ? ? [= ->]|].
      by apply cid_table_NoDup. }
    { apply (frees_seq (free_buckets BUid uid_parts _)).
      { by apply frees_buckets, NoDup_uid_blocks. }
      { repeat (apply (frees_seq (free_opt _)); [apply (frees_opt (Some _))| |set_solver]).
        apply (frees_seq (free_block _)); [apply frees_block|apply frees_block|set_solver]. }
      intros x Hx. destruct (Hu x Hx) as [u Hxu]. set_solver. }
    rewrite Hci. intros x Hx. apply elem_of_map in Hx as (p & -> & _).
    rewrite elem_of_union. intros [Hx|Hx]; [destruct (Hu _ Hx) as [u ?]; naive_solver|set_solver]. }
  rewrite Hclose by set_solver. f_equal. set_solver.
Qed.

(** ** A start-up that runs out of memory *)

(** The tables [rab_broker_open] got before it gave up, all still empty. *)
Definition partial_handle (cid bind rcpt uid : bool) (nbkt nuid : nat) : handle :=
  Handle (if cid then Some (replicate nbkt []) else None) bind rcpt
    (if uid then Some (replicate nuid []) else None) None.

Definition ptr_blocks (o : option block) : memory := match o with Some x => {[x]} | None => ∅ end.

Definition partial_blocks (cid bind rcpt uid : bool) : memory :=
  ptr_blocks (table_ptr cid TCid) ∪ (ptr_blocks (table_ptr bind TBind) ∪
    (ptr_blocks (table_ptr rcpt TRcpt) ∪ (ptr_blocks (table_ptr uid TUid) ∪
      (∅ ∪ ({[BPath]} ∪ {[BBroker]}))))).

Lemma free_empty {X} (node : X → block) parts n m :
  free_buckets node parts (replicate n []) m = Some m.
Proof. induction n as [|n IH]; [done|]. exact IH. Qed.

Lemma close_partial cid bind rcpt uid nbkt nuid m :
  m ## partial_blocks cid bind rcpt uid →
  rab_broker_close (partial_handle cid bind rcpt uid nbkt nuid) (partial_blocks cid bind rcpt uid ∪ m)
  = Some m.
Proof.
  intros Hm. assert (Hc : frees (rab_broker_close (partial_handle cid bind rcpt uid nbkt nuid))
                            (∅ ∪ (∅ ∪ partial_blocks cid bind rcpt uid))).
  { unfold rab_broker_close, partial_handle, partial_blocks. cbn [h_cid h_bind h_rcpt h_uid h_fd].
    apply (frees_seq (λ m, _)).
    { destruct cid; intros m' _; [rewrite free_empty|]; f_equal; set_solver. }
    { apply (frees_seq (λ m, _)).
      { destruct uid; intros m' _; [rewrite free_empty|]; f_equal; set_solver. }
      { replace (match (if cid then Some (replicate nbkt []) else None) with Some _ => true | None => false end)
          with cid by (by destruct cid).
        replace (match (if uid then Some (replicate nuid []) else None) with Some _ => true | None => false end)
          with uid by (by destruct uid).
        repeat (apply (frees_seq (free_opt _)); [apply frees_opt| |
          destruct cid, bind, rcpt, uid; cbn; set_solver]).
        apply (frees_seq (free_block _)); [apply frees_block|apply frees_block|set_solver]. }
      set_solver. }
    set_solver. }
  rewrite Hc by set_solver. f_equal. set_solver.
Qed.

(** ** The other owners *)

(** The nodes of a table of closed ids, each under its own name. *)
Lemma closed_table_NoDup (t : list (list string)) : NoDup (concat (imap closed_nodes t)).
Proof.
  apply NoDup_concat_lookup.
  - intros i c Hc. rewrite list_lookup_imap in Hc. apply fmap_Some in Hc as (l & _ & ->).
    unfold closed_nodes. apply NoDup_fmap_2; [by intros ? ? [= ->]|].
    apply NoDup_ListNoDup, List.NoDup_rev, seq_NoDup.
  - intros i j c d x Hc Hd Hx Hy. rewrite list_lookup_imap in Hc, Hd.
    apply fmap_Some in Hc as (l & _ & ->), Hd as (l' & _ & ->). unfold closed_nodes in *.
    apply list_elem_of_In, in_map_iff in Hx as (n & <- & _).
    apply list_elem_of_In, in_map_iff in Hy as (n' & [= ->] & _). done.
Qed.

Lemma plain_blocks {X} (node : X → block) (xs : list X) :
  chain_blocks node (λ _, []) xs = map node xs.
Proof. induction xs as [|x xs IH]; [done|]. cbn. f_equal. exact IH. Qed.

Lemma cidset_frees (t : list (list string)) :
  frees (cidset_free (Some t))
    (list_to_set (map (λ n, BClosed n.1 n.2) (concat (imap closed_nodes t))) ∪ {[BTable TClosed]}).
Proof.
  rewrite <- plain_blocks. unfold cidset_free.
  apply (frees_seq (free_buckets _ _ _)); [|apply frees_block|].
  - apply frees_buckets. rewrite plain_blocks. apply NoDup_fmap_2; [|apply closed_table_NoDup].
    intros [] [] He. cbn in He. congruence.
  - rewrite plain_blocks. intros x Hx. apply elem_of_list_to_set, list_elem_of_In, in_map_iff in Hx as (n & <- & _).
    set_solver.
Qed.

Lemma conn_limiter_frees uids :
  NoDup uids → frees (conn_limiter_free uids) (list_to_set (map BConn uids)).
Proof.
  intros Hnd m Hm. unfold conn_limiter_free. rewrite free_chain_spec; rewrite plain_blocks.
  - done.
  - apply NoDup_fmap_2; [by intros ? ? [= ->]|done].
  - set_solver.
Qed.

(** Freeing a parsed record or request again is harmless. *)
Lemma stored_free_again s m s' m' :
  rab_stored_free s m = Some (s', m') → rab_stored_free s' m' = Some (s', m').
Proof.
  unfold rab_stored_free. intros Hf. inv_guards Hf; by simplify_eq.
Qed.

Lemma request_free_again s m s' m' :
  rab_request_free s m = Some (s', m') → rab_request_free s' m' = Some (s', m').
Proof.
  unfold rab_request_free. destruct (pd_root s) eqn:Hr; intros Hf.
  - inv_guards Hf. by simplify_eq.
  - simplify_eq. by rewrite Hr.
Qed.

(** ** A run *)

#[local] Existing Instance BitJansson.
#[local] Existing Instance pad_sha.
#[local] Existing Instance demo_env.

(** The broker with one open intent. *)
Definition closing : broker := s_b (demo_after [(alice, demo_open)]).

Lemma closing_tables : tables_ok closing.
Proof.
  assert (Hk : wp (serve [(alice, demo_open)]) keeps_tables demo_s0);
    [apply kt_serve|unfold closing, demo_after, demo_serve; exact Hk].
  - pose proof (open_tables demo_path demo_cfg None (World 0 demo_fs) demo_cfg_ok) as Ho.
    unfold wp in Ho. change (rab_broker_open demo_path demo_cfg None (World 0 demo_fs)) with run_boot in Ho.
    unfold demo_s0. destruct run_boot as [[b|e] w]; cbn in *; [by apply Ho|]. apply tables_init, demo_cfg_ok.
  - constructor; [apply actor_ok_alice|constructor].
Qed.

Lemma close_frees_everything_witness :
  (size (o_heap (b_opens closing)) = 1%nat ∧ {[BClosed 0 0]} ## broker_blocks closing) ∧
  rab_broker_close (handle_of closing) (broker_blocks closing ∪ {[BClosed 0 0]}) = Some {[BClosed 0 0]}.
Proof.
  assert (Hd : {[BClosed 0 0]} ## broker_blocks closing)
    by (apply (bool_decide_unpack _); by vm_compute).
  split; [split; [by vm_compute|exact Hd]|].
  apply (close_frees_everything closing {[BClosed 0 0]}).
  - apply closing_tables.
  - exact Hd.
Defined.
