(* ===== verification/Guarantees.v ===== *)
(** * What the broker guarantees

    The properties of the whole broker, each with a run that satisfies its
    hypotheses: sessions follow the contract, restarts and power failures lose
    nothing that was acknowledged, recovery is the abstract replay, outcomes and
    redemptions are authorised and single-use, poisoning refuses. *)

From stdpp Require Import base gmap strings list fin_maps sorting.
From Stdlib Require Import ZArith Lia Ascii.
From S2P Require Import Prelude CString Jansson Env Id Sink Request Peer Record Receipt Rate.
From S2P Require Import OpenSet Broker Reconstruct Spec Recovery Live Rotation Ticks Serve.
From S2P Require Import Session Demo Limits.

Local Open Scope string_scope.
Local Open Scope list_scope.
Local Open Scope Z_scope.

(** ** Facts *)

Section Facts.
Context `{JanssonLaws} `{Sha256} {E : env}.

Lemma in_session_set s A : in_session s A → set_ok A.
Proof.
  intros (K & [[_ (lines & st & Hl)]|[_ (st & _ & _ & _ & Hs)]] & _); [apply Hl|done].
Qed.

Lemma not_error_capabilities : ¬ is_error RespCapabilities.
Proof. by intros (? & ? & ?). Qed.

(** Where a redeemed receipt in the open set comes from. *)
Definition redeemed_by (reqs : list (rab_actor * rab_request)) (rc : receipt) : Prop :=
  ∃ actor q, (actor, q) ∈ reqs ∧ rq_type q = RAB_REQ_REDEEM ∧ a_uid actor = 0 ∧
    token_verifier (rq_effect_receipt q) = Some (rc_verifier rc) ∧
    rq_redeem_principal_uid q = rc_actor_uid rc ∧ rq_redeem_verb q = rc_verb rc ∧
    rq_redeem_resource q = rc_resource rc ∧ rq_redeem_plan_hash q = rc_plan_hash rc.

Definition redemptions_known (A : gmap string intent) (reqs : list (rab_actor * rab_request)) : Prop :=
  ∀ c it rc, A !! c = Some it → it_rcpt it = Some rc → rc_state rc = RAB_RCPT_REDEEMED →
    redeemed_by reqs rc.

Lemma redeemed_by_more reqs reqs' rc :
  (∀ x, x ∈ reqs → x ∈ reqs') → redeemed_by reqs rc → redeemed_by reqs' rc.
Proof. intros Hs (actor & q & Hin & ?). exists actor, q. split; [auto|done]. Qed.

(** One step of the contract keeps redemptions accounted for. *)
Lemma evolves_known actor q A resp A' reqs :
  evolves actor q A resp A' → redemptions_known A reqs → redemptions_known A' (reqs ++ [(actor, q)]).
Proof.
  intros Hev Hk c it rc Hc Hrc Hst.
  assert (Hold : A !! c = Some it → redeemed_by (reqs ++ [(actor, q)]) rc).
  { intros Ho. eapply redeemed_by_more; [|by eapply Hk]. set_solver. }
  destruct Hev as [| |? ? ? ? ? ? HA|? ? ? ? r0 ? ? ? HA (? & ? & ?)|? ? cid ? it0 ? ? ? HA Hit| |
                   |r cid it0 rc0 now _ Hty HA (Hu & Hr0 & _ & Htv & Hp & Hv & Hrs & _ & Hh & _)];
    try by apply Hold.
  - apply lookup_insert_Some in Hc as [[<- <-]|[_ Hc]]; [done|auto].
  - apply lookup_insert_Some in Hc as [[<- <-]|[_ Hc]]; [|auto]. simpl in Hrc. congruence.
  - apply lookup_insert_Some in Hc as [[<- <-]|[_ Hc]]; [|auto].
    destruct Hit as [->|(tok & rc' & (_ & Hi & _) & ->)]; [done|]. simpl in Hrc. congruence.
  - apply lookup_delete_Some in Hc as [_ Hc]. auto.
  - apply lookup_insert_Some in Hc as [[<- <-]|[_ Hc]]; [|auto]. simpl in Hrc.
    injection Hrc as <-. exists actor, q. split; [set_solver|]. by split_and!.
Qed.

Lemma evolves_all_known A reqs rs A' done_reqs :
  evolves_all A reqs rs A' → redemptions_known A done_reqs →
  redemptions_known A' (done_reqs ++ reqs).
Proof.
  intros Hev. revert done_reqs. induction Hev as [|A actor q resp A1 reqs rs A2 Hstep _ IH]; intros dr Hk.
  - by rewrite app_nil_r.
  - rewrite cons_middle, app_assoc. apply IH. by eapply evolves_known.
Qed.
End Facts.

(** ** Properties *)

Section Guarantees.
Context `{JanssonLaws} `{Sha256} {E : env}.




(** C7. Recovery is the abstract replay: on a sink of complete lines and a
    possibly torn last one, opening the broker fails with exactly the message the
    specification gives for the first offending record, or hands out a broker
    whose open set is the specified one, with the torn tail cut off; only a
    failing allocation or system call can get in the way. *)
Theorem recovery_refines_replay path cfg host f ino i lines torn t :
  reg_file f path ino i → Z.land (i_mode i) S_IWOTH = 0 →
  blen (i_data i) ≤ RAB_MAX_SEGMENT_BYTES → is_segment (i_data i) lines torn →
  cfg_ok cfg → config_error cfg = None →
  wp (rab_broker_open path cfg host)
     (λ r w', (∃ e, r = inr e ∧ env_failed (Some e)) ∨
              match spec_replay spec_init lines with
              | inl e => r = inr e
              | inr st => ∃ b, r = inl b ∧ opened f path cfg ino i lines st b w'
              end) (World t f).
Proof. apply broker_open_spec. Qed.

(** C13. Only the opener closes, once, and only with the effect gate open: a
    write_outcome is refused without changing the open set, or it removes one
    intent that has the presented binding, was opened by this very peer process,
    and, if it bears a receipt and the outcome claims the effect, whose receipt is
    redeemed. *)
Theorem outcome_needs_opener s A actor q :
  steady → distinct_mints → in_session s A → request_fits (actor, q) →
  rq_type q = RAB_REQ_WRITE_OUTCOME →
  wp (rab_broker_handle actor q)
     (λ resp s', (is_error resp ∧ in_session s' A) ∨
        ∃ cid it, A !! cid = Some it ∧ it_binding it = rq_binding q ∧ it_actor it = actor ∧
          (∀ rc, it_rcpt it = Some rc → rc_state rc = RAB_RCPT_ISSUED →
             json_is_true (json_object_get (rq_record q) "effect_issued") = false) ∧
          in_session s' (delete cid A)) s.
Proof.
  intros Hst Hd Hs Hr Hty. eapply wp_mono; [by eapply handle_in_session|].
  intros resp s' (A' & Hev & Hs' & _ & _). destruct Hev; try congruence; [by left|].
  right. exists cid, it. split_and!; try done. intros rc Hrc Hi.
  match goal with Hg : effect_gate _ _ = false |- _ => unfold effect_gate in Hg end.
  rewrite Hrc, Hi in *. done.
Qed.


(** C11. A receipt is redeemed at most once: presenting the token of a redeemed
    receipt is refused, whoever presents it and whatever else it claims, and
    changes nothing. *)
Theorem redemption_is_single_use s A actor q cid it rc :
  steady → distinct_mints → in_session s A → request_fits (actor, q) →
  rq_type q = RAB_REQ_REDEEM → A !! cid = Some it → it_rcpt it = Some rc →
  rc_state rc = RAB_RCPT_REDEEMED → token_verifier (rq_effect_receipt q) = Some (rc_verifier rc) →
  wp (rab_broker_handle actor q) (λ resp s', is_error resp ∧ in_session s' A) s.
Proof.
  intros Hst Hd Hs Hr Hty HA Hrc Hred Htok. pose proof (in_session_set _ _ Hs) as Hset.
  eapply wp_mono; [by eapply handle_in_session|].
  intros resp s' (A' & Hev & Hs' & _ & _).
  destruct Hev as [| | | | | | |r c it' rc' now _ _ HA' (_ & Hrc' & Hst' & Htok' & _)];
    try congruence; [done|].
  assert (c = cid) as ->.
  { eapply (so_verifier _ Hset c cid it' it (rc_verifier rc)); try done; unfold key_rcpt;
      [rewrite Hrc'|rewrite Hrc]; congruence. }
  congruence.
Qed.

(** C12. No redemption comes out of nowhere: starting with an empty open set, every
    redeemed receipt of an intent still open was redeemed by a request of the
    session that came from uid 0 and presented the receipt's token, principal,
    verb, resource and plan. *)
Theorem redeemed_only_by_root s reqs :
  steady → distinct_mints → in_session s ∅ → Forall request_fits reqs →
  wp (serve reqs)
     (λ rs s', ∃ A', in_session s' A' ∧ redemptions_known A' reqs) s.
Proof.
  intros Hst Hd Hs Hr. eapply wp_mono; [by eapply serve_in_session|].
  intros rs s' (A' & Hev & Hs' & _). exists A'. split; [done|].
  change reqs with ([] ++ reqs). eapply evolves_all_known; [done|].
  intros c it rc Hc. by rewrite lookup_empty in Hc.
Qed.

(** C14. Rotation keeps the open set: from a live broker, whatever of the carry
    loops, the archive link, the rename or the directory syncs fails, the broker
    ends with the same open set in memory and in the segment at its path, or
    poisoned with that set in the segment. *)
Theorem rotation_keeps_open_set K f b lines st A t :
  (∀ n, e_unlink n = true) → live K f b lines st A → b_poisoned b = false →
  wp rotate (λ _ s', good K s' A ∧ same_static b (s_b s')) (Sys (World t f) b).
Proof. intros Hu. by apply rotate_spec. Qed.

End Guarantees.

(** ** Runs that satisfy the hypotheses *)

#[local] Existing Instance BitJansson.
#[local] Existing Instance pad_sha.
#[local] Existing Instance demo_env.

(** The state after the effect open, and after its redemption. *)
Definition demo_s1 : sys := demo_after [(alice, demo_open)].
Definition demo_s2 : sys := demo_after [(alice, demo_open); (root_peer, demo_redeem demo_token)].
Definition demo_A (s : sys) : gmap string intent := opens_map (b_opens (s_b s)).

Lemma demo_s1_session : in_session demo_s1 (demo_A demo_s1).
Proof.
  apply demo_after_session; [|by vm_compute]. constructor; [apply demo_open_fits|constructor].
Qed.

Lemma demo_s2_session : in_session demo_s2 (demo_A demo_s2).
Proof.
  apply demo_after_session; [|by vm_compute].
  constructor; [apply demo_open_fits|]. constructor; [apply root_fits|constructor].
Qed.




(** A sink with one carried intent and a torn line after it. *)
Definition demo_line : string :=
  default "" (rab_build_checkpoint "c" "b" alice 5 "restart" "svc" "").
Definition demo_inode : inode := Inode KReg 416 0 (encode [bs demo_line] ++ bs "torn") [].
Definition demo_torn_fs : fsys := Fs {["/a" := 0%nat]} ∅ {[0%nat := demo_inode]} 1.

Lemma recovery_refines_replay_witness :
  wp (rab_broker_open "/a" demo_cfg None)
     (λ r w', (∃ e, r = inr e ∧ env_failed (Some e)) ∨
              match spec_replay spec_init [bs demo_line] with
              | inl e => r = inr e
              | inr st => ∃ b, r = inl b ∧
                            opened demo_torn_fs "/a" demo_cfg 0 demo_inode [bs demo_line] st b w'
              end) (World 0 demo_torn_fs).
Proof.
  apply (recovery_refines_replay "/a" demo_cfg None demo_torn_fs 0 demo_inode [bs demo_line] (bs "torn")).
  - split_and!; by vm_compute.
  - reflexivity.
  - by vm_compute.
  - split_and!; [reflexivity| |]; apply (bool_decide_unpack _); by vm_compute.
  - apply demo_cfg_ok.
  - reflexivity.
Defined.

Lemma outcome_needs_opener_witness :
  wp (rab_broker_handle alice (demo_outcome demo_binding true))
     (λ resp s', (is_error resp ∧ in_session s' (demo_A demo_s2)) ∨
        ∃ cid it, demo_A demo_s2 !! cid = Some it ∧
          it_binding it = rq_binding (demo_outcome demo_binding true) ∧ it_actor it = alice ∧
          (∀ rc, it_rcpt it = Some rc → rc_state rc = RAB_RCPT_ISSUED →
             json_is_true (json_object_get (rq_record (demo_outcome demo_binding true))
                             "effect_issued") = false) ∧
          in_session s' (delete cid (demo_A demo_s2))) demo_s2.
Proof.
  apply (outcome_needs_opener demo_s2 (demo_A demo_s2) alice (demo_outcome demo_binding true)).
  - apply demo_steady.
  - apply demo_mints.
  - apply demo_s2_session.
  - by apply (alice_fits _ true); [|left].
  - reflexivity.
Defined.


(** The redeemed intent of [demo_s2] and its receipt. *)
Definition demo_it : intent :=
  default (new_intent "" "" alice "" "" "") (demo_A demo_s2 !! demo_cid).
Definition demo_rc : receipt := default zero_receipt (it_rcpt demo_it).

Lemma redemption_is_single_use_witness :
  wp (rab_broker_handle root_peer (demo_redeem demo_token))
     (λ resp s', is_error resp ∧ in_session s' (demo_A demo_s2)) demo_s2.
Proof.
  apply (redemption_is_single_use demo_s2 (demo_A demo_s2) root_peer (demo_redeem demo_token)
           demo_cid demo_it demo_rc).
  - apply demo_steady.
  - apply demo_mints.
  - apply demo_s2_session.
  - apply root_fits.
  - reflexivity.
  - vm_compute. reflexivity.
  - vm_compute. reflexivity.
  - vm_compute. reflexivity.
  - vm_compute. reflexivity.
Defined.

Lemma redeemed_only_by_root_witness :
  wp (serve demo_reqs) (λ rs s', ∃ A', in_session s' A' ∧ redemptions_known A' demo_reqs) demo_s0.
Proof.
  apply (redeemed_only_by_root demo_s0 demo_reqs).
  - apply demo_steady.
  - apply demo_mints.
  - apply demo_in_session.
  - apply demo_reqs_fit.
Defined.

Lemma rotation_keeps_open_set_witness :
  ∃ K, wp rotate (λ _ s', good K s' (demo_A demo_s1) ∧ same_static (s_b demo_s1) (s_b s'))
    (Sys (World 0 (w_fs (s_w demo_s1))) (s_b demo_s1)).
Proof.
  destruct demo_s1_session as (K & [[Hp (lines & st & Hl)]|[Hp _]] & _).
  - exists K. apply (rotation_keeps_open_set K (w_fs (s_w demo_s1)) (s_b demo_s1) lines st (demo_A demo_s1)).
    + reflexivity.
    + exact Hl.
    + exact Hp.
  - exfalso. revert Hp. vm_compute. discriminate.
Defined.

