(* ===== verification/Findings.v ===== *)
(** * Behaviour at the edges

    Runs of the model that end where the comments of the program do not expect
    them to: a record the broker acknowledges but cannot read back, an archive
    removed by a failed rotation, a typed error after a durable append, and an
    intent that is durable but forgotten by the next rotation. *)

From stdpp Require Import base gmap strings list fin_maps.
From Stdlib Require Import ZArith Lia Ascii.
From S2P Require Import Prelude CString Jansson Env Id Sink Request Peer Record Receipt Rate.
From S2P Require Import OpenSet Broker Reconstruct Spec Recovery Live Rotation Ticks Serve.
From S2P Require Import Session Demo.

Local Open Scope string_scope.
Local Open Scope list_scope.
Local Open Scope Z_scope.

(** ** Running a broker under a given environment *)

Section Runs.
Context (E : env).

(** Start on an empty directory, serve, and report the responses and the end. *)
Definition session_of (cfg : rab_config) (reqs : list (rab_actor * rab_request))
  : option (list response * sys) :=
  match @rab_broker_open BitJansson E demo_path cfg None (World 0 demo_fs) with
  | (inl b, w) => Some (@serve BitJansson pad_sha E reqs (Sys w b))
  | _ => None
  end.

(** Start again on the file system a session left. *)
Definition restart_of (cfg : rab_config) (s : sys) : broker + string :=
  (@rab_broker_open BitJansson E demo_path cfg None (World (s_tick s) (w_fs (s_w s)))).1.

Definition files_of (s : sys) : list string := (map_to_list (fs_dir (w_fs (s_w s)))).*1.
Definition sink_bytes (s : sys) : Z := blen (file_data (w_fs (s_w s)) (b_fd (s_b s))).
End Runs.

Definition is_ok (r : response) : bool := match r with RespError _ _ => false | _ => true end.
Definition error_code (r : response) : string := match r with RespError c _ => c | _ => "" end.

(** ** The runs *)

Definition long_record : list (string * json) :=
  [("operation", JString (String.string_of_list_ascii (replicate 128 (byte_of 97))));
   ("outcome", JString "ok")].

Definition long_open : rab_request :=
  plain_request RAB_REQ_OPEN_INTENT "" "" (Some (JObject long_record)).

(** A record the broker acknowledges as persisted can keep it from ever
    starting again: the request grammar puts no bound on [operation], a
    non-effect open appends it whole, and reconstruction refuses a line whose
    [operation] does not fit its buffer of 128 bytes. *)
Theorem long_operation_blocks_restart :
  match session_of demo_env demo_cfg [(alice, long_open)] with
  | Some (rs, s) =>
      map is_ok rs = [true] ∧
      restart_of demo_env demo_cfg s = inr "corrupt audit record during reconstruction"
  | None => False
  end.
Proof. vm_compute. by split. Qed.

(** The same request through the wire grammar. *)
Definition long_body : bytes :=
  bs (bit_dump (JObject [("type", JString "open_intent"); ("record", JObject long_record)])).

Example long_open_accepted : @rab_parse_request BitJansson long_body = inl long_open.
Proof. vm_compute. reflexivity. Qed.

(** A configuration that rotates after every write; a clock that stands still. *)
Definition rotating_cfg : rab_config := Config 4 8 10 100 0 0 1 0 0 0 300.

Definition stuck_env : env :=
  Env (λ _, 7) (e_realtime (env := demo_env)) (e_random (env := demo_env))
      (e_boottime (env := demo_env)) (e_bootid (env := demo_env)) (e_statvfs (env := demo_env))
      (λ _, []) (λ _, true) (λ _, true) (λ _, true) (λ _, true) 0.

(** A rotation whose archive name is taken removes the archive that holds it:
    the first rotation at a clock reading leaves "/a.7", the second one at the
    same reading fails to link and its cleanup unlinks the archive of the first,
    while both writes are acknowledged. *)
Theorem colliding_rotation_removes_archive :
  match session_of stuck_env rotating_cfg [(alice, demo_emit)],
        session_of stuck_env rotating_cfg [(alice, demo_emit); (alice, demo_emit)] with
  | Some (rs1, s1), Some (rs2, s2) =>
      map is_ok rs1 = [true] ∧ files_of s1 = ["/a.7"; "/a"] ∧
      map is_ok rs2 = [true; true] ∧ files_of s2 = ["/a"]
  | _, _ => False
  end.
Proof. vm_compute. by split_and!. Qed.

(** No boot id is available: issuance fails after the intent is durable. *)
Definition no_bootid_env : env :=
  Env (e_clock (env := demo_env)) (e_realtime (env := demo_env)) (e_random (env := demo_env))
      (e_boottime (env := demo_env)) (λ _, None) (e_statvfs (env := demo_env))
      (λ _, []) (λ _, true) (λ _, true) (λ _, true) (λ _, true) 0.

(** A typed error does not mean that nothing was appended: an effect open whose
    receipt cannot be issued answers [persist_failed] although its intent is
    durable in the log and open after a restart. *)
Theorem failed_issuance_leaves_intent :
  match session_of no_bootid_env demo_cfg [(alice, demo_open)] with
  | Some (rs, s) =>
      map error_code rs = ["persist_failed"] ∧ 0 < sink_bytes s ∧
      match restart_of no_bootid_env demo_cfg s with
      | inl b => open_count (b_opens b) = 1
      | inr _ => False
      end
  | None => False
  end.
Proof. vm_compute. by split_and!. Qed.

(** The node of the first intent cannot be allocated. *)
Definition no_node_env : env :=
  Env (e_clock (env := demo_env)) (e_realtime (env := demo_env)) (e_random (env := demo_env))
      (e_boottime (env := demo_env)) (e_bootid (env := demo_env)) (e_statvfs (env := demo_env))
      (λ _, []) (λ _, true) (λ n, (30 <? n)%nat) (λ _, true) (λ _, true) 0.

(** An intent whose node could not be allocated is durable, and open after a
    restart, but the broker goes on without it: the next rotation carries only
    the intents in memory, and after it a restart no longer knows the operation. *)
Theorem unallocated_intent_lost_by_rotation :
  match session_of no_node_env demo_cfg [(alice, demo_open)],
        session_of no_node_env rotating_cfg [(alice, demo_open); (alice, demo_emit)] with
  | Some (rs1, s1), Some (rs2, s2) =>
      map error_code rs1 = ["internal"] ∧ map is_ok rs2 = [false; true] ∧
      match restart_of demo_env demo_cfg s1, restart_of demo_env demo_cfg s2 with
      | inl b1, inl b2 => open_count (b_opens b1) = 1 ∧ open_count (b_opens b2) = 0
      | _, _ => False
      end
  | _, _ => False
  end.
Proof. vm_compute. by split_and!. Qed.
