(* ===== verification/Reactor.v ===== *)
(** * The event loop (main.c)

    One thread multiplexes bounded connections: each receives one request frame,
    is answered once and closed.  A connection carries what its socket will
    still deliver ([c_in]) and accept ([c_wr]).  Clock readings, allocations,
    [poll] and [accept] answers come from [loop_env]; the broker below is called
    with complete requests only. *)

From stdpp Require Import base gmap strings list.
From Stdlib Require Import ZArith Lia Ascii.
From S2P Require Import Prelude CString Jansson Env Proto Sink Request Peer Record Receipt Rate.
From S2P Require Import Broker Reconstruct.

Local Open Scope string_scope.
Local Open Scope list_scope.
Local Open Scope Z_scope.

Definition DEFAULT_SINK_PATH : string := "/var/log/runix/audit.jsonl".
Definition RAB_DEFAULT_MAX_CONNS : Z := 64.
Definition RAB_DEFAULT_MAX_CONNS_PER_UID : Z := 16.
Definition RAB_HARD_MAX_CONNS : Z := 4096.

(** ** Configuration *)

Record main_cfg := MainCfg {
  sink_path : string;
  listen_path : option string;
  recv_timeout_ms : Z;
  send_timeout_ms : Z;
  idle_timeout_ms : Z;
  backlog : Z;
  conn_max_per_uid : Z;
  conn_window_ms : Z;
  max_conns : Z;
  max_conns_per_uid : Z
}.

Definition env_int (v : option string) (fallback : Z) : Z :=
  match v with
  | None | Some EmptyString => fallback
  | Some s => let r := strtol s in if st_nodigits r then fallback else i32 (st_value r)
  end.

(** The environment variables, with the connection cap clamped. *)
Definition main_config (getenv : string → option string) : main_cfg :=
  let path := match getenv "RAB_SINK_PATH" with
              | None | Some EmptyString => DEFAULT_SINK_PATH
              | Some p => p
              end in
  let conns := u32 (env_int (getenv "RAB_MAX_CONNS") RAB_DEFAULT_MAX_CONNS) in
  let conns := if conns <? 1 then 1 else conns in
  let conns := if RAB_HARD_MAX_CONNS <? conns then RAB_HARD_MAX_CONNS else conns in
  MainCfg path (getenv "RAB_LISTEN_PATH")
    (env_int (getenv "RAB_RECV_TIMEOUT_MS") 5000)
    (env_int (getenv "RAB_SEND_TIMEOUT_MS") 5000)
    (env_int (getenv "RAB_IDLE_TIMEOUT_MS") 30000)
    (env_int (getenv "RAB_LISTEN_BACKLOG") 16)
    (u32 (env_int (getenv "RAB_CONN_MAX_PER_UID") 100))
    (env_int (getenv "RAB_CONN_WINDOW_MS") 1000)
    conns
    (u32 (env_int (getenv "RAB_MAX_CONNS_PER_UID") RAB_DEFAULT_MAX_CONNS_PER_UID)).

(** The command line: [--listen] and [--sink] override, anything else is an error. *)
Fixpoint main_args (cfg : main_cfg) (argv : list string) : option main_cfg :=
  match argv with
  | [] => Some cfg
  | a :: rest =>
      match rest with
      | v :: rest' =>
          if strcmp_eq a "--listen" then
            main_args (MainCfg (sink_path cfg) (Some v) (recv_timeout_ms cfg) (send_timeout_ms cfg)
              (idle_timeout_ms cfg) (backlog cfg) (conn_max_per_uid cfg) (conn_window_ms cfg)
              (max_conns cfg) (max_conns_per_uid cfg)) rest'
          else if strcmp_eq a "--sink" then
            main_args (MainCfg v (listen_path cfg) (recv_timeout_ms cfg) (send_timeout_ms cfg)
              (idle_timeout_ms cfg) (backlog cfg) (conn_max_per_uid cfg) (conn_window_ms cfg)
              (max_conns cfg) (max_conns_per_uid cfg)) rest'
          else None
      | [] => None
      end
  end.

(** Socket activation: descriptor 3, if the variables are meant for this process. *)
Definition activation_fd (listen_pid listen_fds : option string) (pid : Z) : option Z :=
  match listen_pid, listen_fds with
  | Some lp, Some lf =>
      if negb (st_value (strtol lp) =? pid) then None
      else if st_value (strtol lf) <? 1 then None
      else Some 3
  | _, _ => None
  end.

(** ** Time *)

Definition monotonic_plus (now : timespec) (ms : Z) : timespec :=
  let ns := tv_nsec now + Z.rem ms 1000 * 1000000 in
  Timespec (tv_sec now + Z.quot ms 1000 + Z.quot ns 1000000000) (Z.rem ns 1000000000).

(** Milliseconds from [now] until [dl]. *)
Definition deadline_ms (dl now : timespec) : Z :=
  (tv_sec dl - tv_sec now) * 1000 + Z.quot (tv_nsec dl - tv_nsec now) 1000000.

Definition elapsed_ms (now from : timespec) : Z :=
  (tv_sec now - tv_sec from) * 1000 + Z.quot (tv_nsec now - tv_nsec from) 1000000.

(** ** Connections *)

Inductive conn_state := ST_RECV | ST_SEND.

(** What one non-blocking [write] does. *)
Inductive sd_event := SdBytes (n : nat) | SdEintr | SdAgain | SdErr.

Record conn := Conn {
  c_fd : Z;                 (* -1: a free slot *)
  c_state : conn_state;
  c_actor : rab_actor;
  c_deadline : timespec;
  c_hdr : bytes;            (* the hdr_got bytes of the header so far *)
  c_have_len : bool;
  c_body_len : Z;
  c_body : bytes;           (* the body_got bytes of the body so far *)
  c_out : bytes;
  c_out_sent : nat;
  c_in : list rd_event;     (* what the socket will still deliver *)
  c_wr : list sd_event      (* what it will still do with writes *)
}.

(** [memset] to zero, descriptor -1. *)
Definition free_conn : conn :=
  Conn (-1) ST_RECV zero_actor (Timespec 0 0) [] false 0 [] [] 0 [] [].

Definition conn_close (c : conn) : conn := free_conn.

Definition set_recv (c : conn) (hdr : bytes) (have : bool) (len : Z) (body : bytes)
    (script : list rd_event) : conn :=
  Conn (c_fd c) (c_state c) (c_actor c) (c_deadline c) hdr have len body (c_out c) (c_out_sent c)
    script (c_wr c).

Inductive recv_result := R_MORE | R_CLOSE | R_DONE | R_BADVER | R_TOOLARGE | R_BADFRAME.

Inductive rv := RvFull | RvMore | RvEof | RvErr.

(** One of the two read loops: [want] more bytes after [got]. *)
Fixpoint recv_some (script : list rd_event) (want : nat) (got : bytes)
  : rv * bytes * list rd_event :=
  match want with
  | O => (RvFull, got, script)
  | _ =>
      match script with
      | [] => (RvEof, got, [])
      | RdData [] :: s => (RvEof, got, s)
      | RdEintr :: s => recv_some s want got
      | RdAgain :: s => (RvMore, got, s)
      | RdErr :: s => (RvErr, got, s)
      | RdData b :: s =>
          if (want <=? length b)%nat then (RvFull, got ++ take want b, push_back (drop want b) s)
          else recv_some s (want - length b) (got ++ b)
      end
  end.

(** The body loop. *)
Definition recv_body (c : conn) : recv_result * conn :=
  let '(r, body, s) := recv_some (c_in c) (Z.to_nat (c_body_len c) - length (c_body c)) (c_body c) in
  (match r with
   | RvFull => R_DONE | RvMore => R_MORE | RvEof => R_BADFRAME | RvErr => R_CLOSE
   end, set_recv c (c_hdr c) (c_have_len c) (c_body_len c) body s).

(** [conn_do_recv]; [alloc] is whether the body buffer can be allocated. *)
Definition conn_do_recv (alloc : bool) (c : conn) : recv_result * conn :=
  let '(r, hdr, s) := recv_some (c_in c) (5 - length (c_hdr c)) (c_hdr c) in
  let c := set_recv c hdr (c_have_len c) (c_body_len c) (c_body c) s in
  match r with
  | RvMore => (R_MORE, c)
  | RvEof | RvErr => (R_CLOSE, c)
  | RvFull =>
      if c_have_len c then recv_body c
      else if negb (hdr_byte hdr 0 =? RAB_PROTO_VERSION) then (R_BADVER, c)
      else let n := hdr_len hdr in
      if RAB_MAX_BODY <? n then (R_TOOLARGE, c)
      else if negb alloc then (R_CLOSE, c)
      else recv_body (set_recv c hdr true n (c_body c) s)
  end.

Inductive send_result := S_MORE | S_DONE | S_CLOSE.

(** The write loop on the [data] that is left: how many bytes went out. *)
Fixpoint send_some (script : list sd_event) (left : nat) : send_result * nat * list sd_event :=
  match left with
  | O => (S_DONE, O, script)
  | _ =>
      match script with
      | [] | SdErr :: _ => (S_CLOSE, O, [])
      | SdEintr :: s => send_some s left
      | SdAgain :: s => (S_MORE, O, s)
      | SdBytes n :: s =>
          let k := Nat.min n left in
          let '(r, m, s') := send_some s (left - k) in (r, (k + m)%nat, s')
      end
  end.

Definition conn_do_send (c : conn) : send_result * conn :=
  let '(r, m, s) := send_some (c_wr c) (length (c_out c) - c_out_sent c) in
  (r, Conn (c_fd c) (c_state c) (c_actor c) (c_deadline c) (c_hdr c) (c_have_len c) (c_body_len c)
        (c_body c) (c_out c) (c_out_sent c + m) (c_in c) s).

(** [conn_queue_response] of a rendered response; [None] when it cannot be queued. *)
Definition conn_queue_response (alloc : bool) (now : timespec) (cfg : main_cfg) (c : conn)
    (resp : option string) : option conn :=
  match resp with
  | None => None
  | Some resp =>
      let len := strlen resp in
      if RAB_MAX_BODY <? len then None
      else if negb alloc then None
      else Some (Conn (c_fd c) ST_SEND (c_actor c) (monotonic_plus now (send_timeout_ms cfg))
                   (c_hdr c) (c_have_len c) (c_body_len c) (c_body c)
                   (frame_header len ++ bs resp) 0 (c_in c) (c_wr c))
  end.

(** ** The attempt limiter *)

Record conn_uid := ConnUid { cu_uid : Z; cu_n : Z; cu_start : timespec }.

Fixpoint limiter_find (l : list conn_uid) (uid : Z) : option conn_uid :=
  match l with
  | [] => None
  | u :: l' => if cu_uid u =? uid then Some u else limiter_find l' uid
  end.

Fixpoint limiter_store (l : list conn_uid) (v : conn_uid) : list conn_uid :=
  match l with
  | [] => []
  | u :: l' => if cu_uid u =? cu_uid v then v :: l' else u :: limiter_store l' v
  end.

(** Count one attempt; the clock is read for a new entry ([t_new]), for the
    elapsed time ([t_now]) and to restart the window ([t_reset]). *)
Definition conn_allowed (alloc : bool) (t_new t_now t_reset : timespec) (cfg : main_cfg) (uid : Z)
    (l : list conn_uid) : bool * list conn_uid :=
  if conn_max_per_uid cfg =? 0 then (true, l)
  else
    match (match limiter_find l uid with
           | Some u => Some (u, l)
           | None => if alloc then let u := ConnUid uid 0 t_new in Some (u, u :: l) else None
           end) with
    | None => (false, l)
    | Some (u, l) =>
        let u := if (cu_n u =? 0) || (conn_window_ms cfg <? elapsed_ms t_now (cu_start u))
                 then ConnUid uid 0 t_reset else u in
        let n := u32 (cu_n u + 1) in
        (n <=? conn_max_per_uid cfg, limiter_store l (ConnUid uid n (cu_start u)))
    end.

(** ** The loop's state *)

(** What [accept4] hands out: a descriptor, its credentials, the two /proc files
    of the peer, and the socket's future. *)
Record incoming := Incoming {
  in_fd : nat;
  in_cred : option (Z * Z * Z);
  in_boot : option (list rd_event);
  in_stat : option (list rd_event);
  in_read : list rd_event;
  in_write : list sd_event
}.

(** Returned events of one descriptor. *)
Record revents := Rev { re_in : bool; re_out : bool; re_err : bool }.
Definition no_events : revents := Rev false false false.

Inductive poll_answer := PaEintr | PaFail | PaTimeout | PaReady (rev : list revents).

Class loop_env := LoopEnv {
  l_mono : nat → timespec;          (* clock_gettime(CLOCK_MONOTONIC) *)
  l_ok : nat → bool;                (* does the allocation succeed *)
  l_accept : nat → list incoming;   (* the connections waiting *)
  l_poll : nat → Z → poll_answer;   (* poll with this timeout *)
  l_stop : nat → bool               (* has SIGTERM or SIGINT arrived *)
}.

Record reactor := Reactor {
  rt_tick : nat;
  rt_sys : sys;
  rt_conns : list conn;
  rt_active : Z;
  rt_limiter : list conn_uid
}.

Definition uid_active (conns : list conn) (uid : Z) : Z :=
  fold_right (λ c n, if (0 <=? c_fd c) && (a_uid (c_actor c) =? uid) then n + 1 else n) 0 conns.

Fixpoint free_slot (conns : list conn) : option nat :=
  match conns with
  | [] => None
  | c :: rest => if c_fd c <? 0 then Some O else S <$> free_slot rest
  end.

Section Loop.
Context `{Jansson} `{Sha256} {E : env} {L : loop_env}.

Definition rask {A} (q : nat → A) : M reactor A :=
  λ r, (q (rt_tick r), Reactor (S (rt_tick r)) (rt_sys r) (rt_conns r) (rt_active r) (rt_limiter r)).

Definition with_conns (f : list conn → list conn) : M reactor unit :=
  mmodify (λ r, Reactor (rt_tick r) (rt_sys r) (f (rt_conns r)) (rt_active r) (rt_limiter r)).

Definition add_active (d : Z) : M reactor unit :=
  mmodify (λ r, Reactor (rt_tick r) (rt_sys r) (rt_conns r) (rt_active r + d) (rt_limiter r)).

Definition call_broker {A} (m : M sys A) : M reactor A :=
  zoom rt_sys (λ r s, Reactor (rt_tick r) s (rt_conns r) (rt_active r) (rt_limiter r)) m.

Definition set_slot (i : nat) (c : conn) : M reactor unit := with_conns (λ cs, <[i := c]> cs).

Definition close_slot (i : nat) : M reactor unit :=
  with_conns (λ cs, alter conn_close i cs) ;;; add_active (-1).

(** Parse, handle, render: the response text, or [None] when none can be built. *)
Definition conn_reply (actor : rab_actor) (body : bytes) : M reactor (option string) :=
  match rab_parse_request body with
  | inr ec => let! ok := rask l_ok in
              mreturn (if ok then render (RespError ec "invalid request") else None)
  | inl req =>
      let! resp := call_broker (rab_broker_handle actor req) in
      let! ok := rask l_ok in
      match (if ok then render resp else None) with
      | Some s => mreturn (Some s)
      | None => let! ok2 := rask l_ok in
                mreturn (if ok2 then render (RespError "internal" "handler failure") else None)
      end
  end.

(** Queue a response on slot [i], or close it. *)
Definition queue_or_close (cfg : main_cfg) (i : nat) (c : conn) (resp : option string)
  : M reactor unit :=
  let! ok := rask l_ok in
  let! now := rask l_mono in
  match conn_queue_response ok now cfg c resp with
  | Some c' => set_slot i c'
  | None => close_slot i
  end.

(** [conn_handle], with the caller's close when nothing was queued. *)
Definition conn_handle (cfg : main_cfg) (i : nat) (c : conn) : M reactor unit :=
  let! resp := conn_reply (c_actor c) (c_body c) in
  queue_or_close cfg i (set_recv c (c_hdr c) (c_have_len c) (c_body_len c) [] (c_in c)) resp.

(** The admission loop over the waiting connections. *)
Fixpoint accept_new (cfg : main_cfg) (waiting : list incoming) : M reactor unit :=
  match waiting with
  | [] => mreturn tt
  | w :: rest =>
      let! r := mget in
      if max_conns cfg <=? rt_active r then mreturn tt
      else
        match rab_peer_identity (in_cred w) (in_boot w) (in_stat w) with
        | None => accept_new cfg rest
        | Some actor =>
            let! ok := rask l_ok in
            let! t_new := rask l_mono in
            let! t_now := rask l_mono in
            let! t_reset := rask l_mono in
            let! r := mget in
            let '(allowed, l) := conn_allowed ok t_new t_now t_reset cfg (a_uid actor)
                                   (rt_limiter r) in
            mmodify (λ r, Reactor (rt_tick r) (rt_sys r) (rt_conns r) (rt_active r) l) ;;;
            if negb allowed then accept_new cfg rest
            else
              let! r := mget in
              if negb (max_conns_per_uid cfg =? 0)
                 && (max_conns_per_uid cfg <=? uid_active (rt_conns r) (a_uid actor))
              then accept_new cfg rest
              else
                match free_slot (rt_conns r) with
                | None => mreturn tt
                | Some s =>
                    let! now := rask l_mono in
                    set_slot s (Conn (Z.of_nat (in_fd w)) ST_RECV actor
                                  (monotonic_plus now (recv_timeout_ms cfg)) [] false 0 [] [] 0
                                  (in_read w) (in_write w)) ;;;
                    add_active 1 ;;;
                    accept_new cfg rest
                end
        end
  end.

(** One descriptor with returned events: the listener ([None]) or a slot. *)
Definition serve_slot (cfg : main_cfg) (i : nat) (rev : revents) : M reactor unit :=
  let! r := mget in
  match rt_conns r !! i with
  | None => mreturn tt
  | Some c =>
      if c_fd c <? 0 then mreturn tt
      else match c_state c with
      | ST_RECV =>
          if re_in rev then
            let! ok := rask l_ok in
            let '(rr, c) := conn_do_recv ok c in
            match rr with
            | R_MORE => set_slot i c
            | R_DONE => conn_handle cfg i c
            | R_TOOLARGE =>
                let! ok := rask l_ok in
                queue_or_close cfg i c
                  (if ok then render (RespError "too_large" "frame exceeds the maximum") else None)
            | R_BADVER =>
                let! ok := rask l_ok in
                queue_or_close cfg i c
                  (if ok then render (RespError "bad_frame" "bad version or truncated frame")
                   else None)
            | R_CLOSE | R_BADFRAME => close_slot i
            end
          else if re_err rev then close_slot i else mreturn tt
      | ST_SEND =>
          if re_out rev then
            let '(sr, c) := conn_do_send c in
            match sr with S_MORE => set_slot i c | _ => close_slot i end
          else if re_err rev then close_slot i else mreturn tt
      end
  end.

Definition has_events (rev : revents) : bool := re_in rev || re_out rev || re_err rev.

(** The dispatch pass over the poll set. *)
Fixpoint dispatch (cfg : main_cfg) (slotmap : list (option nat)) (revs : list revents)
  : M reactor unit :=
  match slotmap, revs with
  | s :: slots, rev :: rest =>
      (if negb (has_events rev) then mreturn tt
       else match s with
            | None => if re_in rev
                      then let! waiting := rask l_accept in accept_new cfg waiting
                      else mreturn tt
            | Some i => serve_slot cfg i rev
            end) ;;;
      dispatch cfg slots rest
  | _, _ => mreturn tt
  end.

(** Close every connection whose deadline has passed at [now]. *)
Fixpoint reap (now : timespec) (i n : nat) : M reactor unit :=
  match n with
  | O => mreturn tt
  | S n' =>
      let! r := mget in
      (match rt_conns r !! i with
       | Some c => if (0 <=? c_fd c) && (deadline_ms (c_deadline c) now <=? 0)
                   then close_slot i else mreturn tt
       | None => mreturn tt
       end) ;;;
      reap now (S i) n'
  end.

(** The listener while below the cap, then every used slot. *)
Definition poll_set (cfg : main_cfg) (stop : bool) (r : reactor) : list (option nat) :=
  (if negb stop && (rt_active r <? max_conns cfg) then [None] else []) ++
  map Some (List.filter (λ i, match rt_conns r !! i with
                              | Some c => 0 <=? c_fd c
                              | None => false
                              end) (seq 0 (length (rt_conns r)))).

(** The wait handed to [poll]: to the nearest deadline, or the idle budget. *)
Definition poll_timeout (idle : Z) (now : timespec) (r : reactor) : Z :=
  if 0 <? rt_active r then
    let nearest := fold_left (λ m c, if c_fd c <? 0 then m
                                     else let ms := Z.max 0 (deadline_ms (c_deadline c) now) in
                                          if (m <? 0) || (ms <? m) then ms else m)
                             (rt_conns r) (-1) in
    if INT_MAX <? nearest then INT_MAX else nearest
  else idle.
Inductive loop_next := LoopAgain | LoopExit.

(** One turn of [while (!g_stop)]. *)
Definition loop_turn (cfg : main_cfg) (idle : Z) : M reactor loop_next :=
  let! now := rask l_mono in
  let! r := mget in
  reap now 0 (length (rt_conns r)) ;;;
  let! stop := rask l_stop in
  let! r := mget in
  let slots := poll_set cfg stop r in
  let! answer := rask (λ n, l_poll n (poll_timeout idle now r)) in
  match answer with
  | PaEintr => mreturn LoopAgain
  | PaFail => mreturn LoopExit
  | PaTimeout => mreturn (if (rt_active r =? 0) && (0 <=? idle) then LoopExit else LoopAgain)
  | PaReady revs => dispatch cfg slots revs ;;; mreturn LoopAgain
  end.

(** [turns] bounds the number of turns looked at. *)
Fixpoint main_loop (cfg : main_cfg) (idle : Z) (turns : nat) : M reactor unit :=
  match turns with
  | O => mreturn tt
  | S turns' =>
      let! stop := rask l_stop in
      if stop then mreturn tt
      else
        let! next := loop_turn cfg idle in
        match next with
        | LoopExit => mreturn tt
        | LoopAgain => main_loop cfg idle turns'
        end
  end.

(** The loop's initial state: every slot free. *)
Definition reactor_init (cfg : main_cfg) (s : sys) : reactor :=
  Reactor 0 s (replicate (Z.to_nat (max_conns cfg)) free_conn) 0 [].

(** ** Start and end *)

Definition SUN_PATH_MAX : Z := 108.

(** [bind]: a new socket file, unless the name is taken. *)
Definition sys_bind (path : string) : M world (option nat) :=
  let! w := mget in
  match fs_dir (w_fs w) !! path with
  | Some _ => mreturn None
  | None =>
      let! ok := ask e_ok in
      if ok then
        on_fs (λ f, Fs (<[path := fs_next f]> (fs_dir f)) (fs_ddir f)
                       (<[fs_next f := Inode KSock 0 e_euid [] []]> (fs_ino f)) (S (fs_next f))) ;;;
        mreturn (Some (fs_next (w_fs w)))
      else mreturn None
  end.

(** [bind_listen]: a stale socket file is removed first; does it listen? *)
Definition bind_listen (path : string) : M world bool :=
  let! sock := ask e_ok in
  if negb sock then mreturn false
  else if SUN_PATH_MAX <=? strlen path then mreturn false
  else
    sys_unlink path ;;;
    let! bound := sys_bind path in
    match bound with
    | None => mreturn false
    | Some ino => sys_fchmod ino 438 (* 0666 *) ;;; ask e_ok
    end.

Inductive start_result := ExitCode (code : Z) | Started (cfg : main_cfg) (idle : Z) (r : reactor).

(** The broker is open: get the listening socket and the loop's tables. *)
Definition main_listen (getenv : string → option string) (pid : Z) (cfg : main_cfg) (b : broker)
  : M world start_result :=
  let activation := activation_fd (getenv "LISTEN_PID") (getenv "LISTEN_FDS") pid in
  let! listening := match listen_path cfg with
                    | Some p => bind_listen p
                    | None => mreturn (match activation with Some _ => true | None => false end)
                    end in
  if negb listening then mreturn (ExitCode 1)
  else
    let idle := match listen_path cfg with Some _ => -1 | None => idle_timeout_ms cfg end in
    let! conns := ask e_ok in
    let! pfds := ask e_ok in
    let! slotmap := ask e_ok in
    if negb (conns && pfds && slotmap) then mreturn (ExitCode 1)
    else let! w := mget in mreturn (Started cfg idle (reactor_init cfg (Sys w b))).

(** [main] up to the loop; [host] is what [gethostname] gives. *)
Definition main_start (getenv : string → option string) (argv : list string) (pid : Z)
    (host : option string) : M world start_result :=
  match main_args (main_config getenv) argv with
  | None => mreturn (ExitCode 2)
  | Some cfg =>
      let! r := rab_broker_open (sink_path cfg) rab_config_defaults host in
      match r with
      | inr _ => mreturn (ExitCode 1)
      | inl b => main_listen getenv pid cfg b
      end
  end.

(** After the loop: every connection closed, the socket file of [--listen] removed. *)
Definition main_end (cfg : main_cfg) : M reactor unit :=
  with_conns (map conn_close) ;;;
  match listen_path cfg with
  | Some p => call_broker (liftW (sys_unlink p)) ;;; mreturn tt
  | None => mreturn tt
  end.
End Loop.
