(* ===== verification/Limiter.v ===== *)
(** * The connection-attempt limiter (main.c [conn_allowed])

    A list of per-uid counters with the start of their window.  Within one
    window exactly the first [conn_max_per_uid] attempts of a uid are allowed,
    whatever other uids do in between. *)

From stdpp Require Import base gmap strings list.
From Stdlib Require Import ZArith Lia Ascii.
From S2P Require Import Prelude CString Env Reactor.

Local Open Scope list_scope.
Local Open Scope Z_scope.

(** One attempt: who, and the clock readings it takes. *)
Record attempt := Attempt {
  at_uid : Z;
  at_new : timespec;
  at_now : timespec;
  at_reset : timespec
}.

(** A sequence of attempts: the verdicts. *)
Fixpoint attempts (cfg : main_cfg) (l : list conn_uid) (ats : list attempt) : list bool :=
  match ats with
  | [] => []
  | a :: ats' =>
      let '(ok, l') := conn_allowed true (at_new a) (at_now a) (at_reset a) cfg (at_uid a) l in
      ok :: attempts cfg l' ats'
  end.

Definition is_uid (uid : Z) (a : attempt) : bool := at_uid a =? uid.

(** The verdicts of one uid. *)
Definition verdicts_of (uid : Z) (ats : list attempt) (vs : list bool) : list bool :=
  map snd (List.filter (λ av, is_uid uid (fst av)) (combine ats vs)).

(** ** Facts *)

Lemma limiter_find_store l v uid :
  limiter_find (limiter_store l v) uid =
    if cu_uid v =? uid then (match limiter_find l uid with Some _ => Some v | None => None end)
    else limiter_find l uid.
Proof.
  induction l as [|u l IH]; cbn [limiter_store limiter_find]; [by case_goal|].
  destruct (Z.eqb_spec (cu_uid u) (cu_uid v)) as [He|Hne]; cbn [limiter_find].
  - rewrite He. by destruct (Z.eqb_spec (cu_uid v) uid).
  - rewrite IH. destruct (Z.eqb_spec (cu_uid u) uid); [|done].
    by destruct (Z.eqb_spec (cu_uid v) uid); [congruence|].
Qed.

Lemma limiter_find_uid l uid u : limiter_find l uid = Some u → cu_uid u = uid.
Proof.
  induction l as [|x l IH]; cbn [limiter_find]; [done|].
  destruct (Z.eqb_spec (cu_uid x) uid); [by intros [= <-]|done].
Qed.

(** The first attempt of a uid opens its window. *)
Lemma allowed_first cfg t1 t2 t3 uid l :
  conn_max_per_uid cfg ≠ 0 → limiter_find l uid = None →
  ∃ l', conn_allowed true t1 t2 t3 cfg uid l = (1 <=? conn_max_per_uid cfg, l') ∧
        limiter_find l' uid = Some (ConnUid uid 1 t3).
Proof.
  intros Hm Hf. unfold conn_allowed. rewrite (proj2 (Z.eqb_neq _ _) Hm), Hf. cbn.
  eexists. split; [done|]. by rewrite Z.eqb_refl; cbn; rewrite Z.eqb_refl.
Qed.

(** A later attempt within the window is counted. *)
Lemma allowed_next cfg t1 t2 t3 uid l n t0 :
  conn_max_per_uid cfg ≠ 0 → limiter_find l uid = Some (ConnUid uid n t0) →
  1 ≤ n < 2 ^ 32 - 1 → elapsed_ms t2 t0 ≤ conn_window_ms cfg →
  ∃ l', conn_allowed true t1 t2 t3 cfg uid l = (n + 1 <=? conn_max_per_uid cfg, l') ∧
        limiter_find l' uid = Some (ConnUid uid (n + 1) t0).
Proof.
  intros Hm Hf Hn He. unfold conn_allowed. rewrite (proj2 (Z.eqb_neq _ _) Hm), Hf. cbn [cu_n cu_start].
  rewrite (proj2 (Z.eqb_neq n 0)), (proj2 (Z.ltb_ge _ _) He) by lia. cbn [orb cu_n cu_start].
  rewrite u32_small by lia. eexists. split; [done|].
  rewrite limiter_find_store, Hf. cbn [cu_uid]. by rewrite Z.eqb_refl.
Qed.

(** Attempts of other uids leave the counter alone. *)
Lemma allowed_other cfg t1 t2 t3 uid uid' l ok l' :
  uid' ≠ uid → conn_allowed true t1 t2 t3 cfg uid' l = (ok, l') →
  limiter_find l' uid = limiter_find l uid.
Proof.
  intros Hne. unfold conn_allowed. case_goal; [by intros [= _ <-]|].
  assert (Hst : ∀ l0 n t, limiter_find (limiter_store l0 (ConnUid uid' n t)) uid = limiter_find l0 uid).
  { intros. rewrite limiter_find_store. cbn [cu_uid]. by rewrite (proj2 (Z.eqb_neq _ _) Hne). }
  destruct (limiter_find l uid') as [u|]; intros [= _ <-]; rewrite ?Hst; [done|].
  cbn [limiter_store limiter_find cu_uid]. rewrite Z.eqb_refl. cbn [limiter_find cu_uid].
  by rewrite (proj2 (Z.eqb_neq _ _) Hne).
Qed.

Definition count_uid (uid : Z) (ats : list attempt) : nat :=
  length (List.filter (is_uid uid) ats).

Lemma attempts_counted cfg uid t0 ats l n :
  conn_max_per_uid cfg ≠ 0 → limiter_find l uid = Some (ConnUid uid (Z.of_nat n) t0) →
  (1 ≤ n)%nat → Z.of_nat n + Z.of_nat (length ats) < 2 ^ 32 →
  Forall (λ a, at_uid a = uid → elapsed_ms (at_now a) t0 ≤ conn_window_ms cfg) ats →
  verdicts_of uid ats (attempts cfg l ats) =
    map (λ k, Z.of_nat k <=? conn_max_per_uid cfg) (seq (S n) (count_uid uid ats)).
Proof.
  intros Hm. revert l n. induction ats as [|a ats IH]; intros l n Hf H1 Hlen Hall; [done|].
  inversion Hall as [|? ? Ha Hall']; subst. cbn [attempts length] in *.
  unfold verdicts_of, count_uid. cbn [List.filter].
  destruct (conn_allowed true _ _ _ cfg (at_uid a) l) as [ok l'] eqn:Hc.
  cbn [combine List.filter fst]. change (is_uid uid a) with (at_uid a =? uid).
  destruct (Z.eqb_spec (at_uid a) uid) as [He|Hne].
  - subst uid. destruct (allowed_next cfg (at_new a) (at_now a) (at_reset a) _ _ _ _ Hm Hf)
      as (l2 & Hc2 & Hf2); [lia|by apply Ha|].
    rewrite Hc2 in Hc. injection Hc as <- <-. replace (Z.of_nat n + 1) with (Z.of_nat (S n)) in * by lia.
    cbn [map snd length seq]. f_equal.
    apply (IH _ (S n)); try done; lia.
  - apply (IH l' n); try done; [|lia]. by rewrite (allowed_other _ _ _ _ _ _ _ _ _ Hne Hc).
Qed.

(** ** Properties *)

(** C31. The attempt limiter is exact and per uid: from the attempt that opens a
    uid's window, and as long as its attempts fall within that window, the k-th
    attempt of the uid is allowed if and only if k is at most the configured
    maximum, whatever attempts other uids interleave. *)
Theorem attempt_limit cfg uid l a ats :
  conn_max_per_uid cfg ≠ 0 → limiter_find l uid = None → at_uid a = uid →
  Forall (λ b, at_uid b = uid → elapsed_ms (at_now b) (at_reset a) ≤ conn_window_ms cfg) ats →
  Z.of_nat (length ats) < 2 ^ 32 - 1 →
  verdicts_of uid (a :: ats) (attempts cfg l (a :: ats)) =
    map (λ k, Z.of_nat k <=? conn_max_per_uid cfg) (seq 1 (count_uid uid (a :: ats))).
Proof.
  intros Hm Hf <- Hall Hlen.
  destruct (allowed_first cfg (at_new a) (at_now a) (at_reset a) _ _ Hm Hf) as (l' & Hc & Hf').
  cbn [attempts]. rewrite Hc. unfold verdicts_of, count_uid. cbn [combine List.filter fst].
  change (is_uid (at_uid a) a) with (at_uid a =? at_uid a). rewrite Z.eqb_refl. cbn [map snd length seq]. f_equal.
  by apply (attempts_counted cfg _ (at_reset a) ats l' 1); try lia.
Qed.

Definition wit_at (uid ms : Z) : attempt :=
  let t := Timespec 10 (ms * 1000000) in Attempt uid t t t.

Definition wit_ats : list attempt := [wit_at 7 5; wit_at 1000 20; wit_at 1000 30; wit_at 7 40].

Definition wit_limit_cfg : main_cfg := MainCfg "/a" None 5000 5000 30000 16 2 1000 64 16.

Lemma attempt_limit_witness :
  verdicts_of 1000 (wit_at 1000 0 :: wit_ats) (attempts wit_limit_cfg [] (wit_at 1000 0 :: wit_ats)) =
    map (λ k, Z.of_nat k <=? 2) (seq 1 3).
Proof.
  apply (attempt_limit wit_limit_cfg 1000 [] (wit_at 1000 0) wit_ats).
  - discriminate.
  - reflexivity.
  - reflexivity.
  - repeat constructor; vm_compute; discriminate.
  - reflexivity.
Defined.
