(* ===== verification/Receiver.v ===== *)
(** * One connection: receiving a frame, sending a response

    Facts about the non-blocking receiver and sender of Reactor.v.  Whatever the
    socket does, what a connection has buffered and what is still to come make
    up the bytes the peer sent; a complete frame is the frame those bytes begin
    with; and a socket that only delays and fragments gives exactly the verdict
    of the frame decoder. *)

From stdpp Require Import base gmap strings list.
From Stdlib Require Import ZArith Lia Ascii.
From S2P Require Import Prelude CString Jansson Env Id Proto Sink Request Peer Record Receipt.
From S2P Require Import Rate OpenSet Broker Reactor.

Local Open Scope string_scope.
Local Open Scope list_scope.
Local Open Scope Z_scope.

(** ** Well-formed connections *)

Record conn_ok (c : conn) : Prop := {
  co_hdr : (length (c_hdr c) ≤ 5)%nat;
  co_len : c_have_len c = true → 0 ≤ c_body_len c ≤ RAB_MAX_BODY;
  co_body : c_have_len c = true → blen (c_body c) ≤ c_body_len c;
  co_nobody : c_have_len c = false → c_body c = [];
  co_sent : (c_out_sent c ≤ length (c_out c))%nat;
  co_out : blen (c_out c) ≤ 5 + RAB_MAX_BODY
}.

Lemma free_conn_ok : conn_ok free_conn.
Proof. split; cbn; try done; lia. Qed.

(** ** Receiving and sending *)

Lemma recv_some_spec script want got r got' s :
  recv_some script want got = (r, got', s) →
  ∃ d, got' = got ++ d ∧ (length d ≤ want)%nat ∧ (r = RvFull ↔ length d = want).
Proof.
  revert want got. induction script as [|ev script IH]; intros want got Hr;
    (destruct want as [|want]; [injection Hr as <- <- <-; exists []; rewrite app_nil_r; split_and!; [done|simpl; lia|done]|]);
    cbn [recv_some] in Hr.
  - injection Hr as <- <- <-. exists []. rewrite app_nil_r. split_and!; [done|simpl; lia|done].
  - assert (Hstop : ∀ x, x ≠ RvFull → (x, got, script) = (r, got', s) →
              ∃ d, got' = got ++ d ∧ (length d ≤ S want)%nat ∧ (r = RvFull ↔ length d = S want)).
    { intros x Hx [= <- <- <-]. exists []. rewrite app_nil_r. split_and!; [done|simpl; lia|done]. }
    destruct ev as [[|b bs]| | |]; try by eapply Hstop; [|exact Hr]; done.
    + destruct (Nat.leb_spec (S want) (length (b :: bs))) as [Hle|Hgt].
      * injection Hr as <- <- <-. exists (take (S want) (b :: bs)). rewrite length_take.
        split_and!; [done|lia|]. split; [lia|done].
      * apply IH in Hr as (d & -> & Hd & Hiff). exists ((b :: bs) ++ d).
        rewrite app_assoc, length_app. split_and!; [done|lia|]. rewrite Hiff. lia.
    + by apply IH in Hr.
Qed.

(** What a receive keeps, and what a complete frame satisfies. *)
Record recv_post (c : conn) (rr : recv_result) (c' : conn) : Prop := {
  rp_fd : c_fd c' = c_fd c;
  rp_actor : c_actor c' = c_actor c;
  rp_state : c_state c' = c_state c;
  rp_deadline : c_deadline c' = c_deadline c;
  rp_conn : conn_ok c';
  rp_done : rr = R_DONE → blen (c_body c') = c_body_len c' ∧ blen (c_body c') ≤ RAB_MAX_BODY
}.

Lemma recv_body_post c rr c' :
  conn_ok c → c_have_len c = true → recv_body c = (rr, c') → recv_post c rr c'.
Proof.
  intros [] Hh. unfold recv_body. destruct (recv_some _ _ _) as [[r body] s] eqn:Hr.
  intros [= <- <-]. apply recv_some_spec in Hr as (d & -> & Hd & Hiff).
  specialize (co_len0 Hh). specialize (co_body0 Hh). unfold blen in *.
  split; try done.
  - split; cbn; try done; try congruence. intros _. unfold blen. rewrite length_app. lia.
  - intros Hdone. destruct r; try done. pose proof (proj1 Hiff eq_refl) as Hl. cbn. unfold blen.
    rewrite length_app. lia.
Qed.

Lemma conn_do_recv_post alloc c rr c' :
  conn_ok c → conn_do_recv alloc c = (rr, c') → recv_post c rr c'.
Proof.
  intros Hc. pose proof Hc as []. unfold conn_do_recv.
  destruct (recv_some (c_in c) _ _) as [[r hdr] s] eqn:Hr.
  apply recv_some_spec in Hr as (d & Hhdr & Hd & _).
  assert (Hlen : (length hdr ≤ 5)%nat) by (rewrite Hhdr, length_app; lia).
  set (c1 := set_recv c hdr _ _ _ s).
  assert (Hc1 : conn_ok c1) by (split; cbn; done).
  assert (Hkeep : ∀ x, x ≠ R_DONE → recv_post c x c1) by (intros x Hx; by split).
  assert (Hlift : ∀ c2 x c3, c_fd c2 = c_fd c → c_actor c2 = c_actor c → c_state c2 = c_state c →
            c_deadline c2 = c_deadline c → recv_post c2 x c3 → recv_post c x c3).
  { intros c2 x c3 ? ? ? ? []. split; try done; congruence. }
  destruct r; try by intros [= <- <-]; apply Hkeep.
  cbn [c1 set_recv c_have_len]. destruct (c_have_len c) eqn:Hh.
  { intros Hb. eapply (Hlift c1); try done. by apply recv_body_post. }
  destruct (negb _); [by intros [= <- <-]; apply Hkeep|].
  destruct (RAB_MAX_BODY <? hdr_len hdr) eqn:Hmax; [by intros [= <- <-]; apply Hkeep|].
  destruct (negb alloc); [by intros [= <- <-]; apply Hkeep|]. intros Hb. bool_hyps.
  eapply (Hlift (set_recv c1 hdr true (hdr_len hdr) (c_body c1) s)); try done.
  apply recv_body_post; [|done|exact Hb]. pose proof (hdr_len_nonneg hdr).
  split; cbn; try done. intros _. rewrite co_nobody0 by done. done.
Qed.

Lemma send_some_le script left r m s : send_some script left = (r, m, s) → (m ≤ left)%nat.
Proof.
  revert left m. induction script as [|ev script IH]; intros left m Hs;
    (destruct left as [|left]; [injection Hs as <- <- <-; lia|]); cbn [send_some] in Hs.
  - injection Hs as <- <- <-. lia.
  - destruct ev as [n| | |]; try (injection Hs as <- <- <-; lia); [|by apply IH in Hs].
    destruct (send_some script _) as [[r' m'] s'] eqn:Hr. injection Hs as <- <- <-.
    apply IH in Hr. lia.
Qed.

Lemma conn_do_send_post c sr c' :
  conn_ok c → conn_do_send c = (sr, c') →
  c_fd c' = c_fd c ∧ c_actor c' = c_actor c ∧ c_state c' = c_state c ∧
  c_deadline c' = c_deadline c ∧ c_out c' = c_out c ∧
  conn_ok c'.
Proof.
  intros []. unfold conn_do_send. destruct (send_some _ _) as [[r m] s] eqn:Hs.
  apply send_some_le in Hs. intros [= <- <-]. split_and!; try done. split; cbn; try done. lia.
Qed.

Lemma queue_response_post alloc now cfg c resp c' :
  conn_ok c → conn_queue_response alloc now cfg c resp = Some c' →
  c_fd c' = c_fd c ∧ c_actor c' = c_actor c ∧ c_state c' = ST_SEND ∧ conn_ok c'.
Proof.
  intros []. unfold conn_queue_response. intros Hq. inv_guards Hq. simplify_eq. bool_hyps.
  split_and!; try done. split; cbn [c_hdr c_have_len c_body_len c_body c_out c_out_sent]; try done.
  - lia.
  - unfold blen, strlen in *. rewrite length_app, bs_length. cbn [length frame_header].
    unfold RAB_MAX_BODY in *. lia.
Qed.

(** ** The receiver against the frame decoder *)

(** Interruptions, would-blocks and non-empty chunks, then end of file. *)
Definition polite (script : list rd_event) : Prop :=
  Forall (λ ev, match ev with RdData b => b ≠ [] | RdErr => False | _ => True end) script.

Definition agains (script : list rd_event) : nat :=
  length (List.filter (λ ev, match ev with RdAgain => true | _ => false end) script).

(** Receiving over up to [polls] readiness reports. *)
Fixpoint recv_all (polls : nat) (c : conn) : recv_result * conn :=
  match polls with
  | O => (R_MORE, c)
  | S polls' =>
      match conn_do_recv true c with
      | (R_MORE, c') => recv_all polls' c'
      | x => x
      end
  end.

Lemma polite_push b s : polite s → polite (push_back b s).
Proof. destruct b; [done|]. intros. by constructor. Qed.

Lemma agains_push b s : agains (push_back b s) = agains s.
Proof. by destruct b. Qed.

Lemma recv_some_stream script want got r got' s :
  recv_some script want got = (r, got', s) →
  got ++ payload script = got' ++ payload s ∧
  (polite script →
     polite s ∧ (agains s ≤ agains script)%nat ∧
     match r with
     | RvFull => True
     | RvMore => (agains s < agains script)%nat
     | RvEof => payload s = []
     | RvErr => False
     end).
Proof.
  revert want got. induction script as [|ev script IH]; intros want got Hr;
    (destruct want as [|want]; [by injection Hr as <- <- <-|]); cbn [recv_some] in Hr.
  - by injection Hr as <- <- <-.
  - assert (Hpol : polite (ev :: script) → polite script) by (by inversion 1).
    destruct ev as [[|b bs]| | |].
    + injection Hr as <- <- <-. split; [done|]. by inversion 1.
    + destruct (Nat.leb_spec (S want) (length (b :: bs))) as [Hle|Hgt].
      * injection Hr as <- <- <-. split.
        { rewrite push_back_payload. cbn [payload].
          rewrite <- (take_drop (S want) (b :: bs)) at 1. by rewrite <- !app_assoc. }
        intros Hp. split_and!; [by apply polite_push, Hpol|by rewrite agains_push|done].
      * apply IH in Hr as (He & Hr). split; [cbn [payload]; by rewrite app_assoc|auto].
    + apply IH in Hr as (He & Hr). split; auto.
    + injection Hr as <- <- <-. split; [done|]. intros Hp.
      split_and!; [by apply Hpol|..]; unfold agains; cbn; lia.
    + injection Hr as <- <- <-. split; [done|]. by inversion 1.
Qed.

(** Where the receiver is in the byte stream [data]. *)
Record streaming (data : bytes) (c : conn) : Prop := {
  sg_data : data = c_hdr c ++ c_body c ++ payload (c_in c);
  sg_conn : conn_ok c;
  sg_len : c_have_len c = true → length (c_hdr c) = 5%nat ∧ c_body_len c = hdr_len data ∧
             hdr_byte data 0 = RAB_PROTO_VERSION ∧ hdr_len data ≤ RAB_MAX_BODY;
  sg_start : c_have_len c = false → (length (c_hdr c) < 5)%nat
}.

(** The verdict on the whole stream. *)
Definition verdict (data : bytes) (rr : recv_result) (c : conn) : Prop :=
  match rr with
  | R_MORE => False
  | R_DONE => decode_frame data = RAB_FRAME_OK (c_body c)
  | R_CLOSE => decode_frame data = RAB_FRAME_EOF
  | R_TOOLARGE => decode_frame data = RAB_FRAME_TOO_LARGE
  | R_BADVER | R_BADFRAME => decode_frame data = RAB_FRAME_BAD
  end.

(** One call of [conn_do_recv], the socket having still [script] to do: a
    connection that ends early says something of the stream only if the socket
    was polite. *)
Definition recv_step (data : bytes) (alloc : bool) (script : list rd_event) (rr : recv_result)
    (c' : conn) : Prop :=
  match rr with
  | R_MORE => streaming data c' ∧
              (polite script → polite (c_in c') ∧ (agains (c_in c') < agains script)%nat)
  | R_CLOSE | R_BADFRAME => alloc = true → polite script → verdict data rr c'
  | _ => verdict data rr c'
  end.

Lemma hdr_app_byte h tl i : (i < length h)%nat → hdr_byte (h ++ tl) i = hdr_byte h i.
Proof. intros. unfold hdr_byte. by rewrite lookup_app_l. Qed.

Lemma hdr_app_len h tl : length h = 5%nat → hdr_len (h ++ tl) = hdr_len h.
Proof. intros. rewrite !hdr_len_sum, !hdr_app_byte by lia. done. Qed.

Lemma set_recv_ok c hdr have len body s :
  conn_ok c → (length hdr ≤ 5)%nat →
  (have = true → 0 ≤ len ≤ RAB_MAX_BODY ∧ blen body ≤ len) → (have = false → body = []) →
  conn_ok (set_recv c hdr have len body s).
Proof.
  intros [] Hh Hl Hb. split; cbn [set_recv c_hdr c_have_len c_body_len c_body c_out c_out_sent];
    try done; intros Hx; by apply Hl.
Qed.

(** [decode_frame] once the header is in. *)
Lemma decode_body data :
  (5 ≤ length data)%nat → hdr_byte data 0 = RAB_PROTO_VERSION → hdr_len data ≤ RAB_MAX_BODY →
  decode_frame data =
    if (length data <? 5 + Z.to_nat (hdr_len data))%nat then RAB_FRAME_BAD
    else RAB_FRAME_OK (take (Z.to_nat (hdr_len data)) (drop 5 data)).
Proof.
  intros H5 Hv Hmax. unfold decode_frame. rewrite Hv, Z.eqb_refl. cbn [negb].
  by rewrite (proj2 (Nat.ltb_ge _ _) H5), (proj2 (Z.ltb_ge _ _) Hmax).
Qed.

Lemma decode_short data : (length data < 5)%nat → decode_frame data = RAB_FRAME_EOF.
Proof. intros Hs. unfold decode_frame. by rewrite (proj2 (Nat.ltb_lt _ _)). Qed.

Lemma recv_body_step data alloc script c rr c' :
  streaming data c → c_have_len c = true →
  (polite script → polite (c_in c) ∧ (agains (c_in c) ≤ agains script)%nat) →
  recv_body c = (rr, c') → recv_step data alloc script rr c'.
Proof.
  intros [Hd Hc Hl _] Hh Hsc Hb. pose proof (recv_body_post c rr c' Hc Hh Hb) as [_ _ _ _ Hc' _].
  destruct (Hl Hh) as (H5 & Hbl & Hv & Hmax). unfold recv_body in Hb.
  destruct (recv_some _ _ _) as [[r body] s] eqn:Hr. injection Hb as Hrr <-.
  pose proof Hr as Hr0. apply recv_some_spec in Hr0 as (d & Hbody & Hd1 & Hfull).
  apply recv_some_stream in Hr as (He & Hpol).
  pose proof (co_body _ Hc Hh) as Hcb. pose proof (hdr_len_nonneg data) as Hnn.
  assert (Hdata : data = c_hdr c ++ body ++ payload s) by (by rewrite Hd, He).
  assert (Hblen : length body = (length (c_body c) + length d)%nat) by (by rewrite Hbody, length_app).
  unfold blen in Hcb. rewrite Hbl in Hcb, Hd1, Hfull.
  assert (Hdlen : length data = (5 + length body + length (payload s))%nat)
    by (rewrite Hdata, !length_app; lia).
  pose proof (decode_body data ltac:(lia) Hv Hmax) as Hdec.
  destruct r; subst rr; cbn [recv_step verdict set_recv c_body c_in]; rewrite ?Hdec.
  - (* complete *)
    assert (length d = Z.to_nat (hdr_len data) - length (c_body c))%nat by (by apply Hfull).
    rewrite (proj2 (Nat.ltb_ge _ _)) by lia. f_equal.
    rewrite Hdata at 2. rewrite drop_app_length' by done. rewrite take_app_length'; [done|lia].
  - (* would block *)
    split.
    + split; cbn [set_recv c_in c_hdr c_body c_have_len c_body_len]; try done. by rewrite Hh.
    + intros Hp. destruct (Hsc Hp) as [Hp1 Ha1]. destruct (Hpol Hp1) as (? & ? & ?). split; [done|lia].
  - (* end of file in the body *)
    intros _ Hp. destruct (Hsc Hp) as [Hp1 _]. destruct (Hpol Hp1) as (_ & _ & Hnil).
    rewrite Hnil in Hdlen. simpl in Hdlen.
    assert (length d ≠ Z.to_nat (hdr_len data) - length (c_body c))%nat
      by (intros Hx; by apply Hfull in Hx).
    by rewrite (proj2 (Nat.ltb_lt _ _)) by lia.
  - intros _ Hp. destruct (Hsc Hp) as [Hp1 _]. by destruct (Hpol Hp1) as (_ & _ & ?).
Qed.

(** The header is complete and was read before: only the body loop runs. *)
Lemma do_recv_later data alloc c rr c' :
  streaming data c → c_have_len c = true → conn_do_recv alloc c = (rr, c') →
  recv_step data alloc (c_in c) rr c'.
Proof.
  intros Hsg Hh. destruct (sg_len _ _ Hsg Hh) as (H5 & _). unfold conn_do_recv. rewrite H5.
  cbn [Nat.sub]. replace (recv_some (c_in c) 0 (c_hdr c)) with (RvFull, c_hdr c, c_in c)
    by (by destruct (c_in c)).
  replace (set_recv c (c_hdr c) (c_have_len c) (c_body_len c) (c_body c) (c_in c)) with c
    by (by destruct c).
  rewrite Hh. intros Hb. by eapply recv_body_step.
Qed.

(** The header is being read. *)
Lemma do_recv_first data alloc c rr c' :
  streaming data c → c_have_len c = false → conn_do_recv alloc c = (rr, c') →
  recv_step data alloc (c_in c) rr c'.
Proof.
  intros [Hd Hc _ Hst] Hh. pose proof (co_nobody _ Hc Hh) as Hb. specialize (Hst Hh).
  rewrite Hb in Hd. cbn [app] in Hd. unfold conn_do_recv.
  destruct (recv_some _ _ _) as [[r hdr] s] eqn:Hr.
  pose proof Hr as Hr0. apply recv_some_spec in Hr0 as (d & Hhdr & Hdl & Hfull).
  apply recv_some_stream in Hr as (He & Hpol). rewrite He in Hd.
  assert (Hlen : (length hdr = length (c_hdr c) + length d)%nat) by (rewrite Hhdr; apply length_app).
  rewrite Hb, Hh. cbn [set_recv c_have_len]. set (c1 := set_recv c hdr false _ [] s).
  assert (Hc1 : conn_ok c1) by (apply set_recv_ok; try done; lia).
  destruct r.
  - assert (H5 : length hdr = 5%nat)
      by (assert (length d = 5 - length (c_hdr c))%nat by (by apply Hfull); lia).
    assert (Hv : hdr_byte hdr 0 = hdr_byte data 0) by (rewrite Hd; symmetry; apply hdr_app_byte; lia).
    assert (Hn : hdr_len hdr = hdr_len data) by (rewrite Hd; symmetry; by apply hdr_app_len).
    assert (H5' : (length data <? 5)%nat = false)
      by (apply Nat.ltb_ge; rewrite Hd, length_app; lia).
    rewrite Hv, Hn. destruct (negb (hdr_byte data 0 =? _)) eqn:Hver.
    { intros [= <- <-]. cbn. unfold decode_frame. by rewrite H5', Hver. }
    destruct (RAB_MAX_BODY <? hdr_len data) eqn:Hmax.
    { intros [= <- <-]. cbn. unfold decode_frame. by rewrite H5', Hver, Hmax. }
    destruct alloc; cbn [negb]; [|by intros [= <- <-]]. bool_hyps.
    pose proof (hdr_len_nonneg data). apply recv_body_step; [|done|].
    + split; cbn [c1 set_recv c_in c_hdr c_body c_have_len c_body_len]; try done.
      apply set_recv_ok; try done; lia.
    + intros Hp. by destruct (Hpol Hp) as (? & ? & _).
  - intros [= <- <-]. split; [|intros Hp; by destruct (Hpol Hp) as (? & _ & ?)].
    split; cbn [c1 set_recv c_in c_hdr c_body c_have_len c_body_len]; try done.
    intros _. assert (length d ≠ 5 - length (c_hdr c))%nat by (intros Hx; by apply Hfull in Hx). lia.
  - intros [= <- <-] _ Hp. destruct (Hpol Hp) as (_ & _ & Hnil). apply decode_short.
    rewrite Hd, Hnil, app_nil_r.
    assert (length d ≠ 5 - length (c_hdr c))%nat by (intros Hx; by apply Hfull in Hx). lia.
  - intros [= <- <-] _ Hp. by destruct (Hpol Hp) as (_ & _ & ?).
Qed.

Lemma do_recv_step data alloc c rr c' :
  streaming data c → conn_do_recv alloc c = (rr, c') → recv_step data alloc (c_in c) rr c'.
Proof.
  destruct (c_have_len c) eqn:Hh; intros; [by eapply do_recv_later|by eapply do_recv_first].
Qed.

Lemma recv_all_verdict data polls c rr c' :
  streaming data c → polite (c_in c) → (agains (c_in c) < polls)%nat →
  recv_all polls c = (rr, c') → verdict data rr c'.
Proof.
  revert c. induction polls as [|n IH]; intros c Hsg Hp Hn Hr; [lia|]. cbn [recv_all] in Hr.
  destruct (conn_do_recv true c) as [x c1] eqn:H1. pose proof (do_recv_step _ _ _ _ _ Hsg H1) as Hx.
  destruct x; try (injection Hr as <- <-; by apply Hx || exact Hx).
  destruct Hx as [Hsg1 Hlt]. destruct (Hlt Hp). apply (IH c1); [done|done|lia|done].
Qed.

(** A connection just accepted. *)
Definition fresh_conn (fd : nat) (actor : rab_actor) (dl : timespec) (rd : list rd_event)
    (wr : list sd_event) : conn :=
  Conn (Z.of_nat fd) ST_RECV actor dl [] false 0 [] [] 0 rd wr.

Lemma fresh_conn_ok fd actor dl rd wr : conn_ok (fresh_conn fd actor dl rd wr).
Proof. split; cbn; try done; lia. Qed.

Lemma fresh_streaming fd actor dl rd wr :
  streaming (payload rd) (fresh_conn fd actor dl rd wr).
Proof. split; try done; [apply fresh_conn_ok|]. cbn. lia. Qed.

(** ** The sender *)

Definition willing (script : list sd_event) : Prop := SdErr ∉ script.

Fixpoint capacity (script : list sd_event) : nat :=
  match script with
  | SdBytes n :: s => n + capacity s
  | _ :: s => capacity s
  | [] => 0
  end.

Definition send_agains (script : list sd_event) : nat :=
  length (List.filter (λ ev, match ev with SdAgain => true | _ => false end) script).

(** Sending over up to [polls] readiness reports. *)
Fixpoint send_all (polls : nat) (c : conn) : send_result * conn :=
  match polls with
  | O => (S_MORE, c)
  | S polls' =>
      match conn_do_send c with
      | (S_MORE, c') => send_all polls' c'
      | x => x
      end
  end.

(** What the peer has received. *)
Definition wire (c : conn) : bytes := take (c_out_sent c) (c_out c).

Lemma send_some_progress script left r m s :
  willing script → (left ≤ capacity script)%nat → send_some script left = (r, m, s) →
  (m ≤ left)%nat ∧
  match r with
  | S_DONE => m = left
  | S_MORE => willing s ∧ (left - m ≤ capacity s)%nat ∧ (send_agains s < send_agains script)%nat
  | S_CLOSE => False
  end.
Proof.
  unfold willing. revert left r m. induction script as [|ev script IH]; intros left r m Hw Hc Hs;
    (destruct left as [|left]; [by injection Hs as <- <- <-|]); cbn [send_some capacity] in *;
    [lia|]. apply not_elem_of_cons in Hw as [Hne Hw].
  destruct ev as [n| | |]; [| |injection Hs as <- <- <-; split_and!; try done; unfold send_agains; cbn; lia|done].
  - destruct (send_some script _) as [[r' m'] s'] eqn:Hr. injection Hs as <- <- <-.
    apply IH in Hr as [Hle Hr]; [|done|lia]. split; [lia|]. destruct r'; [|lia|done].
    destruct Hr as (? & ? & ?). split_and!; [done|lia|done].
  - by apply IH in Hs.
Qed.

Lemma send_all_done polls c :
  willing (c_wr c) → (length (c_out c) - c_out_sent c ≤ capacity (c_wr c))%nat →
  (c_out_sent c ≤ length (c_out c))%nat → (send_agains (c_wr c) < polls)%nat →
  ∃ c', send_all polls c = (S_DONE, c') ∧ wire c' = c_out c ∧ c_deadline c' = c_deadline c.
Proof.
  revert c. induction polls as [|n IH]; intros c Hw Hcap Hle Hn; [lia|]. cbn [send_all].
  unfold conn_do_send. destruct (send_some _ _) as [[r m] s] eqn:Hs.
  apply send_some_progress in Hs as [Hm Hr]; [|done|done]. set (c1 := Conn _ _ _ _ _ _ _ _ _ _ _ _).
  destruct r; [|exists c1; split_and!; try done|done].
  - destruct Hr as (? & ? & ?).
    destruct (IH c1) as (c' & Hc' & Hwire & Hdl); cbn [c1 c_wr c_out c_out_sent]; try done; try lia.
    by exists c'.
  - unfold wire. cbn [c1 c_out c_out_sent]. apply take_ge. lia.
Qed.

Lemma decode_framed resp :
  strlen resp ≤ RAB_MAX_BODY →
  decode_frame (frame_header (strlen resp) ++ bs resp) = RAB_FRAME_OK (bs resp).
Proof.
  intros Hle. unfold strlen in *. rewrite <- bs_length in *.
  destruct (frame_header_len (Z.of_nat (length (bs resp))) (bs resp)) as [Hv Hn];
    [unfold RAB_MAX_BODY in *; lia|].
  rewrite decode_body; rewrite ?Hn, ?Hv; try done.
  - rewrite length_app, frame_header_length, (proj2 (Nat.ltb_ge _ _)) by lia. f_equal.
    rewrite (drop_app_length' (frame_header _)) by done. rewrite take_ge; [done|lia].
  - rewrite length_app, frame_header_length. lia.
Qed.

(** ** Properties *)


Definition wit_rd : list rd_event :=
  [RdAgain; RdData (take 3 (frame_header 2)); RdEintr; RdAgain;
   RdData (drop 3 (frame_header 2) ++ [byte_of 123]); RdData [byte_of 125]].


(** C30. A queued response reaches a peer that keeps reading: every response of
    at most 64 KiB is accepted for sending, and however the socket splits,
    interrupts and delays the writes, the sender finishes and the bytes on the
    wire are one frame that decodes to that response; its send deadline is set
    once, when it is queued. *)
Theorem response_delivered now cfg c resp polls :
  strlen resp ≤ RAB_MAX_BODY → willing (c_wr c) → (5 + length (bs resp) ≤ capacity (c_wr c))%nat →
  (send_agains (c_wr c) < polls)%nat →
  ∃ c1 c2, conn_queue_response true now cfg c (Some resp) = Some c1 ∧
    send_all polls c1 = (S_DONE, c2) ∧ decode_frame (wire c2) = RAB_FRAME_OK (bs resp) ∧
    c_deadline c2 = monotonic_plus now (send_timeout_ms cfg).
Proof.
  intros Hle Hw Hcap Hn. unfold conn_queue_response. rewrite (proj2 (Z.ltb_ge _ _) Hle). cbn [negb].
  eexists. destruct (send_all_done polls
    (Conn (c_fd c) ST_SEND (c_actor c) (monotonic_plus now (send_timeout_ms cfg)) (c_hdr c)
       (c_have_len c) (c_body_len c) (c_body c) (frame_header (strlen resp) ++ bs resp) 0 (c_in c)
       (c_wr c))) as (c2 & Hs & Hwire & Hdl);
    cbn [c_wr c_out c_out_sent]; rewrite ?length_app; cbn [length frame_header]; try done; try lia.
  exists c2. split_and!; [done|exact Hs| |by rewrite Hdl]. rewrite Hwire. by apply decode_framed.
Qed.

Definition wit_wr : list sd_event := [SdBytes 3; SdAgain; SdEintr; SdBytes 1; SdBytes 100].

Lemma response_delivered_witness :
  ∃ c1 c2, conn_queue_response true (Timespec 1 0) (main_config (λ _, None))
             (fresh_conn 7 zero_actor (Timespec 9 0) [] wit_wr) (Some "{}") = Some c1 ∧
    send_all 2 c1 = (S_DONE, c2) ∧ decode_frame (wire c2) = RAB_FRAME_OK (bs "{}") ∧
    c_deadline c2 = monotonic_plus (Timespec 1 0) (send_timeout_ms (main_config (λ _, None))).
Proof.
  apply (response_delivered (Timespec 1 0) (main_config (λ _, None))
           (fresh_conn 7 zero_actor (Timespec 9 0) [] wit_wr) "{}" 2).
  - vm_compute. discriminate.
  - unfold willing, wit_wr. cbn [c_wr fresh_conn]. set_solver.
  - vm_compute. lia.
  - vm_compute. lia.
Defined.
