(* ===== verification/Daemon.v ===== *)
(** * The daemon: event loop over broker

    Facts and properties of Reactor.v: the slot accounting and the connection
    caps are invariants of every turn, the non-blocking receiver implements the
    frame decoder, deadlines are absolute, and all the loop does to the broker is
    to serve complete, parsed requests of identified peers in sequence. *)

From stdpp Require Import base gmap strings list fin_maps sorting.
From Stdlib Require Import ZArith Lia Ascii.
From S2P Require Import Prelude CString Jansson Env Id Proto Sink Request Peer Record Receipt.
From S2P Require Import Rate OpenSet Broker Reconstruct Spec Recovery Live Rotation Ticks Serve.
From S2P Require Import Session Demo Reactor Receiver.

Local Open Scope string_scope.
Local Open Scope list_scope.
Local Open Scope Z_scope.

(** ** Counting slots *)

Definition used (c : conn) : bool := 0 <=? c_fd c.

Definition cnt (f : conn → bool) (cs : list conn) : Z :=
  fold_right (λ c n, if f c then n + 1 else n) 0 cs.

Definition b2z (b : bool) : Z := if b then 1 else 0.

Lemma cnt_cons f c cs : cnt f (c :: cs) = cnt f cs + b2z (f c).
Proof. simpl. unfold b2z. destruct (f c); lia. Qed.

Lemma cnt_nonneg f cs : 0 ≤ cnt f cs.
Proof.
  induction cs as [|c cs IH]; [done|]. rewrite cnt_cons. unfold b2z. destruct (f c); lia.
Qed.

Lemma cnt_insert f cs i c c' :
  cs !! i = Some c → cnt f (<[i := c']> cs) = cnt f cs - b2z (f c) + b2z (f c').
Proof.
  revert i. induction cs as [|x cs IH]; intros [|i] Hi; simpl in Hi; try done.
  - injection Hi as ->. simpl. unfold b2z. destruct (f c), (f c'); lia.
  - change (<[S i := c']> (x :: cs)) with (x :: <[i := c']> cs). rewrite !cnt_cons, (IH i) by done. lia.
Qed.

Lemma cnt_replicate f n c : f c = false → cnt f (replicate n c) = 0.
Proof. intros Hf. induction n as [|n IH]; [done|]. simpl. by rewrite Hf. Qed.

Lemma free_slot_spec cs :
  match free_slot cs with
  | Some i => ∃ c, cs !! i = Some c ∧ used c = false
  | None => cnt used cs = Z.of_nat (length cs)
  end.
Proof.
  induction cs as [|c cs IH]; simpl; [done|]. destruct (c_fd c <? 0) eqn:Hc; bool_hyps.
  - exists c. split; [done|]. unfold used. by apply Z.leb_gt.
  - assert (Hu : used c = true) by (unfold used; by apply Z.leb_le).
    destruct (free_slot cs) as [i|]; simpl; [exact IH|]. rewrite Hu, IH. lia.
Qed.

(** ** Invariants *)

(** [a] is the identity of an accepted connection [w]. *)
Definition accepted {L : loop_env} (a : rab_actor) (w : incoming) : Prop :=
  ∃ n, w ∈ l_accept n ∧ rab_peer_identity (in_cred w) (in_boot w) (in_stat w) = Some a.

(** A used slot belongs to an accepted connection and, while receiving, is
    somewhere in the bytes its peer sent. *)
Definition slot_peer {L : loop_env} (c : conn) : Prop :=
  used c = true →
  ∃ w, accepted (c_actor c) w ∧ (c_state c = ST_RECV → streaming (payload (in_read w)) c).

Record reactor_ok {L : loop_env} (cfg : main_cfg) (r : reactor) : Prop := {
  ro_slots : Z.of_nat (length (rt_conns r)) = max_conns cfg;
  ro_active : rt_active r = cnt used (rt_conns r);
  ro_uid : max_conns_per_uid cfg ≠ 0 →
    ∀ uid, uid_active (rt_conns r) uid ≤ max_conns_per_uid cfg;
  ro_conns : Forall conn_ok (rt_conns r);
  ro_peers : Forall slot_peer (rt_conns r)
}.

Lemma uid_active_cnt cs uid : uid_active cs uid = cnt (λ c, used c && (a_uid (c_actor c) =? uid)) cs.
Proof. done. Qed.

Section Slots.
Context {L : loop_env}.

(** Replacing a used slot by a connection of the same peer. *)
Lemma replace_slot_ok cfg r i c c' :
  reactor_ok cfg r → rt_conns r !! i = Some c → c_fd c' = c_fd c → c_actor c' = c_actor c →
  conn_ok c' → slot_peer c' →
  reactor_ok cfg (Reactor (rt_tick r) (rt_sys r) (<[i := c']> (rt_conns r)) (rt_active r) (rt_limiter r)).
Proof.
  intros [Hs Ha Hu Hc Hp] Hi Hfd Hact Hok Hpeer.
  assert (Hused : used c' = used c) by (unfold used; by rewrite Hfd).
  split; cbn [rt_conns rt_active].
  - by rewrite length_insert.
  - rewrite (cnt_insert _ _ _ _ _ Hi), Hused. lia.
  - intros Hcap uid. rewrite uid_active_cnt, (cnt_insert _ _ _ _ _ Hi), Hused, Hact.
    specialize (Hu Hcap uid). rewrite uid_active_cnt in Hu. lia.
  - by apply Forall_insert.
  - by apply Forall_insert.
Qed.

(** Closing a used slot. *)
Lemma close_slot_ok cfg r i c :
  reactor_ok cfg r → rt_conns r !! i = Some c → used c = true →
  reactor_ok cfg (Reactor (rt_tick r) (rt_sys r) (alter conn_close i (rt_conns r)) (rt_active r + -1)
                    (rt_limiter r)).
Proof.
  intros [Hs Ha Hu Hc Hp] Hi Huse.
  assert (Halt : alter conn_close i (rt_conns r) = <[i := free_conn]> (rt_conns r)).
  { apply list_eq. intros j. destruct (decide (j = i)) as [->|Hne].
    - rewrite list_lookup_alter_eq, Hi, list_lookup_insert_eq; [done|]. by eapply lookup_lt_Some.
    - by rewrite list_lookup_alter_ne, list_lookup_insert_ne. }
  rewrite Halt. split; cbn [rt_conns rt_active].
  - by rewrite length_insert.
  - rewrite (cnt_insert _ _ _ _ _ Hi), Huse. cbn. lia.
  - intros Hcap uid. rewrite uid_active_cnt, (cnt_insert _ _ _ _ _ Hi). cbn.
    specialize (Hu Hcap uid). rewrite uid_active_cnt in Hu. unfold b2z. destruct (_ && _); lia.
  - apply Forall_insert; [done|apply free_conn_ok].
  - apply Forall_insert; [done|]. done.
Qed.

(** Filling a free slot, within the caps. *)
Lemma fill_slot_ok cfg r i c c' :
  reactor_ok cfg r → rt_conns r !! i = Some c → used c = false → used c' = true →
  (max_conns_per_uid cfg ≠ 0 →
     uid_active (rt_conns r) (a_uid (c_actor c')) < max_conns_per_uid cfg) →
  conn_ok c' → slot_peer c' →
  reactor_ok cfg (Reactor (rt_tick r) (rt_sys r) (<[i := c']> (rt_conns r)) (rt_active r + 1)
                    (rt_limiter r)).
Proof.
  intros [Hs Ha Hu Hc Hp] Hi Hfree Huse Hcap Hok Hid. split; cbn [rt_conns rt_active].
  - by rewrite length_insert.
  - rewrite (cnt_insert _ _ _ _ _ Hi), Hfree, Huse. cbn. lia.
  - intros Hne uid. rewrite uid_active_cnt, (cnt_insert _ _ _ _ _ Hi), Hfree, Huse. cbn.
    specialize (Hu Hne). specialize (Hcap Hne).
    destruct (Z.eqb_spec (a_uid (c_actor c')) uid) as [<-|Hx]; cbn.
    + rewrite uid_active_cnt in Hcap. lia.
    + specialize (Hu uid). rewrite uid_active_cnt in Hu. lia.
  - by apply Forall_insert.
  - by apply Forall_insert.
Qed.

Lemma active_bound cfg r : reactor_ok cfg r → 0 ≤ rt_active r ≤ max_conns cfg.
Proof.
  intros [Hs Ha _ _ _]. rewrite Ha. split; [apply cnt_nonneg|]. rewrite <- Hs.
  clear. induction (rt_conns r) as [|c cs IH]; [done|]. rewrite cnt_cons.
  simpl length. unfold b2z. destruct (used c); lia.
Qed.

(** A connection past receiving keeps its peer. *)
Lemma slot_peer_send c c' :
  slot_peer c → used c = true → c_actor c' = c_actor c → c_state c' = ST_SEND → slot_peer c'.
Proof.
  intros Hp Hu Ha Hs _. destruct (Hp Hu) as (w & Hw & _). exists w. rewrite Ha, Hs. done.
Qed.
End Slots.

(** ** What the loop does to the broker *)

Section DaemonSteps.
Context `{JanssonLaws} `{Sha256} {E : env} {L : loop_env}.

(** A request an accepted peer sent as its one frame. *)
Definition from_peer (aq : rab_actor * rab_request) : Prop :=
  ∃ w body, accepted aq.1 w ∧ decode_frame (payload (in_read w)) = RAB_FRAME_OK body ∧
            rab_parse_request body = inl aq.2.

(** From [s] to [s'] by serving such requests, one after another. *)
Definition served (s s' : sys) : Prop :=
  ∃ reqs, Forall from_peer reqs ∧ s' = (serve reqs s).2.

Lemma served_refl s : served s s.
Proof. by exists []. Qed.

Lemma serve_app l1 l2 s : (serve (l1 ++ l2) s).2 = (serve l2 (serve l1 s).2).2.
Proof.
  revert s. induction l1 as [|[a q] l1 IH]; intros s; [done|].
  cbn [app serve]. unfold mbnd. destruct (rab_broker_handle a q s) as [r s1].
  specialize (IH s1). destruct (serve (l1 ++ l2) s1) as [rs s2]. destruct (serve l1 s1) as [rs1 s3].
  simpl in *. done.
Qed.

Lemma served_trans s1 s2 s3 : served s1 s2 → served s2 s3 → served s1 s3.
Proof.
  intros (l1 & Hl1 & ->) (l2 & Hl2 & ->). exists (l1 ++ l2). split; [by apply Forall_app|].
  by rewrite serve_app.
Qed.

(** The outcome of any part of a turn. *)
Definition turned (cfg : main_cfg) (r r' : reactor) : Prop :=
  reactor_ok cfg r' ∧ served (rt_sys r) (rt_sys r').

Lemma turned_refl cfg r : reactor_ok cfg r → turned cfg r r.
Proof. intros Hr. split; [done|apply served_refl]. Qed.

Lemma turned_trans cfg r1 r2 r3 : turned cfg r1 r2 → turned cfg r2 r3 → turned cfg r1 r3.
Proof. intros [_ Hs1] [Hr2 Hs2]. split; [done|by eapply served_trans]. Qed.

Lemma reactor_ok_tick cfg t s cs a l t' l' :
  reactor_ok cfg (Reactor t s cs a l) → ∀ s', reactor_ok cfg (Reactor t' s' cs a l').
Proof. intros [] s'. by split. Qed.

Lemma wp_rask {A} (g : nat → A) (Q : A → reactor → Prop) t s cs a l :
  (∀ x t', Q x (Reactor t' s cs a l)) → wp (rask g) Q (Reactor t s cs a l).
Proof. intros HQ. apply HQ. Qed.

Lemma wp_rask_at {A} (g : nat → A) (Q : A → reactor → Prop) t s cs a l :
  (∀ t', Q (g t) (Reactor t' s cs a l)) → wp (rask g) Q (Reactor t s cs a l).
Proof. intros HQ. apply HQ. Qed.

Lemma wp_close_slot cfg t s cs a l i c :
  reactor_ok cfg (Reactor t s cs a l) → cs !! i = Some c → used c = true →
  wp (close_slot i) (λ _ r', reactor_ok cfg r' ∧ rt_sys r' = s) (Reactor t s cs a l).
Proof.
  intros Hr Hi Hu. unfold close_slot. apply wp_bind, wp_modify, wp_modify.
  split; [|done]. by apply (close_slot_ok cfg _ i c Hr).
Qed.

Lemma wp_set_slot cfg t s cs a l i c c' :
  reactor_ok cfg (Reactor t s cs a l) → cs !! i = Some c → c_fd c' = c_fd c →
  c_actor c' = c_actor c → conn_ok c' → slot_peer c' →
  wp (set_slot i c') (λ _ r', reactor_ok cfg r' ∧ rt_sys r' = s) (Reactor t s cs a l).
Proof.
  intros Hr Hi Hf Ha Hc Hp. unfold set_slot. apply wp_modify. split; [|done].
  by apply (replace_slot_ok cfg _ i c c' Hr).
Qed.

Lemma wp_queue_or_close cfg t s cs a l i c c' resp :
  reactor_ok cfg (Reactor t s cs a l) → cs !! i = Some c → used c = true →
  c_fd c' = c_fd c → c_actor c' = c_actor c → conn_ok c' →
  wp (queue_or_close cfg i c' resp) (λ _ r', reactor_ok cfg r' ∧ rt_sys r' = s) (Reactor t s cs a l).
Proof.
  intros Hr Hi Hu Hf Ha Hc. unfold queue_or_close.
  apply wp_bind, wp_rask. intros ok t1. apply wp_bind, wp_rask. intros now t2.
  pose proof (reactor_ok_tick _ _ _ _ _ _ t2 l Hr s) as Hr2.
  destruct (conn_queue_response ok now cfg c' resp) as [c2|] eqn:Hq.
  - apply queue_response_post in Hq as (Hf2 & Ha2 & Hs2 & Hc2); [|done].
    eapply wp_set_slot; [done|done|congruence|congruence|done|].
    eapply (slot_peer_send c); [|done|congruence|done].
    exact (Forall_lookup_1 _ _ _ _ (ro_peers _ _ Hr) Hi).
  - by eapply wp_close_slot.
Qed.

Lemma conn_reply_spec t s cs a l actor body w (Q : option string → reactor → Prop) :
  accepted actor w → decode_frame (payload (in_read w)) = RAB_FRAME_OK body →
  (∀ o t' s', served s s' → Q o (Reactor t' s' cs a l)) →
  wp (conn_reply actor body) Q (Reactor t s cs a l).
Proof.
  intros Hid Hlen HQ. unfold conn_reply. destruct (rab_parse_request body) as [q|ec] eqn:Hp.
  - apply wp_bind. unfold call_broker, zoom, wp at 1. cbn [rt_sys].
    assert (Hs : served s (rab_broker_handle actor q s).2).
    { exists [(actor, q)]. split; [constructor; [by exists w, body|constructor]|].
      cbn [serve]. unfold mbnd, mreturn. by destruct (rab_broker_handle actor q s). }
    destruct (rab_broker_handle actor q s) as [resp s1]. cbn in Hs |- *.
    apply wp_bind, wp_rask. intros ok t1. destruct (if ok then render resp else None) as [x|].
    + by apply wp_ret, HQ.
    + apply wp_bind, wp_rask. intros ok2 t2. by apply wp_ret, HQ.
  - apply wp_bind, wp_rask. intros ok t1. apply wp_ret, HQ, served_refl.
Qed.

Lemma serve_slot_spec cfg i rev t s cs a l :
  reactor_ok cfg (Reactor t s cs a l) →
  wp (serve_slot cfg i rev) (λ _ r', turned cfg (Reactor t s cs a l) r') (Reactor t s cs a l).
Proof.
  intros Hr. unfold serve_slot. apply wp_bind, wp_get. cbn [rt_conns].
  assert (Hskip : turned cfg (Reactor t s cs a l) (Reactor t s cs a l)) by (by apply turned_refl).
  assert (Hsame : ∀ r', reactor_ok cfg r' ∧ rt_sys r' = s → turned cfg (Reactor t s cs a l) r').
  { intros r' [? Hs]. split; [done|]. cbn. rewrite Hs. apply served_refl. }
  destruct (cs !! i) as [c|] eqn:Hi; [|by apply wp_ret].
  destruct (c_fd c <? 0) eqn:Hfd; [by apply wp_ret|].
  assert (Hu : used c = true) by (unfold used; bool_hyps; by apply Z.leb_le).
  pose proof (Forall_lookup_1 _ _ _ _ (ro_conns _ _ Hr) Hi) as Hc.
  pose proof (Forall_lookup_1 _ _ _ _ (ro_peers _ _ Hr) Hi) as Hp.
  destruct (Hp Hu) as (w & Hw & Hstream).
  assert (Hclose : ∀ t', wp (close_slot i) (λ _ r', turned cfg (Reactor t s cs a l) r')
                           (Reactor t' s cs a l)).
  { intros t'. pose proof (reactor_ok_tick _ _ _ _ _ _ t' l Hr s) as Hr2.
    eapply wp_mono; [by eapply wp_close_slot|]. cbv beta. auto. }
  destruct (c_state c) eqn:Hstate.
  - specialize (Hstream eq_refl). destruct (re_in rev); [|destruct (re_err rev); [apply Hclose|by apply wp_ret]].
    apply wp_bind, wp_rask. intros ok t1. destruct (conn_do_recv ok c) as [rr c'] eqn:Hrecv.
    pose proof (do_recv_step _ _ _ _ _ Hstream Hrecv) as Hstep.
    apply conn_do_recv_post in Hrecv as [Hf Ha Hst _ Hc' _]; [|done].
    assert (Hq : ∀ resp t', wp (queue_or_close cfg i c' resp)
              (λ _ r', turned cfg (Reactor t s cs a l) r') (Reactor t' s cs a l)).
    { intros resp t'. pose proof (reactor_ok_tick _ _ _ _ _ _ t' l Hr s) as Hr2.
      eapply wp_mono; [by eapply wp_queue_or_close|]. cbv beta. auto. }
    destruct rr; try apply Hclose.
    + pose proof (reactor_ok_tick _ _ _ _ _ _ t1 l Hr s) as Hr2.
      eapply wp_mono; [eapply wp_set_slot; try done|cbv beta; auto].
      intros _. exists w. rewrite Ha. split; [done|]. intros _. apply Hstep.
    + unfold conn_handle. apply wp_bind.
      eapply conn_reply_spec; [by rewrite Ha|exact Hstep|]. intros o t' s' Hsv.
      pose proof (reactor_ok_tick _ _ _ _ _ _ t' l Hr s') as Hr2.
      eapply wp_mono; [eapply wp_queue_or_close; [done|done|done|done|done|]|].
      * apply set_recv_ok; try done; [apply Hc'|]. intros Hh.
        pose proof (co_len _ Hc' Hh). split; [done|]. unfold blen. simpl. lia.
      * cbv beta. intros _ r' [Hr' Hs']. split; [done|]. cbn. by rewrite Hs'.
    + apply wp_bind, wp_rask. intros ok2 t2. apply Hq.
    + apply wp_bind, wp_rask. intros ok2 t2. apply Hq.
  - destruct (re_out rev); [|destruct (re_err rev); [apply Hclose|by apply wp_ret]].
    destruct (conn_do_send c) as [sr c'] eqn:Hsend.
    apply conn_do_send_post in Hsend as (Hf & Ha & Hs' & _ & _ & Hc'); [|done].
    destruct sr; try apply Hclose. eapply wp_mono; [eapply wp_set_slot; try done|cbv beta; auto].
    eapply (slot_peer_send c); [done|done|done|congruence].
Qed.

Lemma accept_new_spec cfg waiting t s cs a l :
  reactor_ok cfg (Reactor t s cs a l) → (∀ w, w ∈ waiting → ∃ n, w ∈ l_accept n) →
  wp (accept_new cfg waiting) (λ _ r', reactor_ok cfg r' ∧ rt_sys r' = s) (Reactor t s cs a l).
Proof.
  revert t cs a l. induction waiting as [|w rest IH]; intros t cs a l Hr Hwait;
    cbn [accept_new].
  { by apply wp_ret. }
  assert (Hrest : ∀ w', w' ∈ rest → ∃ n, w' ∈ l_accept n) by (intros; apply Hwait; set_solver).
  apply wp_bind, wp_get. cbn [rt_active]. destruct (max_conns cfg <=? a) eqn:Hfull; [by apply wp_ret|].
  destruct (rab_peer_identity _ _ _) as [actor|] eqn:Hid; [|by apply IH].
  apply wp_bind, wp_rask. intros ok t1. apply wp_bind, wp_rask. intros n1 t2.
  apply wp_bind, wp_rask. intros n2 t3. apply wp_bind, wp_rask. intros n3 t4.
  apply wp_bind, wp_get. cbn [rt_limiter].
  destruct (conn_allowed ok n1 n2 n3 cfg (a_uid actor) l) as [allowed l'].
  apply wp_bind, wp_modify. cbn [rt_tick rt_sys rt_conns rt_active].
  pose proof (reactor_ok_tick _ _ _ _ _ _ t4 l' Hr s) as Hr4.
  destruct allowed; cbn [negb]; [|by apply IH].
  apply wp_bind, wp_get. cbn [rt_conns].
  destruct (negb _ && _) eqn:Hcap; [by apply IH|].
  pose proof (free_slot_spec cs) as Hslot. destruct (free_slot cs) as [i|]; [|by apply wp_ret].
  destruct Hslot as (c & Hi & Hfree). apply wp_bind, wp_rask. intros now t5.
  unfold set_slot, with_conns, add_active.
  apply wp_bind, wp_modify, wp_bind, wp_modify.
  cbn [rt_tick rt_sys rt_conns rt_active rt_limiter]. apply IH; [|done].
  pose proof (reactor_ok_tick _ _ _ _ _ _ t5 l' Hr s) as Hr5.
  apply (fill_slot_ok cfg _ i c _ Hr5 Hi Hfree).
  - unfold used. cbn. apply Z.leb_le. lia.
  - intros Hne. cbn [c_actor rt_conns]. apply andb_false_iff in Hcap as [Hx|Hx]; bool_hyps; [done|lia].
  - apply fresh_conn_ok.
  - intros _. exists w. split; [|intros _; apply fresh_streaming].
    destruct (Hwait w) as [n Hn]; [set_solver|]. by exists n.
Qed.

Lemma dispatch_spec cfg slots revs r :
  reactor_ok cfg r → wp (dispatch cfg slots revs) (λ _ r', turned cfg r r') r.
Proof.
  revert revs r. induction slots as [|sl slots IH]; intros [|rev revs] r Hr; cbn [dispatch];
    try (apply wp_ret; by apply turned_refl).
  destruct r as [t s cs a l].
  assert (Hnext : ∀ r1, turned cfg (Reactor t s cs a l) r1 →
    wp (dispatch cfg slots revs) (λ _ r', turned cfg (Reactor t s cs a l) r') r1).
  { intros r1 Ht. eapply wp_mono; [apply IH, Ht|]. cbv beta. intros _ r' Ht'.
    exact (turned_trans _ _ _ _ Ht Ht'). }
  apply wp_bind. destruct (negb (has_events rev)); [apply wp_ret, Hnext; by apply turned_refl|].
  destruct sl as [i|].
  - eapply wp_mono; [by apply serve_slot_spec|]. cbv beta. intros _ r1. apply Hnext.
  - destruct (re_in rev); [|apply wp_ret, Hnext; by apply turned_refl].
    apply wp_bind, wp_rask_at. intros t1.
    pose proof (reactor_ok_tick _ _ _ _ _ _ t1 l Hr s) as Hr1.
    eapply wp_mono; [apply accept_new_spec; [done|by eauto]|]. cbv beta. intros _ r1 [Hok Hs]. apply Hnext.
    split; [done|]. cbn. rewrite Hs. apply served_refl.
Qed.

(** Reaping: connections past the deadline are closed, the others are kept. *)
Definition expired (now : timespec) (c : conn) : bool :=
  used c && (deadline_ms (c_deadline c) now <=? 0).

Lemma reap_spec cfg now i n r :
  reactor_ok cfg r → length (rt_conns r) = (i + n)%nat →
  (∀ j c, (j < i)%nat → rt_conns r !! j = Some c → expired now c = false) →
  wp (reap now i n)
     (λ _ r', reactor_ok cfg r' ∧ rt_sys r' = rt_sys r ∧
        (∀ j c, rt_conns r' !! j = Some c → expired now c = false) ∧
        (∀ j c, rt_conns r !! j = Some c → expired now c = false → rt_conns r' !! j = Some c)) r.
Proof.
  revert i r. induction n as [|n IH]; intros i r Hr Hlen Hdone; cbn [reap].
  { apply wp_ret. split_and!; try done. intros j c Hj. apply (Hdone j); [|done].
    apply lookup_lt_Some in Hj. lia. }
  apply wp_bind, wp_get, wp_bind.
  destruct (rt_conns r !! i) as [c|] eqn:Hi; [|apply lookup_ge_None_1 in Hi; lia].
  assert (Hgo : ∀ r1, reactor_ok cfg r1 → rt_sys r1 = rt_sys r →
     length (rt_conns r1) = length (rt_conns r) →
     (∀ j, j ≠ i → rt_conns r1 !! j = rt_conns r !! j) →
     (∀ c1, rt_conns r1 !! i = Some c1 → expired now c1 = false) →
     (expired now c = false → rt_conns r1 !! i = Some c) →
     wp (reap now (S i) n)
       (λ _ r', reactor_ok cfg r' ∧ rt_sys r' = rt_sys r ∧
          (∀ j c, rt_conns r' !! j = Some c → expired now c = false) ∧
          (∀ j c, rt_conns r !! j = Some c → expired now c = false → rt_conns r' !! j = Some c)) r1).
  { intros r1 Hr1 Hs1 Hl1 Hoth Hnow Hsame. eapply wp_mono; [apply (IH (S i)); [done|lia|]|].
    - intros j c1 Hj Hc1. destruct (decide (j = i)) as [->|Hne]; [by apply Hnow|].
      apply (Hdone j); [lia|]. by rewrite <- Hoth.
    - cbv beta. intros _ r' (? & Hs' & Hall & Hkeep). split_and!; [done|congruence|done|].
      intros j c1 Hc1 He. apply Hkeep; [|done]. destruct (decide (j = i)) as [->|Hne].
      + assert (c1 = c) as -> by congruence. auto.
      + by rewrite Hoth. }
  fold (used c). fold (expired now c). destruct (expired now c) eqn:Hexp.
  - destruct r as [t s cs a l]. unfold close_slot. apply wp_bind, wp_modify, wp_modify. cbn in Hi |- *.
    assert (Hu : used c = true) by (unfold expired in Hexp; by bool_hyps).
    apply Hgo; cbn; try done.
    + by apply (close_slot_ok cfg _ i c Hr).
    + by rewrite length_alter.
    + intros j Hj. by rewrite list_lookup_alter_ne.
    + intros c1. rewrite list_lookup_alter_eq, Hi. cbn. by intros [= <-].
  - apply wp_ret, Hgo; try done. intros c1 Hc1. congruence.
Qed.

(** The running minimum behind [poll_timeout]. *)
Definition nearer (now : timespec) (m : Z) (c : conn) : Z :=
  if c_fd c <? 0 then m
  else let ms := Z.max 0 (deadline_ms (c_deadline c) now) in if (m <? 0) || (ms <? m) then ms else m.

Lemma nearest_bound now cs m :
  -1 ≤ m →
  let r := fold_left (nearer now) cs m in
  -1 ≤ r ∧ (0 ≤ m → 0 ≤ r ≤ m) ∧
  ∀ c, c ∈ cs → used c = true → 0 ≤ r ≤ Z.max 0 (deadline_ms (c_deadline c) now).
Proof.
  revert m. induction cs as [|c cs IH]; intros m Hm; cbn [fold_left].
  { split_and!; [done|lia|]. set_solver. }
  assert (Hn : -1 ≤ nearer now m c ∧ (0 ≤ m → 0 ≤ nearer now m c ≤ m) ∧
               (used c = true → 0 ≤ nearer now m c ≤ Z.max 0 (deadline_ms (c_deadline c) now))).
  { unfold nearer, used. destruct (c_fd c <? 0) eqn:Hc; bool_hyps; [split_and!; try lia; intros Hu; bool_hyps; lia|].
    cbv zeta. destruct (_ || _) eqn:Ho; bool_hyps; split_and!; intros; lia. }
  destruct Hn as (Hn1 & Hn2 & Hn3). destruct (IH _ Hn1) as (Hr1 & Hr2 & Hr3).
  split_and!; [done|intros Hx; specialize (Hn2 Hx); specialize (Hr2 ltac:(lia)); lia|].
  intros c' Hc' Hu. apply elem_of_cons in Hc' as [->|Hc']; [|by apply Hr3].
  specialize (Hn3 Hu). specialize (Hr2 ltac:(lia)). lia.
Qed.

Lemma poll_timeout_bound cfg idle now r c :
  reactor_ok cfg r → c ∈ rt_conns r → used c = true →
  0 ≤ poll_timeout idle now r ≤ Z.max 0 (deadline_ms (c_deadline c) now).
Proof.
  intros Hr Hc Hu. unfold poll_timeout.
  assert (Ha : 0 < rt_active r).
  { rewrite (ro_active _ _ Hr). clear Hr. induction (rt_conns r) as [|x cs IH]; [set_solver|].
    rewrite cnt_cons. pose proof (cnt_nonneg used cs). apply elem_of_cons in Hc as [->|Hc].
    - rewrite Hu. unfold b2z. lia.
    - specialize (IH Hc). unfold b2z. destruct (used x); lia. }
  rewrite (proj2 (Z.ltb_lt _ _) Ha).
  destruct (nearest_bound now (rt_conns r) (-1) ltac:(lia)) as (_ & _ & Hn).
  specialize (Hn c Hc Hu). cbv zeta in Hn. unfold nearer in Hn. destruct (INT_MAX <? _) eqn:Hi; bool_hyps; [|done].
  unfold INT_MAX in *. lia.
Qed.

Lemma loop_turn_spec cfg idle r :
  reactor_ok cfg r → wp (loop_turn cfg idle) (λ _ r', turned cfg r r') r.
Proof.
  intros Hr. unfold loop_turn. destruct r as [t s cs a l].
  apply wp_bind, wp_rask. intros now t1. apply wp_bind, wp_get. cbn [rt_conns].
  pose proof (reactor_ok_tick _ _ _ _ _ _ t1 l Hr s) as Hr1.
  apply wp_bind. eapply wp_mono; [apply (reap_spec cfg now 0); [done|done|lia]|].
  cbv beta. intros _ [t2 s2 cs2 a2 l2] (Hr2 & Hs2 & _ & _). cbn in Hs2. subst s2.
  apply wp_bind, wp_rask. intros stop t3. apply wp_bind, wp_get, wp_bind, wp_rask. intros answer t4.
  pose proof (reactor_ok_tick _ _ _ _ _ _ t4 l2 Hr2 s) as Hr4.
  assert (Hstay : turned cfg (Reactor t s cs a l) (Reactor t4 s cs2 a2 l2))
    by (split; [done|apply served_refl]).
  destruct answer; try by apply wp_ret.
  apply wp_bind. eapply wp_mono; [by apply dispatch_spec|]. cbv beta. intros _ r' Ht.
  apply wp_ret. exact (turned_trans _ _ _ _ Hstay Ht).
Qed.

Lemma main_loop_spec cfg idle turns r :
  reactor_ok cfg r → wp (main_loop cfg idle turns) (λ _ r', turned cfg r r') r.
Proof.
  revert r. induction turns as [|n IH]; intros r Hr; cbn [main_loop].
  { apply wp_ret. by apply turned_refl. }
  destruct r as [t s cs a l]. apply wp_bind, wp_rask. intros stop t1.
  pose proof (reactor_ok_tick _ _ _ _ _ _ t1 l Hr s) as Hr1.
  assert (Hstart : turned cfg (Reactor t s cs a l) (Reactor t1 s cs a l))
    by (split; [done|apply served_refl]).
  destruct stop; [by apply wp_ret|]. apply wp_bind. eapply wp_mono; [by apply loop_turn_spec|].
  intros next r1 Ht1. destruct next.
  - eapply wp_mono; [apply IH, Ht1|]. cbv beta. intros _ r' Ht'.
    exact (turned_trans _ _ _ _ Hstart (turned_trans _ _ _ _ Ht1 Ht')).
  - apply wp_ret. exact (turned_trans _ _ _ _ Hstart Ht1).
Qed.

Lemma reactor_init_ok cfg s : 0 ≤ max_conns cfg → 0 ≤ max_conns_per_uid cfg →
  reactor_ok cfg (reactor_init cfg s).
Proof.
  intros Hm Hp. unfold reactor_init. split; cbn [rt_conns rt_active].
  - rewrite length_replicate. lia.
  - by rewrite cnt_replicate.
  - intros Hne uid. rewrite uid_active_cnt, cnt_replicate by done. done.
  - apply Forall_replicate, free_conn_ok.
  - by apply Forall_replicate.
Qed.

Lemma main_config_bounds getenv :
  1 ≤ max_conns (main_config getenv) ≤ RAB_HARD_MAX_CONNS ∧
  0 ≤ max_conns_per_uid (main_config getenv).
Proof.
  unfold main_config. cbn [max_conns max_conns_per_uid].
  set (n := u32 _). split; [|apply u32_range]. unfold RAB_HARD_MAX_CONNS.
  destruct (n <? 1) eqn:E1; [done|]. destruct (4096 <? n) eqn:E2; bool_hyps; lia.
Qed.

Lemma main_args_conns cfg argv cfg' :
  main_args cfg argv = Some cfg' →
  max_conns cfg' = max_conns cfg ∧ max_conns_per_uid cfg' = max_conns_per_uid cfg.
Proof.
  remember (length argv) as n eqn:Hn. assert (length argv ≤ n)%nat as Hle by lia. clear Hn.
  revert cfg argv Hle. induction n as [|n IH]; intros cfg argv Hle.
  - destruct argv; [|simpl in Hle; lia]. by intros [= <-].
  - destruct argv as [|x [|v rest]]; cbn [main_args]; [by intros [= <-]|done|].
    simpl in Hle. repeat case_goal; try done; intros Hm; apply IH in Hm; cbn in *; done || lia.
Qed.
End DaemonSteps.


(** ** Requests of accepted peers *)

(** Credentials as the kernel reports them. *)
Definition kernel_cred (cred : option (Z * Z * Z)) : Prop :=
  match cred with
  | Some (uid, gid, pid) => 0 ≤ uid < 2 ^ 32 ∧ 0 ≤ gid < 2 ^ 32 ∧ pid < 2 ^ 31
  | None => True
  end.

Lemma bs_text b : bs (text b) = b.
Proof. apply String.list_ascii_of_string_of_list_ascii. Qed.

Lemma strlen_text b : strlen (text b) = blen b.
Proof. unfold strlen. by rewrite <- bs_length, bs_text. Qed.

Lemma text_nonempty b : blen b ≠ 0 → text b ≠ "".
Proof. by destruct b. Qed.

Lemma peer_identity_ok cred boot stat a :
  kernel_cred cred → rab_peer_identity cred boot stat = Some a → actor_ok a.
Proof.
  unfold rab_peer_identity, rab_boot_id, rab_proc_starttime, kernel_cred. intros Hk Hi.
  destruct cred as [[[uid gid] pid]|]; [|done]. inv_guards Hi; simplify_eq; bool_hyps.
  unfold actor_ok. cbn [a_uid a_gid a_pid a_boot_id a_starttime]. rewrite !strlen_text, string_forallb_bs, bs_text.
  split_and!; try done; try lia; by apply text_nonempty.
Qed.

Section Requests.
Context `{JanssonLaws}.

(** The domain fields of a request's record fit recovery's buffers. *)
Definition request_small (q : rab_request) : Prop :=
  ∀ kvs, rq_record q = Some (JObject kvs) → record_fits kvs.

Lemma parsed_servable body q :
  rab_parse_request body = inl q → request_small q → servable q.
Proof.
  intros [Hok (root & Hload & Hdepth & Hrec)]%parse_request_ok Hsmall.
  assert (Hst : admissible_record (rq_record q) → storable q).
  { intros (kvs & op & out & Hr & _). exists kvs. split_and!; [done| |by apply Hsmall].
    rewrite Hr in Hrec. symmetry in Hrec. split_and!.
    - intros k. by apply (admitted_record q).
    - eapply json_wf_get; [by eapply loadb_wf|done].
    - apply json_depth_get in Hrec. lia. }
  unfold servable, request_ok in *. destruct (rq_type q); try done; naive_solver.
Qed.
End Requests.

(** ** Start-up *)

Section Startup.
Context `{JanssonLaws} `{Sha256} {E : env} {L : loop_env}.

(** The sink can be booted with open set [A]: it is absent, or replays to [A]. *)
Definition boots (f : fsys) (path : string) (t : nat) (A : gmap string intent) : Prop :=
  (fs_ok f ∧ fs_dir f !! path = None ∧ A = ∅) ∨
  ∃ ino i lines torn st, bootable f path ino i lines torn st ∧ A = sp_open st ∧
                         fresh_mints t (sp_ids st).

Lemma defaults_ok : cfg_ok rab_config_defaults.
Proof. split; vm_compute; split; congruence. Qed.

Lemma boots_in_session f path host t A :
  boots f path t A →
  wp (rab_broker_open path rab_config_defaults host)
     (λ r w', (∃ e, r = inr e ∧ env_failed (Some e)) ∨
        ∃ b, r = inl b ∧ in_session (Sys w' b) A) (World t f).
Proof.
  intros [(Hfs & Hno & ->)|(ino & i & lines & torn & st & Hb & -> & Hf)].
  - eapply wp_mono; [apply first_boot_in_session; try done; apply defaults_ok|]. naive_solver.
  - eapply wp_mono; [eapply boot_in_session; try done; apply defaults_ok|]. naive_solver.
Qed.

Lemma in_session_tick t t' f b A :
  (t ≤ t')%nat → in_session (Sys (World t f) b) A → in_session (Sys (World t' f) b) A.
Proof.
  intros Ht (K & Hg & Hf). exists K. split; [exact Hg|]. by eapply fresh_later.
Qed.

(** Socket activation, as systemd sets it up. *)
Definition activated (getenv : string → option string) (pid : Z) : Prop :=
  activation_fd (getenv "LISTEN_PID") (getenv "LISTEN_FDS") pid = Some 3.

Lemma main_start_spec getenv argv pid host cfg f t A :
  main_args (main_config getenv) argv = Some cfg → listen_path cfg = None → activated getenv pid →
  boots f (sink_path cfg) t A →
  wp (main_start getenv argv pid host)
     (λ r _, (r = ExitCode 1 ∧ ¬ healthy) ∨
        ∃ s, r = Started cfg (idle_timeout_ms cfg) (reactor_init cfg s) ∧ in_session s A)
     (World t f).
Proof.
  intros Hargs Hl Hact Hb. unfold main_start. rewrite Hargs. apply wp_bind.
  eapply wp_mono; [by apply boots_in_session|]. intros r [t1 f1] [(e & -> & He)|(b & -> & Hs)].
  { apply wp_ret. left. split; [done|]. apply He. }
  unfold main_listen. rewrite Hl, Hact. apply wp_bind, wp_ret. cbn [negb].
  apply wp_bind, wp_ask, wp_bind, wp_ask, wp_bind, wp_ask. cbn [w_tick w_fs].
  destruct (e_ok t1 && e_ok (S t1) && e_ok (S (S t1))) eqn:Hok; cbn [negb].
  - apply wp_bind, wp_get, wp_ret. right. eexists. split; [done|].
    eapply in_session_tick; [|done]. lia.
  - apply wp_ret. left. split; [done|]. intros Hh. revert Hok.
    by rewrite !(proj1 (Hh _)).
Qed.

(** The requests served are servable, if their records are small. *)
Lemma from_peer_fits aq :
  (∀ n w, w ∈ l_accept n → kernel_cred (in_cred w)) → from_peer aq → request_small aq.2 →
  request_fits aq.
Proof.
  intros Hcred (w & body & (n & Hw & Hid) & _ & Hp) Hs. split.
  - eapply peer_identity_ok; [by eapply Hcred|exact Hid].
  - by eapply parsed_servable.
Qed.

(** What the loop has done to the broker, against the contract. *)
Definition loop_refines (s s' : sys) (A : gmap string intent) : Prop :=
  ∃ reqs, Forall from_peer reqs ∧ s' = (serve reqs s).2 ∧
    (Forall (λ aq, request_small aq.2) reqs →
       ∃ A', evolves_all A reqs (serve reqs s).1 A' ∧ in_session s' A').

Lemma served_refines s s' A :
  steady → distinct_mints → (∀ n w, w ∈ l_accept n → kernel_cred (in_cred w)) →
  in_session s A → served s s' → loop_refines s s' A.
Proof.
  intros Hst Hd Hcred Hs (reqs & Hf & ->). exists reqs. split_and!; [done|done|]. intros Hsmall.
  assert (Hfit : Forall request_fits reqs).
  { apply Forall_forall. intros aq Haq. rewrite Forall_forall in Hf, Hsmall.
    apply from_peer_fits; auto. }
  pose proof (serve_in_session reqs s A Hst Hd Hs Hfit) as Hw. unfold wp in Hw.
  destruct (serve reqs s) as [rs s2]. destruct Hw as (A' & ? & ? & _). by exists A'.
Qed.

(** ** Properties *)

(** C4. The whole daemon implements the contract: started by socket activation
    on an absent sink or one that replays to the open set A, it exits with code
    1 only if an allocation or system call failed; otherwise, however long the
    event loop runs and whatever the sockets, clocks and signals do, all it has
    done to the broker is to serve, one after another, requests that accepted
    peers sent as their one well-formed frame, under the identity the kernel
    reports for them, and if their records fit recovery's buffers every answer
    and the open set follow the abstract contract. *)
Theorem daemon_refines_contract getenv argv pid host cfg f t A :
  steady → distinct_mints → (∀ n w, w ∈ l_accept n → kernel_cred (in_cred w)) →
  main_args (main_config getenv) argv = Some cfg → listen_path cfg = None → activated getenv pid →
  boots f (sink_path cfg) t A →
  wp (main_start getenv argv pid host)
     (λ r _, (r = ExitCode 1 ∧ ¬ healthy) ∨
        ∃ idle rt, r = Started cfg idle rt ∧ in_session (rt_sys rt) A ∧
          ∀ turns, loop_refines (rt_sys rt) (rt_sys (main_loop cfg idle turns rt).2) A)
     (World t f).
Proof.
  intros Hst Hd Hcred Hargs Hl Hact Hb.
  pose proof (main_args_conns _ _ _ Hargs) as [Hm Hp]. pose proof (main_config_bounds getenv) as [Hb1 Hb2].
  eapply wp_mono; [by apply main_start_spec|]. intros r w' [Hbad|(s & -> & Hs)]; [by left|right].
  eexists _, _. split_and!; [done|done|]. intros turns. apply served_refines; try done.
  apply (main_loop_spec cfg (idle_timeout_ms cfg) turns (reactor_init cfg s)).
  apply reactor_init_ok; lia.
Qed.

(** C27. Connection caps: with any environment variables and command line the
    daemon accepts, after any number of turns of the loop the active count is the
    number of slots in use, never more than the configured maximum, itself at
    most 4096; no uid holds more slots than its cap; and every connection's
    buffers are within their bounds. *)
Theorem connection_caps getenv argv cfg idle turns s :
  main_args (main_config getenv) argv = Some cfg →
  let r := (main_loop cfg idle turns (reactor_init cfg s)).2 in
  rt_active r = cnt used (rt_conns r) ∧ rt_active r ≤ max_conns cfg ≤ 4096 ∧
  (max_conns_per_uid cfg ≠ 0 → ∀ uid, uid_active (rt_conns r) uid ≤ max_conns_per_uid cfg) ∧
  Forall conn_ok (rt_conns r).
Proof.
  intros Hargs. pose proof (main_args_conns _ _ _ Hargs) as [Hm Hp].
  pose proof (main_config_bounds getenv) as [Hb1 Hb2]. unfold RAB_HARD_MAX_CONNS in Hb1.
  assert (Hok : reactor_ok cfg (main_loop cfg idle turns (reactor_init cfg s)).2).
  { apply (main_loop_spec cfg idle turns (reactor_init cfg s)). apply reactor_init_ok; lia. }
  cbv zeta. pose proof (active_bound _ _ Hok). destruct Hok. split_and!; try done; lia.
Qed.

(** C28. Absolute deadlines: the pass at the top of each turn closes exactly the
    connections whose deadline has passed, the others are kept as they are and
    the broker is not touched; the wait then handed to poll is non-negative and
    ends no later than any remaining connection's deadline, so a peer that
    trickles bytes cannot hold its slot. *)
Theorem stalled_connections_reaped cfg idle now r :
  reactor_ok cfg r →
  wp (reap now 0 (length (rt_conns r)))
     (λ _ r', rt_sys r' = rt_sys r ∧
        (∀ j c, rt_conns r !! j = Some c → expired now c = false → rt_conns r' !! j = Some c) ∧
        ∀ j c, rt_conns r' !! j = Some c → used c = true →
          0 < deadline_ms (c_deadline c) now ∧
          0 ≤ poll_timeout idle now r' ≤ deadline_ms (c_deadline c) now) r.
Proof.
  intros Hr. eapply wp_mono; [apply (reap_spec cfg now 0); [done|done|lia]|].
  cbv beta. intros _ r' (Hr' & Hs & Hall & Hkeep). split_and!; [done|done|]. intros j c Hj Hu.
  pose proof (Hall _ _ Hj) as He. unfold expired in He. rewrite Hu in He. cbn [andb] in He. bool_hyps.
  pose proof (poll_timeout_bound cfg idle now r' c Hr' (list_elem_of_lookup_2 _ _ _ Hj) Hu). lia.
Qed.
End Startup.

(** ** A concrete daemon *)

Definition demo_getenv (name : string) : option string :=
  if String.eqb name "LISTEN_PID" then Some "42"
  else if String.eqb name "LISTEN_FDS" then Some "1" else None.

Definition demo_main_cfg : main_cfg := main_config demo_getenv.

Definition demo_body : bytes :=
  bs (bit_dump (JObject [("type", JString "capabilities")])).

(** A peer whose request arrives in two pieces. *)
Definition demo_incoming : incoming :=
  Incoming 7 (Some (1000, 1000, 77)) (Some [RdData (bs "boot")])
    (Some [RdData (bs "77 (sh) S 1 2 3 4 5 6 7 8 9 10 11 12 13 14 15 16 17 18 123 0")])
    [RdData (take 3 (frame_header (blen demo_body) ++ demo_body)); RdAgain;
     RdData (drop 3 (frame_header (blen demo_body) ++ demo_body))]
    [SdBytes 10; SdAgain; SdBytes 70000].

Definition demo_loop : loop_env :=
  LoopEnv (λ n, Timespec 100 (1000 * Z.of_nat n)) (λ _, true)
    (λ n, if (n <? 12)%nat then [demo_incoming] else [])
    (λ n _, PaReady [Rev true false false; Rev true true false]) (λ _, false).

Definition demo_start : start_result * world :=
  @main_start BitJansson demo_env demo_getenv [] 42 None (World 0 demo_fs).

Definition demo_run (turns : nat) : option reactor :=
  match demo_start.1 with
  | Started cfg idle r => Some (@main_loop BitJansson pad_sha demo_env demo_loop cfg idle turns r).2
  | ExitCode _ => None
  end.

(** The connection is accepted, reads its request in two turns and has its
    answer queued; when that is sent, the slot is free again. *)
Lemma demo_run_slots :
  map (λ n, (λ r, (rt_active r, map c_state (take 1 (rt_conns r)))) <$> demo_run n) [0; 1; 3; 5]%nat =
  [Some (0, [ST_RECV]); Some (1, [ST_RECV]); Some (1, [ST_SEND]); Some (0, [ST_RECV])].
Proof. vm_compute. reflexivity. Qed.

Lemma demo_creds n w : w ∈ @l_accept demo_loop n → kernel_cred (in_cred w).
Proof.
  cbn [l_accept demo_loop]. destruct (n <? 12)%nat; [|set_solver].
  intros ->%list_elem_of_singleton. cbn. lia.
Qed.

Lemma daemon_refines_contract_witness :
  @wp world _ (@main_start BitJansson demo_env demo_getenv [] 42 None)
     (λ r _, (r = ExitCode 1 ∧ ¬ @healthy demo_env) ∨
        ∃ idle rt, r = Started demo_main_cfg idle rt ∧
          @in_session BitJansson demo_env (rt_sys rt) ∅ ∧
          ∀ turns, @loop_refines BitJansson pad_sha demo_env demo_loop (rt_sys rt)
            (rt_sys (@main_loop BitJansson pad_sha demo_env demo_loop demo_main_cfg idle turns rt).2) ∅)
     (World 0 demo_fs).
Proof.
  apply (@daemon_refines_contract BitJansson _ pad_sha demo_env demo_loop demo_getenv [] 42 None
           demo_main_cfg demo_fs 0 ∅).
  - apply demo_steady.
  - apply demo_mints.
  - apply demo_creds.
  - reflexivity.
  - reflexivity.
  - reflexivity.
  - left. split; [apply demo_fs_ok|done].
Defined.

Lemma connection_caps_witness :
  let r := (@main_loop BitJansson pad_sha demo_env demo_loop demo_main_cfg 30000 3
              (reactor_init demo_main_cfg demo_s0)).2 in
  rt_active r = cnt used (rt_conns r) ∧ rt_active r ≤ max_conns demo_main_cfg ≤ 4096 ∧
  (max_conns_per_uid demo_main_cfg ≠ 0 →
     ∀ uid, uid_active (rt_conns r) uid ≤ max_conns_per_uid demo_main_cfg) ∧
  Forall conn_ok (rt_conns r).
Proof.
  apply (@connection_caps BitJansson _ pad_sha demo_env demo_loop demo_getenv [] demo_main_cfg 30000 3
           demo_s0). reflexivity.
Defined.

(** The loop after three turns: one connection, to be answered by 105 s. *)
Definition demo_r3 : reactor :=
  (@main_loop BitJansson pad_sha demo_env demo_loop demo_main_cfg 30000 3
     (reactor_init demo_main_cfg demo_s0)).2.

Lemma stalled_connections_reaped_witness :
  @wp reactor unit (reap (Timespec 103 0) 0 (length (rt_conns demo_r3)))
     (λ _ r', rt_sys r' = rt_sys demo_r3 ∧
        (∀ j c, rt_conns demo_r3 !! j = Some c → expired (Timespec 103 0) c = false →
           rt_conns r' !! j = Some c) ∧
        ∀ j c, rt_conns r' !! j = Some c → used c = true →
          0 < deadline_ms (c_deadline c) (Timespec 103 0) ∧
          0 ≤ poll_timeout 30000 (Timespec 103 0) r' ≤ deadline_ms (c_deadline c) (Timespec 103 0))
     demo_r3.
Proof.
  apply (@stalled_connections_reaped BitJansson _ demo_loop demo_main_cfg 30000
           (Timespec 103 0)).
  apply (@main_loop_spec BitJansson _ pad_sha demo_env demo_loop demo_main_cfg 30000 3
           (reactor_init demo_main_cfg demo_s0)).
  apply reactor_init_ok; vm_compute; discriminate.
Defined.
