(* ===== verification/Exercise.v ===== *)
(** * The lifecycle driver (tools/rab-exercise.c)

    The client that opens a receipted operation, hands the receipt to the
    privileged helper, checks the helper's result and writes the outcome.  Its
    system calls meet the [surroundings]: the broker's socket and the helper
    process, which are not part of this program, are the operations of that
    class.  [main] returns how the run ended; [exit_code] is its exit status. *)

From stdpp Require Import base gmap strings list.
From Stdlib Require Import ZArith Lia Ascii.
From S2P Require Import Prelude CString Jansson Env Proto Record.

Local Open Scope string_scope.
Local Open Scope list_scope.
Local Open Scope Z_scope.

Definition RCPT_HEX : Z := 32.
Definition BIND_HEX : Z := 32.
Definition CID_LEN : Z := 37.
Definition PLAN_HEX : Z := 64.
Definition LOCK_TIMEOUT : Z := 60.
Definition MAX_RESULT : Z := 65536.
Definition HELPER_DEADLINE_MS : Z := 180000.
Definition SUN_PATH_MAX : Z := 108.

(** ** Grammar checks *)

Definition status_set : list string :=
  ["ok"; "no_op"; "apt_locked"; "package_not_owned"; "held"; "protected_package"; "no_intent";
   "resolve_failed"; "not_applied"; "operation_failed"; "dpkg_broken"; "internal"].

Definition status_known (s : string) : bool := existsb (strcmp_eq s) status_set.

Definition status_is_success (s : string) : bool := strcmp_eq s "ok" || strcmp_eq s "no_op".

(** An object with exactly these keys. *)
Definition obj_exact_keys (o : jptr) (keys : list string) : bool :=
  json_is_object o && (json_object_size o =? Z.of_nat (length keys)) &&
  forallb (λ k, match json_object_get o k with Some _ => true | None => false end) keys.

Definition is_hex_text (s : string) (n : Z) : bool :=
  (strlen s =? n) && string_forallb is_hex_lc s.

Fixpoint string_drop (n : nat) (s : string) : string :=
  match n, s with
  | S n', String _ s' => string_drop n' s'
  | _, _ => s
  end.

Fixpoint string_take (n : nat) (s : string) : string :=
  match n, s with
  | S n', String c s' => String c (string_take n' s')
  | _, _ => ""
  end.

Definition cid_valid (s : string) : bool :=
  (strlen s =? CID_LEN) &&
  match String.get 20 s with Some c => byte_val c =? 45 | None => false end &&
  string_forallb is_digit (string_take 20 s) && is_hex_text (string_drop 21 s) 16.

Definition entrypoints : list (string * string) :=
  [("apt.install", "/usr/libexec/pkgexec/runix-apt-install");
   ("apt.remove", "/usr/libexec/pkgexec/runix-apt-remove");
   ("apt.purge", "/usr/libexec/pkgexec/runix-apt-purge");
   ("apt.upgrade", "/usr/libexec/pkgexec/runix-apt-upgrade");
   ("apt.dist_upgrade", "/usr/libexec/pkgexec/runix-apt-dist-upgrade");
   ("apt.update", "/usr/libexec/pkgexec/runix-apt-update");
   ("apt.hold", "/usr/libexec/pkgexec/runix-apt-hold");
   ("apt.unhold", "/usr/libexec/pkgexec/runix-apt-unhold");
   ("apt.configure", "/usr/libexec/pkgexec/runix-apt-configure")].

Fixpoint entrypoint_in (m : list (string * string)) (verb : string) : option string :=
  match m with
  | [] => None
  | (v, p) :: m' => if strcmp_eq verb v then Some p else entrypoint_in m' verb
  end.

Definition entrypoint_for (verb : string) : option string := entrypoint_in entrypoints verb.

Definition reply_ok (o : jptr) : bool := json_is_true (json_object_get o "ok").
Definition reply_persisted (o : jptr) : bool := json_is_true (json_object_get o "persisted").
Definition reply_str (o : jptr) (k : string) : option string := get_string o k.

(** ** Running the helper *)

Definition now_ms (now : option timespec) : Z :=
  match now with
  | None => -1
  | Some t => tv_sec t * 1000 + Z.quot (tv_nsec t) 1000000
  end.

(** One turn of the capture loop: the clock, [poll], and whether [realloc] works. *)
Record read_tick := ReadTick { rt_now : option timespec; rt_poll : poll_result; rt_grow : bool }.

(** What the kernel and the child do during one run. *)
Record helper_run := HelperRun {
  hr_start : option timespec;
  hr_pipes : bool;                       (* both [pipe] calls *)
  hr_fork : bool;
  hr_setup : bool;                       (* sigaction and the [fcntl] calls *)
  hr_writes : list (option timespec * poll_result * wr_dl_event);
  hr_malloc : bool;
  hr_ticks : list read_tick;
  hr_output : list rd_event;             (* the child's standard output *)
  hr_exit : option Z                     (* its exit status, if it exited *)
}.

(** The bounded write of the request; an exhausted script is an expired clock. *)
Fixpoint helper_write (script : list (option timespec * poll_result * wr_dl_event))
    (deadline : Z) (req : bytes) : bool :=
  match req with
  | [] => true
  | _ =>
      match script with
      | [] => false
      | (now, pr, w) :: rest =>
          if deadline - now_ms now <=? 0 then false
          else match pr with
               | PollEintr => helper_write rest deadline req
               | PollErr | PollTimeout => false
               | PollReady =>
                   match w with
                   | WDRetry => helper_write rest deadline req
                   | WDErr => false
                   | WDBytes n => helper_write rest deadline (drop n req)
                   end
               end
      end
  end.

(** The bounded capture: [buf] is what has been read into a buffer of [cap] bytes. *)
Fixpoint helper_read (ticks : list read_tick) (deadline : Z) (out : list rd_event) (cap : Z)
    (buf : bytes) : option bytes :=
  match ticks with
  | [] => None
  | tk :: rest =>
      if deadline - now_ms (rt_now tk) <=? 0 then None
      else match rt_poll tk with
           | PollEintr => helper_read rest deadline out cap buf
           | PollErr | PollTimeout => None
           | PollReady =>
               let full := cap <? blen buf + 4096 in
               if full && (MAX_RESULT <=? cap) then None
               else if full && negb (rt_grow tk) then None
               else
                 let cap := if full then cap * 2 else cap in
                 match out with
                 | [] | RdData [] :: _ => Some buf
                 | (RdEintr | RdAgain) :: out' => helper_read rest deadline out' cap buf
                 | RdErr :: _ => None
                 | RdData d :: out' =>
                     let n := Z.to_nat (cap - blen buf - 1) in
                     helper_read rest deadline (push_back (drop n d) out') cap (buf ++ take n d)
                 end
           end
  end.

(** [run_helper]: the captured output, if the child ran to completion within
    bounds, and the exit code. *)
Definition run_helper (h : helper_run) (req : bytes) : option bytes * Z :=
  let start := now_ms (hr_start h) in
  if start <? 0 then (None, -1)
  else
    let deadline := start + HELPER_DEADLINE_MS in
    if negb (hr_pipes h) || negb (hr_fork h) then (None, -1)
    else if negb (hr_setup h && helper_write (hr_writes h) deadline req) then (None, -1)
    else if negb (hr_malloc h) then (None, -1)
    else match helper_read (hr_ticks h) deadline (hr_output h) 4096 [] with
         | None => (None, -1)
         | Some buf => (Some buf, match hr_exit h with Some c => c | None => -1 end)
         end.

Record helper_outcome := HelperOutcome {
  ho_parsed : bool;
  ho_exit_code : Z;
  ho_effect_issued : bool;
  ho_status : string;
  ho_detail : string;
  ho_rcid : string
}.

(** A buffer up to its first NUL. *)
Fixpoint until_nul (b : bytes) : bytes :=
  match b with
  | [] => []
  | c :: b' => if byte_val c =? 0 then [] else c :: until_nul b'
  end.

(** How a run of the driver ends. *)
Inductive verdict :=
| V_USAGE
| V_FAIL
| V_OPEN (cid : string)
| V_DONE (cid status detail : string) (effect_issued replayed : bool).

Definition exit_code (v : verdict) : Z :=
  match v with V_DONE _ _ _ _ _ => 0 | V_FAIL => 1 | V_USAGE => 2 | V_OPEN _ => 3 end.

(** The line printed on standard output: the evidence of a closed operation, or
    that the intent was left open. *)
Definition evidence (cid plan_hash verb status detail : string) (effect_issued : bool)
    (outcome : string) (replay : option string) : string :=
  "RESULT cid=" +:+ cid +:+ " plan_hash=" +:+ plan_hash +:+ " verb=" +:+ verb +:+ " status=" +:+
  status +:+ " detail=" +:+ detail +:+ " effect_issued=" +:+
  (if effect_issued then "true" else "false") +:+ " outcome=" +:+ outcome +:+
  (match replay with Some r => " replay=" +:+ r | None => "" end) +:+ String nl "".

Definition left_open (cid plan_hash verb : string) : string :=
  "RESULT cid=" +:+ cid +:+ " plan_hash=" +:+ plan_hash +:+ " verb=" +:+ verb +:+
  " status=unknown detail=unknown effect_issued=unknown outcome=open" +:+ String nl "".

Definition report (plan_hash verb : string) (v : verdict) : option string :=
  match v with
  | V_DONE cid status detail eff replayed =>
      Some (evidence cid plan_hash verb status detail eff "persisted"
              (if replayed then Some "rejected" else None))
  | V_OPEN cid => Some (left_open cid plan_hash verb)
  | _ => None
  end.

(** ** What the driver's calls meet *)

Class surroundings (S : Type) := Surroundings {
  x_connect : string → M S (option Z);             (* socket, connect, SO_PEERCRED: the peer's uid *)
  x_write : M S (list wr_event * list wr_event);   (* the writes of one frame *)
  x_deliver : bytes → M S (list rd_event);         (* bytes sent; what the socket then delivers *)
  x_alloc : M S bool;
  x_helper : string → bytes → M S helper_run       (* the child run on an entrypoint and a request *)
}.

Section Driver.
Context `{Jansson} {S : Type} `{surroundings S}.

Definition connect_broker (path : string) : M S bool :=
  if SUN_PATH_MAX <=? strlen path then mreturn false
  else let! uid := x_connect path in
       mreturn (match uid with Some u => u =? 0 | None => false end).

(** The response frame, parsed as an object. *)
Definition read_reply (alloc : bool) (script : list rd_event) : jptr :=
  match (rab_read_frame alloc script).1 with
  | RAB_FRAME_OK rbody =>
      match json_loadb rbody with Some (JObject kvs) => Some (JObject kvs) | _ => None end
  | _ => None
  end.

(** One request frame, one response frame. *)
Definition rpc (body : string) : M S jptr :=
  let! w := x_write in
  let '(sent, ok) := rab_write_frame (fst w) (snd w) (bs body) in
  let! script := x_deliver sent in
  if negb ok then mreturn None
  else
    let! alloc := x_alloc in
    mreturn (read_reply alloc script).

(** Package names that are valid UTF-8, in order (a failed append is ignored). *)
Definition package_array (pkgs : list string) : json := JArray (omap json_string pkgs).

Definition helper_request (receipt cid : string) (pkgs : list string) : option string :=
  let o := set_new (Some []) "effect_receipt" (json_string receipt) in
  let o := set_new o "correlation_id" (json_string cid) in
  let o := set_new o "plan_schema" (json_integer 1) in
  let o := set_new o "packages" (Some (package_array pkgs)) in
  let? o := set_new o "lock_timeout" (json_integer LOCK_TIMEOUT) in
  json_dumps false (JObject o).

(** The helper's result against its exact schema. *)
Definition helper_result (exit : Z) (res : jptr) : helper_outcome :=
  let bad := HelperOutcome false exit false "" "" "" in
  let jeff := json_object_get res "effect_issued" in
  match reply_str res "status", reply_str res "correlation_id", reply_str res "detail" with
  | Some status, Some rcid, Some detail =>
      if obj_exact_keys res ["status"; "effect_issued"; "correlation_id"; "detail"]
         && status_known status && json_is_boolean jeff
      then HelperOutcome true exit (json_is_true jeff) (snprintf_s 64 status)
             (snprintf_s 80 detail) (snprintf_s (CID_LEN + 1) rcid)
      else bad
  | _, _, _ => bad
  end.

Definition invoke_helper (entrypoint receipt cid : string) (pkgs : list string)
  : M S helper_outcome :=
  match helper_request receipt cid pkgs with
  | None => mreturn (HelperOutcome false (-1) false "" "" "")
  | Some req =>
      let! h := x_helper entrypoint (bs req) in
      let '(out, rc) := run_helper h (bs req) in
      mreturn (match out with
               | None => HelperOutcome false rc false "" "" ""
               | Some result =>
                   match until_nul result with
                   | [] => HelperOutcome false rc false "" "" ""
                   | text => helper_result rc (json_loadb text)
                   end
               end)
  end.

Definition result_semantics_ok (ho : helper_outcome) (cid : string) : bool :=
  if negb (Bool.eqb (ho_exit_code ho =? 0) (status_is_success (ho_status ho))) then false
  else if strcmp_eq (ho_status ho) "ok"
          && negb (ho_effect_issued ho && strcmp_eq (ho_rcid ho) cid) then false
  else if strcmp_eq (ho_status ho) "no_op" && ho_effect_issued ho then false
  else if ho_effect_issued ho then strcmp_eq (ho_rcid ho) cid
  else is_empty (ho_rcid ho) || strcmp_eq (ho_rcid ho) cid.

Definition outcome_request (binding verb resource status detail : string) (effect_issued : bool)
  : option string :=
  let ol := if status_is_success status then "ok" else "error" in
  let obs := set_new (Some []) "status" (json_string status) in
  let obs := set_new obs "detail" (json_string detail) in
  let rec := set_new (Some []) "operation" (json_string verb) in
  let rec := set_new rec "resource" (json_string resource) in
  let rec := set_new rec "effect_issued" (json_bool effect_issued) in
  let rec := set_new rec "outcome" (json_string ol) in
  let rec := set_new rec "observed" (JObject <$> obs) in
  let o := set_new (Some []) "type" (json_string "write_outcome") in
  let o := set_new o "binding" (json_string binding) in
  let? o := set_new o "record" (JObject <$> rec) in
  json_dumps false (JObject o).

(** The acknowledgement of an outcome. *)
Definition outcome_reply_ok (rep : jptr) : bool :=
  obj_exact_keys rep ["ok"; "persisted"] && reply_ok rep && reply_persisted rep.

Definition write_outcome (sock binding verb resource status detail : string)
    (effect_issued : bool) : M S bool :=
  let! ok := connect_broker sock in
  if negb ok then mreturn false
  else match outcome_request binding verb resource status detail effect_issued with
       | None => mreturn false
       | Some outs => let! rep := rpc outs in mreturn (outcome_reply_ok rep)
       end.

Definition open_request (verb resource plan_hash : string) : option string :=
  let rec := set_new (Some []) "operation" (json_string verb) in
  let rec := set_new rec "resource" (json_string resource) in
  let rec := set_new rec "effect_issued" (json_bool false) in
  let rec := set_new rec "outcome" (json_string "intent") in
  let eff := set_new (Some []) "required" (json_bool true) in
  let eff := set_new eff "plan_schema" (json_integer 1) in
  let eff := set_new eff "plan_hash" (json_string plan_hash) in
  let o := set_new (Some []) "type" (json_string "open_intent") in
  let o := set_new o "record" (JObject <$> rec) in
  let? o := set_new o "effect" (JObject <$> eff) in
  json_dumps false (JObject o).

(** The exact schema of an effect open's reply: its id, binding and receipt. *)
Definition open_reply (rep : jptr) : option (string * string * string) :=
  let? scid := reply_str rep "correlation_id" in
  let? sbind := reply_str rep "binding" in
  let? srcpt := reply_str rep "effect_receipt" in
  let? scope := reply_str rep "audit_scope" in
  check! obj_exact_keys rep ["ok"; "correlation_id"; "binding"; "effect_receipt"; "persisted";
                             "audit_scope"] in
  check! cid_valid scid && is_hex_text sbind BIND_HEX && is_hex_text srcpt RCPT_HEX
         && negb (strcmp_eq sbind srcpt) && strcmp_eq scope "system" in
  Some (scid, sbind, srcpt).

(** The end of both paths: one outcome with the first run's result. *)
Definition finish (sock verb resource cid binding : string) (ho : helper_outcome) (replayed : bool)
  : M S verdict :=
  let! persisted := write_outcome sock binding verb resource (ho_status ho) (ho_detail ho)
                      (ho_effect_issued ho) in
  mreturn (if persisted
           then V_DONE cid (ho_status ho) (ho_detail ho) (ho_effect_issued ho) replayed
           else V_OPEN cid).

(** A replay that was refused as it has to be. *)
Definition replay_rejected (ho : helper_outcome) (cid : string) : bool :=
  ho_parsed ho && strcmp_eq (ho_status ho) "no_intent"
  && strcmp_eq (ho_detail ho) "receipt_redeemed" && negb (ho_effect_issued ho)
  && negb (ho_exit_code ho =? 0) && (is_empty (ho_rcid ho) || strcmp_eq (ho_rcid ho) cid).

(** From the durable open on: every failure leaves the intent open. *)
Definition lifecycle (replay : bool) (sock verb resource entrypoint : string) (pkgs : list string)
    (cid binding receipt : string) : M S verdict :=
  let! ho1 := invoke_helper entrypoint receipt cid pkgs in
  let first_ok := ho_parsed ho1 && result_semantics_ok ho1 cid in
  if negb replay then
    if negb first_ok then mreturn (V_OPEN cid)
    else finish sock verb resource cid binding ho1 false
  else if negb first_ok || negb (strcmp_eq (ho_status ho1) "ok") || negb (ho_effect_issued ho1)
  then mreturn (V_OPEN cid)
  else
    let! ho2 := invoke_helper entrypoint receipt cid pkgs in
    if ho_parsed ho2 && ho_effect_issued ho2 then mreturn (V_OPEN cid)
    else if negb (replay_rejected ho2 cid) then mreturn (V_OPEN cid)
    else finish sock verb resource cid binding ho1 true.

Definition open_and_run (replay : bool) (sock verb resource plan_hash entrypoint : string)
    (pkgs : list string) : M S verdict :=
  let! ok := connect_broker sock in
  if negb ok then mreturn V_FAIL
  else match open_request verb resource plan_hash with
       | None => mreturn V_FAIL
       | Some ob =>
           let! rep := rpc ob in
           if negb (reply_ok rep) || negb (reply_persisted rep) then mreturn V_FAIL
           else match open_reply rep with
                | None => mreturn (V_OPEN "")
                | Some (cid, binding, receipt) =>
                    lifecycle replay sock verb resource entrypoint pkgs cid binding receipt
                end
       end.

(** [main], on the arguments after the program's name. *)
Definition main (argv : list string) : M S verdict :=
  let '(replay, args) :=
    match argv with
    | a :: rest => if strcmp_eq a "--replay" then (true, rest) else (false, argv)
    | [] => (false, argv)
    end in
  match args with
  | sock :: verb :: resource :: plan_hash :: pkgs =>
      match entrypoint_for verb with
      | None => mreturn V_USAGE
      | Some entrypoint =>
          if replay && negb (strcmp_eq verb "apt.update") then mreturn V_USAGE
          else if negb (is_hex_text plan_hash PLAN_HEX) then mreturn V_USAGE
          else open_and_run replay sock verb resource plan_hash entrypoint pkgs
      end
  | _ => mreturn V_USAGE
  end.
End Driver.

(** ** Facts *)

(** The capture never overruns its buffer: there is always room for the bytes
    read and the final NUL, and the buffer never exceeds [MAX_RESULT]. *)
Lemma helper_read_bounded ticks deadline out cap buf result :
  cap = 4096 ∨ cap = 8192 ∨ cap = 16384 ∨ cap = 32768 ∨ cap = 65536 → blen buf < cap →
  helper_read ticks deadline out cap buf = Some result → blen result < MAX_RESULT.
Proof.
  revert out cap buf. induction ticks as [|tk ticks IH]; intros out cap buf Hcap Hb; [done|].
  cbn [helper_read]. case_goal; [done|]. destruct (rt_poll tk); try done; [by apply IH|].
  destruct ((cap <? blen buf + 4096) && (MAX_RESULT <=? cap)) eqn:Hfull; [done|].
  destruct ((cap <? blen buf + 4096) && negb (rt_grow tk)); [done|].
  set (cap' := if cap <? blen buf + 4096 then cap * 2 else cap).
  assert (Hcap' : (cap' = 4096 ∨ cap' = 8192 ∨ cap' = 16384 ∨ cap' = 32768 ∨ cap' = 65536) ∧
                  blen buf < cap').
  { unfold MAX_RESULT in Hfull. subst cap'. destruct (cap <? blen buf + 4096) eqn:E; cbn in Hfull;
      bool_hyps; lia. }
  destruct Hcap' as [Hc' Hb']. clearbody cap'.
  assert (Hdone : Some buf = Some result → blen result < MAX_RESULT)
    by (intros [= <-]; unfold MAX_RESULT; lia).
  destruct out as [|[[|c d]| | |] out]; try done; [|by apply IH..].
  apply IH; [done|]. unfold blen in *. rewrite length_app, length_take. lia.
Qed.

(** A run gives back what fits a NUL-terminated buffer of [MAX_RESULT] bytes. *)
Lemma run_helper_bounded h req out rc :
  run_helper h req = (Some out, rc) → blen out < MAX_RESULT.
Proof.
  unfold run_helper. intros Hr. repeat (case_hyp Hr; [done|]).
  destruct (helper_read _ _ _ _ _) as [buf|] eqn:Hb; [|done]. injection Hr as <- _.
  eapply helper_read_bounded; [| |exact Hb]; [auto|done].
Qed.

(** A line is printed exactly for the runs that got past the durable open. *)
Lemma report_iff plan_hash verb v :
  is_Some (report plan_hash verb v) ↔ exit_code v = 0 ∨ exit_code v = 3.
Proof. destruct v; cbn; split; try (intros [? ?]; done); intros; by (eauto || lia). Qed.
