(* ===== verification/Probe.v ===== *)
(** * The activation probe (tools/rab-probe.c)

    The probe sends one fixed open_intent and exits 0 exactly when a complete
    response frame comes back whose text contains ["ok":true].  It meets the same
    [surroundings] as the lifecycle driver; [open_socket] is the [socket] call,
    which the probe makes before it looks at its path. *)

From stdpp Require Import base gmap strings list.
From Stdlib Require Import ZArith Lia Ascii.
From S2P Require Import Prelude CString Jansson Env Proto Record Exercise.

Local Open Scope string_scope.
Local Open Scope list_scope.
Local Open Scope Z_scope.

(** The double quote. *)
Definition dquote : ascii := Ascii.ascii_of_nat 34.

(** A JSON text written with single quotes, in C's escapes. *)
Fixpoint quoted (s : string) : string :=
  match s with
  | EmptyString => EmptyString
  | String c s' => String (if byte_val c =? 39 then dquote else c) (quoted s')
  end.

Definition probe_body : string :=
  quoted "{'type':'open_intent','record':{'operation':'ci.probe','outcome':'intent'}}".

Definition probe_needle : string := quoted "'ok':true".

(** [strncmp] with the needle's length, and [strstr], on text without NUL. *)
Fixpoint starts_with (needle text : bytes) : bool :=
  match needle, text with
  | [], _ => true
  | c :: needle', d :: text' => Ascii.eqb c d && starts_with needle' text'
  | _ :: _, [] => false
  end.

Fixpoint strstr (text needle : bytes) : bool :=
  starts_with needle text ||
  match text with [] => false | _ :: text' => strstr text' needle end.

(** How a run ends: the exit status and what was printed on standard output. *)
Record probe_result := ProbeResult { pb_exit : Z; pb_out : option bytes }.

Section Probe.
Context {S : Type} `{surroundings S} (open_socket : M S bool).

(** What the probe makes of the response. *)
Definition probe_verdict (frame : rab_frame_status) : probe_result :=
  match frame with
  | RAB_FRAME_OK rbody =>
      ProbeResult (if strstr (until_nul rbody) (bs probe_needle) then 0 else 1)
        (Some (until_nul rbody ++ [nl]))
  | _ => ProbeResult 1 None
  end.

Definition probe_exchange : M S probe_result :=
  let! w := x_write in
  let '(sent, ok) := rab_write_frame (fst w) (snd w) (bs probe_body) in
  let! script := x_deliver sent in
  if negb ok then mreturn (ProbeResult 1 None)
  else
    let! alloc := x_alloc in
    mreturn (probe_verdict (rab_read_frame alloc script).1).

Definition probe_main (argv : list string) : M S probe_result :=
  match argv with
  | [] => mreturn (ProbeResult 2 None)
  | path :: _ =>
      let! fd := open_socket in
      if negb fd then mreturn (ProbeResult 1 None)
      else if SUN_PATH_MAX <=? strlen path then mreturn (ProbeResult 2 None)
      else
        let! peer := x_connect path in
        match peer with
        | None => mreturn (ProbeResult 1 None)
        | Some _ => probe_exchange
        end
  end.
End Probe.

(** ** Facts *)

Lemma starts_with_spec needle text : starts_with needle text = true ↔ needle `prefix_of` text.
Proof.
  revert text. induction needle as [|c needle IH]; intros [|d text]; cbn.
  - split; [intros _; apply prefix_nil|done].
  - split; [intros _; apply prefix_nil|done].
  - split; [done|]. intros [k Hk]. done.
  - rewrite andb_true_iff, IH. destruct (Ascii.eqb_spec c d) as [->|Hne].
    + split; [intros [_ ?]; by apply prefix_cons|]. intros Hp. split; [done|by apply prefix_cons_inv_2 in Hp].
    + split; [by intros []|]. intros Hp. by apply prefix_cons_inv_1 in Hp.
Qed.

(** [strstr] finds exactly the texts that contain the needle. *)
Lemma strstr_spec text needle :
  strstr text needle = true ↔ ∃ before after, text = before ++ needle ++ after.
Proof.
  induction text as [|c text IH]; cbn [strstr]; rewrite orb_true_iff, starts_with_spec.
  - split.
    + intros [[k Hk]|]; [|done]. by exists [], k.
    + intros (b & a & Hab). left. destruct b; [|done]. by exists a.
  - rewrite IH. split.
    + intros [[k Hk]|(b & a & ->)]; [by exists [], k|by exists (c :: b), a].
    + intros (b & a & Hab). destruct b as [|d b]; [left; by exists a|].
      right. exists b, a. by injection Hab as _ ->.
Qed.

(** The text the probe sends fits a frame. *)
Example probe_body_length : strlen probe_body = 75 ∧ strlen probe_needle = 9.
Proof. by vm_compute. Qed.

(** A broker that acknowledges, one that refuses, and one that hangs up. *)
Definition probe_site (reply : string) : surroundings unit :=
  Surroundings unit (λ _, mreturn (Some 0)) (mreturn ([WrBytes 5], [WrBytes 80]))
    (λ _, mreturn (if is_empty reply then [] else
       [RdData (frame_header (strlen reply) ++ bs reply)])) (mreturn true)
    (λ _ _, mreturn (HelperRun None false false false [] false [] [] None)).

Definition probe_run (reply : string) : probe_result :=
  (@probe_main unit (probe_site reply) (mreturn true) ["/run/runix-audit.sock"] tt).1.

Example probe_runs :
  pb_exit (probe_run (quoted "{'correlation_id':'c','ok':true}")) = 0 ∧
  pb_exit (probe_run (quoted "{'error':'rate_limited','ok':false}")) = 1 ∧
  pb_exit (probe_run "") = 1.
Proof. by vm_compute. Qed.
