(* ===== verification/Lifecycle.v ===== *)
(** * The driver against the daemon

    The lifecycle driver (Exercise.v) run against the daemon's answers
    ([conn_reply] of Reactor.v): other peers and the helper talk to the broker in
    between, and the sockets may cut every exchange short.  What the driver sends
    is parsed as the request it means, what it accepts is what the broker
    answered, and exit status 0 means that the operation it reports was opened,
    redeemed if it claims an effect, and closed. *)

From stdpp Require Import base gmap strings list fin_maps sorting.
From Stdlib Require Import ZArith Lia Ascii.
From S2P Require Import Prelude CString Jansson Env Id Proto Sink Request Peer Record Receipt Rate.
From S2P Require Import OpenSet Broker Reconstruct Spec Recovery Live Rotation Ticks Serve.
From S2P Require Import Calm Session Demo Reactor Receiver Daemon Exercise.

Local Open Scope string_scope.
Local Open Scope list_scope.
Local Open Scope Z_scope.

(** ** Frames cut short *)

Lemma read_full_payload script n b s' :
  rab_read_full script n = (RC_OK b, s') → payload script = b ++ payload s'.
Proof.
  revert n b s'. induction script as [|ev s IH]; intros [|n] b s'; cbn [rab_read_full];
    try (intros [= <- <-]; done); try done.
  destruct ev as [d| | |]; try done; [|by apply IH].
  destruct d as [|c d]; [done|].
  destruct (Nat.leb_spec (S n) (length (c :: d))) as [Hle|Hgt].
  - intros Heq. set (e := c :: d) in *. clearbody e. injection Heq as <- <-.
    rewrite push_back_payload, app_assoc, take_drop. done.
  - destruct (rab_read_full s _) as [[r| | |] s''] eqn:E; try done.
    intros [= <- <-]. apply IH in E. cbn [payload]. by rewrite E, app_assoc.
Qed.

(** A frame read from a stream that carries at most [text]'s frame is [text]. *)
Lemma read_frame_within alloc script text rbody rest :
  strlen text ≤ RAB_MAX_BODY →
  payload script `prefix_of` frame_header (strlen text) ++ bs text →
  rab_read_frame alloc script = (RAB_FRAME_OK rbody, rest) → rbody = bs text.
Proof.
  intros Hle [tl Hpre] Hr. unfold rab_read_frame in Hr.
  destruct (rab_read_full script 5) as [[h| | |] s1] eqn:H1; try done.
  pose proof (read_full_length _ _ _ _ H1) as Hl1. apply read_full_payload in H1.
  rewrite H1, <- app_assoc in Hpre.
  assert (Hh : h = frame_header (strlen text) ∧ bs text = payload s1 ++ tl).
  { apply app_inj_1 in Hpre as [Hh ?]; [by split|]. by rewrite frame_header_length. }
  destruct Hh as [-> Hbody]. clear Hpre.
  destruct (frame_header_len (strlen text) []) as [Hv Hn]; [unfold RAB_MAX_BODY, strlen in *; lia|].
  rewrite app_nil_r in Hv, Hn. rewrite Hn in Hr. case_hyp Hr; [done|].
  case_hyp Hr; [done|]. case_hyp Hr; [done|].
  assert (Hlen : length (bs text) = Z.to_nat (strlen text)) by (unfold strlen; rewrite bs_length; lia).
  case_hyp Hr; bool_hyps.
  - destruct (rab_read_full s1 _) as [[b| | |] s2] eqn:H2; try done. injection Hr as <- _.
    pose proof (read_full_length _ _ _ _ H2) as Hl2. apply read_full_payload in H2.
    rewrite H2, <- app_assoc in Hbody. apply (f_equal (take (length b))) in Hbody.
    rewrite take_app_length, take_ge in Hbody by lia. done.
  - injection Hr as <- _. destruct (bs text); [done|]. simpl in Hlen. lia.
Qed.

Lemma read_frame_empty alloc script rbody rest :
  payload script = [] → rab_read_frame alloc script ≠ (RAB_FRAME_OK rbody, rest).
Proof.
  intros Hp Hr. unfold rab_read_frame in Hr.
  destruct (rab_read_full script 5) as [[h| | |] s1] eqn:H1; try done.
  pose proof (read_full_length _ _ _ _ H1) as Hl1. apply read_full_payload in H1.
  rewrite Hp in H1. by destruct h.
Qed.

(** An incomplete write leaves less than the whole. *)
Lemma write_full_short script data :
  (rab_write_full script data).2 = false →
  (length (rab_write_full script data).1 < length data)%nat.
Proof.
  revert data. induction script as [|ev s IH]; intros data; destruct data as [|c data]; try done.
  destruct ev as [n| |]; cbn [rab_write_full]; [|apply IH|simpl; lia].
  specialize (IH (drop n (c :: data))).
  destruct (rab_write_full s (drop n (c :: data))) as [out ok]. cbn [fst snd] in *. intros Hok.
  specialize (IH Hok). rewrite length_drop in IH. rewrite length_app, length_take. lia.
Qed.

(** A frame that was not written completely is not decoded. *)
Lemma write_frame_partial wh wb body sent b :
  rab_write_frame wh wb body = (sent, false) → decode_frame sent ≠ RAB_FRAME_OK b.
Proof.
  unfold rab_write_frame, decode_frame. intros Hw.
  case_hyp Hw; [by injection Hw as <-|]. bool_hyps.
  pose proof (write_full_short wh (frame_header (blen body))) as Hs1.
  pose proof (write_full_ok wh (frame_header (blen body))) as Hk1.
  destruct (rab_write_full wh _) as [h ok1]. cbn [fst snd] in *. destruct ok1; cbn [negb] in Hw.
  - rewrite (Hk1 eq_refl) in *. case_hyp Hw; [|done].
    pose proof (write_full_short wb body) as Hs2. pose proof (write_full_prefix wb body) as Hp2.
    destruct (rab_write_full wb body) as [o ok2]. cbn [fst snd] in *.
    assert (sent = frame_header (blen body) ++ o ∧ ok2 = false) as [-> ->] by (split; congruence).
    specialize (Hs2 eq_refl).
    destruct (frame_header_len (blen body) o) as [Hv Hn]; [unfold RAB_MAX_BODY, blen in *; lia|].
    rewrite length_app, frame_header_length, Hn.
    destruct (Nat.ltb_spec (5 + length o) 5); [lia|]. case_goal; [done|]. case_goal; [done|].
    destruct (Nat.ltb_spec (5 + length o) (5 + Z.to_nat (blen body))); [done|]. unfold blen in *. lia.
  - injection Hw as <-. specialize (Hs1 eq_refl). rewrite frame_header_length in Hs1.
    destruct (Nat.ltb_spec (length h) 5); [done|lia].
Qed.

(** ** Replies *)

Section Replies.
Context `{JanssonLaws}.

(** [kvs] is a parsed print of [resp]. *)
Definition reply_of (resp : response) (kvs : list (string * json)) : Prop :=
  ∃ kvs0, response_object resp = JObject kvs0 ∧ length kvs = length kvs0 ∧
    ∀ k, same_member (assoc_get k kvs0) (assoc_get k kvs).

Lemma put_wf d o k v :
  obj_wf d (Some o) → val_wf d v → string_forallb is_print k = true → obj_wf d (Some (put k v o)).
Proof.
  intros Ho Hv Hk. destruct v as [j|]; [|done].
  by apply (obj_wf_set d (Some o) k (Some j)).
Qed.

Lemma response_wf resp :
  ∃ kvs, response_object resp = JObject kvs ∧ obj_wf 3 (Some kvs).
Proof.
  assert (Hnil : obj_wf 3 (Some [])) by (apply obj_wf_nil; lia).
  assert (Hs : ∀ s, val_wf 3 (json_string s)) by (intros; apply val_wf_string; lia).
  assert (Hb : ∀ b, val_wf 3 (json_bool b)) by (intros; apply val_wf_bool; lia).
  destruct resp as [cid bd sc [tok|]| |cid|cid sc| |code msg]; eexists; (split; [reflexivity|]).
  all: repeat (apply put_wf; [|auto; fail|reflexivity]); try done.
  assert (Hext : val_wf 3 (Some (JObject (put "effect_receipt"
                                   (json_integer RAB_EFFECT_RECEIPT_VERSION) [])))).
  { apply (val_wf_object 3 (Some _)), put_wf; [by apply obj_wf_nil|by apply val_wf_integer|done]. }
  repeat (apply put_wf; [|exact Hext || (intros j [= <-]; split; reflexivity)|reflexivity]). done.
Qed.

(** What the daemon renders is read back as the response. *)
Lemma render_reply resp text :
  render resp = Some text → ∃ kvs, json_loadb (bs text) = Some (JObject kvs) ∧ reply_of resp kvs.
Proof.
  unfold render, dump_compact, reply_of. destruct (response_wf resp) as (kvs0 & Hk & Hwf). rewrite Hk.
  destruct (Hwf _ eq_refl) as [Hw Hd]. intros Hr.
  destruct (loadb_dumps_sorted kvs0 text) as (kvs & Hl & Hlen & Hm);
    [done|unfold JSON_PARSER_MAX_DEPTH; lia|done|].
  exists kvs. split; [done|]. by exists kvs0.
Qed.

(** An error is never taken for an acknowledgement. *)
Lemma error_not_ok code msg kvs :
  reply_of (RespError code msg) kvs → reply_ok (Some (JObject kvs)) = false.
Proof.
  intros (kvs0 & [= <-] & _ & Hm). specialize (Hm "ok"). unfold reply_ok, json_object_get.
  cbn [json_members]. unfold put in Hm. unfold json_string in Hm.
  destruct (utf8_valid code), (utf8_valid msg); cbn in Hm; by rewrite Hm.
Qed.

(** A string member of a reply is a string member of the response. *)
Lemma reply_member kvs0 kvs k s :
  same_member (assoc_get k kvs0) (assoc_get k kvs) → reply_str (Some (JObject kvs)) k = Some s →
  assoc_get k kvs0 = Some (JString s).
Proof.
  unfold same_member, reply_str, get_string, json_object_get. cbn [json_members]. intros Hm Hs.
  destruct (assoc_get k kvs) as [[]|] eqn:Hk; try done. injection Hs as ->.
  destruct (assoc_get k kvs0) as [[]|]; try done; by destruct Hm.
Qed.

(** An accepted open reply is an effect open's acknowledgement. *)
Lemma open_reply_sound cid bd sc r kvs c b tok :
  reply_of (RespOpenOk cid bd sc r) kvs → open_reply (Some (JObject kvs)) = Some (c, b, tok) →
  c = cid ∧ b = bd ∧ r = Some tok.
Proof.
  intros (kvs0 & [= <-] & _ & Hm) Ho. unfold open_reply in Ho.
  destruct (reply_str _ "correlation_id") as [c'|] eqn:H1; [|done].
  destruct (reply_str _ "binding") as [b'|] eqn:H2; [|done].
  destruct (reply_str _ "effect_receipt") as [t'|] eqn:H3; [|done].
  inv_guards Ho. injection Ho as -> -> ->.
  apply (reply_member _ _ _ _ (Hm _)) in H1, H2, H3. unfold put, json_string in *.
  destruct (utf8_valid cid), (utf8_valid bd), (utf8_valid sc), r as [r|]; cbn in H1, H2, H3; try done;
    destruct (utf8_valid r); cbn in H1, H2, H3; simplify_eq; done.
Qed.
End Replies.

(** ** Requests *)

Section Requests.
Context `{JanssonLaws}.

Definition open_record (verb resource : string) : list (string * json) :=
  [("operation", JString verb); ("resource", JString resource); ("effect_issued", JBool false);
   ("outcome", JString "intent")].

(** The driver's open request is parsed as an effect open of its record. *)
Lemma open_request_parsed verb resource plan_hash ob :
  is_hex64 plan_hash = true → open_request verb resource plan_hash = Some ob →
  rab_parse_request (bs ob) =
    inl (Request RAB_REQ_OPEN_INTENT "" "" true 1 plan_hash "" 0 "" "" 0 ""
           (Some (JObject (open_record verb resource)))).
Proof.
  intros Hhex Ho. unfold open_request in Ho.
  apply (read_back 2) in Ho as (kvs & Hk & Hload); [|done|].
  2: { repeat apply obj_wf_set; auto with jwf; apply val_wf_object; repeat apply obj_wf_set;
         auto with jwf. }
  inv_build. eval_members. unfold rab_parse_request. rewrite Hload. cbn -[is_hex64 snprintf_s].
  unfold parse_open, json_object_get. cbn -[is_hex64 snprintf_s]. unfold effect_valid, json_object_get.
  cbn -[is_hex64 snprintf_s]. rewrite Hhex. cbn -[is_hex64 snprintf_s]. by rewrite snprintf_hex64.
Qed.

Definition outcome_record (verb resource status detail : string) (effect_issued : bool)
  : list (string * json) :=
  [("operation", JString verb); ("resource", JString resource); ("effect_issued", JBool effect_issued);
   ("outcome", JString (if status_is_success status then "ok" else "error"));
   ("observed", JObject [("status", JString status); ("detail", JString detail)])].

(** Its outcome request carries the binding and the claimed effect. *)
Lemma outcome_request_parsed binding verb resource status detail eff ob :
  strlen binding < RAB_BINDING_STR_MAX →
  outcome_request binding verb resource status detail eff = Some ob →
  rab_parse_request (bs ob) =
    inl (plain_request RAB_REQ_WRITE_OUTCOME binding ""
           (Some (JObject (outcome_record verb resource status detail eff)))).
Proof.
  intros Hlen Ho. unfold outcome_request in Ho.
  apply (read_back 3) in Ho as (kvs & Hk & Hload); [|done|].
  2: { repeat apply obj_wf_set; auto with jwf. apply val_wf_object; repeat apply obj_wf_set;
         auto 10 with jwf. }
  inv_build. eval_members. unfold rab_parse_request. rewrite Hload. cbn.
  unfold parse_outcome, json_object_get. cbn. by rewrite (proj2 (Z.leb_gt _ _)).
Qed.

(** Both fit what the broker stores. *)
Lemma driver_small q kvs verb resource :
  rq_record q = Some (JObject kvs) → strlen verb < RAB_META_MAX → strlen resource < RAB_META_MAX →
  assoc_get "operation" kvs = Some (JString verb) →
  assoc_get "resource" kvs = Some (JString resource) → assoc_get "scope" kvs = None →
  request_small q.
Proof.
  intros Hr Hv Hs H1 H2 H3 kvs' Hr'. assert (kvs' = kvs) as -> by congruence.
  unfold record_fits, field_fits. by rewrite H1, H2, H3.
Qed.
End Requests.

(** ** The daemon as surroundings *)

(** What the driver's run meets besides the daemon: the uid behind the socket, the
    requests other peers make meanwhile, kernel answers, and the helper process
    with the requests it makes. *)
Class client_env := ClientEnv {
  k_uid : nat → option Z;
  k_others : nat → list (rab_actor * rab_request);
  k_write : nat → list wr_event * list wr_event;
  k_socket : nat → bytes → list rd_event;
  k_alloc : nat → bool;
  k_child : nat → string → bytes → list (rab_actor * rab_request) * helper_run
}.

Section Against.
Context `{JanssonLaws} `{Sha256} {E : env} {L : loop_env} {C : client_env}.
Context (me : rab_actor).

Definition meet (reqs : list (rab_actor * rab_request)) : M reactor unit :=
  call_broker (serve reqs) ;;; mreturn tt.

(** The bytes the daemon sends back for a rendered response. *)
Definition response_frame (o : option string) : bytes :=
  match o with
  | Some resp => if RAB_MAX_BODY <? strlen resp then [] else frame_header (strlen resp) ++ bs resp
  | None => []
  end.

(** A complete frame of [me] is answered by [conn_reply]; the socket delivers
    what [k_socket] makes of the answer. *)
Definition daemon_side : surroundings reactor :=
  {| x_connect := λ _, let! others := rask k_others in meet others ;;; rask k_uid;
     x_write := rask k_write;
     x_deliver := λ sent,
       let! socket := rask k_socket in
       match decode_frame sent with
       | RAB_FRAME_OK body => let! o := conn_reply me body in mreturn (socket (response_frame o))
       | _ => mreturn (socket [])
       end;
     x_alloc := rask k_alloc;
     x_helper := λ entry req,
       let! child := rask k_child in
       let '(reqs, run) := child entry req in
       meet reqs ;;; mreturn run |}.

(** Sockets may cut a stream short, not change it. *)
Definition honest_sockets : Prop := ∀ n b, payload (k_socket n b) `prefix_of` b.

Definition peers_fit : Prop :=
  (∀ n, Forall request_fits (k_others n)) ∧ (∀ n e req, Forall request_fits (k_child n e req).1).

#[local] Existing Instance daemon_side.

Context (Hsteady : steady) (Hmints : distinct_mints).

(** Some requests were served, as the contract says. *)
Definition trace (A A' : gmap string intent) : Prop := ∃ reqs rs, evolves_all A reqs rs A'.

Lemma trace_refl A : trace A A.
Proof. exists [], []. constructor. Qed.

Lemma evolves_all_app A r1 s1 A1 r2 s2 A2 :
  evolves_all A r1 s1 A1 → evolves_all A1 r2 s2 A2 → evolves_all A (r1 ++ r2) (s1 ++ s2) A2.
Proof. intros Hx Hy. induction Hx; [done|]. simpl. econstructor; eauto. Qed.

Lemma trace_trans A A1 A2 : trace A A1 → trace A1 A2 → trace A A2.
Proof. intros (r1 & s1 & H1') (r2 & s2 & H2'). exists (r1 ++ r2), (s1 ++ s2). by eapply evolves_all_app. Qed.

Lemma trace_step q A resp A' : evolves me q A resp A' → trace A A'.
Proof. intros He. exists [(me, q)], [resp]. econstructor; [done|constructor]. Qed.

(** The broker is in session with an open set reached from [A]. *)
Definition ongoing (A : gmap string intent) (r : reactor) : Prop :=
  ∃ A', trace A A' ∧ in_session (rt_sys r) A'.

Lemma rask_spec {X} (g : nat → X) A (Q : X → reactor → Prop) r :
  in_session (rt_sys r) A → (∀ n r', in_session (rt_sys r') A → Q (g n) r') → wp (rask g) Q r.
Proof. intros Hs HQ. unfold wp, rask. by apply HQ. Qed.

Lemma meet_spec reqs A r (Q : unit → reactor → Prop) :
  in_session (rt_sys r) A → Forall request_fits reqs →
  (∀ A' r', trace A A' → in_session (rt_sys r') A' → Q tt r') → wp (meet reqs) Q r.
Proof.
  intros Hs Hf HQ. unfold meet. apply wp_bind. unfold call_broker, zoom, wp.
  pose proof (serve_in_session reqs (rt_sys r) A Hsteady Hmints Hs Hf) as Hsv. unfold wp in Hsv.
  destruct (serve reqs (rt_sys r)) as [rs s']. destruct Hsv as (A' & Hev & Hs' & _). cbn in *.
  eapply HQ; [by exists reqs, rs|done].
Qed.

Lemma connect_spec path A r (Q : bool → reactor → Prop) :
  peers_fit → in_session (rt_sys r) A →
  (∀ ok A' r', trace A A' → in_session (rt_sys r') A' → Q ok r') → wp (connect_broker path) Q r.
Proof.
  intros [Hf _] Hs HQ. unfold connect_broker. case_goal; [apply wp_ret; eauto using trace_refl|].
  apply wp_bind, wp_bind. eapply rask_spec; [done|]. intros n r1 Hs1.
  apply wp_bind. eapply meet_spec; [done|apply Hf|]. intros A' r2 Ht Hs2.
  eapply rask_spec; [done|]. intros m r3 Hs3. apply wp_ret. eauto.
Qed.

Lemma helper_spec entry tok cid pkgs A r (Q : helper_outcome → reactor → Prop) :
  peers_fit → in_session (rt_sys r) A →
  (∀ ho A' r', trace A A' → in_session (rt_sys r') A' → Q ho r') →
  wp (invoke_helper entry tok cid pkgs) Q r.
Proof.
  intros [_ Hf] Hs HQ. unfold invoke_helper.
  destruct (helper_request _ _ _) as [req|]; [|apply wp_ret; eauto using trace_refl].
  apply wp_bind, wp_bind. eapply rask_spec; [done|]. intros n r1 Hs1.
  specialize (Hf n entry (bs req)). destruct (k_child n entry (bs req)) as [reqs run].
  apply wp_bind. eapply meet_spec; [done|exact Hf|]. intros A' r2 Ht Hs2. apply wp_ret.
  destruct (run_helper run (bs req)) as [out rc]. apply wp_ret. eauto.
Qed.

(** The daemon's answer to a parsed request. *)
Lemma reply_spec body q A r (Q : option string → reactor → Prop) :
  rab_parse_request body = inl q → request_fits (me, q) → in_session (rt_sys r) A →
  (∀ resp A' o r', evolves me q A resp A' → in_session (rt_sys r') A' →
     (∀ text, o = Some text → ∃ resp', render resp' = Some text ∧ (resp' = resp ∨ is_error resp')) →
     Q o r') →
  wp (conn_reply me body) Q r.
Proof.
  intros Hp Hfit Hs HQ. unfold conn_reply. rewrite Hp. apply wp_bind.
  unfold call_broker, zoom, wp at 1.
  pose proof (handle_in_session (rt_sys r) A me q Hsteady Hmints Hs Hfit) as Hh. unfold wp in Hh.
  destruct (rab_broker_handle me q (rt_sys r)) as [resp s']. destruct Hh as (A' & Hev & Hs' & _).
  cbn in *. apply wp_bind. eapply rask_spec; [exact Hs'|]. intros n r1 Hs1.
  destruct (if l_ok n then render resp else None) as [t|] eqn:Hr.
  - apply wp_ret. eapply HQ; [done|done|]. intros text [= <-]. exists resp.
    destruct (l_ok n); [|done]. auto.
  - apply wp_bind. eapply rask_spec; [done|]. intros m r2 Hs2. apply wp_ret.
    eapply HQ; [done|done|]. intros text Ht. destruct (l_ok m); [|done].
    exists (RespError "internal" "handler failure"). split; [done|]. right. by eexists _, _.
Qed.

(** The client reads nothing, or what the daemon sent. *)
Lemma read_reply_spec alloc script o :
  payload script `prefix_of` response_frame o →
  read_reply alloc script = None ∨
  ∃ text kvs, o = Some text ∧ json_loadb (bs text) = Some (JObject kvs) ∧
              read_reply alloc script = Some (JObject kvs).
Proof.
  intros Hp. unfold read_reply. destruct (rab_read_frame alloc script) as [st rest] eqn:Hr. cbn [fst].
  destruct st as [rbody| | | | |]; try (by left).
  assert (Hne : ∀ b : bytes, response_frame o = [] → False).
  { intros _ He. rewrite He in Hp. apply prefix_nil_inv in Hp. by apply read_frame_empty in Hr. }
  destruct o as [text|]; [|by destruct (Hne [])]. unfold response_frame in *. case_hyp Hp; bool_hyps.
  { by destruct (Hne []). }
  apply (read_frame_within _ _ text) in Hr as ->; [|done|done].
  destruct (json_loadb (bs text)) as [[]|] eqn:Hl; eauto 10.
Qed.

(** One exchange: nothing arrived, or the request was served and what came back,
    if anything, is the broker's response or an error. *)
Lemma rpc_spec text q A r (Q : jptr → reactor → Prop) :
  honest_sockets → rab_parse_request (bs text) = inl q → request_fits (me, q) →
  in_session (rt_sys r) A →
  (∀ r', in_session (rt_sys r') A → Q None r') →
  (∀ resp A' o r', evolves me q A resp A' → in_session (rt_sys r') A' →
     o = None ∨ (∃ kvs resp', o = Some (JObject kvs) ∧ reply_of resp' kvs ∧
                              (resp' = resp ∨ is_error resp')) → Q o r') →
  wp (rpc text) Q r.
Proof.
  intros Hsock Hparse Hfit Hs Hnone Hsome. unfold rpc. apply wp_bind. eapply rask_spec; [done|].
  intros n r1 Hs1. destruct (rab_write_frame _ _ (bs text)) as [sent ok] eqn:Hw.
  apply wp_bind, wp_bind. eapply rask_spec; [done|]. intros m r2 Hs2. destruct ok.
  - apply write_frame_bytes in Hw as [Hlen ->].
    assert (Hbl : blen (bs text) = strlen text) by (unfold blen, strlen; by rewrite bs_length).
    rewrite Hbl in *. rewrite (decode_framed text) by done. apply wp_bind.
    eapply reply_spec; [done|done|done|]. intros resp A' o r3 Hev Hs3 Ho. apply wp_ret. cbn [negb].
    apply wp_bind. eapply rask_spec; [done|]. intros k r4 Hs4. apply wp_ret.
    eapply Hsome; [done|done|].
    destruct (read_reply_spec (k_alloc k) (k_socket m (response_frame o)) o (Hsock _ _))
      as [Hno|(t & kvs & -> & Hload & ->)]; [by left|right].
    destruct (Ho _ eq_refl) as (resp' & Hren & Hor).
    destruct (render_reply _ _ Hren) as (kvs' & Hload' & Hrep). exists kvs, resp'.
    assert (kvs' = kvs) as -> by congruence. done.
  - assert (Hd : ∀ b, decode_frame sent ≠ RAB_FRAME_OK b) by (intros b; by eapply write_frame_partial).
    destruct (decode_frame sent) as [b| | | | |]; [by destruct (Hd b)|..];
      by apply wp_ret, wp_ret, Hnone.
Qed.

(** The outcome was persisted: it closed an intent that this process opened with
    the binding, and a claimed effect had its receipt redeemed. *)
Definition outcome_done (A A' : gmap string intent) (binding : string) (eff : bool) : Prop :=
  ∃ A1 q c it, trace A A1 ∧ evolves me q A1 RespOutcomeOk (delete c A1) ∧ A1 !! c = Some it ∧
    it_binding it = binding ∧ it_actor it = me ∧
    (eff = true → ∀ rc, it_rcpt it = Some rc → rc_state rc = RAB_RCPT_REDEEMED) ∧
    trace (delete c A1) A'.

Lemma write_outcome_spec sock binding verb resource status detail eff A r :
  honest_sockets → peers_fit → actor_ok me → in_session (rt_sys r) A →
  strlen binding < RAB_BINDING_STR_MAX → strlen verb < RAB_META_MAX → strlen resource < RAB_META_MAX →
  wp (write_outcome sock binding verb resource status detail eff)
     (λ ok r', ∃ A', trace A A' ∧ in_session (rt_sys r') A' ∧
        (ok = true → outcome_done A A' binding eff)) r.
Proof.
  intros Hsock Hpf Hme Hs Hbl Hv Hrs. unfold write_outcome. apply wp_bind.
  eapply connect_spec; [done|done|]. intros ok A1 r1 Ht1 Hs1. destruct ok; cbn [negb]; [|apply wp_ret; by exists A1].
  destruct (outcome_request _ _ _ _ _ _) as [ob|] eqn:Hob; [|apply wp_ret; by exists A1].
  pose proof (outcome_request_parsed _ _ _ _ _ _ _ Hbl Hob) as Hp. apply wp_bind.
  eapply rpc_spec; [done|exact Hp| |exact Hs1| |].
  - split; [done|]. cbn [snd]. eapply parsed_servable; [exact Hp|]. by eapply (driver_small _ _ verb resource).
  - intros r2 Hs2. apply wp_ret. by exists A1.
  - intros resp A2 o r2 Hev Hs2 Ho. apply wp_ret. exists A2.
    split_and!; [eapply trace_trans; [done|by eapply trace_step]|done|]. intros Hok.
    destruct Ho as [->|(kvs & resp' & -> & Hrep & Hor)]; [done|].
    unfold outcome_reply_ok in Hok. bool_hyps.
    assert (Hne : ∀ x, is_error x → ¬ reply_of x kvs).
    { intros x (code & msg & ->) Hx. apply error_not_ok in Hx. congruence. }
    destruct Hor as [->|He]; [|by destruct (Hne _ He)].
    destruct Hev as [r0 He| | | | |r0 c it Hr0 _ HA Hb Ha Hg| |]; try done; [by destruct (Hne _ He)|].
    destruct Hr0 as [->|He]; [|by destruct (Hne _ He)].
    match type of Hp with _ = inl ?q => exists A1, q, c, it end. split_and!; [done| |done|done|done| |apply trace_refl].
    + eapply ev_outcome; [by left|done..].
    + intros -> rc Hrc. unfold effect_gate in Hg. rewrite Hrc in Hg. cbn in Hg.
      by destruct (rc_state rc).
Qed.

(** The whole lifecycle. *)
Definition lifecycle_done (A A' : gmap string intent) (verb resource cid : string) (eff : bool)
  : Prop :=
  ∃ A1 q binding tok A2, trace A A1 ∧
    evolves me q A1 (RespOpenOk cid binding "system" (Some tok)) A2 ∧
    rq_record q = Some (JObject (open_record verb resource)) ∧ outcome_done A2 A' binding eff.

(** Where a run stands: in session, and done if it says so. *)
Definition run_post (A : gmap string intent) (done_if : gmap string intent → verdict → Prop)
    (v : verdict) (r' : reactor) : Prop :=
  ∃ A', trace A A' ∧ in_session (rt_sys r') A' ∧ done_if A' v.

Lemma finish_spec sock verb resource cid binding ho rep A r :
  honest_sockets → peers_fit → actor_ok me → in_session (rt_sys r) A →
  strlen binding < RAB_BINDING_STR_MAX → strlen verb < RAB_META_MAX → strlen resource < RAB_META_MAX →
  wp (finish sock verb resource cid binding ho rep)
     (run_post A (λ A' v, ∀ c st dt eff rp, v = V_DONE c st dt eff rp →
                          c = cid ∧ outcome_done A A' binding eff)) r.
Proof.
  intros. unfold finish. apply wp_bind. eapply wp_mono; [by apply write_outcome_spec|].
  intros ok r' (A' & Ht & Hs & Hok). apply wp_ret. exists A'. split_and!; [done|done|].
  intros c st dt eff rp Hv. destruct ok; [|done]. injection Hv as <- _ _ <- _. auto.
Qed.

Lemma outcome_done_later A A1 A' binding eff :
  trace A A1 → outcome_done A1 A' binding eff → outcome_done A A' binding eff.
Proof.
  intros Ht (A2 & q & c & it & Ht2 & Hrest). exists A2, q, c, it. split; [by eapply trace_trans|done].
Qed.

Lemma lifecycle_spec replay sock verb resource entry pkgs cid binding tok A r :
  honest_sockets → peers_fit → actor_ok me → in_session (rt_sys r) A →
  strlen binding < RAB_BINDING_STR_MAX → strlen verb < RAB_META_MAX → strlen resource < RAB_META_MAX →
  wp (lifecycle replay sock verb resource entry pkgs cid binding tok)
     (run_post A (λ A' v, ∀ c st dt eff rp, v = V_DONE c st dt eff rp →
                          c = cid ∧ outcome_done A A' binding eff)) r.
Proof.
  intros Hsock Hpf Hme Hs Hbl Hv Hrs. unfold lifecycle. apply wp_bind.
  eapply helper_spec; [done|done|]. intros ho A1 r1 Ht1 Hs1.
  assert (Hopen : ∀ B r', trace A B → in_session (rt_sys r') B →
            run_post A (λ A' v, ∀ c st dt eff rp, v = V_DONE c st dt eff rp →
                          c = cid ∧ outcome_done A A' binding eff) (V_OPEN cid) r')
    by (intros B r' ? ?; by exists B).
  assert (Hfin : ∀ rep B r', trace A B → in_session (rt_sys r') B →
            wp (finish sock verb resource cid binding ho rep)
               (run_post A (λ A' v, ∀ c st dt eff rp, v = V_DONE c st dt eff rp →
                          c = cid ∧ outcome_done A A' binding eff)) r').
  { intros rep B r' HtB HsB. eapply wp_mono; [by apply finish_spec|].
    intros v r2 (A' & Ht & Hs' & Hd). exists A'. split_and!; [by eapply trace_trans|done|].
    intros c st dt eff rp Hv'. destruct (Hd _ _ _ _ _ Hv') as [-> Ho]. split; [done|].
    by eapply outcome_done_later. }
  case_goal; [case_goal; [apply wp_ret; eauto|eauto]|].
  case_goal; [apply wp_ret; eauto|]. apply wp_bind.
  eapply helper_spec; [done|done|]. intros ho2 A2 r2 Ht2 Hs2.
  assert (trace A A2) by (by eapply trace_trans).
  case_goal; [apply wp_ret; eauto|]. case_goal; [apply wp_ret; eauto|eauto].
Qed.

Lemma hex_text_hex64 s : is_hex_text s PLAN_HEX = true → is_hex64 s = true.
Proof.
  unfold is_hex_text, is_hex64, PLAN_HEX, strlen. intros Hs. bool_hyps.
  assert (Hl : String.length s = 64%nat) by lia. clear H2. revert H3.
  generalize 64%nat Hl. clear. induction s as [|c s IH]; intros n <-; simpl; [done|].
  intros. bool_hyps. apply andb_true_iff. auto.
Qed.

Lemma open_and_run_spec replay sock verb resource hash entry pkgs A r :
  honest_sockets → peers_fit → actor_ok me → in_session (rt_sys r) A →
  strlen verb < RAB_META_MAX → strlen resource < RAB_META_MAX → is_hex64 hash = true →
  wp (open_and_run replay sock verb resource hash entry pkgs)
     (run_post A (λ A' v, ∀ c st dt eff rp, v = V_DONE c st dt eff rp →
                          lifecycle_done A A' verb resource c eff)) r.
Proof.
  intros Hsock Hpf Hme Hs Hv Hrs Hhash. unfold open_and_run. apply wp_bind.
  eapply connect_spec; [done|done|]. intros ok A1 r1 Ht1 Hs1.
  destruct ok; cbn [negb]; [|apply wp_ret; by exists A1].
  destruct (open_request _ _ _) as [ob|] eqn:Hob; [|apply wp_ret; by exists A1].
  pose proof (open_request_parsed _ _ _ _ Hhash Hob) as Hp. apply wp_bind.
  match type of Hp with _ = inl ?x => set (q := x) in * end.
  eapply (rpc_spec ob q); [done|exact Hp| |exact Hs1| |].
  { split; [done|]. eapply parsed_servable; [exact Hp|]. by eapply (driver_small _ _ verb resource). }
  { intros r2 Hs2. apply wp_ret. by exists A1. }
  intros resp A2 o r2 Hev Hs2 Ho.
  assert (Ht2 : trace A A2) by (eapply trace_trans; [done|by eapply trace_step]).
  case_goal; [apply wp_ret; by exists A2|]. bool_hyps.
  destruct (open_reply o) as [[[cid binding] tok]|] eqn:Hrep; [|apply wp_ret; by exists A2].
  destruct Ho as [->|(kvs & resp' & -> & Hr & Hor)]; [done|].
  assert (Hne : ∀ x, is_error x → ¬ reply_of x kvs).
  { intros x (code & msg & ->) Hx. apply error_not_ok in Hx. congruence. }
  destruct Hor as [->|He]; [|by destruct (Hne _ He)].
  assert (∃ sc, resp = RespOpenOk cid binding sc (Some tok) ∧ sc = "system") as (sc & -> & ->).
  { pose proof Hev as Hev'. destruct Hev as [r0 He| |kvs0 c b0|kvs0 c b0 tk rc|r0 ? ? ? ? He| | |]; try done;
      try (by destruct (Hne _ He));
      destruct (open_reply_sound _ _ _ _ _ _ _ _ Hr Hrep) as (-> & -> & Htok); try done;
      injection Htok as ->; eauto. }
  assert (Hbl : strlen binding < RAB_BINDING_STR_MAX).
  { unfold open_reply in Hrep. inv_guards Hrep. injection Hrep as -> -> ->. unfold is_hex_text in *.
    bool_hyps. unfold BIND_HEX, RAB_BINDING_STR_MAX in *. lia. }
  eapply wp_mono; [by apply (lifecycle_spec replay sock verb resource entry pkgs cid binding tok A2)|].
  intros v r3 (A3 & Ht3 & Hs3 & Hd). exists A3. split_and!; [by eapply trace_trans|done|].
  intros c st dt eff rp Hv'. destruct (Hd _ _ _ _ _ Hv') as [-> Ho].
  exists A1, q, binding, tok, A2. by split_and!.
Qed.

Lemma main_spec argv A r :
  honest_sockets → peers_fit → actor_ok me → in_session (rt_sys r) A →
  Forall (λ a, strlen a < RAB_META_MAX) argv →
  wp (main argv)
     (run_post A (λ A' v, ∀ cid st dt eff rp, v = V_DONE cid st dt eff rp →
        ∃ verb resource, verb ∈ argv ∧ resource ∈ argv ∧ lifecycle_done A A' verb resource cid eff)) r.
Proof.
  intros Hsock Hpf Hme Hs Hargs. unfold main.
  assert (Hstay : ∀ v, (∀ cid st dt eff rp, v ≠ V_DONE cid st dt eff rp) →
    run_post A (λ A' v, ∀ cid st dt eff rp, v = V_DONE cid st dt eff rp →
      ∃ verb resource, verb ∈ argv ∧ resource ∈ argv ∧ lifecycle_done A A' verb resource cid eff) v r).
  { intros v Hv. exists A. split_and!; [apply trace_refl|done|]. intros cid st dt eff rp He.
    by destruct (Hv cid st dt eff rp). }
  set (split := match argv with [] => _ | _ => _ end).
  assert (Hsub : ∀ a, a ∈ split.2 → a ∈ argv).
  { subst split. destruct argv as [|a rest]; [done|]. intros x. destruct (strcmp_eq a "--replay"); set_solver. }
  destruct split as [replay args]. cbn [snd] in Hsub.
  destruct args as [|sock [|verb [|resource [|hash pkgs]]]]; try (by apply wp_ret, Hstay).
  destruct (entrypoint_for verb) as [entry|]; [|by apply wp_ret, Hstay].
  case_goal; [by apply wp_ret, Hstay|]. case_goal; [by apply wp_ret, Hstay|]. bool_hyps.
  rewrite Forall_forall in Hargs.
  assert (Hlen : ∀ a, a ∈ sock :: verb :: resource :: hash :: pkgs → strlen a < RAB_META_MAX) by auto.
  eapply wp_mono; [apply (open_and_run_spec replay sock verb resource hash entry pkgs A); try done|].
  - apply Hlen. set_solver.
  - apply Hlen. set_solver.
  - by apply hex_text_hex64.
  - intros v r' (A' & Ht & Hs' & Hd). exists A'. split_and!; [done|done|]. intros cid st dt eff rp Hv.
    exists verb, resource. split_and!; [apply Hsub; set_solver|apply Hsub; set_solver|by eapply Hd].
Qed.
End Against.

(** ** Acknowledgements fit the driver's schema *)

Section Grammar.
Context `{JanssonLaws} `{Sha256} {E : env}.

(** Every value a computation returns satisfies [P]. *)
Definition gives {S A} (P : A → Prop) (m : M S A) : Prop := ∀ s, P (m s).1.

Lemma gives_ret {S A} (P : A → Prop) (a : A) : P a → gives (S := S) P (mreturn a).
Proof. by intros ? s. Qed.

Lemma gives_bind {S A B} (P : A → Prop) (Q : B → Prop) (m : M S A) (k : A → M S B) :
  gives P m → (∀ a, P a → gives Q (k a)) → gives Q (mbnd m k).
Proof. intros Hm Hk s. unfold mbnd. specialize (Hm s). destruct (m s) as [a s']. by apply Hk. Qed.

Lemma gives_any {S A} (m : M S A) : gives (λ _, True) m.
Proof. by intros s. Qed.

Lemma gives_next {S A B} (Q : B → Prop) (m : M S A) (k : A → M S B) :
  (∀ a, gives Q (k a)) → gives Q (mbnd m k).
Proof. intros Hk. eapply gives_bind; [apply gives_any|auto]. Qed.

(** The ids of an acknowledged open have the broker's grammar. *)
Definition well_minted (resp : response) : Prop :=
  ∀ cid bd sc r, resp = RespOpenOk cid bd sc r →
    (cid_valid cid = true ∧ utf8_valid cid = true) ∧ is_hex_lc_n bd 32 = true ∧
    ∀ tok, r = Some tok → is_hex_lc_n tok 32 = true.

Lemma well_minted_other resp :
  (∀ cid bd sc r, resp ≠ RespOpenOk cid bd sc r) → well_minted resp.
Proof. intros Hne cid bd sc r He. by destruct (Hne cid bd sc r). Qed.

Lemma string_app_split n s t :
  String.length s = n → string_take n (s +:+ t) = s ∧ string_drop n (s +:+ t) = t ∧
  String.get n (s +:+ t) = String.get 0 t.
Proof.
  revert n. induction s as [|c s IH]; intros n <-; [by destruct t|].
  destruct (IH _ eq_refl) as (H1' & H2' & H3'). change (String c s +:+ t) with (String c (s +:+ t)).
  cbn [string_take string_drop String.get String.length]. by rewrite H1', H2', H3'.
Qed.

Lemma string_drop_more n m s : string_drop (n + m) s = string_drop m (string_drop n s).
Proof. revert s. induction n as [|n IH]; intros s; [done|]. destruct s; [by destruct m|]. apply IH. Qed.

Lemma hex_text_n s n : is_hex_lc_n s n = true → is_hex_text s (Z.of_nat n) = true.
Proof.
  intros Hs. unfold is_hex_text, strlen. rewrite (is_hex_lc_n_length _ _ Hs), (is_hex_lc_n_chars _ _ Hs).
  by rewrite Z.eqb_refl.
Qed.

Lemma cid_text_valid micros rnd :
  0 ≤ micros < 10 ^ Z.of_nat 20 → length rnd = 8%nat → cid_valid (cid_text micros rnd) = true.
Proof.
  intros Hm Hr. unfold cid_valid. rewrite cid_text_length by done. unfold cid_text.
  assert (Hl : String.length (print_u_pad 20 micros) = 20%nat) by (apply print_u_pad_length; lia).
  destruct (string_app_split 20 _ ("-" +:+ to_hex rnd) Hl) as (Ht & Hd & Hg).
  rewrite Ht, Hg, print_u_pad_digits by lia. change 21%nat with (20 + 1)%nat.
  rewrite string_drop_more, Hd. change (string_drop 1 ("-" +:+ to_hex rnd)) with (to_hex rnd).
  assert (Hh : is_hex_lc_n (to_hex rnd) 16 = true)
    by (pose proof (to_hex_grammar rnd) as Hx; by rewrite Hr in Hx).
  apply hex_text_n in Hh. change (Z.of_nat 16) with 16 in Hh. by rewrite Hh.
Qed.

Lemma gives_mint_cid :
  gives (λ o, ∀ c, o = Some c → cid_valid c = true ∧ utf8_valid c = true) mint_cid.
Proof.
  unfold mint_cid. apply gives_next. intros ts. apply gives_next. intros rnd. apply gives_ret.
  intros c Hc. apply make_cid_Some in Hc as (t & r & _ & Hr & -> & _).
  split; [apply cid_text_valid; [apply micros_range|done]|apply utf8_cid, micros_range].
Qed.

Lemma gives_mint_binding : gives (λ o, ∀ c, o = Some c → is_hex_lc_n c 32 = true) mint_binding.
Proof.
  unfold mint_binding. apply gives_next. intros rnd. apply gives_ret. intros c. apply make_binding_Some.
Qed.

Definition issues_hex (ir : issue_result) : Prop :=
  match ir with ISSUE_OK tok => is_hex_lc_n tok 32 = true | _ => True end.

Ltac gives_tac :=
  repeat first
  [ match goal with |- gives _ (mreturn _) => apply gives_ret end
  | match goal with |- gives _ (error _ _) => apply gives_ret end
  | match goal with |- gives _ (mbnd _ _) => apply gives_next; intros ? end
  | match goal with |- gives _ (match ?x with _ => _ end) => destruct x eqn:? end
  | progress cbv zeta ].

Lemma gives_mint_token n bd :
  gives (λ o, ∀ tok v, o = Some (tok, v) → is_hex_lc_n tok 32 = true) (mint_token n bd).
Proof.
  induction n as [|n IH]; cbn [mint_token]; gives_tac; try done.
  all: intros tok v [= <- <-]; by eapply make_receipt_Some.
Qed.

Lemma gives_issue c s h : gives issues_hex (rab_broker_issue_receipt c s h).
Proof.
  unfold rab_broker_issue_receipt. apply gives_next. intros b.
  destruct (b_poisoned b); [by apply gives_ret|]. destruct (negb _); [by apply gives_ret|].
  destruct (open_find_cid _ _) as [p|]; [|by apply gives_ret].
  destruct (o_heap _ !! p) as [it|]; [|by apply gives_ret].
  destruct (has_receipt it); [by apply gives_ret|]. apply gives_next. intros free.
  destruct (negb free); [by apply gives_ret|]. apply gives_next. intros [bt|]; [|by apply gives_ret].
  apply gives_next. intros [boot|]; [|by apply gives_ret].
  eapply gives_bind; [apply gives_mint_token|]. intros [[tok v]|] Hm; [|by apply gives_ret].
  pose proof (Hm _ _ eq_refl) as Htok. unfold issue_commit. gives_tac; try done. by case_goal.
Qed.

Lemma gives_open actor q : gives well_minted (handle_open actor q).
Proof.
  assert (Herr : ∀ S code msg, gives (S := S) well_minted (mreturn (RespError code msg)))
    by (intros; by apply gives_ret, well_minted_other).
  unfold handle_open. case_goal; [apply Herr|]. do 2 (apply gives_next; intros ?).
  case_goal; [apply Herr|]. apply gives_next; intros ?. case_goal; [apply Herr|].
  apply gives_next; intros [u|]; [|apply Herr]. case_goal; [apply Herr|].
  apply gives_next; intros ?. case_goal; [apply Herr|].
  eapply gives_bind; [apply gives_mint_cid|]. intros [cid|] Hc; [|apply Herr].
  eapply gives_bind; [apply gives_mint_binding|]. intros [bd|] Hb; [|apply Herr].
  destruct (Hc _ eq_refl) as [Hc1 Hc2]. specialize (Hb _ eq_refl). unfold open_commit. apply gives_next; intros ?.
  apply gives_next; intros [line|]; [|apply Herr]. do 3 (apply gives_next; intros ?; try (case_goal; [apply Herr|])).
  do 3 (apply gives_next; intros ?). case_goal; [apply Herr|]. case_goal.
  - unfold open_effect. eapply gives_bind; [apply gives_issue|]. intros [tok| |] Hi; [|apply Herr..].
    apply gives_ret. intros ? ? ? ? [= <- <- <- <-]. split_and!; [done..|]. by intros ? [= <-].
  - apply gives_ret. intros ? ? ? ? [= <- <- <- <-]. by split_and!.
Qed.

Lemma gives_handle actor q : gives well_minted (rab_broker_handle actor q).
Proof.
  unfold rab_broker_handle. apply gives_next. intros b. case_goal; [by apply gives_ret, well_minted_other|].
  destruct (rq_type q); [apply gives_open|..].
  all: unfold handle_outcome, handle_emit, handle_capabilities, handle_redeem, outcome_commit,
    emit_commit; gives_tac; apply well_minted_other; try done.
  intros ? ? ? ?. by destruct a0.
Qed.
End Grammar.

(** ** Properties *)

Section Properties.
Context `{JanssonLaws} `{Sha256} {E : env} {L : loop_env} {C : client_env}.

(** The members of a parsed effect acknowledgement. *)
Lemma open_reply_complete cid bd tok kvs :
  reply_of (RespOpenOk cid bd "system" (Some tok)) kvs → cid_valid cid = true →
  is_hex_lc_n bd 32 = true → is_hex_lc_n tok 32 = true → tok ≠ bd → utf8_valid cid = true →
  reply_ok (Some (JObject kvs)) = true ∧ reply_persisted (Some (JObject kvs)) = true ∧
  open_reply (Some (JObject kvs)) = Some (cid, bd, tok).
Proof.
  intros (kvs0 & [= <-] & Hlen & Hm) Hc Hb Ht Hne Hu.
  assert (utf8_valid "system" = true) as Hsys by (by apply utf8_ascii).
  unfold put, json_string in Hlen, Hm.
  rewrite Hsys, Hu, (utf8_hex _ _ Hb), (utf8_hex _ _ Ht) in Hlen, Hm.
  pose proof (Hm "ok") as H1'. pose proof (Hm "persisted") as H2'.
  pose proof (Hm "correlation_id") as H3'. pose proof (Hm "binding") as H4'.
  pose proof (Hm "effect_receipt") as H5'. pose proof (Hm "audit_scope") as H6'. clear Hm.
  cbn in H1', H2', H3', H4', H5', H6', Hlen.
  unfold reply_ok, reply_persisted, open_reply, reply_str, get_string, obj_exact_keys,
    json_object_size, json_object_get. cbn [json_members json_is_object].
  rewrite H3', H4', H5', H6', Hlen. cbn [forallb]. rewrite H1', H2', H3', H4', H5', H6', Hc.
  apply hex_text_n in Hb, Ht. change (Z.of_nat 32) with 32 in Hb, Ht.
  unfold BIND_HEX, RCPT_HEX. rewrite Hb, Ht. unfold strcmp_eq.
  rewrite (proj2 (String.eqb_neq bd tok)) by congruence. done.
Qed.

(** C17. The driver understands the broker: whatever request is answered with an
    effect acknowledgement, its rendered text, read back, passes the driver's exact
    reply schema and yields the correlation id, binding and receipt that were
    issued, so an acknowledged open is never abandoned for its reply's shape. *)
Theorem acknowledgement_accepted s A actor q :
  steady → distinct_mints → in_session s A → request_fits (actor, q) →
  wp (rab_broker_handle actor q)
     (λ resp _, ∀ cid bd sc tok text, resp = RespOpenOk cid bd sc (Some tok) → render resp = Some text →
        ∃ kvs, json_loadb (bs text) = Some (JObject kvs) ∧ reply_ok (Some (JObject kvs)) = true ∧
          reply_persisted (Some (JObject kvs)) = true ∧
          open_reply (Some (JObject kvs)) = Some (cid, bd, tok)) s.
Proof.
  intros Hst Hd Hs Hf. eapply wp_mono;
    [apply (wp_given _ (λ resp _, well_minted resp)); [exact (gives_handle actor q s)|]|].
  - eapply wp_mono; [by eapply handle_in_session|]. intros resp s' (A' & Hev & _) Hw.
    exact (conj Hw (ex_intro (λ A', evolves actor q A resp A') A' Hev)).
  - cbv beta. intros resp s' [Hw (A' & Hev)] cid bd sc tok text -> Hren.
    destruct (Hw _ _ _ _ eq_refl) as ((Hc & Hu) & Hb & Ht). specialize (Ht _ eq_refl).
    destruct (render_reply _ _ Hren) as (kvs & Hl & Hrep). exists kvs. split; [done|].
    assert (Hne : ¬ is_error (RespOpenOk cid bd sc (Some tok))) by (by intros (? & ? & ?)).
    inversion Hev as [| | |? ? ? ? ? _ _ _ _ (_ & _ & _ & Htb & _)| |? ? ? Hr| |? ? ? ? ? Hr];
      subst; try done; [by apply open_reply_complete|..]; by destruct Hr.
Qed.

(** C6. Exit status 0 means the operation is on record: run against the daemon, with
    other peers and the helper making requests in between and every exchange possibly
    cut short, the broker stays in session; and if the driver exits 0, then it had
    the operation it names opened with the correlation id it reports and a receipt,
    its outcome closed an intent with that binding which this very process opened,
    and if it reports the effect as issued, that intent's receipt was redeemed by
    then. *)
Theorem exit_zero_means_closed me argv A r :
  steady → distinct_mints → honest_sockets → peers_fit → actor_ok me → in_session (rt_sys r) A →
  Forall (λ a, strlen a < RAB_META_MAX) argv →
  wp (@main _ reactor (daemon_side me) argv)
     (λ v r', ∃ A', trace A A' ∧ in_session (rt_sys r') A' ∧
        (exit_code v = 0 →
           ∃ cid st dt eff rp verb resource, v = V_DONE cid st dt eff rp ∧ verb ∈ argv ∧
             resource ∈ argv ∧ lifecycle_done me A A' verb resource cid eff)) r.
Proof.
  intros Hst Hd Hsock Hpf Hme Hs Hargs. eapply wp_mono; [by apply main_spec|].
  intros v r' (A' & Ht & Hs' & Hdone). exists A'. split_and!; [done|done|]. intros Hz.
  destruct v as [| | |cid st dt eff rp]; try done.
  destruct (Hdone _ _ _ _ _ eq_refl) as (verb & resource & Hx). by exists cid, st, dt, eff, rp, verb, resource.
Qed.
End Properties.

(** ** A run

    A helper that redeems the receipt it is handed and reports success. *)

#[local] Existing Instance BitJansson.
#[local] Existing Instance pad_sha.
#[local] Existing Instance demo_env.
#[local] Existing Instance demo_loop.

Definition helper_member (req : bytes) (k : string) : string := json_string_value (json_object_get (json_loadb req) k).

Definition demo_helper_reqs (req : bytes) : list (rab_actor * rab_request) :=
  [(root_peer, Request RAB_REQ_REDEEM "" "" false 0 "" (helper_member req "effect_receipt") 1000
                 "apt.hold" "nginx" 1 zeros64 None)].

Definition demo_helper_out (req : bytes) : bytes :=
  bs (bit_dump (JObject [("status", JString "ok"); ("effect_issued", JBool true);
                         ("correlation_id", JString (helper_member req "correlation_id"));
                         ("detail", JString "held")])).

Definition demo_instant : option timespec := Some (Timespec 1 0).

#[local] Instance demo_client : client_env :=
  ClientEnv (λ _, Some 0) (λ _, []) (λ _, ([], [])) (λ _ b, [RdData b]) (λ _, true)
    (λ _ _ req,
       (demo_helper_reqs req,
        HelperRun demo_instant true true true [(demo_instant, PollReady, WDBytes (length req))] true
          (replicate 32 (ReadTick demo_instant PollReady true)) [RdData (demo_helper_out req)]
          (Some 0))).

Definition demo_argv : list string := ["/run/audit.sock"; "apt.hold"; "nginx"; zeros64].
Definition demo_reactor : reactor := Reactor 0 demo_s0 [] 0 [].

Definition demo_driver : verdict * reactor :=
  @main _ reactor (daemon_side alice) demo_argv demo_reactor.

(** The driver exits 0 and reports the effect. *)
Lemma demo_driver_done :
  exit_code demo_driver.1 = 0 ∧
  match demo_driver.1 with V_DONE _ st _ eff _ => (st, eff) = ("ok", true) | _ => False end.
Proof. vm_compute. by split. Qed.

Lemma demo_honest : honest_sockets.
Proof. intros n b. cbn. rewrite app_nil_r. done. Qed.

Lemma demo_peers_fit : peers_fit.
Proof.
  split; [by constructor|]. intros n e req. constructor; [|constructor].
  split; [apply actor_ok_root|done].
Qed.

Lemma exit_zero_means_closed_witness :
  ∃ A' cid st dt eff rp verb resource, demo_driver.1 = V_DONE cid st dt eff rp ∧
    lifecycle_done alice ∅ A' verb resource cid eff.
Proof.
  pose proof (exit_zero_means_closed alice demo_argv ∅ demo_reactor demo_steady demo_mints demo_honest
                demo_peers_fit actor_ok_alice demo_in_session
                ltac:(repeat (constructor; [done|]); constructor)) as Hx.
  unfold wp in Hx. change (main demo_argv demo_reactor) with demo_driver in Hx.
  destruct demo_driver_done as [Hz _]. destruct demo_driver as [v r'].
  destruct Hx as (A' & _ & _ & Hd).
  destruct (Hd Hz) as (cid & st & dt & eff & rp & verb & resource & Hv & _ & _ & Hl).
  by exists A', cid, st, dt, eff, rp, verb, resource.
Defined.

(** The answer to the demo open. *)
Definition demo_answer : response := (rab_broker_handle alice demo_open demo_s0).1.

Lemma acknowledgement_accepted_witness :
  ∃ cid bd sc tok text kvs, demo_answer = RespOpenOk cid bd sc (Some tok) ∧
    render demo_answer = Some text ∧ json_loadb (bs text) = Some (JObject kvs) ∧
    open_reply (Some (JObject kvs)) = Some (cid, bd, tok).
Proof.
  pose proof (acknowledgement_accepted demo_s0 ∅ alice demo_open demo_steady demo_mints demo_in_session
                (alice_fits demo_open false ltac:(done) ltac:(by left))) as Hx.
  unfold wp in Hx. fold demo_answer in Hx.
  assert (Hr : ∃ cid bd sc tok text, demo_answer = RespOpenOk cid bd sc (Some tok) ∧
                 render demo_answer = Some text)
    by (vm_compute; do 5 eexists; split; reflexivity).
  destruct Hr as (cid & bd & sc & tok & text & Ha & Ht).
  destruct (Hx _ _ _ _ _ Ha Ht) as (kvs & Hl & _ & _ & Ho).
  exists cid, bd, sc, tok, text, kvs. exact (conj Ha (conj Ht (conj Hl Ho))).
Defined.
